(** * Block-level markdown parser (markdown/parser/block.go): a shallow embedding

    The Go source works on byte slices with integer cursors.  Bytes and
    Go [int]s are modelled as [Z]; slices as [list Z]; a [string] that is
    ranged over rune by rune as the list of its runes. *)

From Stdlib Require Import ZArith List Bool Lia.
From Stdlib Require String Ascii.
Import String.StringSyntax.
Delimit Scope string_scope with string.
Import ListNotations.
Open Scope Z_scope.
Set Warnings "-notation-for-abbreviation".

(** ** Runes and the Unicode predicates used by [sanitizeHeadingID] *)

Definition rune := Z.

Definition hyphen : rune := 45.

(** The literal ["empty"]. *)
Definition str_empty : list rune := [101; 109; 112; 116; 121].

Section Sanitize.
(** [unicode.IsLetter], [unicode.IsNumber] and [unicode.ToLower] belong to
    the Go standard library; they are parameters here. *)
Variable IsLetter IsNumber : rune -> bool.
Variable ToLower : rune -> rune.

(** One iteration of [for _, r := range text], on the pair
    [(anchorName, futureDash)]. *)
Definition sanitize_step (st : list rune * bool) (r : rune) : list rune * bool :=
  let '(anchorName, futureDash) := st in
  if IsLetter r || IsNumber r then
    let anchorName :=
      if futureDash && (0 <? Z.of_nat (length anchorName))
      then anchorName ++ [hyphen] else anchorName in
    (anchorName ++ [ToLower r], false)
  else (anchorName, true).

Definition sanitizeHeadingID (text : list rune) : list rune :=
  let '(anchorName, _) := fold_left sanitize_step text ([], false) in
  if Z.of_nat (length anchorName) =? 0 then str_empty else anchorName.

(** A rune the loop may emit for a letter or number: it is one itself and
    lower-casing leaves it alone. *)
Definition lowered (c : rune) : Prop :=
  IsLetter c || IsNumber c = true /\ ToLower c = c.

(** Anchors: non-empty words of lowered runes separated by single hyphens. *)
Inductive anchor : list rune -> Prop :=
| anchor_one c : lowered c -> anchor [c]
| anchor_cons c a : lowered c -> anchor a -> anchor (c :: a)
| anchor_sep c a : lowered c -> anchor a -> anchor (c :: hyphen :: a).
End Sanitize.

(** Two hyphens next to each other somewhere in [s]. *)
Fixpoint double_hyphen (s : list rune) : bool :=
  match s with
  | x :: (y :: _) as t => ((x =? hyphen) && (y =? hyphen)) || double_hyphen t
  | _ => false
  end.

(** An ASCII-only instance of the three Unicode functions. *)
Definition ascii_IsLetter (r : rune) : bool :=
  ((65 <=? r) && (r <=? 90)) || ((97 <=? r) && (r <=? 122)).
Definition ascii_IsNumber (r : rune) : bool := (48 <=? r) && (r <=? 57).
Definition ascii_ToLower (r : rune) : rune :=
  if (65 <=? r) && (r <=? 90) then r + 32 else r.

(** A letter without case: U+65E5, a CJK unified ideograph (the sign for
    "day"; general category Lo). *)
Definition ideograph : rune := 26085.

(** The rows of the Unicode tables for ASCII and for the CJK unified
    ideographs U+4E00 to U+9FA5, all of category Lo: [unicode.IsLetter]
    holds of them, [unicode.IsLower] (category Ll) and [unicode.IsDigit]
    (category Nd) do not, and [unicode.ToLower] leaves them as they are. *)
Definition cjk_IsLetter (r : rune) : bool :=
  ascii_IsLetter r || ((19968 <=? r) && (r <=? 40869)).
Definition cjk_IsLower (r : rune) : bool := (97 <=? r) && (r <=? 122).
Definition cjk_IsDigit (r : rune) : bool := (48 <=? r) && (r <=? 57).

(** "Hello, World!" as runes. *)
Definition hello_world : list rune :=
  [72; 101; 108; 108; 111; 44; 32; 87; 111; 114; 108; 100; 33].

(** ** Byte slices and cursors *)

Definition byte := Z.
Definition bytes := list byte.

Definition len (data : bytes) : Z := Z.of_nat (length data).

(** [len] of a slice of nodes. *)
Definition len_nat (l : list nat) : Z := Z.of_nat (length l).

(** [data[i]] for an index the source has compared with [len(data)] before
    (outside the slice the value is irrelevant and read as 0). *)
Definition at_ (data : bytes) (i : Z) : byte := nth (Z.to_nat i) data 0.
Notation "d .[ i ]" := (at_ d i) (at level 1, left associativity, format "d .[ i ]").

(** [data[i]] where the source does not check the index: out of range is a
    run-time panic. *)
Definition index (data : bytes) (i : Z) : option byte :=
  if (0 <=? i) && (i <? len data) then Some data.[i] else None.

(** [data[a:]], [data[:b]] and [data[a:b]]. *)
Definition from (data : bytes) (a : Z) : bytes := skipn (Z.to_nat a) data.
Definition upto (data : bytes) (b : Z) : bytes := firstn (Z.to_nat b) data.
Definition slice (data : bytes) (a b : Z) : bytes := upto (from data a) (b - a).

(** A byte string written as a Rocq string, with the escapes [\n], [\t]
    and [\\]. *)
Fixpoint bs_chars (l : list Ascii.ascii) : bytes :=
  match l with
  | [] => []
  | c :: l' =>
      let v := Z.of_N (Ascii.N_of_ascii c) in
      if v =? 92 then
        match l' with
        | d :: l'' =>
            let w := Z.of_N (Ascii.N_of_ascii d) in
            (if w =? 110 then 10 else if w =? 116 then 9 else w) :: bs_chars l''
        | [] => [v]
        end
      else v :: bs_chars l'
  end.
Definition bs (s : String.string) : bytes := bs_chars (String.list_ascii_of_string s).
Arguments bs s%_string.

Definition nl : byte := 10.       (* '\n' *)
Definition tab : byte := 9.       (* '\t' *)
Definition sp : byte := 32.       (* ' ' *)
Definition c_hash : byte := 35.   (* '#' *)
Definition c_dollar : byte := 36.
Definition c_percent : byte := 37.
Definition c_rparen : byte := 41. (* ')' *)
Definition c_star : byte := 42.
Definition c_plus : byte := 43.
Definition c_minus : byte := 45.
Definition c_dot : byte := 46.
Definition c_slash : byte := 47.
Definition c_0 : byte := 48.
Definition c_9 : byte := 57.
Definition c_colon : byte := 58.
Definition c_lt : byte := 60.
Definition c_eq : byte := 61.
Definition c_gt : byte := 62.
Definition c_backslash : byte := 92.
Definition c_underscore : byte := 95.
Definition c_backtick : byte := 96.
Definition c_lbrace : byte := 123.
Definition c_rbrace : byte := 125.
Definition c_tilde : byte := 126.

(** [for cond(i) { i++ }], at most [fuel] times. *)
Fixpoint advance (fuel : nat) (cond : Z -> bool) (i : Z) : Z :=
  match fuel with
  | O => i
  | S f => if cond i then advance f cond (i + 1) else i
  end.

(** [for cond(i) { i-- }], at most [fuel] times. *)
Fixpoint retreat (fuel : nat) (cond : Z -> bool) (i : Z) : Z :=
  match fuel with
  | O => i
  | S f => if cond i then retreat f cond (i - 1) else i
  end.

(** skipChar advances i as long as data[i] == c *)
Definition skipChar (data : bytes) (i : Z) (c : byte) : Z :=
  let n := len data in
  advance (length data) (fun i => (i <? n) && (data.[i] =? c)) i.

(** like skipChar but only skips up to max characters *)
Fixpoint skipCharN_loop (fuel : nat) (data : bytes) (i : Z) (c : byte) (max : Z) : Z :=
  match fuel with
  | O => i
  | S f =>
      if (i <? len data) && (0 <? max) && (data.[i] =? c)
      then skipCharN_loop f data (i + 1) c (max - 1) else i
  end.
Definition skipCharN (data : bytes) (i : Z) (c : byte) (max : Z) : Z :=
  skipCharN_loop (length data) data i c max.

(** skipUntilChar advances i as long as data[i] != c *)
Definition skipUntilChar (data : bytes) (i : Z) (c : byte) : Z :=
  let n := len data in
  advance (length data) (fun i => (i <? n) && negb (data.[i] =? c)) i.

Definition backChar (data : bytes) (i : Z) (c : byte) : Z :=
  retreat (Z.to_nat i) (fun i => (0 <? i) && (data.[i - 1] =? c)) i.

Definition backUntilChar (data : bytes) (i : Z) (c : byte) : Z :=
  retreat (Z.to_nat i) (fun i => (0 <? i) && negb (data.[i - 1] =? c)) i.

(** ** Line tests *)

(** The loop of [IsEmpty]; [None] is its [return 0]. *)
Fixpoint IsEmpty_loop (fuel : nat) (data : bytes) (i : Z) : option Z :=
  match fuel with
  | O => Some i
  | S f =>
      if (i <? len data) && negb (data.[i] =? nl) then
        if negb (data.[i] =? sp) && negb (data.[i] =? tab) then None
        else IsEmpty_loop f data (i + 1)
      else Some i
  end.

Definition IsEmpty (data : bytes) : Z :=
  if len data =? 0 then 0 else
  match IsEmpty_loop (length data) data 0 with
  | None => 0
  | Some i => skipCharN data i nl 1
  end.

(** returns blockquote prefix length *)
Definition quotePrefix (data : bytes) : Z :=
  let n := len data in
  let i := advance 3 (fun i => (i <? 3) && (i <? n) && (data.[i] =? sp)) 0 in
  if (i <? n) && (data.[i] =? c_gt) then
    if (i + 1 <? n) && (data.[i + 1] =? sp) then i + 2 else i + 1
  else 0.

(** blockquote ends with at least one blank line
    followed by something without a blockquote prefix *)
Definition terminateBlockquote (data : bytes) (beg end_ : Z) : bool :=
  if IsEmpty (from data beg) <=? 0 then false
  else if end_ >=? len data then true
  else (quotePrefix (from data end_) =? 0) && (IsEmpty (from data end_) =? 0).

(** returns prefix length for block code *)
Definition codePrefix (data : bytes) : Z :=
  let n := len data in
  if (n >=? 1) && (data.[0] =? tab) then 1
  else if (n >=? 4) && (data.[3] =? sp) && (data.[2] =? sp)
          && (data.[1] =? sp) && (data.[0] =? sp) then 4
  else 0.

(** returns unordered list item prefix *)
Definition uliPrefix (data : bytes) : Z :=
  let i := skipCharN data 0 sp 3 in
  if i >=? len data - 1 then 0
  else if (negb (data.[i] =? c_star) && negb (data.[i] =? c_plus)
           && negb (data.[i] =? c_minus))
          || (negb (data.[i + 1] =? sp) && negb (data.[i + 1] =? tab)) then 0
  else i + 2.

(** returns ordered list item prefix *)
Definition oliPrefix (data : bytes) : Z :=
  let n := len data in
  let i := skipCharN data 0 sp 3 in
  let start := i in
  let i := advance (length data)
             (fun i => (i <? n) && (data.[i] >=? c_0) && (data.[i] <=? c_9)) i in
  if (start =? i) || (i >=? n - 1) then 0
  else if (negb (data.[i] =? c_dot) && negb (data.[i] =? c_rparen))
          || negb ((data.[i + 1] =? sp) || (data.[i + 1] =? tab)) then 0
  else i + 2.

(** returns definition list item prefix *)
Definition dliPrefix (data : bytes) : Z :=
  if len data <? 2 then 0
  else if negb (data.[0] =? c_colon)
          || negb ((data.[1] =? sp) || (data.[1] =? tab)) then 0
  else let i := skipChar data 0 sp in i + 2.

(** ** Extension and list flags *)

(** [x&flag != 0] *)
Definition has (x flag : Z) : bool := negb (Z.land x flag =? 0).

(** Modelled from the spec: the extension flags are declared in parser.go,
    which is not among the sources; the spec (section 6 and 9) gives a bitmask
    with one independent bit per extension.  Only the bits tested in block.go
    are named. *)
Definition Tables : Z := 4.
Definition FencedCode : Z := 8.
Definition LaxHTMLBlocks : Z := 64.
Definition SpaceHeadings : Z := 128.
Definition TabSizeEight : Z := 1024.
Definition NoEmptyLineBeforeBlock : Z := 4096.
Definition HeadingIDs : Z := 8192.
Definition Titleblock : Z := 16384.
Definition AutoHeadingIDs : Z := 32768.
Definition DefinitionLists : Z := 131072.
Definition MathJax : Z := 262144.
Definition OrderedListStart : Z := 524288.
Definition Attributes : Z := 1048576.
Definition Includes : Z := 8388608.
Definition Mmark : Z := 16777216.

(** Modelled from the spec: the list flags of the ast package (not among the
    sources): list type ordered / definition, definition term, and the item
    flags "contains block content", "begins list", "ends list" of section 3,
    one bit each. *)
Definition ListTypeOrdered : Z := 1.
Definition ListTypeDefinition : Z := 2.
Definition ListTypeTerm : Z := 4.
Definition ListItemContainsBlock : Z := 8.
Definition ListItemBeginningOfList : Z := 16.
Definition ListItemEndOfList : Z := 32.

(** ** Fenced code *)

(** Equality of two strings. *)
Fixpoint bytes_eqb (a b : bytes) : bool :=
  match a, b with
  | [], [] => true
  | x :: a', y :: b' => (x =? y) && bytes_eqb a' b'
  | _, _ => false
  end.

(** Modelled from the spec: [IsSpace] is defined in parser.go (not among the
    sources); the spec speaks of interior whitespace of the brace-delimited
    language annotation. *)
Definition IsSpace (c : byte) : bool :=
  (c =? sp) || (c =? tab) || (c =? nl) || (c =? 13) || (c =? 12) || (c =? 11).

Fixpoint trim_front (fuel : nat) (data : bytes) (syntaxStart syn : Z) : Z * Z :=
  match fuel with
  | O => (syntaxStart, syn)
  | S f =>
      if (0 <? syn) && IsSpace data.[syntaxStart]
      then trim_front f data (syntaxStart + 1) (syn - 1)
      else (syntaxStart, syn)
  end.

Fixpoint trim_back (fuel : nat) (data : bytes) (syntaxStart syn : Z) : Z :=
  match fuel with
  | O => syn
  | S f =>
      if (0 <? syn) && IsSpace data.[syntaxStart + syn - 1]
      then trim_back f data syntaxStart (syn - 1)
      else syn
  end.

(** [syntaxRange(data, &i)]: the pair returned and the value left in [i]. *)
Definition syntaxRange (data : bytes) (iout : Z) : Z * Z * Z :=
  let n := len data in
  let i := iout in
  let syntaxStart := i in
  if data.[i] =? c_lbrace then
    let i := i + 1 in
    let syntaxStart := syntaxStart + 1 in
    let i' := advance (length data)
                (fun i => (i <? n) && negb (data.[i] =? c_rbrace)
                          && negb (data.[i] =? nl)) i in
    let syn := i' - i in
    if (i' >=? n) || negb (data.[i'] =? c_rbrace) then (0, 0, iout)
    else
      let '(syntaxStart, syn) := trim_front (length data) data syntaxStart syn in
      let syn := trim_back (length data) data syntaxStart syn in
      (syntaxStart, syn, i' + 1)
  else
    let i' := skipUntilChar data i nl in
    (syntaxStart, i' - i, i').

(** isFenceLine checks if there's a fence line (e.g., ``` or ``` go) at the
    beginning of data, and returns the end index if so, or 0 otherwise. It
    also returns the marker found, and the syntax it would store through a
    non-nil [syntax] pointer. *)
Definition isFenceLine (data : bytes) (oldmarker : bytes) : Z * bytes * option bytes :=
  let n := len data in
  let fail : Z * bytes * option bytes := (0, [], None) in
  let i := advance 3 (fun i => (i <? n) && (i <? 3) && (data.[i] =? sp)) 0 in
  if i >=? n then fail
  else if negb (data.[i] =? c_tilde) && negb (data.[i] =? c_backtick) then fail
  else
    let c := data.[i] in
    let i0 := i in
    let i := skipChar data i c in
    let size := i - i0 in
    if size <? 3 then fail
    else
      let marker := slice data (i - size) i in
      if negb (len oldmarker =? 0) && negb (bytes_eqb marker oldmarker) then fail
      else
        let tail (i : Z) (syntax : option bytes) :=
          let i := skipChar data i sp in
          if (i >=? n) || negb (data.[i] =? nl) then
            if i =? n then (i, marker, syntax) else fail
          else (i + 1, marker, syntax) in
        if len oldmarker =? 0 then
          let i := skipChar data i sp in
          if i >=? n then
            if i =? n then (i, marker, None) else fail
          else
            let '(syntaxStart, syntaxLen, i) := syntaxRange data i in
            if (syntaxStart =? 0) && (syntaxLen =? 0) then fail
            else tail i (Some (slice data syntaxStart (syntaxStart + syntaxLen)))
        else tail i None.

(** The scanning loop of [fencedCodeBlock]; [None] is its [return 0]. *)
Fixpoint fence_scan (fuel : nat) (data marker : bytes) (beg : Z) (work : bytes)
  : option (Z * bytes) :=
  match fuel with
  | O => None
  | S f =>
      let '(fenceEnd, _, _) := isFenceLine (from data beg) marker in
      if negb (fenceEnd =? 0) then Some (beg + fenceEnd, work)
      else
        let end_ := skipUntilChar data beg nl + 1 in
        if end_ >=? len data then None
        else fence_scan f data marker end_ (work ++ slice data beg end_)
  end.

(** [fencedCodeBlock] up to [if !doRender { return beg }]: the end index and
    the working buffer, or [None] where the source returns 0. *)
Definition fencedCodeBlock_scan (data : bytes) : option (Z * bytes) :=
  let '(beg, marker, syntax) := isFenceLine data [] in
  if (beg =? 0) || (beg >=? len data) then None
  else
    let syntax := match syntax with Some x => x | None => [] end in
    fence_scan (length data) data marker beg (syntax ++ [nl]).

(** [fencedCodeBlock(data, false)] *)
Definition fencedCodeBlock_norender (data : bytes) : Z :=
  match fencedCodeBlock_scan data with
  | Some (beg, _) => beg
  | None => 0
  end.

(** ** Ordered list start *)

(** [strconv.Atoi] of the Go standard library on a 64-bit platform, without
    its error result (block.go drops it): 0 on a syntax error, the nearest
    bound when out of range. *)
Definition is_digit (c : byte) : bool := (c_0 <=? c) && (c <=? c_9).

Definition Atoi (s : bytes) : Z :=
  let '(neg, digits) :=
    match s with
    | c :: r => if c =? c_minus then (true, r)
                else if c =? c_plus then (false, r) else (false, s)
    | [] => (false, [])
    end in
  match digits with
  | [] => 0
  | _ =>
      if forallb is_digit digits then
        let v := fold_left (fun n ch => n * 10 + (ch - c_0)) digits 0 in
        let v := if neg then - v else v in
        Z.max (- 2 ^ 63) (Z.min (2 ^ 63 - 1) v)
      else 0
  end.

(** The start number and delimiter [Block] passes to [list] for an ordered
    list whose prefix [oliPrefix] measured as [i]. *)
Definition orderedListStart (extensions : Z) (data : bytes) (i : Z) : Z * byte :=
  let start := 0 in
  let delim := c_dot in
  if i >? 2 then
    let start :=
      if has extensions OrderedListStart then
        let start := Atoi (upto data (i - 2)) in
        if start =? 1 then 0 else start
      else start in
    (start, data.[i - 2])
  else (start, delim).

(** ** Gathering a block quote *)

(** The inner loop of [quote]: step to the end of the line, swallowing a
    whole fenced code block when one starts at the cursor. *)
Fixpoint quote_line_end (fuel : nat) (extensions : Z) (data : bytes) (end_ : Z) : Z :=
  match fuel with
  | O => end_
  | S f =>
      if (end_ <? len data) && negb (data.[end_] =? nl) then
        if has extensions FencedCode
           && (fencedCodeBlock_norender (from data end_) >? 0)
        then end_ + (fencedCodeBlock_norender (from data end_) - 1)
        else quote_line_end f extensions data (end_ + 1)
      else end_
  end.

(** One turn of the outer loop of [quote], entered with [beg < len(data)]:
    whether it breaks, the new [end] and the new [raw]. *)
Definition quote_iter (extensions : Z) (data : bytes) (beg : Z) (raw : bytes)
  : bool * Z * bytes :=
  let end_ := quote_line_end (length data) extensions data beg in
  let end_ := skipCharN data end_ nl 1 in
  let pre := quotePrefix (from data beg) in
  if pre >? 0 then (false, end_, raw ++ slice data (beg + pre) end_)
  else if terminateBlockquote data beg end_ then (true, end_, raw)
  else (false, end_, raw ++ slice data beg end_).

Fixpoint quote_gather (fuel : nat) (extensions : Z) (data : bytes)
  (beg end_ : Z) (raw : bytes) : bytes * Z :=
  match fuel with
  | O => (raw, end_)
  | S f =>
      if beg <? len data then
        let '(brk, end_, raw) := quote_iter extensions data beg raw in
        if brk then (raw, end_)
        else quote_gather f extensions data end_ end_ raw
      else (raw, end_)
  end.

(** ** Line shapes, stated on the bytes *)

(** Up to three spaces, then ['>']. *)
Definition quote_prefixed (l : bytes) : Prop :=
  exists k rest, (k <= 3)%nat /\ l = repeat sp k ++ c_gt :: rest.

Definition blank (c : byte) : Prop := c = sp \/ c = tab.

(** [l] starts with a line of spaces and tabs only; the last line of a
    buffer may lack its newline. *)
Definition blank_line (l : bytes) : Prop :=
  exists ws, Forall blank ws /\ ((exists rest, l = ws ++ nl :: rest) \/ (l = ws /\ l <> [])).

(** A blank line, read position by position: blanks up to [r], where the
    newline or the end of the buffer is. *)
Definition blank_until (l : bytes) (r : Z) : Prop :=
  0 <= r <= len l /\ (forall j, 0 <= j < r -> blank l.[j]) /\
  (r < len l -> l.[r] = nl).

(** Up to three spaces, one or more digits, ['.'] or [')'], a space or a
    tab. *)
Definition ordered_prefix (data : bytes) (k : nat) (digits : bytes) (c w : byte)
  (rest : bytes) : Prop :=
  (k <= 3)%nat /\ digits <> [] /\ Forall (fun d => is_digit d = true) digits /\
  (c = c_dot \/ c = c_rparen) /\ (w = sp \/ w = tab) /\
  data = repeat sp k ++ digits ++ c :: w :: rest.


(** The buffer ends with a newline. *)
Definition ends_nl (data : bytes) : Prop := exists d, data = d ++ [nl].

Definition fence_char (c : byte) : Prop := c = c_tilde \/ c = c_backtick.

(** [l] starts with a closing fence line for [marker]: up to three spaces,
    the marker, spaces, newline. *)
Definition closing_fence (marker l : bytes) : Prop :=
  exists k t rest,
    (k <= 3)%nat /\ l = repeat sp k ++ marker ++ repeat sp t ++ nl :: rest.

(** [pos] is the start of a line of [data] after the line that ends before
    [beg]. *)
Definition later_line (data : bytes) (beg pos : Z) : Prop :=
  beg <= pos < len data /\ data.[pos - 1] = nl.

(** ** Results of code that can panic *)

(** A Go function either returns or panics on a slice index out of range
    or a nil dereference; [OutOfFuel] marks a loop or a recursion of the
    model that was cut short. *)
Inductive res (A : Type) : Type :=
| Ok (a : A)
| Panic
| OutOfFuel.
Arguments Ok {A} a.
Arguments Panic {A}.
Arguments OutOfFuel {A}.

Definition bind {A B : Type} (r : res A) (k : A -> res B) : res B :=
  match r with
  | Ok a => k a
  | Panic => Panic
  | OutOfFuel => OutOfFuel
  end.

Notation "x <- e ;; k" := (bind e (fun x => k))
  (at level 61, e at next level, right associativity).
Notation "' pat <- e ;; k" := (bind e (fun x => match x with pat => k end))
  (at level 61, pat pattern, e at next level, right associativity).

(** [data[i]] without a preceding bounds check. *)
Definition get (data : bytes) (i : Z) : res byte :=
  match index data i with
  | Some b => Ok b
  | None => Panic
  end.

(** [data[a:]] without a preceding bounds check. *)
Definition slice_from (data : bytes) (a : Z) : res bytes :=
  if (0 <=? a) && (a <=? len data) then Ok (from data a) else Panic.

(** ** The document tree *)

(** Modelled from the spec: the ast package is not among the sources.
    Section 3 of the spec lists the node variants and their attributes;
    [Other] stands for the nodes built outside block.go (tables, asides,
    nodes of a parser hook). *)
Record Attribute := {
  ID : bytes;
  Classes : list bytes;
  Attrs : list (bytes * bytes)
}.

Inductive NodeData :=
| Document
| BlockQuote
| List (ListFlags : Z) (Tight : bool) (Start : Z) (Delimiter : byte)
| ListItem (ListFlags : Z) (Tight : bool) (BulletChar Delimiter : byte)
| Paragraph
| Heading (HeadingID : bytes) (Level : Z) (IsSpecial IsTitleblock : bool)
| CodeBlock (IsFenced : bool) (Info : bytes)
| HorizontalRule
| HTMLBlock
| MathBlock
| DocumentMatter (Matter : Z)
| CaptionFigure (HeadingID : bytes)
| Caption
| Other (tag : Z).

(** A node of the tree, in an arena: nodes refer to each other by their
    index in the arena, which stands for the Go pointer. *)
Record Node := {
  node_data : NodeData;
  node_parent : option nat;
  node_children : list nat;
  node_attribute : option Attribute;
  node_content : bytes;
  node_literal : bytes
}.

(** A node as built by a composite literal [&ast.X{...}]. *)
Definition new_node (d : NodeData) : Node :=
  {| node_data := d; node_parent := None; node_children := [];
     node_attribute := None; node_content := []; node_literal := [] |}.

(** ** The parser context *)

(** The fields of [Parser] used by block.go.  [aux] stands for the state
    kept by the other files of the package (reference and footnote tables,
    inline parser state). *)
Record Parser := {
  extensions : Z;
  nesting : Z;
  maxNesting : Z;
  nodes : list Node;
  tip : option nat;
  attr : option Attribute;
  includeStack : list bytes;
  allHeadingsWithAutoID : list nat;
  aux : list bytes
}.

Definition set_nesting (p : Parser) (n : Z) : Parser :=
  {| extensions := extensions p; nesting := n; maxNesting := maxNesting p;
     nodes := nodes p; tip := tip p; attr := attr p;
     includeStack := includeStack p;
     allHeadingsWithAutoID := allHeadingsWithAutoID p; aux := aux p |}.

Definition set_nodes (p : Parser) (ns : list Node) : Parser :=
  {| extensions := extensions p; nesting := nesting p; maxNesting := maxNesting p;
     nodes := ns; tip := tip p; attr := attr p;
     includeStack := includeStack p;
     allHeadingsWithAutoID := allHeadingsWithAutoID p; aux := aux p |}.

Definition set_tip (p : Parser) (t : option nat) : Parser :=
  {| extensions := extensions p; nesting := nesting p; maxNesting := maxNesting p;
     nodes := nodes p; tip := t; attr := attr p;
     includeStack := includeStack p;
     allHeadingsWithAutoID := allHeadingsWithAutoID p; aux := aux p |}.

Definition set_attr (p : Parser) (a : option Attribute) : Parser :=
  {| extensions := extensions p; nesting := nesting p; maxNesting := maxNesting p;
     nodes := nodes p; tip := tip p; attr := a;
     includeStack := includeStack p;
     allHeadingsWithAutoID := allHeadingsWithAutoID p; aux := aux p |}.

Definition set_includeStack (p : Parser) (st : list bytes) : Parser :=
  {| extensions := extensions p; nesting := nesting p; maxNesting := maxNesting p;
     nodes := nodes p; tip := tip p; attr := attr p;
     includeStack := st;
     allHeadingsWithAutoID := allHeadingsWithAutoID p; aux := aux p |}.

Definition set_allHeadingsWithAutoID (p : Parser) (hs : list nat) : Parser :=
  {| extensions := extensions p; nesting := nesting p; maxNesting := maxNesting p;
     nodes := nodes p; tip := tip p; attr := attr p;
     includeStack := includeStack p;
     allHeadingsWithAutoID := hs; aux := aux p |}.

Definition node_at (p : Parser) (id : nat) : option Node := nth_error (nodes p) id.

(** Replace the node [id] of a list of nodes by [f] of it. *)
Fixpoint update_nth (ns : list Node) (id : nat) (f : Node -> Node) : list Node :=
  match ns, id with
  | [], _ => []
  | n :: ns', O => f n :: ns'
  | n :: ns', S id' => n :: update_nth ns' id' f
  end.

Definition update_node (p : Parser) (id : nat) (f : Node -> Node) : Parser :=
  set_nodes p (update_nth (nodes p) id f).

Definition with_data (d : NodeData) (n : Node) : Node :=
  {| node_data := d; node_parent := node_parent n;
     node_children := node_children n; node_attribute := node_attribute n;
     node_content := node_content n; node_literal := node_literal n |}.

Definition with_parent (q : option nat) (n : Node) : Node :=
  {| node_data := node_data n; node_parent := q;
     node_children := node_children n; node_attribute := node_attribute n;
     node_content := node_content n; node_literal := node_literal n |}.

Definition with_children (c : list nat) (n : Node) : Node :=
  {| node_data := node_data n; node_parent := node_parent n;
     node_children := c; node_attribute := node_attribute n;
     node_content := node_content n; node_literal := node_literal n |}.

Definition with_attribute (a : option Attribute) (n : Node) : Node :=
  {| node_data := node_data n; node_parent := node_parent n;
     node_children := node_children n; node_attribute := a;
     node_content := node_content n; node_literal := node_literal n |}.

Definition with_content (c : bytes) (n : Node) : Node :=
  {| node_data := node_data n; node_parent := node_parent n;
     node_children := node_children n; node_attribute := node_attribute n;
     node_content := c; node_literal := node_literal n |}.

Definition with_literal (l : bytes) (n : Node) : Node :=
  {| node_data := node_data n; node_parent := node_parent n;
     node_children := node_children n; node_attribute := node_attribute n;
     node_content := node_content n; node_literal := l |}.

(** [list.Tight = false] *)
Definition clear_tight (n : Node) : Node :=
  match node_data n with
  | List f _ s d => with_data (List f false s d) n
  | _ => n
  end.

(** The parent and the children of the node [id]; a nil or unknown node
    has none. *)
Definition GetParent (p : Parser) (id : nat) : option nat :=
  match node_at p id with
  | Some n => node_parent n
  | None => None
  end.

Definition GetChildren (p : Parser) (id : nat) : list nat :=
  match node_at p id with
  | Some n => node_children n
  | None => []
  end.

(** Modelled from the spec: the tree maintenance functions of parser.go are
    not among the sources.  Section 2 and 9: a new block is opened under the
    open container nearest to the tip that accepts it, closing the
    containers that do not; a finalized block hands the tip to its parent.
    Section 3: lists hold list items only, the other containers (document,
    block quote, list item, captioned figure) hold anything but list items,
    and leaves hold nothing. *)
Definition isListItem (v : NodeData) : bool :=
  match v with
  | ListItem _ _ _ _ => true
  | _ => false
  end.

Definition canNodeContain (n v : NodeData) : bool :=
  match n with
  | List _ _ _ _ => isListItem v
  | Document | BlockQuote | ListItem _ _ _ _ | CaptionFigure _ => negb (isListItem v)
  | _ => false
  end.

Definition Finalize (p : Parser) (block : nat) : Parser :=
  set_tip p (GetParent p block).

(** [for !canNodeContain(p.tip, node) { p.Finalize(p.tip) }]; running out
    of parents dereferences nil. *)
Fixpoint closeUntilContains (fuel : nat) (p : Parser) (v : NodeData) : res Parser :=
  match fuel with
  | O => OutOfFuel
  | S f =>
      match tip p with
      | None => Panic
      | Some t =>
          match node_at p t with
          | None => Panic
          | Some n =>
              if canNodeContain (node_data n) v then Ok p
              else closeUntilContains f (Finalize p t) v
          end
      end
  end.

(** [addChild]: the identifier of the new node and the new state. *)
Definition addChild (p : Parser) (node : Node) : res (nat * Parser) :=
  p <- closeUntilContains (S (length (nodes p))) p (node_data node) ;;
  match tip p with
  | None => Panic
  | Some t =>
      let id := length (nodes p) in
      let p := update_node p t
                 (fun n => with_children (node_children n ++ [id]) n) in
      let p := set_nodes p (nodes p ++ [with_parent (Some t) node]) in
      Ok (id, set_tip p (Some id))
  end.

(** ** What block.go uses from the rest of the program *)

(** The functions below are called by block.go and defined elsewhere: in
    files of the package that are not among the sources (parser.go,
    inline.go, the caption, table, figure, aside, attribute, include and
    reference files), in the Go standard library (unicode, html, regexp),
    or by the caller (the parser hook, the include reader).  They are the
    parameters of the model. *)
Record Collaborators := {
  closeUnmatchedBlocks : Parser -> Parser;
  Inline : Parser -> Node -> bytes -> Node * Parser;
  attribute : Parser -> bytes -> bytes * Parser;
  isInclude : Parser -> bytes -> bytes * bytes * Z;
  isCodeInclude : Parser -> bytes -> bytes * bytes * Z;
  readInclude : bytes -> bytes -> bytes -> bytes;
  readCodeInclude : bytes -> bytes -> bytes -> bytes;
  includeStack_Last : Parser -> bytes;
  includeStack_Push : Parser -> bytes -> Parser;
  includeStack_Pop : Parser -> Parser;
  caption : Parser -> bytes -> bytes -> bytes * bytes * Z;
  ParserHook : option (bytes -> option NodeData * option bytes * Z);
  isBackslashEscaped : bytes -> Z -> bool;
  IsAlnum : byte -> bool;
  unescapeString : bytes -> bytes;
  inlineHTMLComment : Parser -> bytes -> Z;
  table : Parser -> bytes -> Z * Parser;
  tableHeader : Parser -> bytes -> Z;
  figureBlock : Parser -> bytes -> bool -> Z * Parser;
  asidePrefix : Parser -> bytes -> Z;
  aside : Parser -> bytes -> Z * Parser;
  isReference : Parser -> bytes -> Z -> Z * Parser;
  IsLetter : rune -> bool;
  IsNumber : rune -> bool;
  ToLower : rune -> rune;
  runes_of_string : bytes -> list rune;
  string_of_runes : list rune -> bytes
}.

Definition captionTable : bytes := bs "Table: ".
Definition captionFigure : bytes := bs "Figure: ".
Definition captionQuote : bytes := bs "Quote: ".

(** Modelled from the spec: [tabSizeDefault] and [tabSizeDouble] are
    constants of parser.go; the spec calls the extension "tab width
    variant" (TabSizeEight). *)
Definition tabSizeDefault : Z := 4.
Definition tabSizeDouble : Z := 8.

(** blockTags is a set of tags that are recognized as HTML block tags. *)
Definition blockTags : list bytes :=
  map bs [ "blockquote"; "del"; "dd"; "div"; "dl"; "dt"; "fieldset"; "form";
           "h1"; "h2"; "h3"; "h4"; "h5"; "h6"; "iframe"; "ins"; "li"; "math";
           "noscript"; "ol"; "pre"; "p"; "script"; "style"; "table"; "ul";
           "address"; "article"; "aside"; "canvas"; "details"; "dialog";
           "figcaption"; "figure"; "footer"; "header"; "hgroup"; "main"; "nav";
           "output"; "progress"; "section"; "svg"; "video" ]%string.

(** ** Helpers of the Go [bytes] package *)

Definition HasPrefix (s prefix : bytes) : bool :=
  bytes_eqb (upto s (len prefix)) prefix.

Definition TrimPrefix (s prefix : bytes) : bytes :=
  if HasPrefix s prefix then from s (len prefix) else s.

(** [bytes.Split(data, "\n")] *)
Fixpoint split_nl (data : bytes) (cur : bytes) : list bytes :=
  match data with
  | [] => [cur]
  | c :: data' => if c =? nl then cur :: split_nl data' [] else split_nl data' (cur ++ [c])
  end.

(** [bytes.Join(parts, "\n")] *)
Fixpoint join_nl (parts : list bytes) : bytes :=
  match parts with
  | [] => []
  | [x] => x
  | x :: rest => x ++ nl :: join_nl rest
  end.

(** [bytes.Replace(data, old, new, -1)] for a non-empty [old]. *)
Fixpoint Replace_loop (fuel : nat) (data old new : bytes) : bytes :=
  match fuel with
  | O => data
  | S f =>
      match data with
      | [] => []
      | c :: data' =>
          if HasPrefix data old then new ++ Replace_loop f (from data (len old)) old new
          else c :: Replace_loop f data' old new
      end
  end.
Definition Replace (data old new : bytes) : bytes :=
  Replace_loop (length data) data old new.

(** [bytes.Trim(data, " \n")] *)
Definition Trim_sp_nl (data : bytes) : bytes :=
  let is_cut := fun c => (c =? sp) || (c =? nl) in
  let n := len data in
  let a := advance (length data) (fun i => (i <? n) && is_cut data.[i]) 0 in
  let b := retreat (length data) (fun i => (a <? i) && is_cut data.[i - 1]) n in
  slice data a b.

(** [bytes.IndexByte(data, c)] *)
Definition IndexByte (data : bytes) (c : byte) : Z :=
  let i := skipUntilChar data 0 c in
  if i <? len data then i else -1.

(** ** Headings *)

Definition isPrefixHeading (ext : Z) (data : bytes) : bool :=
  if (len data >? 0) && negb (data.[0] =? c_hash) then false
  else if has ext SpaceHeadings then
    let level := skipCharN data 0 c_hash 6 in
    if (level =? len data) || negb (data.[level] =? sp) then false else true
  else true.

(** The part of [prefixHeading] and [prefixSpecialHeading] from the
    heading-id search to the trimming of the end: [(id, end, skip)]. *)
Definition heading_extent (C : Collaborators) (ext : Z) (data : bytes) (i : Z)
  : bytes * Z * Z :=
  let end_ := skipUntilChar data i nl in
  let skip := end_ in
  let id : bytes := [] in
  let '(id, end_, skip) :=
    if has ext HeadingIDs then
      let j := advance (length data)
                 (fun j => (j <? end_ - 1)
                           && (negb (data.[j] =? c_lbrace)
                               || negb (data.[j + 1] =? c_hash))) i in
      let k := advance (length data)
                 (fun k => (k <? end_) && negb (data.[k] =? c_rbrace)) (j + 1) in
      if (j <? end_) && (k <? end_) then
        let id := slice data (j + 2) k in
        let end_ := j in
        let skip := k + 1 in
        let end_ := backChar data end_ sp in
        (id, end_, skip)
      else (id, end_, skip)
    else (id, end_, skip) in
  let end_ := retreat (Z.to_nat end_)
                (fun e => (0 <? e) && (data.[e - 1] =? c_hash)
                          && negb (isBackslashEscaped C data (e - 1))) end_ in
  let end_ := backChar data end_ sp in
  (id, end_, skip).

Section BlockParser.
Variable C : Collaborators.

Definition AddBlock (p : Parser) (n : Node) : res (nat * Parser) :=
  let p := closeUnmatchedBlocks C p in
  let '(n, p) :=
    match attr p with
    | Some a => (with_attribute (Some a) n, set_attr p None)
    | None => (n, p)
    end in
  addChild p n.

(** [sanitizeHeadingID(string(data[i:end]))] as the bytes of the result. *)
Definition autoHeadingID (text : bytes) : bytes :=
  string_of_runes C
    (sanitizeHeadingID (IsLetter C) (IsNumber C) (ToLower C) (runes_of_string C text)).

(** The common end of the heading recognizers: build the heading when it
    has text, register it for an automatic id, add it to the tree. *)
Definition addHeading (p : Parser) (data : bytes) (i end_ : Z) (id : bytes)
  (level : Z) (special : bool) : res Parser :=
  if end_ >? i then
    let auto := (len id =? 0) && has (extensions p) AutoHeadingIDs in
    let id := if auto then autoHeadingID (slice data i end_) else id in
    let block := new_node (Heading id level special false) in
    let block := if special then with_literal (slice data i end_) block else block in
    let block := with_content (slice data i end_) block in
    '(n, p) <- AddBlock p block ;;
    Ok (if auto
        then set_allHeadingsWithAutoID p (allHeadingsWithAutoID p ++ [n])
        else p)
  else Ok p.

Definition prefixHeading (p : Parser) (data : bytes) : res (Z * Parser) :=
  let level := skipCharN data 0 c_hash 6 in
  let i := skipChar data level sp in
  let '(id, end_, skip) := heading_extent C (extensions p) data i in
  p <- addHeading p data i end_ id level false ;;
  Ok (skip, p).

Definition isPrefixSpecialHeading (ext : Z) (data : bytes) : bool :=
  if Z.lor ext Mmark =? 0 then false
  else if len data <? 4 then false
  else if negb (data.[0] =? c_dot) then false
  else if negb (data.[1] =? c_hash) then false
  else if data.[2] =? c_hash then false
  else if has ext SpaceHeadings && negb (data.[2] =? sp) then false
  else true.

Definition prefixSpecialHeading (p : Parser) (data : bytes) : res (Z * Parser) :=
  let i := skipChar data 2 sp in
  let '(id, end_, skip) := heading_extent C (extensions p) data i in
  p <- addHeading p data i end_ id 1 true ;;
  Ok (skip, p).

Definition isUnderlinedHeading (data : bytes) : res Z :=
  d0 <- get data 0 ;;
  if d0 =? c_eq then
    let i := skipChar data 1 c_eq in
    let i := skipChar data i sp in
    Ok (if (i <? len data) && (data.[i] =? nl) then 1 else 0)
  else if d0 =? c_minus then
    let i := skipChar data 1 c_minus in
    let i := skipChar data i sp in
    Ok (if (i <? len data) && (data.[i] =? nl) then 2 else 0)
  else Ok 0.

(** The index of the first part that does not start with ['%'], 0 when
    there is none. *)
Fixpoint titleBlock_index (parts : list bytes) (idx : Z) : Z :=
  match parts with
  | [] => 0
  | b :: rest =>
      if negb (HasPrefix b [c_percent]) then idx
      else titleBlock_index rest (idx + 1)
  end.

Definition titleBlock (p : Parser) (data : bytes) : res (Z * Parser) :=
  d0 <- get data 0 ;;
  if negb (d0 =? c_percent) then Ok (0, p)
  else
    let splitData := split_nl data [] in
    let i := titleBlock_index splitData 0 in
    let data := join_nl (firstn (Z.to_nat i) splitData) in
    let consumed := len data in
    let data := TrimPrefix data (bs "% ") in
    let data := Replace data (bs "\n% ") [nl] in
    let block := with_content data (new_node (Heading [] 1 false true)) in
    '(_, p) <- AddBlock p block ;;
    Ok (consumed, p).

(** ** HTML blocks *)

Definition skipAlnum (data : bytes) (i : Z) : Z :=
  let n := len data in
  advance (length data) (fun i => (i <? n) && IsAlnum C data.[i]) i.

Definition htmlFindTag (data : bytes) : bytes * bool :=
  let i := skipAlnum data 0 in
  let key := upto data i in
  if existsb (bytes_eqb key) blockTags then (key, true) else ([], false).

Definition htmlFindEnd (ext : Z) (tag : bytes) (data : bytes) : Z :=
  if bytes_eqb tag (bs "hr") then 2
  else
    let closetag := bs "</" ++ tag ++ bs ">" in
    if negb (HasPrefix data closetag) then 0
    else
      let i := len closetag in
      let skip := IsEmpty (from data i) in
      if skip =? 0 then 0
      else
        let i := i + skip in
        if i >=? len data then i
        else if has ext LaxHTMLBlocks then i
        else
          let skip := IsEmpty (from data i) in
          if skip =? 0 then 0 else i + skip.

Definition finalizeHTMLBlock (block : Node) : Node :=
  with_content [] (with_literal (node_content block) block).

(** The rendering shared by [html], [htmlComment] and [htmlHr]: trim the
    newlines, add the block, finalize it. *)
Definition addHTMLBlock (p : Parser) (data : bytes) (size : Z) : res Parser :=
  let end_ := backChar data size nl in
  let htmlBlock := with_content (upto data end_) (new_node HTMLBlock) in
  '(id, p) <- AddBlock p htmlBlock ;;
  Ok (update_node p id finalizeHTMLBlock).

(** HTML comment, lax form: the size, 0 when there is none. *)
Definition htmlComment_size (p : Parser) (data : bytes) : res Z :=
  let i := inlineHTMLComment C p data in
  d <- slice_from data i ;;
  let j := IsEmpty d in
  Ok (if j >? 0 then i + j else 0).

(** HR, which is the only self-closing block tag considered *)
Definition htmlHr_size (data : bytes) : Z :=
  if len data <? 4 then 0
  else if negb (data.[0] =? c_lt)
          || (negb (data.[1] =? 104) && negb (data.[1] =? 72))
          || (negb (data.[2] =? 114) && negb (data.[2] =? 82)) then 0
  else if negb (data.[3] =? sp) && negb (data.[3] =? c_slash)
          && negb (data.[3] =? c_gt) then 0
  else
    let n := len data in
    let i := advance (length data)
               (fun i => (i <? n) && negb (data.[i] =? c_gt)
                         && negb (data.[i] =? nl)) 3 in
    if (i <? n) && (data.[i] =? c_gt) then
      let i := i + 1 in
      let j := IsEmpty (from data i) in
      if j >? 0 then i + j else 0
    else 0.

(** The search of [html] for the closing tag: [Some i] when found. *)
Fixpoint html_find (fuel : nat) (ext : Z) (curtag data : bytes) (i : Z) : option Z :=
  match fuel with
  | O => None
  | S f =>
      if i <? len data then
        let i := i + 1 in
        let n := len data in
        let i := advance (length data)
                   (fun i => (i <? n)
                             && negb ((data.[i - 1] =? c_lt) && (data.[i] =? c_slash)))
                   i in
        if i + 2 + len curtag >=? len data then None
        else
          let j := htmlFindEnd ext curtag (from data (i - 1)) in
          if j >? 0 then Some (i + (j - 1))
          else html_find f ext curtag data i
      else None
  end.

(** [html(data, doRender)] without its rendering: the size of the HTML block
    at the start of [data], 0 when there is none. *)
Definition html_size (p : Parser) (data : bytes) : res Z :=
  d0 <- get data 0 ;;
  if negb (d0 =? c_lt) then Ok 0
  else
    let '(curtag, tagfound) := htmlFindTag (from data 1) in
    if negb tagfound then
      size <- htmlComment_size p data ;;
      if size >? 0 then Ok size
      else
        let size := htmlHr_size data in
        Ok (if size >? 0 then size else 0)
    else
      if negb (bytes_eqb curtag (bs "ins")) && negb (bytes_eqb curtag (bs "del")) then
        match html_find (length data) (extensions p) curtag data 1 with
        | Some i => Ok i
        | None => Ok 0
        end
      else Ok 0.

Definition html (p : Parser) (data : bytes) (doRender : bool) : res (Z * Parser) :=
  size <- html_size p data ;;
  if (size >? 0) && doRender then
    p <- addHTMLBlock p data size ;;
    Ok (size, p)
  else Ok (size, p).

(** ** Horizontal rules *)

(** The first loop of [isHRule]: skip up to three spaces. *)
Fixpoint isHRule_spaces (fuel : nat) (data : bytes) (i : Z) : res Z :=
  match fuel with
  | O => Ok i
  | S f =>
      if i <? 3 then
        d <- get data i ;;
        if d =? sp then isHRule_spaces f data (i + 1) else Ok i
      else Ok i
  end.

(** The second loop: the whole line must be the char or whitespace;
    [None] is [return false]. *)
Fixpoint isHRule_line (fuel : nat) (data : bytes) (c : byte) (i n : Z) : option Z :=
  match fuel with
  | O => Some n
  | S f =>
      if (i <? len data) && negb (data.[i] =? nl) then
        if data.[i] =? c then isHRule_line f data c (i + 1) (n + 1)
        else if negb (data.[i] =? sp) then None
        else isHRule_line f data c (i + 1) n
      else Some n
  end.

Definition isHRule (data : bytes) : res bool :=
  i <- isHRule_spaces 3 data 0 ;;
  d <- get data i ;;
  if negb (d =? c_star) && negb (d =? c_minus) && negb (d =? c_underscore) then Ok false
  else
    match isHRule_line (length data) data d i 0 with
    | None => Ok false
    | Some n => Ok (n >=? 3)
    end.

(** ** Code blocks *)

Definition finalizeCodeBlock (code : Node) : res Node :=
  let c := node_content code in
  match node_data code with
  | CodeBlock true _ =>
      let newlinePos := IndexByte c nl in
      if newlinePos <? 0 then Panic
      else
        let firstLine := upto c newlinePos in
        let rest := from c (newlinePos + 1) in
        let info := unescapeString C
                      (slice firstLine
                         (advance (length firstLine)
                            (fun i => (i <? len firstLine) && (firstLine.[i] =? nl)) 0)
                         (retreat (length firstLine)
                            (fun i => (0 <? i) && (firstLine.[i - 1] =? nl))
                            (len firstLine))) in
        Ok (with_content [] (with_literal rest (with_data (CodeBlock true info) code)))
  | _ => Ok (with_content [] (with_literal c code))
  end.

(** The loop of [code]: the end index and the working buffer. *)
Fixpoint code_loop (fuel : nat) (data : bytes) (i : Z) (work : bytes) : Z * bytes :=
  match fuel with
  | O => (i, work)
  | S f =>
      if i <? len data then
        let beg := i in
        let i := skipUntilChar data i nl in
        let i := skipCharN data i nl 1 in
        let blankline := IsEmpty (slice data beg i) >? 0 in
        let pre := codePrefix (slice data beg i) in
        if pre >? 0 then
          code_loop f data i
            (if blankline then work ++ [nl] else work ++ slice data (beg + pre) i)
        else if negb blankline then (beg, work)
        else code_loop f data i (work ++ [nl])
      else (i, work)
  end.

(** [finalizeCodeBlock] applied to the node [id] of the tree. *)
Definition finalizeCodeBlock_at (p : Parser) (id : nat) : res Parser :=
  match node_at p id with
  | Some n => n <- finalizeCodeBlock n ;; Ok (update_node p id (fun _ => n))
  | None => Panic
  end.

Definition code (p : Parser) (data : bytes) : res (Z * Parser) :=
  let '(i, work) := code_loop (length data) data 0 [] in
  let eol := backChar work (len work) nl in
  let work := if negb (eol =? len work) then upto work eol else work in
  let work := work ++ [nl] in
  let codeBlock := with_content work (new_node (CodeBlock false [])) in
  '(id, p) <- AddBlock p codeBlock ;;
  p <- finalizeCodeBlock_at p id ;;
  Ok (i, p).

(** fencedCodeBlock returns the end index if data contains a fenced code
    block at the beginning, or 0 otherwise. It writes to out if doRender is
    true, otherwise it has no side effects. *)
Definition fencedCodeBlock (p : Parser) (data : bytes) (doRender : bool)
  : res (Z * Parser) :=
  match fencedCodeBlock_scan data with
  | None => Ok (0, p)
  | Some (beg, work) =>
      if negb doRender then Ok (beg, p)
      else
        let codeBlock := with_content work (new_node (CodeBlock true [])) in
        if negb (has (extensions p) Mmark) then
          '(id, p) <- AddBlock p codeBlock ;;
          p <- finalizeCodeBlock_at p id ;;
          Ok (beg, p)
        else
          d <- slice_from data beg ;;
          let '(captionContent, id, consumed) := caption C p d captionFigure in
          if consumed >? 0 then
            let figure := new_node (CaptionFigure id) in
            let '(caption_, p) := Inline C p (new_node Caption) captionContent in
            '(fig, p) <- AddBlock p figure ;;
            let codeBlock :=
              with_attribute
                (match node_at p fig with
                 | Some n => node_attribute n
                 | None => None
                 end) codeBlock in
            '(id, p) <- addChild p codeBlock ;;
            p <- finalizeCodeBlock_at p id ;;
            '(_, p) <- addChild p caption_ ;;
            Ok (beg + consumed, Finalize p fig)
          else
            '(id, p) <- AddBlock p codeBlock ;;
            p <- finalizeCodeBlock_at p id ;;
            Ok (beg, p)
  end.

(** ** Math blocks, document matter, paragraphs *)

Definition blockMath (p : Parser) (data : bytes) : res (Z * Parser) :=
  if (len data <=? 4) || negb (data.[0] =? c_dollar) || negb (data.[1] =? c_dollar)
     || (data.[2] =? c_dollar) then Ok (0, p)
  else
    let n := len data in
    let end_ := advance (length data)
                  (fun e => (e + 1 <? n)
                            && (negb (data.[e] =? c_dollar)
                                || negb (data.[e + 1] =? c_dollar))) 2 in
    if end_ + 1 =? n then Ok (0, p)
    else
      let mathBlock := with_literal (slice data 2 end_) (new_node MathBlock) in
      '(_, p) <- AddBlock p mathBlock ;;
      Ok (end_ + 2, p).

(** Modelled from the spec: the matter kinds front, main and back of
    section 3; their constants belong to the ast package. *)
Definition DocumentMatterNone : Z := 0.
Definition DocumentMatterFront : Z := 1.
Definition DocumentMatterMain : Z := 2.
Definition DocumentMatterBack : Z := 3.

Definition documentMatter (p : Parser) (data : bytes) : res (Z * Parser) :=
  d0 <- get data 0 ;;
  if negb (d0 =? c_lbrace) then Ok (0, p)
  else
    let consumed := 0 in
    let matter := DocumentMatterNone in
    let '(consumed, matter) :=
      if HasPrefix data (bs "{frontmatter}")
      then (len (bs "{frontmatter}"), DocumentMatterFront) else (consumed, matter) in
    let '(consumed, matter) :=
      if HasPrefix data (bs "{mainmatter}")
      then (len (bs "{mainmatter}"), DocumentMatterMain) else (consumed, matter) in
    let '(consumed, matter) :=
      if HasPrefix data (bs "{backmatter}")
      then (len (bs "{backmatter}"), DocumentMatterBack) else (consumed, matter) in
    if consumed =? 0 then Ok (0, p)
    else
      '(node, p) <- AddBlock p (new_node (DocumentMatter matter)) ;;
      Ok (consumed, Finalize p node).

(** render a single paragraph that has already been parsed out *)
Definition renderParagraph (p : Parser) (data : bytes) : res Parser :=
  if len data =? 0 then Ok p
  else
    let beg := skipChar data 0 sp in
    let end_ := len data in
    let end_ := if data.[len data - 1] =? nl then end_ - 1 else end_ in
    let end_ := retreat (length data)
                  (fun e => (beg <? e) && (data.[e - 1] =? sp)) end_ in
    if beg >? end_ then Panic
    else
      let para := with_content (slice data beg end_) (new_node Paragraph) in
      '(_, p) <- AddBlock p para ;;
      Ok p.

(** ** Lists *)

(** Returns true if the list item is not the same type as its parent list *)
Definition listTypeChanged (data : bytes) (flags : Z) : bool :=
  if (dliPrefix data >? 0) && negb (has flags ListTypeDefinition) then true
  else if (oliPrefix data >? 0) && negb (has flags ListTypeOrdered) then true
  else if (uliPrefix data >? 0)
          && (has flags ListTypeOrdered || has flags ListTypeDefinition) then true
  else false.

(** Modelled from the spec: [ast.GetLastChild] is not among the sources;
    children are the ordered sequence of section 3, so the last child is
    its last element, nil for a node without children. *)
Definition GetLastChild (p : Parser) (id : nat) : option nat :=
  last (map Some (GetChildren p id)) None.

(** Returns true if block ends with a blank line, descending if needed
    into lists and sublists. *)
Fixpoint endsWithBlankLine (fuel : nat) (p : Parser) (block : option nat) : bool :=
  match fuel with
  | O => false
  | S f =>
      match block with
      | None => false
      | Some b =>
          match node_at p b with
          | Some n =>
              match node_data n with
              | List _ _ _ _ | ListItem _ _ _ _ =>
                  endsWithBlankLine f p (GetLastChild p b)
              | _ => false
              end
          | None => false
          end
      end
  end.

(** The inner loop of [finalizeList] over the sub-items: does it set
    [list.Tight = false]? *)
Fixpoint finalizeList_subItems (p : Parser) (subItems : list nat) (j lastSubItemIdx : Z)
  (isLastItem : bool) : bool :=
  match subItems with
  | [] => false
  | subItem :: rest =>
      let isLastSubItem := j =? lastSubItemIdx in
      if (negb isLastItem || negb isLastSubItem)
         && endsWithBlankLine (S (length (nodes p))) p (Some subItem)
      then true
      else finalizeList_subItems p rest (j + 1) lastSubItemIdx isLastItem
  end.

(** The outer loop over the items; the state carries the list node, whose
    [Tight] the loops may clear. *)
Fixpoint finalizeList_items (p : Parser) (lst : nat) (items : list nat)
  (i lastItemIdx : Z) : Parser :=
  match items with
  | [] => p
  | item :: rest =>
      let isLastItem := i =? lastItemIdx in
      if negb isLastItem && endsWithBlankLine (S (length (nodes p))) p (Some item)
      then update_node p lst clear_tight
      else
        let subItems :=
          match GetParent p item with
          | Some q => GetChildren p q
          | None => []
          end in
        let lastSubItemIdx := len_nat subItems - 1 in
        let p := if finalizeList_subItems p subItems 0 lastSubItemIdx isLastItem
                 then update_node p lst clear_tight else p in
        finalizeList_items p lst rest (i + 1) lastItemIdx
  end.

Definition finalizeList (p : Parser) (lst : nat) : res Parser :=
  match GetParent p lst with
  | None => Panic
  | Some parent =>
      let items := GetChildren p parent in
      let lastItemIdx := len_nat items - 1 in
      Ok (finalizeList_items p lst items 0 lastItemIdx)
  end.

(** What the scan of [listItem] hands to its rendering. *)
Record ItemScan := {
  scan_line : Z;
  scan_flags : Z;
  scan_raw : bytes;
  scan_sublist : Z;
  scan_bulletChar : byte;
  scan_delimiter : byte
}.

(** The state of the [gatherlines] loop. *)
Record Gather := {
  g_i : Z;
  g_line : Z;
  g_raw : bytes;
  g_containsBlankLine : bool;
  g_sublist : Z;
  g_flags : Z
}.

(** One turn of [gatherlines], entered with [line < len(data)]: the new
    state, and whether the loop is left by [break gatherlines]. *)
Definition gather_step (ext : Z) (data : bytes) (isDefinitionList : bool)
  (itemIndent : Z) (g : Gather) : res (bool * Gather) :=
  let n := len data in
  let line := g_line g in
  let raw := g_raw g in
  let containsBlankLine := g_containsBlankLine g in
  let sublist := g_sublist g in
  let flags := g_flags g in
  let i := g_i g + 1 in
  let i := advance (length data) (fun i => (i <? n) && negb (data.[i - 1] =? nl)) i in
  if IsEmpty (slice data line i) >? 0 then
    Ok (false, {| g_i := i; g_line := i; g_raw := raw; g_containsBlankLine := true;
                  g_sublist := sublist; g_flags := flags |})
  else
    let '(indent, indentIndex) :=
      if data.[line] =? tab then (4, 1)
      else
        let k := advance 4 (fun k => (k <? 4) && (line + k <? i)
                                     && (data.[line + k] =? sp)) 0 in
        (k, k) in
    let chunk := slice data (line + indentIndex) i in
    let stop (flags : Z) : res (bool * Gather) :=
      Ok (true, {| g_i := i; g_line := line; g_raw := raw;
                   g_containsBlankLine := containsBlankLine;
                   g_sublist := sublist; g_flags := flags |}) in
    let tail (chunk : bytes) (raw : bytes) (sublist flags : Z) : res (bool * Gather) :=
      let raw := if containsBlankLine then raw ++ [nl] else raw in
      Ok (false, {| g_i := i; g_line := i; g_raw := raw ++ chunk;
                    g_containsBlankLine := false;
                    g_sublist := sublist; g_flags := flags |}) in
    if negb isDefinitionList && has ext FencedCode
       && (fst (fst (isFenceLine chunk [])) >? 0) && (indent =? 0)
    then stop (Z.lor flags ListItemEndOfList)
    else
      hr <- (if uliPrefix chunk >? 0 then isHRule chunk else Ok false) ;;
      if ((uliPrefix chunk >? 0) && negb hr) || (oliPrefix chunk >? 0)
         || (dliPrefix chunk >? 0) then
        let chunk :=
          if (indentIndex >=? 4) && (dliPrefix chunk <=? 0) then
            let leadingWhiteSpaces := skipChar chunk 0 sp in
            slice data (line + indentIndex - (leadingWhiteSpaces + 1)) i
          else chunk in
        if indent <=? itemIndent then
          if listTypeChanged chunk flags then stop (Z.lor flags ListItemEndOfList)
          else if containsBlankLine then stop (Z.lor flags ListItemContainsBlock)
          else stop flags
        else
          let flags := if containsBlankLine then Z.lor flags ListItemContainsBlock
                       else flags in
          let sublist :=
            if sublist =? 0 then
              if dliPrefix chunk >? 0 then backUntilChar raw (len raw - 1) nl
              else len raw
            else sublist in
          tail chunk raw sublist flags
      else if isPrefixHeading ext chunk || isPrefixSpecialHeading ext chunk then
        if containsBlankLine && (indent <? 4)
        then stop (Z.lor flags ListItemEndOfList)
        else tail chunk raw sublist (Z.lor flags ListItemContainsBlock)
      else if containsBlankLine && (indent <? 4) then
        if has flags ListTypeDefinition && (i <? n - 1) then
          let next := skipUntilChar data i nl in
          let next := advance (length data)
                        (fun x => (x <? n - 1) && (data.[x] =? nl)) next in
          if (i <? n - 1) && negb (data.[i] =? c_colon)
             && (next <? n - 1) && negb (data.[next] =? c_colon)
          then stop (Z.lor flags ListItemEndOfList)
          else stop flags
        else stop (Z.lor flags ListItemEndOfList)
      else if containsBlankLine then
        tail chunk (raw ++ [nl]) sublist (Z.lor flags ListItemContainsBlock)
      else tail chunk raw sublist flags.

Fixpoint gatherlines (fuel : nat) (ext : Z) (data : bytes) (isDefinitionList : bool)
  (itemIndent : Z) (g : Gather) : res Gather :=
  match fuel with
  | O => OutOfFuel
  | S f =>
      if g_line g <? len data then
        '(brk, g) <- gather_step ext data isDefinitionList itemIndent g ;;
        if brk then Ok g
        else gatherlines f ext data isDefinitionList itemIndent g
      else Ok g
  end.

(** [listItem] up to the creation of the node; [None] is its [return 0]. *)
Definition listItem_scan (ext : Z) (data : bytes) (flags : Z)
  : res (option ItemScan) :=
  let isDefinitionList := has flags ListTypeDefinition in
  d0 <- get data 0 ;;
  itemIndent <- (if d0 =? tab then Ok 4 else isHRule_spaces 3 data 0) ;;
  let bulletChar := c_star in
  let delimiter := c_dot in
  let i := uliPrefix data in
  let '(i, bulletChar, delimiter) :=
    if i =? 0 then
      let i := oliPrefix data in
      if i >? 0 then (i, bulletChar, data.[i - 2]) else (i, bulletChar, delimiter)
    else (i, data.[i - 2], delimiter) in
  let '(i, flags) :=
    if i =? 0 then
      let i := dliPrefix data in
      if i >? 0 then (i, Z.land flags (Z.lnot ListTypeTerm)) else (i, flags)
    else (i, flags) in
  if (i =? 0) && negb isDefinitionList then Ok None
  else
    let flags := if i =? 0 then Z.lor flags ListTypeTerm else flags in
    let i := skipChar data i sp in
    let line := i in
    let n := len data in
    let i := advance (length data)
               (fun i => (0 <? i) && (i <? n) && negb (data.[i - 1] =? nl)) i in
    let raw := slice data line i in
    let line := i in
    g <- gatherlines (S (length data)) ext data isDefinitionList itemIndent
           {| g_i := i; g_line := line; g_raw := raw; g_containsBlankLine := false;
              g_sublist := 0; g_flags := flags |} ;;
    Ok (Some {| scan_line := g_line g; scan_flags := g_flags g; scan_raw := g_raw g;
                scan_sublist := g_sublist g; scan_bulletChar := bulletChar;
                scan_delimiter := delimiter |}).

Section Recursion.
(** [p.Block], as far as the functions below call it. *)
Variable blk : bytes -> Parser -> res Parser.

(** Parse a single list item: the bytes consumed, the flags left in
    [*flags], the state. *)
Definition listItem (p : Parser) (data : bytes) (flags : Z) : res (Z * Z * Parser) :=
  sc <- listItem_scan (extensions p) data flags ;;
  match sc with
  | None => Ok (0, flags, p)
  | Some sc =>
      let flags := scan_flags sc in
      let rawBytes := scan_raw sc in
      let sublist := scan_sublist sc in
      let listItem :=
        new_node (ListItem flags false (scan_bulletChar sc) (scan_delimiter sc)) in
      '(_, p) <- AddBlock p listItem ;;
      p <- (if has flags ListItemContainsBlock && negb (has flags ListTypeTerm) then
              if sublist >? 0 then
                p <- blk (upto rawBytes sublist) p ;;
                blk (from rawBytes sublist) p
              else blk rawBytes p
            else
              let para :=
                with_content (if sublist >? 0 then upto rawBytes sublist else rawBytes)
                  (new_node Paragraph) in
              '(_, p) <- addChild p para ;;
              if sublist >? 0 then blk (from rawBytes sublist) p else Ok p) ;;
      Ok (scan_line sc, flags, p)
  end.

(** The loop of [list]. *)
Fixpoint list_loop (fuel : nat) (p : Parser) (lst : nat) (data : bytes)
  (i flags : Z) : res (Z * Parser) :=
  match fuel with
  | O => OutOfFuel
  | S f =>
      if i <? len data then
        '(skip, flags, p) <- listItem p (from data i) flags ;;
        let p := if has flags ListItemContainsBlock
                 then update_node p lst clear_tight else p in
        let i := i + skip in
        if (skip =? 0) || has flags ListItemEndOfList then Ok (i, p)
        else list_loop f p lst data i (Z.land flags (Z.lnot ListItemBeginningOfList))
      else Ok (i, p)
  end.

(** [list] from the loop on, for the list node [block] just added. *)
Definition list_body (p : Parser) (block : nat) (data : bytes) (flags : Z)
  : res (Z * Parser) :=
  '(i, p) <- list_loop (S (length data)) p block data 0 flags ;;
  let above := GetParent p block in
  p <- finalizeList p block ;;
  Ok (i, set_tip p above).

(** parse ordered or unordered list block ([list] in the source) *)
Definition list_ (p : Parser) (data : bytes) (flags start : Z) (delim : byte)
  : res (Z * Parser) :=
  let flags := Z.lor flags ListItemBeginningOfList in
  let lst := new_node (List flags true start delim) in
  '(block, p) <- AddBlock p lst ;;
  list_body p block data flags.

(** parse a blockquote fragment *)
Definition quote (p : Parser) (data : bytes) : res (Z * Parser) :=
  let '(raw, end_) := quote_gather (length data) (extensions p) data 0 0 [] in
  if negb (has (extensions p) Mmark) then
    '(block, p) <- AddBlock p (new_node BlockQuote) ;;
    p <- blk raw p ;;
    Ok (end_, Finalize p block)
  else
    d <- slice_from data end_ ;;
    let '(captionContent, id, consumed) := caption C p d captionQuote in
    if consumed >? 0 then
      let figure := new_node (CaptionFigure id) in
      let '(caption_, p) := Inline C p (new_node Caption) captionContent in
      '(fig, p) <- AddBlock p figure ;;
      let block :=
        with_attribute
          (match node_at p fig with
           | Some n => node_attribute n
           | None => None
           end) (new_node BlockQuote) in
      '(block, p) <- addChild p block ;;
      p <- blk raw p ;;
      let p := Finalize p block in
      '(_, p) <- addChild p caption_ ;;
      Ok (end_ + consumed, Finalize p fig)
    else
      '(block, p) <- AddBlock p (new_node BlockQuote) ;;
      p <- blk raw p ;;
      Ok (end_, Finalize p block).

(** What one turn of the loop of [paragraph] decides. *)
Inductive ParaStep :=
| ParaReturn (consumed : Z) (p : Parser)
| ParaNext (prev line i : Z) (p : Parser).

Definition paragraph_step (p : Parser) (data : bytes) (line i : Z) : res ParaStep :=
  let ext := extensions p in
  let tabSize := if has ext TabSizeEight then tabSizeDouble else tabSizeDefault in
  let prev := line in
  let current := from data i in
  let line := i in
  let done (p : Parser) : res ParaStep :=
    p <- renderParagraph p (upto data i) ;; Ok (ParaReturn i p) in
  let '(refEnd, p) := isReference C p current tabSize in
  if refEnd >? 0 then
    p <- renderParagraph p (upto data i) ;; Ok (ParaReturn (i + refEnd) p)
  else
    let n := IsEmpty current in
    if n >? 0 then
      '(listLen, p) <-
        (if has ext DefinitionLists && (i <? len data - 1) && (data.[i + 1] =? c_colon)
         then list_ p (from data prev) ListTypeDefinition 0 c_dot
         else Ok (0, p)) ;;
      if listLen >? 0 then Ok (ParaReturn (prev + listLen) p)
      else p <- renderParagraph p (upto data i) ;; Ok (ParaReturn (i + n) p)
    else
      level <- (if i >? 0 then isUnderlinedHeading current else Ok 0) ;;
      if level >? 0 then
        p <- renderParagraph p (upto data prev) ;;
        let eol := i - 1 in
        let prev := advance (length data)
                      (fun x => (x <? eol) && (data.[x] =? sp)) prev in
        let eol := retreat (length data)
                     (fun e => (prev <? e) && (data.[e - 1] =? sp)) eol in
        if prev >? eol then Panic
        else
          let auto := has ext AutoHeadingIDs in
          let id := if auto then autoHeadingID (slice data prev eol) else [] in
          let block := with_content (slice data prev eol)
                         (new_node (Heading id level false false)) in
          '(b, p) <- AddBlock p block ;;
          let p := if auto
                   then set_allHeadingsWithAutoID p (allHeadingsWithAutoID p ++ [b])
                   else p in
          Ok (ParaReturn (skipUntilChar data i nl) p)
      else
        '(h, p) <- (if has ext LaxHTMLBlocks && (data.[i] =? c_lt)
                    then html p current false else Ok (0, p)) ;;
        if h >? 0 then done p
        else
          hr <- (if isPrefixHeading ext current || isPrefixSpecialHeading ext current
                 then Ok true else isHRule current) ;;
          if hr then done p
          else if quotePrefix current >? 0 then done p
          else
            '(f, p) <- (if has ext FencedCode then fencedCodeBlock p current false
                        else Ok (0, p)) ;;
            if f >? 0 then done p
            else
              let '(g, p) := if has ext Mmark then figureBlock C p current false
                             else (0, p) in
              if g >? 0 then done p
              else if has ext Tables && (tableHeader C p current >? 0) then done p
              else if has ext DefinitionLists && negb (dliPrefix current =? 0) then
                '(ret, p) <- list_ p (from data prev) ListTypeDefinition 0 c_dot ;;
                Ok (ParaReturn (ret + prev) p)
              else if has ext NoEmptyLineBeforeBlock
                      && (negb (uliPrefix current =? 0)
                          || negb (oliPrefix current =? 0)
                          || negb (quotePrefix current =? 0)
                          || negb (codePrefix current =? 0)) then done p
              else
                let nlpos := IndexByte current nl in
                let i := if nlpos >=? 0 then i + (nlpos + 1) else i + len current in
                Ok (ParaNext prev line i p).

Fixpoint paragraph_loop (fuel : nat) (p : Parser) (data : bytes) (line i : Z)
  : res (Z * Parser) :=
  match fuel with
  | O => OutOfFuel
  | S f =>
      if i <? len data then
        st <- paragraph_step p data line i ;;
        match st with
        | ParaReturn consumed p => Ok (consumed, p)
        | ParaNext _ line i p => paragraph_loop f p data line i
        end
      else
        p <- renderParagraph p (upto data i) ;;
        Ok (i, p)
  end.

Definition paragraph (p : Parser) (data : bytes) : res (Z * Parser) :=
  paragraph_loop (S (length data)) p data 0 0.

(** The caption loop of the include branch of [Block]: the first of the
    three captions found after the directive is added to the included
    text. *)
Fixpoint include_captions (p : Parser) (data included : bytes) (consumed : Z)
  (captions : list bytes) : res (bytes * Z) :=
  match captions with
  | [] => Ok (included, consumed)
  | cap :: rest =>
      d <- slice_from data (consumed + 1) ;;
      let '(_, _, capcon) := caption C p d cap in
      if capcon >? 0 then
        if consumed + 1 + capcon >? len data then Panic
        else Ok (included ++ slice data (consumed + 1) (consumed + 1 + capcon),
                 consumed + (1 + capcon))
      else include_captions p data included consumed rest
  end.

(** [data = data[n:]] after a recognizer that returned [n] in state [p]. *)
Definition consume (data : bytes) (r : res (Z * Parser)) : res (bytes * Parser) :=
  '(n, p) <- r ;; d <- slice_from data n ;; Ok (d, p).

(** The body of the loop of [Block] is cut in stages, in the order of the
    source; each stage ends in the next one when nothing matched. *)

(** Block math, document matter, and the paragraph as the last resort. *)
Definition Block_rest (p : Parser) (data : bytes) : res (bytes * Parser) :=
  let ext := extensions p in
  '(m, p) <- (if has ext MathJax then blockMath p data else Ok (0, p)) ;;
  if m >? 0 then consume data (Ok (m, p))
  else
    '(dm, p) <- (if has ext Mmark then documentMatter p data else Ok (0, p)) ;;
    if dm >? 0 then consume data (Ok (dm, p))
    else consume data (paragraph p data).

(** Aside, figure block, table and the three kinds of list. *)
Definition Block_lists (p : Parser) (data : bytes) : res (bytes * Parser) :=
  let ext := extensions p in
  if has ext Mmark && (asidePrefix C p data >? 0)
  then consume data (Ok (aside C p data))
  else
    let '(g, p) := if has ext Mmark then figureBlock C p data true else (0, p) in
    if g >? 0 then consume data (Ok (g, p))
    else
      let '(tb, p) := if has ext Tables then table C p data else (0, p) in
      if tb >? 0 then consume data (Ok (tb, p))
      else if uliPrefix data >? 0 then consume data (list_ p data 0 0 c_dot)
      else if oliPrefix data >? 0 then
        let '(start, delim) := orderedListStart ext data (oliPrefix data) in
        consume data (list_ p data ListTypeOrdered start delim)
      else if has ext DefinitionLists && (dliPrefix data >? 0)
      then consume data (list_ p data ListTypeDefinition 0 c_dot)
      else Block_rest p data.

(** HTML block, title block, blank lines, code blocks, horizontal rule,
    block quote. *)
Definition Block_leaves (p : Parser) (data : bytes) : res (bytes * Parser) :=
  let ext := extensions p in
  '(h, p) <- (if data.[0] =? c_lt then html p data true else Ok (0, p)) ;;
  if h >? 0 then consume data (Ok (h, p))
  else
    '(t, p) <- (if has ext Titleblock && (data.[0] =? c_percent)
                then titleBlock p data else Ok (0, p)) ;;
    if t >? 0 then consume data (Ok (t, p))
    else if IsEmpty data >? 0 then consume data (Ok (IsEmpty data, p))
    else if codePrefix data >? 0 then consume data (code p data)
    else
      '(f, p) <- (if has ext FencedCode then fencedCodeBlock p data true
                  else Ok (0, p)) ;;
      if f >? 0 then consume data (Ok (f, p))
      else
        hr <- isHRule data ;;
        if hr then
          let i := skipUntilChar data 0 nl in
          let hr := with_literal (Trim_sp_nl (upto data i)) (new_node HorizontalRule) in
          '(_, p) <- AddBlock p hr ;;
          consume data (Ok (i, p))
        else if quotePrefix data >? 0 then consume data (quote p data)
        else Block_lists p data.

(** The two heading prefixes, and the test for an empty rest. *)
Definition Block_headings (p : Parser) (data : bytes) : res (bytes * Parser) :=
  let ext := extensions p in
  if isPrefixHeading ext data then consume data (prefixHeading p data)
  else if isPrefixSpecialHeading ext data then consume data (prefixSpecialHeading p data)
  else if len data =? 0 then Ok (data, p)
  else Block_leaves p data.

(** The user supplied parser function. *)
Definition Block_hook (p : Parser) (data : bytes) : res (bytes * Parser) :=
  let '(node, blockdata, consumed) :=
    match ParserHook C with
    | Some hookf => hookf data
    | None => (None, None, 0)
    end in
  if consumed >? 0 then
    d <- slice_from data consumed ;;
    match node with
    | Some nd =>
        '(id, p) <- AddBlock p (new_node nd) ;;
        match blockdata with
        | Some bd => p <- blk bd p ;; Ok (d, Finalize p id)
        | None => Ok (d, p)
        end
    | None => Ok (d, p)
    end
  else Block_headings p data.

(** Includes. *)
Definition Block_include (p : Parser) (data : bytes) : res (bytes * Parser) :=
  let '(path, address, consumed, code_include) :=
    if has (extensions p) Includes then
      let '(path, address, consumed) := isInclude C p data in
      if consumed =? 0 then (isCodeInclude C p data, true)
      else (path, address, consumed, false)
    else ([], [], 0, false) in
  if has (extensions p) Includes && (consumed >? 0) then
    let f := if code_include then readCodeInclude C else readInclude C in
    let included := f (includeStack_Last C p) path address in
    '(included, consumed) <-
      include_captions p data included consumed
        [captionFigure; captionTable; captionQuote] ;;
    let p := includeStack_Push C p path in
    p <- blk included p ;;
    let p := includeStack_Pop C p in
    consume data (Ok (consumed, p))
  else Block_hook p data.

(** One turn of the loop of [Block], entered with [len(data) > 0]: what is
    left of [data], and the state. *)
Definition Block_step (p : Parser) (data : bytes) : res (bytes * Parser) :=
  let '(data, p) :=
    if has (extensions p) Attributes then attribute C p data else (data, p) in
  Block_include p data.

(** The loop of [Block]: parse out one block-level construct at a time. *)
Fixpoint Block_loop (fuel : nat) (p : Parser) (data : bytes) : res Parser :=
  match fuel with
  | O => OutOfFuel
  | S f =>
      if len data >? 0 then
        '(data, p) <- Block_step p data ;;
        Block_loop f p data
      else Ok p
  end.

End Recursion.

(** Parse Block-level data.  [depth] bounds the nesting of the recursive
    calls the model follows; the source bounds it by [maxNesting]. *)
Fixpoint Block (depth : nat) (data : bytes) (p : Parser) : res Parser :=
  if nesting p >=? maxNesting p then Ok p
  else
    match depth with
    | O => OutOfFuel
    | S d =>
        let p := set_nesting p (nesting p + 1) in
        p <- Block_loop (Block d) (S (length data)) p data ;;
        Ok (set_nesting p (nesting p - 1))
    end.

End BlockParser.

(** ** A parser to run the model on *)

(** Collaborators that recognise nothing and keep the state: no hook, no
    includes, captions, tables, figures, asides or references; ASCII
    letters and digits. *)
Definition plain : Collaborators := {|
  closeUnmatchedBlocks := fun p => p;
  Inline := fun p n c => (with_content c n, p);
  attribute := fun p d => (d, p);
  isInclude := fun _ _ => ([], [], 0);
  isCodeInclude := fun _ _ => ([], [], 0);
  readInclude := fun _ _ _ => [];
  readCodeInclude := fun _ _ _ => [];
  includeStack_Last := fun _ => [];
  includeStack_Push := fun p path => set_includeStack p (includeStack p ++ [path]);
  includeStack_Pop := fun p => set_includeStack p (removelast (includeStack p));
  caption := fun _ _ _ => ([], [], 0);
  ParserHook := None;
  isBackslashEscaped := fun _ _ => false;
  IsAlnum := fun c => ascii_IsLetter c || ascii_IsNumber c;
  unescapeString := fun b => b;
  inlineHTMLComment := fun _ _ => 0;
  table := fun p _ => (0, p);
  tableHeader := fun _ _ => 0;
  figureBlock := fun p _ _ => (0, p);
  asidePrefix := fun _ _ => 0;
  aside := fun p _ => (0, p);
  isReference := fun p _ _ => (0, p);
  IsLetter := ascii_IsLetter;
  IsNumber := ascii_IsNumber;
  ToLower := ascii_ToLower;
  runes_of_string := fun b => b;
  string_of_runes := fun r => r
|}.

(** A fresh parser: the document root alone, which is the tip. *)
Definition newParser (ext maxNest : Z) : Parser := {|
  extensions := ext; nesting := 0; maxNesting := maxNest;
  nodes := [new_node Document]; tip := Some O; attr := None;
  includeStack := []; allHeadingsWithAutoID := []; aux := []
|}.

(** The data of the children of node [id], in order. *)
Definition children_data (p : Parser) (id : nat) : list NodeData :=
  flat_map (fun c => match node_at p c with
                     | Some n => [node_data n]
                     | None => []
                     end) (GetChildren p id).

(** ** What a call leaves untouched *)

(** The data (variant and attributes) of the node [id]. *)
Definition data_at (p : Parser) (id : nat) : option NodeData :=
  option_map node_data (nth_error (nodes p) id).

(** Every node that has a parent has it at a smaller index: nodes are
    appended under nodes that exist. *)
Definition ordered (p : Parser) : Prop :=
  forall id n q,
    nth_error (nodes p) id = Some n -> node_parent n = Some q -> (q < id)%nat.

(** From [p] to [p'] the depth counters and the extensions are the same, no
    node is lost, the nodes below [k] have kept their data, and the parents
    are still in order. *)
Definition preserves (k : nat) (p p' : Parser) : Prop :=
  nesting p' = nesting p /\ maxNesting p' = maxNesting p /\
  extensions p' = extensions p /\
  (length (nodes p) <= length (nodes p'))%nat /\
  (forall id, (id < k)%nat -> data_at p' id = data_at p id) /\
  (ordered p -> ordered p').

(** ... for all the nodes of [p]. *)
Definition frame (p p' : Parser) : Prop := preserves (length (nodes p)) p p'.

(** The contract assumed of the collaborators that return a parser state:
    they may add nodes and change what they own, and leave the rest as
    [frame] says. *)
Record well_behaved (C : Collaborators) : Prop := {
  wb_closeUnmatchedBlocks : forall p, frame p (closeUnmatchedBlocks C p);
  wb_Inline : forall p n c, frame p (snd (Inline C p n c));
  wb_attribute : forall p d, frame p (snd (attribute C p d));
  wb_includeStack_Push : forall p path, frame p (includeStack_Push C p path);
  wb_includeStack_Pop : forall p, frame p (includeStack_Pop C p);
  wb_table : forall p d, frame p (snd (table C p d));
  wb_figureBlock : forall p d r, frame p (snd (figureBlock C p d r));
  wb_aside : forall p d, frame p (snd (aside C p d));
  wb_isReference : forall p d t, frame p (snd (isReference C p d t))
}.

(** The [Tight] flag of the list node [id]. *)
Definition tight_of (p : Parser) (id : nat) : option bool :=
  match data_at p id with
  | Some (List _ t _ _) => Some t
  | _ => None
  end.

(** What a run returns, [d] when it does not return. *)
Definition returned {A} (r : res A) (d : A) : A :=
  match r with
  | Ok a => a
  | _ => d
  end.

(** ** The flags the loop of [list] goes through *)

(** Does the loop of [list], from offset [i] with [flags], find
    [ListItemContainsBlock] in the flags after some call of [listItem]:
    the scans of the items, without their rendering. *)
Fixpoint list_loose (fuel : nat) (ext : Z) (data : bytes) (i flags : Z) : bool :=
  match fuel with
  | O => false
  | S f =>
      if i <? len data then
        match listItem_scan ext (from data i) flags with
        | Ok None => has flags ListItemContainsBlock
        | Ok (Some sc) =>
            let flags := scan_flags sc in
            let skip := scan_line sc in
            has flags ListItemContainsBlock
            || (if (skip =? 0) || has flags ListItemEndOfList then false
                else list_loose f ext data (i + skip)
                       (Z.land flags (Z.lnot ListItemBeginningOfList)))
        | _ => false
        end
      else false
  end.

(** ** Inputs of [list] *)

(** Does a line of [data] begin at offset [l]. *)
Definition line_start (data : bytes) (l : Z) : bool :=
  (l =? 0) || (data.[l - 1] =? nl).

(** No line of [data] is blank, as [IsEmpty] tells. *)
Definition no_blank_line (data : bytes) : bool :=
  forallb (fun l => negb (line_start data l) || (IsEmpty (from data l) =? 0))
    (map Z.of_nat (seq 0 (length data))).

(** No byte of [data] is ['#']. *)
Definition no_hash (data : bytes) : bool :=
  forallb (fun c => negb (c =? c_hash)) data.

(** The offsets at which the loop of [list] finds an item: where
    [listItem] is called and does not return 0. *)
Fixpoint item_starts (fuel : nat) (ext : Z) (data : bytes) (i flags : Z) : list Z :=
  match fuel with
  | O => []
  | S f =>
      if i <? len data then
        match listItem_scan ext (from data i) flags with
        | Ok (Some sc) =>
            let flags := scan_flags sc in
            let skip := scan_line sc in
            i :: (if (skip =? 0) || has flags ListItemEndOfList then []
                  else item_starts f ext data (i + skip)
                         (Z.land flags (Z.lnot ListItemBeginningOfList)))
        | _ => []
        end
      else []
  end.

(** ** What the recognizers missing from the sources are expected to consume *)

(** The end of the first line of [data]: after its newline, or the end
    of the buffer. *)
Definition first_line (data : bytes) : Z :=
  let i := skipUntilChar data 0 nl in
  if i <? len data then i + 1 else len data.

(** [attribute] returns what is left of its input; [aside] consumes
    something where [asidePrefix] finds a prefix; a reference that
    [isReference] finds takes its line; whether a figure block, a table
    or an inline HTML comment is recognized depends on the text and the
    extensions, not on the rest of the state nor on [doRender]. *)
Record consuming (C : Collaborators) : Prop := {
  cs_attribute : forall p d, len (fst (attribute C p d)) <= len d;
  cs_aside : forall p d, 0 < asidePrefix C p d -> 0 < fst (aside C p d);
  cs_isReference : forall p d t,
    0 < fst (isReference C p d t) -> first_line d <= fst (isReference C p d t);
  cs_figureBlock : forall p p' d,
    extensions p' = extensions p ->
    0 < fst (figureBlock C p' d false) -> 0 < fst (figureBlock C p d true);
  cs_table : forall p p' d,
    extensions p' = extensions p ->
    0 < tableHeader C p' d -> 0 < fst (table C p d);
  cs_inlineHTMLComment : forall p p' d,
    extensions p' = extensions p ->
    inlineHTMLComment C p' d = inlineHTMLComment C p d
}.

(** No recognizer that [Block] tries before the paragraph matches at the
    start of [data]: the tests of the loop, in its order. *)
Record fallthrough (C : Collaborators) (ext : Z) (data : bytes) : Prop := {
  ft_len : 0 < len data;
  ft_heading : isPrefixHeading ext data = false;
  ft_special : isPrefixSpecialHeading ext data = false;
  ft_html : data.[0] = c_lt ->
            forall q h, extensions q = ext -> html_size C q data = Ok h -> h <= 0;
  ft_blank : IsEmpty data <= 0;
  ft_code : codePrefix data <= 0;
  ft_fence : has ext FencedCode = true -> fencedCodeBlock_norender data <= 0;
  ft_hrule : isHRule data = Ok false;
  ft_quote : quotePrefix data <= 0;
  ft_figure : has ext Mmark = true ->
              forall q, extensions q = ext -> fst (figureBlock C q data false) <= 0;
  ft_table : has ext Tables = true ->
             forall q, extensions q = ext -> tableHeader C q data <= 0;
  ft_uli : uliPrefix data <= 0;
  ft_oli : oliPrefix data <= 0;
  ft_dli : has ext DefinitionLists = true -> dliPrefix data <= 0
}.

(** The tests of the loop of [Block] up to the block quote have failed. *)
Record past_leaves (C : Collaborators) (ext : Z) (data : bytes) : Prop := {
  pl_len : 0 < len data;
  pl_heading : isPrefixHeading ext data = false;
  pl_special : isPrefixSpecialHeading ext data = false;
  pl_html : data.[0] = c_lt ->
            forall q h, extensions q = ext -> html_size C q data = Ok h -> h <= 0;
  pl_blank : IsEmpty data <= 0;
  pl_code : codePrefix data <= 0;
  pl_fence : has ext FencedCode = true -> fencedCodeBlock_norender data <= 0;
  pl_hrule : isHRule data = Ok false;
  pl_quote : quotePrefix data <= 0
}.

(** ** Termination *)

(** A call finishes when the model follows it to its end: it returns or
    it panics, and no loop is cut short. *)
Definition finishes {A : Type} (r : res A) : Prop := r <> OutOfFuel.

(** The states met at one level of [Block]: parents come before their
    children, and the two nesting counters have the values [N] and [M]. *)
Definition level (N M : Z) (p : Parser) : Prop :=
  ordered p /\ nesting p = N /\ maxNesting p = M.

(** ** What the line tests accept, stated on the bytes *)

Definition hrule_char (c : byte) : Prop := c = c_star \/ c = c_minus \/ c = c_underscore.

(** A horizontal rule: up to three spaces, then a line of one of the rule
    characters and spaces in which the character stands three times at
    least. *)
Definition hrule_line (data : bytes) : Prop :=
  exists k c line rest,
    (k <= 3)%nat /\ hrule_char c /\ Forall (fun x => x = c \/ x = sp) line /\
    (rest = [] \/ exists t, rest = nl :: t) /\
    (2 <= length (filter (Z.eqb c) line))%nat /\
    data = repeat sp k ++ c :: line ++ rest.

(** ** Rendering code blocks (main.go) *)

(** [Escaper]: the replacement of a byte, [None] for the nil entries of
    the table. *)
Definition Escaper (c : byte) : option bytes :=
  if c =? 38 then Some (bs "&amp;")
  else if c =? 60 then Some (bs "&lt;")
  else if c =? 62 then Some (bs "&gt;")
  else if c =? 34 then Some (bs "&quot;")
  else None.

(** The loop of [EscapeHTML]; the writer [w] is the text written so far.
    It returns the writer, [start] and [end]. *)
Fixpoint EscapeHTML_loop (fuel : nat) (d : bytes) (w : bytes) (start end_ : Z)
  : bytes * Z * Z :=
  match fuel with
  | O => (w, start, end_)
  | S f =>
      if end_ <? len d then
        match Escaper d.[end_] with
        | Some escSeq =>
            EscapeHTML_loop f d (w ++ slice d start end_ ++ escSeq) (end_ + 1) (end_ + 1)
        | None => EscapeHTML_loop f d w start (end_ + 1)
        end
      else (w, start, end_)
  end.

Definition EscapeHTML (w : bytes) (d : bytes) : bytes :=
  let n := len d in
  let '(w, start, end_) := EscapeHTML_loop (length d) d w 0 0 in
  if (start <? n) && (end_ <=? n) then w ++ slice d start end_ else w.

(** [bytes.LastIndexByte] of the Go standard library: the index of the
    last [c] in [data], or -1. *)
Definition LastIndexByte (data : bytes) (c : byte) : Z :=
  backUntilChar data (len data) c - 1.

(** [input[:end]] with [end] the index of the last newline: a slice bound
    of -1 panics. *)
Definition SpecialTrim (input : bytes) : res bytes :=
  let end_ := LastIndexByte input nl in
  if end_ <? 0 then Panic else Ok (upto input end_).

(** What [EscapeHTML] writes for one byte. *)
Definition escaped (c : byte) : bytes :=
  match Escaper c with
  | Some escSeq => escSeq
  | None => [c]
  end.

(** ** Quoted text, stated on the bytes *)

(** A line of text that neither ends nor opens a fence: no newline, no
    tilde, no backtick. *)
Definition plain_text (l : bytes) : Prop :=
  ~ In nl l /\ ~ In c_tilde l /\ ~ In c_backtick l.

(** The lines [ls], each behind ["> "] and closed by a newline. *)
Definition quoted (ls : list bytes) : bytes :=
  flat_map (fun l => c_gt :: sp :: l ++ [nl]) ls.

(** The lines [ls], each closed by a newline. *)
Definition unquoted (ls : list bytes) : bytes :=
  flat_map (fun l => l ++ [nl]) ls.

(** ** Heading ids, stated on the bytes *)

(** Between [i] and [eol], the first ["{#"] is at [j] and the first ['}']
    behind it at [k]. *)
Definition heading_id_at (data : bytes) (i eol j k : Z) : Prop :=
  i <= j /\ j < k < eol /\
  data.[j] = c_lbrace /\ data.[j + 1] = c_hash /\ data.[k] = c_rbrace /\
  (forall x, i <= x < j -> data.[x] <> c_lbrace \/ data.[x + 1] <> c_hash) /\
  (forall x, j < x < k -> data.[x] <> c_rbrace).

(** No ["{#"] between [i] and [eol] has a ['}'] behind it. *)
Definition no_heading_id (data : bytes) (i eol : Z) : Prop :=
  forall j k, i <= j -> j < k < eol ->
    data.[j] = c_lbrace -> data.[j + 1] = c_hash -> data.[k] <> c_rbrace.

(** ** The turns of the gathering loop of [quote], stated on the bytes *)

(** Where the turn of the loop that starts at [b] ends: behind the line
    at [b], or behind the fenced code block that begins on it. *)
Definition quote_turn_end (ext : Z) (data : bytes) (b : Z) : Z :=
  skipCharN data (quote_line_end (length data) ext data b) nl 1.

(** The cursors at which the turns start, from [b] on: each turn starts
    where the one before it ended. *)
Fixpoint quote_turns (fuel : nat) (ext : Z) (data : bytes) (b : Z) : list Z :=
  match fuel with
  | O => []
  | S f =>
      if b <? len data
      then b :: quote_turns f ext data (quote_turn_end ext data b)
      else []
  end.

(** What the turn at [b] adds to the text of the quote: its extent
    without the quote prefix. *)
Definition quote_turn_text (ext : Z) (data : bytes) (b : Z) : bytes :=
  slice data (b + quotePrefix (from data b)) (quote_turn_end ext data b).

(** The text at [b] is a blank line, the last of the buffer or followed by
    a line that is neither blank nor quote-prefixed. *)
Definition closing_blank (data : bytes) (b : Z) : Prop :=
  exists ws, Forall blank ws /\
    ((from data b = ws /\ ws <> []) \/
     exists rest, from data b = ws ++ nl :: rest /\
       (rest = [] \/ (~ quote_prefixed rest /\ ~ blank_line rest))).

(** ** The lines of a list, stated on the bytes *)

(** The start of the line that ends just before offset [b]. *)
Definition prev_start (d : bytes) (b : Z) : Z := backUntilChar d (b - 1) nl.

(** The first line of [l], with its newline. *)
Definition line_of (l : bytes) : bytes := upto l (first_line l).

(** A line without its indentation: one tab, or up to four spaces. *)
Definition unindent (l : bytes) : bytes :=
  if l.[0] =? tab then from l 1 else from l (skipCharN l 0 sp 4).

(** A line that is a prefix heading behind its indentation. *)
Definition heading_line (ext : Z) (l : bytes) : bool :=
  isPrefixHeading ext (unindent l) || isPrefixSpecialHeading ext (unindent l).

(** A line of [d] starts at [b], other than the first; it is not blank;
    and the line before it is blank, or it is a prefix heading behind its
    indentation. *)
Definition loosens (ext : Z) (d : bytes) (b : Z) : bool :=
  (0 <? b) && (b <? len d) && (d.[b - 1] =? nl) && (IsEmpty (from d b) =? 0)
  && ((IsEmpty (slice d (prev_start d b) b) >? 0)
      || heading_line ext (line_of (from d b))).

(* ================================================================== *)
(** * Theorems *)

(** ** Slices and cursor loops *)

Lemma len_nonneg data : 0 <= len data.
Proof. unfold len. lia. Qed.

Lemma len_nil : len [] = 0.
Proof. reflexivity. Qed.

Lemma len_cons x (l : bytes) : len (x :: l) = len l + 1.
Proof. unfold len. simpl length. lia. Qed.

Lemma len_app (a b : bytes) : len (a ++ b) = len a + len b.
Proof. unfold len. rewrite length_app. lia. Qed.

Lemma len_repeat (c : byte) k : len (repeat c k) = Z.of_nat k.
Proof. unfold len. now rewrite repeat_length. Qed.

Lemma len_0 (l : bytes) : len l = 0 -> l = [].
Proof. destruct l; [reflexivity | rewrite len_cons; pose proof (len_nonneg l); lia]. Qed.

Lemma at_cons_0 x (l : bytes) : (x :: l).[0] = x.
Proof. reflexivity. Qed.

Lemma at_cons_S x (l : bytes) i : 0 < i -> (x :: l).[i] = l.[i - 1].
Proof.
  intro H. unfold at_. replace (Z.to_nat i) with (S (Z.to_nat (i - 1))) by lia.
  reflexivity.
Qed.

Lemma at_app_l (a b : bytes) i : 0 <= i < len a -> (a ++ b).[i] = a.[i].
Proof. unfold at_, len. intro H. apply app_nth1. lia. Qed.

Lemma at_app_r (a b : bytes) i : len a <= i -> (a ++ b).[i] = b.[i - len a].
Proof.
  unfold at_, len. intro H. rewrite app_nth2 by lia. f_equal. lia.
Qed.

Lemma at_repeat (c : byte) k i : 0 <= i < Z.of_nat k -> (repeat c k).[i] = c.
Proof.
  unfold at_. intro H. apply nth_repeat_lt. lia.
Qed.

Lemma from_0 data : from data 0 = data.
Proof. reflexivity. Qed.

Lemma from_nonpos data a : a <= 0 -> from data a = data.
Proof. unfold from. intro H. replace (Z.to_nat a) with O by lia. reflexivity. Qed.

Lemma from_all data a : len data <= a -> from data a = [].
Proof. unfold from, len. intro H. apply skipn_all2. lia. Qed.

Lemma from_cons x (l : bytes) a : 0 < a -> from (x :: l) a = from l (a - 1).
Proof.
  intro H. unfold from. replace (Z.to_nat a) with (S (Z.to_nat (a - 1))) by lia.
  reflexivity.
Qed.

Lemma from_app (a b : bytes) : from (a ++ b) (len a) = b.
Proof.
  unfold from, len. rewrite Nat2Z.id, skipn_app, skipn_all, Nat.sub_diag. reflexivity.
Qed.

Lemma len_from data a : 0 <= a <= len data -> len (from data a) = len data - a.
Proof. unfold from, len. intro H. rewrite length_skipn. lia. Qed.

Lemma at_from data a i : 0 <= a -> 0 <= i -> (from data a).[i] = data.[a + i].
Proof.
  unfold from, at_. intros Ha Hi. rewrite nth_skipn. f_equal. lia.
Qed.

Lemma from_from data a b : 0 <= a -> 0 <= b -> from (from data a) b = from data (a + b).
Proof.
  unfold from. intros Ha Hb. rewrite skipn_skipn. f_equal. lia.
Qed.

Lemma from_at data i : 0 <= i < len data -> from data i = data.[i] :: from data (i + 1).
Proof.
  unfold from, at_, len. intro H.
  replace (Z.to_nat (i + 1)) with (S (Z.to_nat i)) by lia.
  assert (Hk : (Z.to_nat i < length data)%nat) by lia.
  revert Hk. generalize (Z.to_nat i). clear H i.
  induction data as [|x l IH]; intros k Hk; simpl in Hk; [lia|].
  destruct k; [reflexivity|]. simpl. apply IH. lia.
Qed.

Lemma upto_from data i : upto data i ++ from data i = data.
Proof. apply firstn_skipn. Qed.

Lemma len_upto data b : 0 <= b <= len data -> len (upto data b) = b.
Proof. unfold upto, len. intro H. rewrite length_firstn. lia. Qed.

Lemma at_upto data b i : 0 <= i < b -> (upto data b).[i] = data.[i].
Proof.
  unfold upto, at_. intro H. rewrite nth_firstn.
  destruct (Nat.ltb_spec (Z.to_nat i) (Z.to_nat b)); [reflexivity | lia].
Qed.

(** A slice whose bytes are all [c] is a run of [c]. *)
Lemma all_repeat (l : bytes) c :
  (forall j, 0 <= j < len l -> l.[j] = c) -> l = repeat c (length l).
Proof.
  induction l as [|x l IH]; intro H; [reflexivity|]. simpl. f_equal.
  - apply (H 0). rewrite len_cons. pose proof (len_nonneg l). lia.
  - apply IH. intros j Hj. specialize (H (j + 1)).
    rewrite at_cons_S in H by lia. replace (j + 1 - 1) with j in H by lia.
    apply H. rewrite len_cons. lia.
Qed.

Lemma upto_repeat data c i :
  0 <= i <= len data -> (forall j, 0 <= j < i -> data.[j] = c) ->
  upto data i = repeat c (Z.to_nat i).
Proof.
  intros Hi H. pose proof (len_upto data i Hi) as L.
  rewrite (all_repeat (upto data i) c).
  - f_equal. unfold len in L. lia.
  - intros j Hj. rewrite at_upto by lia. apply H. lia.
Qed.

Section Advance.
Variable cond : Z -> bool.

Lemma advance_bounds fuel i :
  i <= advance fuel cond i <= i + Z.of_nat fuel.
Proof.
  revert i. induction fuel as [|f IH]; intro i; simpl; [lia|].
  destruct (cond i); [specialize (IH (i + 1))|]; lia.
Qed.

Lemma advance_true fuel i j :
  i <= j < advance fuel cond i -> cond j = true.
Proof.
  revert i. induction fuel as [|f IH]; intro i; simpl; [lia|].
  destruct (cond i) eqn:E; [|lia]. intro H.
  destruct (Z.eq_dec i j) as [->|]; [assumption|]. apply (IH (i + 1)). lia.
Qed.

Lemma advance_stop fuel i :
  advance fuel cond i < i + Z.of_nat fuel -> cond (advance fuel cond i) = false.
Proof.
  revert i. induction fuel as [|f IH]; intro i; simpl; [lia|].
  destruct (cond i) eqn:E; [|auto]. intro H. apply IH. lia.
Qed.

(** With the bound [n] the condition enforces, enough fuel always stops
    the loop on a false condition. *)
Lemma advance_stop_bounded fuel i n :
  (forall j, cond j = true -> j < n) -> n - i <= Z.of_nat fuel ->
  cond (advance fuel cond i) = false.
Proof.
  intros Hn Hf. destruct (Z_lt_dec (advance fuel cond i) (i + Z.of_nat fuel)).
  - now apply advance_stop.
  - destruct (cond (advance fuel cond i)) eqn:E; [|reflexivity].
    apply Hn in E. pose proof (advance_bounds fuel i). lia.
Qed.

Lemma advance_eq fuel i r :
  i <= r -> r - i <= Z.of_nat fuel ->
  (forall j, i <= j < r -> cond j = true) -> cond r = false ->
  advance fuel cond i = r.
Proof.
  revert i. induction fuel as [|f IH]; intros i Hir Hf Ht Hr; simpl; [lia|].
  destruct (Z.eq_dec i r) as [->|Hne]; [now rewrite Hr|].
  rewrite Ht by lia. apply IH; try lia; auto. intros j Hj. apply Ht. lia.
Qed.
End Advance.

Lemma advance_ext c1 c2 fuel i :
  (forall j, c1 j = c2 j) -> advance fuel c1 i = advance fuel c2 i.
Proof.
  intro H. revert i. induction fuel as [|f IH]; intro i; simpl; [reflexivity|].
  rewrite H, IH. reflexivity.
Qed.


Section SanitizeFacts.
Variable IsLetter IsNumber : rune -> bool.
Variable ToLower : rune -> rune.

Local Notation alnum r := (IsLetter r || IsNumber r).
Local Notation step := (sanitize_step IsLetter IsNumber ToLower).
Local Notation sanitize := (sanitizeHeadingID IsLetter IsNumber ToLower).
Local Notation lowered := (lowered IsLetter IsNumber ToLower).
Local Notation anchor := (anchor IsLetter IsNumber ToLower).

Hypothesis hyphen_not_alnum : alnum hyphen = false.
Hypothesis ToLower_alnum : forall r, alnum r = true -> alnum (ToLower r) = true.
Hypothesis ToLower_idem : forall r, alnum r = true -> ToLower (ToLower r) = ToLower r.
Hypothesis empty_lowered : Forall lowered str_empty.

Lemma lowered_ToLower r : alnum r = true -> lowered (ToLower r).
Proof. intro H. split; auto. Qed.

Lemma lowered_not_hyphen c : lowered c -> c <> hyphen.
Proof. intros [H _] ->. rewrite hyphen_not_alnum in H. discriminate. Qed.

Lemma anchor_nonempty a : anchor a -> a <> [].
Proof. destruct 1; discriminate. Qed.

Lemma anchor_snoc a c : anchor a -> lowered c -> anchor (a ++ [c]).
Proof.
  intros Ha Hc. induction Ha; simpl.
  - apply anchor_cons; [assumption|]. apply anchor_one, Hc.
  - apply anchor_cons; assumption.
  - apply anchor_sep; assumption.
Qed.

Lemma anchor_dash a c : anchor a -> lowered c -> anchor (a ++ [hyphen; c]).
Proof.
  intros Ha Hc. induction Ha; simpl.
  - apply anchor_sep; [assumption|]. apply anchor_one, Hc.
  - apply anchor_cons; assumption.
  - apply anchor_sep; assumption.
Qed.

Lemma step_lowered a fd c :
  lowered c -> step (a, fd) c =
    ((if fd && (0 <? Z.of_nat (length a)) then a ++ [hyphen] else a) ++ [c], false).
Proof. intros [H1 H2]. unfold sanitize_step. rewrite H1, H2. reflexivity. Qed.

Lemma step_hyphen a fd : step (a, fd) hyphen = (a, true).
Proof. unfold sanitize_step. rewrite hyphen_not_alnum. reflexivity. Qed.

Lemma fold_from_anchor a : forall b,
  anchor a -> b <> [] ->
  fold_left step a (b, true) = (b ++ hyphen :: a, false) /\
  fold_left step a (b, false) = (b ++ a, false).
Proof.
  intros b Ha. revert b.
  induction Ha as [c Hc | c a Hc Ha IH | c a Hc Ha IH]; intros b Hb;
    assert (Hlen : (0 <? Z.of_nat (length b)) = true)
      by (apply Z.ltb_lt; destruct b; [congruence | simpl length; lia]);
    (split; cbn [fold_left]; rewrite step_lowered by assumption;
     cbn [andb]; rewrite ?Hlen, ?step_hyphen, <- ?app_assoc; cbn [app]).
  - reflexivity.
  - reflexivity.
  - destruct (IH (b ++ [hyphen; c])) as [_ E]; [now destruct b|].
    rewrite E, <- app_assoc. reflexivity.
  - destruct (IH (b ++ [c])) as [_ E]; [now destruct b|].
    rewrite E, <- app_assoc. reflexivity.
  - destruct (IH (b ++ [hyphen; c])) as [E _]; [now destruct b|].
    rewrite E, <- app_assoc. reflexivity.
  - destruct (IH (b ++ [c])) as [E _]; [now destruct b|].
    rewrite E, <- app_assoc. reflexivity.
Qed.

(** Re-reading an anchor rebuilds it, and never leaves a dash pending. *)
Lemma fold_anchor a : anchor a -> fold_left step a ([], false) = (a, false).
Proof.
  intro Ha. destruct Ha as [c Hc | c a Hc Ha | c a Hc Ha];
    cbn [fold_left]; rewrite step_lowered by assumption; cbn [andb app].
  - reflexivity.
  - now destruct (fold_from_anchor a [c] Ha) as [_ ->].
  - rewrite step_hyphen. now destruct (fold_from_anchor a [c] Ha) as [-> _].
Qed.

Lemma step_alnum a fd r :
  alnum r = true -> step (a, fd) r =
    ((if fd && (0 <? Z.of_nat (length a)) then a ++ [hyphen] else a) ++ [ToLower r],
     false).
Proof. intro H. unfold sanitize_step. rewrite H. reflexivity. Qed.

Lemma step_other a fd r : alnum r = false -> step (a, fd) r = (a, true).
Proof. intro H. unfold sanitize_step. rewrite H. reflexivity. Qed.

(** The loop keeps its buffer empty or an anchor. *)
Lemma fold_keeps_anchor text : forall a fd,
  a = [] \/ anchor a ->
  let a' := fst (fold_left step text (a, fd)) in a' = [] \/ anchor a'.
Proof.
  induction text as [|r text IH]; intros a fd Ha; cbn [fold_left]; [exact Ha|].
  destruct (alnum r) eqn:Hr.
  - rewrite step_alnum by assumption.
    apply IH. right. pose proof (lowered_ToLower _ Hr) as Hl.
    destruct Ha as [-> | Ha].
    + rewrite andb_false_r. apply anchor_one, Hl.
    + destruct (fd && _).
      * rewrite <- app_assoc. apply anchor_dash; assumption.
      * apply anchor_snoc; assumption.
  - rewrite step_other by assumption. apply IH, Ha.
Qed.

Lemma fold_nothing text : forall a fd,
  Forall (fun r => alnum r = false) text ->
  fst (fold_left step text (a, fd)) = a.
Proof.
  induction text as [|r text IH]; intros a fd H; cbn [fold_left]; [reflexivity|].
  inversion H as [|? ? Hr Ht]; subst.
  rewrite step_other by assumption. apply IH, Ht.
Qed.

Lemma anchor_str_empty : anchor str_empty.
Proof.
  pose proof empty_lowered as H. unfold str_empty in *.
  repeat match goal with
         | H : Forall _ (_ :: _) |- _ => inversion H; clear H; subst
         end.
  do 4 (apply anchor_cons; [assumption|]). apply anchor_one; assumption.
Qed.

Lemma sanitize_anchor text : anchor (sanitize text).
Proof.
  unfold sanitizeHeadingID.
  pose proof (fold_keeps_anchor text [] false (or_introl eq_refl)) as H.
  simpl in H. destruct (fold_left step text ([], false)) as [a fd]. simpl in H.
  destruct H as [-> | H].
  - simpl. apply anchor_str_empty.
  - destruct a; [exfalso; eapply anchor_nonempty; eauto|]. exact H.
Qed.

Lemma sanitize_of_anchor a : anchor a -> sanitize a = a.
Proof.
  intro H. unfold sanitizeHeadingID. rewrite (fold_anchor _ H).
  destruct a; [exfalso; eapply anchor_nonempty; eauto|]. reflexivity.
Qed.

Lemma double_hyphen_cons x y t :
  double_hyphen (x :: y :: t) =
  ((x =? hyphen) && (y =? hyphen)) || double_hyphen (y :: t).
Proof. reflexivity. Qed.

Lemma anchor_shape a : anchor a ->
  Forall (fun c => c = hyphen \/ lowered c) a /\
  hd hyphen a <> hyphen /\ last a hyphen <> hyphen /\
  double_hyphen a = false.
Proof.
  induction 1 as [c Hc | c a Hc Ha IH | c a Hc Ha IH];
    pose proof (lowered_not_hyphen _ Hc) as Hn.
  - repeat split; simpl; auto.
  - destruct IH as (F & Hh & Hl & Hd). repeat split; auto.
    + destruct a; [exfalso; eapply anchor_nonempty; eauto|exact Hl].
    + destruct a as [|y a']; [reflexivity|].
      rewrite double_hyphen_cons, Hd.
      apply Z.eqb_neq in Hn. rewrite Hn. reflexivity.
  - destruct IH as (F & Hh & Hl & Hd). repeat split; auto.
    + destruct a; [exfalso; eapply anchor_nonempty; eauto|exact Hl].
    + destruct a as [|y a']; [exfalso; eapply anchor_nonempty; eauto|].
      rewrite !double_hyphen_cons, Hd.
      simpl in Hh. apply Z.eqb_neq in Hn, Hh. rewrite Hn, Hh.
      rewrite andb_false_r. reflexivity.
Qed.

(** C8: deriving a heading id from an already derived id changes nothing,
    and a heading text without any letter or number gets the id
    ["empty"]. *)
Theorem sanitizeHeadingID_idempotent :
  (forall x, sanitize (sanitize x) = sanitize x) /\
  (forall x, Forall (fun r => alnum r = false) x -> sanitize x = str_empty).
Proof.
  split; intro x.
  - apply sanitize_of_anchor, sanitize_anchor.
  - intro H. unfold sanitizeHeadingID.
    pose proof (fold_nothing x [] false H) as E.
    destruct (fold_left step x ([], false)) as [a fd]. simpl in E. subst a.
    reflexivity.
Qed.

(** C10 (amended): a derived heading id is never empty; each of its runes
    is a hyphen, or a letter or number (as [unicode.IsLetter] and
    [unicode.IsNumber] tell) that [unicode.ToLower] leaves unchanged,
    which need not be a lower-case letter or a digit; it neither starts
    nor ends with a hyphen and has no two hyphens in a row; the empty text
    gets the id ["empty"]. *)
Theorem sanitizeHeadingID_shape : forall x,
  let s := sanitize x in
  s <> [] /\
  Forall (fun c => c = hyphen \/ (alnum c = true /\ ToLower c = c)) s /\
  hd hyphen s <> hyphen /\
  last s hyphen <> hyphen /\
  double_hyphen s = false /\
  sanitize [] = str_empty.
Proof.
  intros x s. pose proof (sanitize_anchor x) as H. fold s in H.
  destruct (anchor_shape _ H) as (F & Hh & Hl & Hd).
  repeat split; auto. apply anchor_nonempty, H.
Qed.
End SanitizeFacts.

(** The ASCII instance meets the assumptions made on the Unicode tables. *)
Ltac ascii_cases :=
  unfold ascii_IsLetter, ascii_IsNumber, ascii_ToLower in *;
  repeat match goal with
         | H : context [?a <=? ?b] |- _ => destruct (Z.leb_spec a b)
         | |- context [?a <=? ?b] => destruct (Z.leb_spec a b)
         end;
  simpl in *; try reflexivity; try discriminate; try lia.

Lemma ascii_hyphen_not_alnum : ascii_IsLetter hyphen || ascii_IsNumber hyphen = false.
Proof. reflexivity. Qed.

Lemma ascii_ToLower_alnum r :
  ascii_IsLetter r || ascii_IsNumber r = true ->
  ascii_IsLetter (ascii_ToLower r) || ascii_IsNumber (ascii_ToLower r) = true.
Proof. intro H. ascii_cases. Qed.

Lemma ascii_ToLower_idem r :
  ascii_IsLetter r || ascii_IsNumber r = true ->
  ascii_ToLower (ascii_ToLower r) = ascii_ToLower r.
Proof. intro H. ascii_cases. Qed.

Lemma ascii_empty_lowered :
  Forall (lowered ascii_IsLetter ascii_IsNumber ascii_ToLower) str_empty.
Proof. repeat constructor. Qed.

Lemma sanitizeHeadingID_idempotent_witness :
  let f := sanitizeHeadingID ascii_IsLetter ascii_IsNumber ascii_ToLower in
  f (f hello_world) = f hello_world /\ f [63; 33] = str_empty.
Proof.
  destruct (sanitizeHeadingID_idempotent ascii_IsLetter ascii_IsNumber ascii_ToLower
              ascii_hyphen_not_alnum ascii_ToLower_alnum ascii_ToLower_idem
              ascii_empty_lowered) as [A B].
  split; [apply A | apply B; repeat constructor].
Defined.

Lemma sanitizeHeadingID_shape_witness :
  let s := sanitizeHeadingID ascii_IsLetter ascii_IsNumber ascii_ToLower hello_world in
  s <> [] /\ hd hyphen s <> hyphen /\ last s hyphen <> hyphen /\
  double_hyphen s = false.
Proof.
  destruct (sanitizeHeadingID_shape ascii_IsLetter ascii_IsNumber ascii_ToLower
              ascii_hyphen_not_alnum ascii_ToLower_alnum ascii_ToLower_idem
              ascii_empty_lowered hello_world) as (A & _ & B & C & D & _).
  repeat split; assumption.
Defined.

(** The heading text made of the one ideograph U+65E5 keeps it as its id:
    a letter, but not a lower-case letter, a digit or a hyphen. *)
Lemma caseless_letter_counterexample :
  cjk_IsLetter ideograph = true /\
  sanitizeHeadingID cjk_IsLetter ascii_IsNumber ascii_ToLower [ideograph] = [ideograph] /\
  cjk_IsLower ideograph = false /\ cjk_IsDigit ideograph = false /\
  ideograph <> hyphen.
Proof. repeat split; try reflexivity. discriminate. Qed.

(** ** Blank lines *)

Lemma skipCharN_1 data i c :
  0 <= i ->
  skipCharN data i c 1 = if (i <? len data) && (data.[i] =? c) then i + 1 else i.
Proof.
  intro Hi. unfold skipCharN. destruct data as [|x l]; simpl skipCharN_loop.
  - rewrite len_nil. destruct (Z.ltb_spec i 0); [lia | reflexivity].
  - change (0 <? 1) with true. rewrite andb_true_r.
    destruct ((i <? len (x :: l)) && ((x :: l).[i] =? c)); [|reflexivity].
    destruct l; simpl; [reflexivity|].
    replace (0 <? 1 - 1) with false by reflexivity.
    now rewrite andb_false_r.
Qed.

Lemma blank_not_nl c : blank c -> c <> nl.
Proof. intros [-> | ->]; discriminate. Qed.

Lemma IsEmpty_loop_spec fuel data : forall i,
  0 <= i -> len data - i <= Z.of_nat fuel ->
  match IsEmpty_loop fuel data i with
  | Some r => i <= r <= Z.max i (len data) /\
              (forall j, i <= j < r -> blank data.[j]) /\
              (r < len data -> data.[r] = nl)
  | None => exists j, i <= j < len data /\
              (forall k, i <= k < j -> blank data.[k]) /\
              data.[j] <> nl /\ ~ blank data.[j]
  end.
Proof.
  induction fuel as [|f IH]; intros i Hi Hf; simpl.
  - repeat split; intros; lia.
  - destruct (Z.ltb_spec i (len data)) as [Hlt|Hge]; simpl.
    2: { repeat split; intros; lia. }
    destruct (Z.eqb_spec data.[i] nl) as [Hnl|Hnl]; simpl.
    { repeat split; intros; lia. }
    destruct (Z.eqb_spec data.[i] sp) as [Hsp|Hsp]; simpl.
    + specialize (IH (i + 1) ltac:(lia) ltac:(lia)).
      destruct (IsEmpty_loop f data (i + 1)) as [r|].
      * destruct IH as (B & A & N). repeat split; try lia; auto.
        intros j Hj. destruct (Z.eq_dec j i) as [->|]; [now left|]. apply A. lia.
      * destruct IH as (j & B & A & N1 & N2). exists j. repeat split; auto; try lia.
        intros k Hk. destruct (Z.eq_dec k i) as [->|]; [now left|]. apply A. lia.
    + destruct (Z.eqb_spec data.[i] tab) as [Htab|Htab]; simpl.
      * specialize (IH (i + 1) ltac:(lia) ltac:(lia)).
        destruct (IsEmpty_loop f data (i + 1)) as [r|].
        -- destruct IH as (B & A & N). repeat split; try lia; auto.
           intros j Hj. destruct (Z.eq_dec j i) as [->|]; [now right|]. apply A. lia.
        -- destruct IH as (j & B & A & N1 & N2). exists j. repeat split; auto; try lia.
           intros k Hk. destruct (Z.eq_dec k i) as [->|]; [now right|]. apply A. lia.
      * exists i. repeat split; auto; try lia. intros [?|?]; contradiction.
Qed.

Lemma Forall_at (P : byte -> Prop) (l : bytes) :
  Forall P l <-> (forall j, 0 <= j < len l -> P l.[j]).
Proof.
  split.
  - intros H j Hj. rewrite Forall_forall in H. apply H. unfold at_.
    apply nth_In. unfold len in Hj. lia.
  - induction l as [|x l IH]; intro H; constructor.
    + apply (H 0). rewrite len_cons. pose proof (len_nonneg l). lia.
    + apply IH. intros j Hj. specialize (H (j + 1)).
      rewrite at_cons_S in H by lia. replace (j + 1 - 1) with j in H by lia.
      apply H. rewrite len_cons. lia.
Qed.

Lemma IsEmpty_nonneg data : 0 <= IsEmpty data.
Proof.
  unfold IsEmpty. destruct (len data =? 0); [lia|].
  pose proof (IsEmpty_loop_spec (length data) data 0 ltac:(lia)) as H.
  destruct (IsEmpty_loop (length data) data 0) as [r|]; [|lia].
  destruct H as (B & _); [unfold len; lia|].
  rewrite skipCharN_1 by lia. destruct (_ && _); lia.
Qed.

(** [IsEmpty] is positive exactly on a buffer that starts with a blank
    line. *)
Lemma IsEmpty_blank_line data : 0 < IsEmpty data <-> blank_line data.
Proof.
  unfold IsEmpty. destruct (Z.eqb_spec (len data) 0) as [H0|H0].
  { split; [lia|]. apply len_0 in H0. subst.
    intros (ws & _ & [[rest E] | [_ E]]); [|congruence].
    destruct ws; discriminate. }
  pose proof (len_nonneg data) as Hn.
  pose proof (IsEmpty_loop_spec (length data) data 0 ltac:(lia)) as H.
  destruct (IsEmpty_loop (length data) data 0) as [r|].
  - destruct H as (B & A & N); [unfold len; lia|].
    split.
    + intros _. exists (upto data r). split.
      * apply Forall_at. intros j Hj. rewrite len_upto in Hj by lia.
        rewrite at_upto by lia. apply A. lia.
      * destruct (Z_lt_dec r (len data)) as [Hr|Hr].
        -- left. exists (from data (r + 1)).
           rewrite <- (N Hr), <- from_at by lia. now rewrite upto_from.
        -- right. split; [|intros ->; now apply H0].
           rewrite <- (upto_from data r) at 1. rewrite from_all by lia.
           apply app_nil_r.
    + intros _. rewrite skipCharN_1 by lia.
      destruct (Z_lt_dec 0 r); [destruct (_ && _); lia|].
      assert (r = 0) by lia. subst r. rewrite (N ltac:(lia)).
      replace (0 <? len data) with true by (symmetry; apply Z.ltb_lt; lia).
      simpl. lia.
  - destruct H as (j & B & A & N1 & N2); [unfold len; lia|].
    split; [lia|]. intros (ws & F & E). exfalso.
    rewrite Forall_at in F. pose proof (len_nonneg ws) as Hw.
    destruct E as [[rest E] | [E _]]; subst data.
    + destruct (Z_lt_dec j (len ws)) as [Hj|Hj].
      * apply N2. rewrite at_app_l by lia. apply F. lia.
      * destruct (Z.eq_dec j (len ws)) as [->|Hne].
        -- apply N1. rewrite at_app_r, Z.sub_diag by lia. reflexivity.
        -- apply (blank_not_nl (ws ++ nl :: rest).[len ws]).
           ++ apply A. lia.
           ++ rewrite at_app_r, Z.sub_diag by lia. reflexivity.
    + apply N2, F. lia.
Qed.

Lemma IsEmpty_zero data : IsEmpty data = 0 <-> ~ blank_line data.
Proof.
  rewrite <- IsEmpty_blank_line. pose proof (IsEmpty_nonneg data). lia.
Qed.

(** ** Up to three leading spaces *)

Section Lead3.
Variable data : bytes.
Variable cond : Z -> bool.
Hypothesis cond_def :
  forall j, cond j = (j <? 3) && (j <? len data) && (data.[j] =? sp).

Lemma lead3_spec :
  let i := advance 3 cond 0 in
  0 <= i <= 3 /\ i <= len data /\ upto data i = repeat sp (Z.to_nat i) /\
  cond i = false.
Proof.
  intro i. pose proof (advance_bounds cond 3 0) as B. fold i in B.
  assert (T : forall j, 0 <= j < i -> cond j = true)
    by (intros j Hj; eapply advance_true; eauto).
  assert (L : i <= len data).
  { destruct (Z.eq_dec i 0); [pose proof (len_nonneg data); lia|].
    specialize (T (i - 1) ltac:(lia)). rewrite cond_def in T.
    apply andb_prop in T. destruct T as [T _]. apply andb_prop in T.
    destruct T as [_ T]. apply Z.ltb_lt in T. lia. }
  repeat split; try lia.
  - apply upto_repeat; [lia|]. intros j Hj. specialize (T j Hj).
    rewrite cond_def in T. apply andb_prop in T. destruct T as [_ T].
    now apply Z.eqb_eq in T.
  - apply advance_stop_bounded with (n := 3); [|simpl; lia].
    intros j Hj. rewrite cond_def in Hj. apply andb_prop in Hj.
    destruct Hj as [Hj _]. apply andb_prop in Hj. destruct Hj as [Hj _].
    now apply Z.ltb_lt in Hj.
Qed.

Lemma lead3_eq k rest :
  (k <= 3)%nat -> data = repeat sp k ++ rest ->
  ((k < 3)%nat -> rest = [] \/ rest.[0] <> sp) ->
  advance 3 cond 0 = Z.of_nat k.
Proof.
  intros Hk E Hrest. apply advance_eq; try (simpl; lia).
  - intros j Hj. rewrite cond_def, E, len_app, len_repeat.
    rewrite at_app_l by (rewrite len_repeat; lia).
    rewrite at_repeat by lia. rewrite Z.eqb_refl.
    pose proof (len_nonneg rest).
    replace (j <? 3) with true by (symmetry; apply Z.ltb_lt; lia).
    replace (j <? Z.of_nat k + len rest) with true
      by (symmetry; apply Z.ltb_lt; lia).
    reflexivity.
  - rewrite cond_def. destruct (Z.ltb_spec (Z.of_nat k) 3) as [H3|H3];
      [|reflexivity].
    destruct (Hrest ltac:(lia)) as [-> | Hne].
    + rewrite E, app_nil_r, len_repeat, Z.ltb_irrefl. reflexivity.
    + rewrite E, at_app_r by (rewrite len_repeat; lia).
      rewrite len_repeat, Z.sub_diag. apply Z.eqb_neq in Hne. rewrite Hne.
      now rewrite andb_false_r.
Qed.
End Lead3.

(** ** Block quote prefix *)

Lemma quotePrefix_cond data j :
  (fun i => (i <? 3) && (i <? len data) && (data.[i] =? sp)) j =
  (j <? 3) && (j <? len data) && (data.[j] =? sp).
Proof. reflexivity. Qed.

Lemma quotePrefix_nonneg data : 0 <= quotePrefix data.
Proof.
  unfold quotePrefix.
  destruct (lead3_spec data _ (quotePrefix_cond data)) as (B & _).
  repeat destruct (_ && _); lia.
Qed.

Lemma quotePrefix_value k rest :
  (k <= 3)%nat ->
  quotePrefix (repeat sp k ++ c_gt :: rest) =
  Z.of_nat k + 1 + match rest with
                   | c :: _ => if c =? sp then 1 else 0
                   | [] => 0
                   end.
Proof.
  intro Hk. unfold quotePrefix. set (data := repeat sp k ++ c_gt :: rest).
  rewrite (lead3_eq data _ (quotePrefix_cond data) k (c_gt :: rest) Hk eq_refl)
    by (intros _; right; discriminate).
  assert (L : len data = Z.of_nat k + 1 + len rest).
  { unfold data. rewrite len_app, len_repeat, len_cons. lia. }
  pose proof (len_nonneg rest) as Hr.
  replace (Z.of_nat k <? len data) with true by (symmetry; apply Z.ltb_lt; lia).
  unfold data at 1. rewrite at_app_r by (rewrite len_repeat; lia).
  rewrite len_repeat, Z.sub_diag, at_cons_0. simpl andb. cbv iota.
  unfold data. rewrite at_app_r by (rewrite len_repeat; lia).
  rewrite len_repeat. replace (Z.of_nat k + 1 - Z.of_nat k) with 1 by lia.
  fold data. rewrite L.
  destruct rest as [|c rest'].
  - rewrite len_nil. replace (Z.of_nat k + 1 <? Z.of_nat k + 1 + 0) with false
      by (symmetry; apply Z.ltb_ge; lia). simpl. lia.
  - rewrite len_cons in *. pose proof (len_nonneg rest').
    replace (Z.of_nat k + 1 <? Z.of_nat k + 1 + (len rest' + 1)) with true
      by (symmetry; apply Z.ltb_lt; lia).
    rewrite at_cons_S, at_cons_0 by lia. simpl andb.
    destruct (c =? sp); lia.
Qed.

Lemma quotePrefix_prefixed data : quotePrefix data <> 0 <-> quote_prefixed data.
Proof.
  split.
  - unfold quotePrefix.
    destruct (lead3_spec data _ (quotePrefix_cond data)) as (B & L & U & _).
    set (i := advance 3 _ 0) in *.
    destruct (Z.ltb_spec i (len data)) as [Hi|Hi]; [|simpl; congruence].
    destruct (Z.eqb_spec data.[i] c_gt) as [Hg|Hg]; [|simpl; congruence].
    intros _. exists (Z.to_nat i), (from data (i + 1)). split; [lia|].
    rewrite <- U, <- Hg, <- from_at by lia. now rewrite upto_from.
  - intros (k & rest & Hk & ->). rewrite quotePrefix_value by assumption.
    destruct rest as [|c r]; [|destruct (c =? sp)]; lia.
Qed.

Lemma blank_line_until l :
  blank_line l -> exists ws, Forall blank ws /\ blank_until l (len ws) /\
    ((exists rest, l = ws ++ nl :: rest) \/ (l = ws /\ l <> [])).
Proof.
  intros (ws & F & E). exists ws. split; [assumption|]. split; [|assumption].
  pose proof (len_nonneg ws) as Hw. rewrite Forall_at in F.
  destruct E as [[rest ->] | [-> Hne]]; unfold blank_until.
  - rewrite len_app, len_cons. pose proof (len_nonneg rest). repeat split; try lia.
    + intros j Hj. rewrite at_app_l by lia. now apply F.
    + intros _. rewrite at_app_r, Z.sub_diag by lia. reflexivity.
  - repeat split; try lia. intros j Hj. now apply F.
Qed.

Lemma blank_until_from data beg r j :
  0 <= beg -> 0 <= j <= r -> blank_until (from data beg) r ->
  blank_until (from data (beg + j)) (r - j).
Proof.
  intros Hb Hj Hbu. destruct (Z_le_gt_dec beg (len data)) as [Hlen|Hlen].
  - destruct Hbu as (B & A & N).
    rewrite len_from in B, N by lia.
    unfold blank_until. rewrite len_from by lia. repeat split; try lia.
    + intros k Hk. rewrite at_from by lia. specialize (A (j + k) ltac:(lia)).
      rewrite at_from in A by lia.
      now replace (beg + j + k) with (beg + (j + k)) by lia.
    + intro Hr. rewrite at_from by lia. specialize (N ltac:(lia)).
      rewrite at_from in N by lia.
      now replace (beg + j + (r - j)) with (beg + r) by lia.
  - assert (r = 0).
    { destruct Hbu as (B & _). rewrite from_all, len_nil in B by lia. lia. }
    assert (j = 0) by lia. subst. now rewrite Z.add_0_r.
Qed.

Lemma fence_cond l j :
  (fun i => (i <? len l) && (i <? 3) && (l.[i] =? sp)) j =
  (j <? 3) && (j <? len l) && (l.[j] =? sp).
Proof. cbv beta. now rewrite (andb_comm (j <? len l)). Qed.

(** No fence line starts on a blank line. *)
Lemma isFenceLine_blank l m r :
  blank_until l r -> isFenceLine l m = (0, [], None).
Proof.
  intros (B & A & N). unfold isFenceLine.
  destruct (lead3_spec l _ (fence_cond l)) as (Bi & L & U & _).
  set (i := advance 3 _ 0) in *.
  destruct (Z.geb_spec i (len l)) as [Hi|Hi]; [reflexivity|].
  assert (Hsp : forall j, 0 <= j < i -> l.[j] = sp).
  { intros j Hj. rewrite <- (at_upto l i) by lia. rewrite U.
    apply at_repeat. lia. }
  assert (Hir : i <= r).
  { destruct (Z_le_gt_dec i r); [assumption|].
    specialize (Hsp r ltac:(lia)). rewrite N in Hsp by lia. discriminate. }
  assert (Hc : blank l.[i] \/ l.[i] = nl).
  { destruct (Z.eq_dec i r) as [->|]; [right; apply N; lia | left; apply A; lia]. }
  destruct Hc as [[-> | ->] | ->]; reflexivity.
Qed.

Lemma fencedCodeBlock_blank l r :
  blank_until l r -> fencedCodeBlock_norender l = 0.
Proof.
  intro H. unfold fencedCodeBlock_norender, fencedCodeBlock_scan.
  now rewrite (isFenceLine_blank l [] r H).
Qed.

Lemma quotePrefix_blank l r : blank_until l r -> quotePrefix l = 0.
Proof.
  intros (B & A & N).
  destruct (Z.eq_dec (quotePrefix l) 0) as [|Hq]; [assumption|]. exfalso.
  apply quotePrefix_prefixed in Hq. destruct Hq as (k & rest & Hk & E).
  assert (Hg : l.[Z.of_nat k] = c_gt).
  { rewrite E, at_app_r by (rewrite len_repeat; lia).
    rewrite len_repeat, Z.sub_diag. reflexivity. }
  assert (Hl : Z.of_nat k < len l).
  { rewrite E, len_app, len_repeat, len_cons. pose proof (len_nonneg rest). lia. }
  assert (Hs : forall j, 0 <= j < Z.of_nat k -> l.[j] = sp).
  { intros j Hj. rewrite E, at_app_l by (rewrite len_repeat; lia).
    apply at_repeat. lia. }
  destruct (Z_lt_dec (Z.of_nat k) r) as [H1|H1].
  - destruct (A (Z.of_nat k) ltac:(lia)) as [H|H]; rewrite Hg in H; discriminate.
  - destruct (Z.eq_dec (Z.of_nat k) r) as [H2|H2].
    + rewrite H2, N in Hg by lia. discriminate.
    + specialize (Hs r ltac:(lia)). rewrite N in Hs by lia. discriminate.
Qed.

Lemma quote_line_end_blank ext data r : forall fuel e,
  0 <= e <= r -> r - e <= Z.of_nat fuel -> blank_until (from data e) (r - e) ->
  quote_line_end fuel ext data e = r.
Proof.
  induction fuel as [|f IH]; intros e He Hf Hb; simpl; [lia|].
  destruct (Z.eq_dec e r) as [->|Hne].
  - destruct Hb as (B & _ & N). rewrite Z.sub_diag in N.
    destruct (Z.ltb_spec r (len data)) as [Hr|Hr]; [|reflexivity].
    rewrite len_from in N by lia. specialize (N ltac:(lia)).
    rewrite at_from, Z.add_0_r in N by lia. rewrite N. reflexivity.
  - assert (Hlen : r <= len data).
    { destruct Hb as (B & _). pose proof (len_nonneg (from data e)).
      destruct (Z_le_gt_dec e (len data)).
      - rewrite len_from in B by lia. lia.
      - rewrite from_all, len_nil in B by lia. lia. }
    replace (e <? len data) with true by (symmetry; apply Z.ltb_lt; lia).
    assert (Hbl : blank data.[e]).
    { destruct Hb as (_ & A & _). specialize (A 0 ltac:(lia)).
      now rewrite at_from, Z.add_0_r in A by lia. }
    apply blank_not_nl, Z.eqb_neq in Hbl. rewrite Hbl. simpl negb. cbv iota.
    rewrite (fencedCodeBlock_blank _ _ Hb). rewrite andb_false_r.
    apply IH; try lia.
    replace (r - (e + 1)) with (r - e - 1) by lia.
    apply blank_until_from; [lia | lia | assumption].
Qed.

Lemma from_nonempty_len data beg :
  0 <= beg -> from data beg <> [] -> len data = beg + len (from data beg).
Proof.
  intros Hb Hne. destruct (Z_le_gt_dec beg (len data)).
  - rewrite len_from by lia. lia.
  - rewrite from_all in Hne by lia. congruence.
Qed.

Lemma blank_until_of ws tl :
  Forall blank ws -> (tl = [] \/ exists rest, tl = nl :: rest) ->
  blank_until (ws ++ tl) (len ws).
Proof.
  intros F Htl. rewrite Forall_at in F. pose proof (len_nonneg ws).
  pose proof (len_nonneg tl). unfold blank_until. rewrite len_app.
  repeat split; try lia.
  - intros j Hj. rewrite at_app_l by lia. now apply F.
  - intro Hlt. rewrite at_app_r, Z.sub_diag by lia.
    destruct Htl as [-> | [rest ->]]; [rewrite len_nil in Hlt; lia | reflexivity].
Qed.

(** The end of line [quote] computes on a blank line that has its newline. *)
Lemma quote_end_blank ext data beg ws rest :
  0 <= beg -> Forall blank ws -> from data beg = ws ++ nl :: rest ->
  skipCharN data (quote_line_end (length data) ext data beg) nl 1
    = beg + len ws + 1 /\
  from data (beg + len ws + 1) = rest /\
  len data = beg + len ws + 1 + len rest.
Proof.
  intros Hb F E. pose proof (len_nonneg ws) as Hw. pose proof (len_nonneg rest) as Hr.
  assert (L : len data = beg + len ws + 1 + len rest).
  { rewrite (from_nonempty_len data beg Hb) by (rewrite E; now destruct ws).
    rewrite E, len_app, len_cons. lia. }
  rewrite (quote_line_end_blank ext data (beg + len ws)).
  - assert (Hnl : data.[beg + len ws] = nl).
    { rewrite <- at_from, E, at_app_r, Z.sub_diag by lia. reflexivity. }
    rewrite skipCharN_1, Hnl by lia.
    replace (beg + len ws <? len data) with true by (symmetry; apply Z.ltb_lt; lia).
    repeat split; auto.
    replace (beg + len ws + 1) with (beg + (len ws + 1)) by lia.
    rewrite <- from_from, E by lia.
    replace (len ws + 1) with (len (ws ++ [nl])) by (rewrite len_app; reflexivity).
    change (nl :: rest) with ([nl] ++ rest). rewrite app_assoc. apply from_app.
  - lia.
  - change (Z.of_nat (length data)) with (len data). lia.
  - replace (beg + len ws - beg) with (len ws) by lia. rewrite E.
    apply blank_until_of; eauto.
Qed.

(** The same on a last line that lacks its newline. *)
Lemma quote_end_blank_eof ext data beg ws :
  0 <= beg -> Forall blank ws -> from data beg = ws -> ws <> [] ->
  skipCharN data (quote_line_end (length data) ext data beg) nl 1 = len data.
Proof.
  intros Hb F E Hne. pose proof (len_nonneg ws) as Hw.
  assert (L : len data = beg + len ws).
  { rewrite (from_nonempty_len data beg Hb) by congruence. now rewrite E. }
  rewrite (quote_line_end_blank ext data (len data)).
  - rewrite skipCharN_1 by lia. now rewrite Z.ltb_irrefl.
  - lia.
  - change (Z.of_nat (length data)) with (len data). lia.
  - replace (len data - beg) with (len ws) by lia. rewrite E.
    rewrite <- (app_nil_r ws) at 1. apply blank_until_of; auto.
Qed.

Lemma terminateBlockquote_spec data beg end_ :
  terminateBlockquote data beg end_ = true <->
  blank_line (from data beg) /\
  (len data <= end_ \/
   (~ quote_prefixed (from data end_) /\ ~ blank_line (from data end_))).
Proof.
  unfold terminateBlockquote.
  pose proof (IsEmpty_nonneg (from data beg)) as H0.
  destruct (Z.leb_spec (IsEmpty (from data beg)) 0) as [Hle|Hgt].
  - split; [discriminate|]. intros [Hb _]. apply IsEmpty_blank_line in Hb. lia.
  - apply IsEmpty_blank_line in Hgt.
    destruct (Z.geb_spec end_ (len data)) as [He|He].
    + split; [|reflexivity]. intros _. split; [assumption | left; lia].
    + rewrite andb_true_iff, !Z.eqb_eq, IsEmpty_zero.
      rewrite <- quotePrefix_prefixed. split.
      * intros [Hq Hb]. split; [assumption|]. right. split; [lia | assumption].
      * intros [_ [Hlen | [Hq Hb]]]; [lia|]. split; [|assumption].
        destruct (Z.eq_dec (quotePrefix (from data end_)) 0); tauto.
Qed.

Lemma quote_iter_break ext data beg raw :
  0 <= beg < len data ->
  fst (fst (quote_iter ext data beg raw)) = true <->
  exists ws, Forall blank ws /\
    (from data beg = ws \/
     exists rest, from data beg = ws ++ nl :: rest /\
       (rest = [] \/ (~ quote_prefixed rest /\ ~ blank_line rest))).
Proof.
  intro Hb. unfold quote_iter.
  set (e := skipCharN data (quote_line_end (length data) ext data beg) nl 1).
  assert (Hne : from data beg <> []).
  { rewrite from_at by lia. discriminate. }
  split.
  - destruct (Z.gtb_spec (quotePrefix (from data beg)) 0) as [Hp|Hp];
      [discriminate|].
    destruct (terminateBlockquote data beg e) eqn:T; [|discriminate]. intros _.
    apply terminateBlockquote_spec in T. destruct T as [Hbl Hend].
    destruct Hbl as (ws & F & [[rest E] | [E _]]); exists ws; (split; [assumption|]).
    + right. exists rest. split; [assumption|].
      destruct (quote_end_blank ext data beg ws rest ltac:(lia) F E) as (Ee & Er & L).
      fold e in Ee. rewrite Ee, Er in Hend.
      destruct Hend as [Hlen | Hnext]; [left | right; assumption].
      apply len_0. pose proof (len_nonneg rest). lia.
    + now left.
  - intros (ws & F & Hshape).
    assert (Hbl : blank_line (from data beg)).
    { exists ws. split; [assumption|].
      destruct Hshape as [E | (rest & E & _)]; [right | left; eauto].
      split; [assumption|]. assumption. }
    assert (Hq : quotePrefix (from data beg) = 0).
    { destruct (blank_line_until _ Hbl) as (ws' & _ & Hu & _).
      eapply quotePrefix_blank; eauto. }
    rewrite Hq. simpl.
    replace (terminateBlockquote data beg e) with true; [reflexivity|].
    symmetry. apply terminateBlockquote_spec. split; [assumption|].
    destruct Hshape as [E | (rest & E & Hrest)].
    + left. unfold e. rewrite (quote_end_blank_eof ext data beg ws); try lia; auto.
      congruence.
    + destruct (quote_end_blank ext data beg ws rest ltac:(lia) F E) as (Ee & Er & L).
      fold e in Ee. rewrite Ee, Er.
      destruct Hrest as [-> | Hrest]; [left | right; assumption].
      rewrite len_nil in L. lia.
Qed.


(** ** Runs of bytes *)

Lemma slice_split data i r :
  0 <= i <= r -> r <= len data ->
  data = upto data i ++ slice data i r ++ from data r.
Proof.
  intros Hi Hr. unfold slice.
  rewrite <- (upto_from data i) at 1. f_equal.
  rewrite <- (upto_from (from data i) (r - i)) at 1. f_equal.
  rewrite from_from by lia. f_equal. lia.
Qed.

Lemma len_slice data i r : 0 <= i <= r -> r <= len data -> len (slice data i r) = r - i.
Proof.
  intros Hi Hr. unfold slice. rewrite len_upto; [reflexivity|].
  rewrite len_from by lia. lia.
Qed.

Lemma at_slice data i r j : 0 <= i -> 0 <= j < r - i -> (slice data i r).[j] = data.[i + j].
Proof.
  intros Hi Hj. unfold slice. rewrite at_upto by lia. apply at_from; lia.
Qed.

Section Runs.
Variable P : byte -> bool.
Variable data : bytes.

Let cond := fun i => (i <? len data) && P data.[i].

Lemma advance_run_split fuel i :
  0 <= i <= len data -> len data - i <= Z.of_nat fuel ->
  let r := advance fuel cond i in
  i <= r <= len data /\
  Forall (fun x => P x = true) (slice data i r) /\
  (r < len data -> P data.[r] = false).
Proof.
  intros Hi Hf r. pose proof (advance_bounds cond fuel i) as B. fold r in B.
  assert (T : forall j, i <= j < r -> cond j = true)
    by (intros j Hj; eapply advance_true; eauto).
  assert (S : cond r = false).
  { apply advance_stop_bounded with (n := len data); [|assumption].
    intros j Hj. unfold cond in Hj. apply andb_prop in Hj.
    destruct Hj as [Hj _]. now apply Z.ltb_lt in Hj. }
  assert (L : r <= len data).
  { destruct (Z.eq_dec r i); [lia|]. specialize (T (r - 1) ltac:(lia)).
    unfold cond in T. apply andb_prop in T. destruct T as [T _].
    apply Z.ltb_lt in T. lia. }
  repeat split; try lia.
  - apply Forall_at. intros j Hj. rewrite len_slice in Hj by lia.
    rewrite at_slice by lia. specialize (T (i + j) ltac:(lia)).
    unfold cond in T. apply andb_prop in T. tauto.
  - intro Hr. unfold cond in S. apply Z.ltb_lt in Hr. rewrite Hr in S. exact S.
Qed.

Lemma advance_run pre run rest fuel :
  data = pre ++ run ++ rest -> Forall (fun x => P x = true) run ->
  (rest = [] \/ P rest.[0] = false) -> len run <= Z.of_nat fuel ->
  advance fuel cond (len pre) = len pre + len run.
Proof.
  intros E F Hrest Hf. pose proof (len_nonneg pre). pose proof (len_nonneg run).
  pose proof (len_nonneg rest). rewrite Forall_at in F.
  assert (L : len data = len pre + len run + len rest)
    by (rewrite E, !len_app; lia).
  apply advance_eq; try lia.
  - intros j Hj. unfold cond.
    replace (j <? len data) with true by (symmetry; apply Z.ltb_lt; lia).
    rewrite E, at_app_r, at_app_l by lia. apply F. lia.
  - unfold cond. destruct Hrest as [-> | Hr].
    + rewrite len_nil in L.
      replace (len pre + len run <? len data) with false
        by (symmetry; apply Z.ltb_ge; lia). reflexivity.
    + rewrite E, app_assoc, at_app_r by (rewrite len_app; lia).
      rewrite !len_app. replace (len pre + len run - (len pre + len run)) with 0 by lia.
      rewrite Hr. apply andb_false_r.
Qed.
End Runs.

(** ** Ordered list prefix and start number *)

Lemma skipCharN_loop_advance c data : forall fuel i max,
  0 <= i -> 0 <= max -> len data - i <= Z.of_nat fuel ->
  skipCharN_loop fuel data i c max =
  advance (Z.to_nat max) (fun j => (j <? len data) && (data.[j] =? c)) i.
Proof.
  induction fuel as [|f IH]; intros i max Hi Hm Hf; simpl.
  - destruct (Z.to_nat max); simpl; [reflexivity|].
    replace (i <? len data) with false by (symmetry; apply Z.ltb_ge; lia).
    reflexivity.
  - destruct (Z.ltb_spec 0 max) as [Hpos|Hz].
    + replace (Z.to_nat max) with (S (Z.to_nat (max - 1))) by lia. simpl.
      rewrite andb_true_r.
      destruct ((i <? len data) && (data.[i] =? c)); [|reflexivity].
      apply IH; lia.
    + replace (Z.to_nat max) with O by lia. simpl. now rewrite andb_false_r.
Qed.

Lemma advance_ext_bounded c1 c2 : forall fuel i,
  (forall j, i <= j < i + Z.of_nat fuel -> c1 j = c2 j) ->
  advance fuel c1 i = advance fuel c2 i.
Proof.
  induction fuel as [|f IH]; intros i H; simpl; [reflexivity|].
  rewrite (H i) by lia. destruct (c2 i); [|reflexivity]. apply IH.
  intros j Hj. apply H. lia.
Qed.

(** [skipCharN(data, 0, ' ', 3)] is the same scan as the explicit
    three-space loops. *)
Lemma skipCharN_lead3 data :
  skipCharN data 0 sp 3 =
  advance 3 (fun j => (j <? 3) && (j <? len data) && (data.[j] =? sp)) 0.
Proof.
  unfold skipCharN. rewrite skipCharN_loop_advance by (unfold len; lia).
  apply advance_ext_bounded. intros j Hj. simpl in Hj.
  replace (j <? 3) with true by (symmetry; apply Z.ltb_lt; lia). reflexivity.
Qed.

Lemma digit_cond data j :
  (fun i => (i <? len data) && (data.[i] >=? c_0) && (data.[i] <=? c_9)) j =
  (fun i => (i <? len data) && is_digit data.[i]) j.
Proof.
  cbv beta. unfold is_digit. rewrite <- andb_assoc. now rewrite Z.geb_leb.
Qed.

Lemma is_digit_not_sp d : is_digit d = true -> d <> sp.
Proof. unfold is_digit, c_0, c_9, sp. lia. Qed.

Lemma oliPrefix_value data k digits c w rest :
  ordered_prefix data k digits c w rest ->
  oliPrefix data = Z.of_nat k + len digits + 2.
Proof.
  intros (Hk & Hne & F & Hc & Hw & E). unfold oliPrefix.
  rewrite skipCharN_lead3.
  assert (Hd0 : is_digit (digits ++ c :: w :: rest).[0] = true).
  { destruct digits as [|d ds]; [congruence|]. now inversion F. }
  rewrite (lead3_eq data _ (quotePrefix_cond data) k (digits ++ c :: w :: rest) Hk E)
    by (intros _; right; now apply is_digit_not_sp).
  rewrite (advance_ext _ _ _ _ (digit_cond data)).
  pose proof (advance_run is_digit data (repeat sp k) digits (c :: w :: rest)
                (length data) E F) as R.
  rewrite len_repeat in R. rewrite R; clear R.
  2: { right. rewrite at_cons_0. destruct Hc as [-> | ->]; reflexivity. }
  2: { rewrite E. unfold len. rewrite !length_app. lia. }
  pose proof (len_nonneg digits) as Hd. pose proof (len_nonneg rest) as Hr.
  assert (Hpos : 0 < len digits).
  { destruct digits; [congruence|]. rewrite len_cons. pose proof (len_nonneg digits). lia. }
  assert (L : len data = Z.of_nat k + len digits + 2 + len rest).
  { rewrite E, !len_app, len_repeat, !len_cons. lia. }
  replace (Z.of_nat k =? Z.of_nat k + len digits) with false
    by (symmetry; apply Z.eqb_neq; lia).
  replace (Z.of_nat k + len digits >=? len data - 1) with false
    by (symmetry; rewrite Z.geb_leb; apply Z.leb_gt; lia).
  assert (A1 : data.[Z.of_nat k + len digits] = c).
  { rewrite E, at_app_r by (rewrite len_repeat; lia).
    rewrite len_repeat, at_app_r by lia.
    replace (Z.of_nat k + len digits - Z.of_nat k - len digits) with 0 by lia.
    reflexivity. }
  assert (A2 : data.[Z.of_nat k + len digits + 1] = w).
  { rewrite E, at_app_r by (rewrite len_repeat; lia).
    rewrite len_repeat, at_app_r by lia.
    replace (Z.of_nat k + len digits + 1 - Z.of_nat k - len digits) with 1 by lia.
    reflexivity. }
  rewrite A1, A2.
  destruct Hc as [-> | ->]; destruct Hw as [-> | ->]; reflexivity.
Qed.

Lemma oliPrefix_nonneg data : 0 <= oliPrefix data.
Proof.
  unfold oliPrefix. rewrite skipCharN_lead3.
  destruct (lead3_spec data _ (quotePrefix_cond data)) as (B & _).
  set (i := advance 3 _ 0) in *.
  pose proof (advance_bounds
    (fun i => (i <? len data) && (data.[i] >=? c_0) && (data.[i] <=? c_9))
    (length data) i).
  repeat destruct (_ || _); lia.
Qed.

Lemma oliPrefix_shape data :
  0 < oliPrefix data ->
  exists k digits c w rest, ordered_prefix data k digits c w rest.
Proof.
  unfold oliPrefix. rewrite skipCharN_lead3.
  destruct (lead3_spec data _ (quotePrefix_cond data)) as (B & L & U & _).
  set (i := advance 3 _ 0) in *.
  rewrite (advance_ext _ _ _ _ (digit_cond data)).
  destruct (advance_run_split is_digit data (length data) i ltac:(lia)
              ltac:(unfold len; lia)) as (Br & F & _).
  set (r := advance (length data) _ i) in *.
  destruct (Z.eqb_spec i r) as [|Hne]; [simpl; lia|].
  destruct (Z.geb_spec r (len data - 1)) as [|Hr]; [simpl; lia|]. simpl orb.
  destruct (Z.eqb_spec data.[r] c_dot) as [Hdot|Hdot];
    destruct (Z.eqb_spec data.[r] c_rparen) as [Hpar|Hpar];
    destruct (Z.eqb_spec data.[r + 1] sp) as [Hsp|Hsp];
    destruct (Z.eqb_spec data.[r + 1] tab) as [Htab|Htab];
    simpl; try lia; intros _;
    exists (Z.to_nat i), (slice data i r), data.[r], data.[r + 1],
           (from data (r + 1 + 1));
    (repeat split; [lia | | exact F | tauto | tauto | ]);
    try (intro E0; apply (f_equal len) in E0;
         rewrite len_slice, len_nil in E0 by lia; lia);
    rewrite <- U, <- !from_at by lia; apply slice_split; lia.
Qed.








(** ** Fence lines *)

Lemma bytes_eqb_eq a : forall b, bytes_eqb a b = true <-> a = b.
Proof.
  induction a as [|x a IH]; destruct b as [|y b]; simpl; split;
    try discriminate; try reflexivity.
  - intro H. apply andb_prop in H. destruct H as [H1 H2].
    apply Z.eqb_eq in H1. apply IH in H2. congruence.
  - intro H. inversion H; subst. rewrite Z.eqb_refl. now apply IH.
Qed.

Lemma skipChar_split data i c :
  0 <= i <= len data ->
  let r := skipChar data i c in
  i <= r <= len data /\ slice data i r = repeat c (Z.to_nat (r - i)) /\
  (r < len data -> data.[r] <> c).
Proof.
  intros Hi r.
  destruct (advance_run_split (fun x => x =? c) data (length data) i Hi
              ltac:(unfold len; lia)) as (B & F & N).
  fold (skipChar data i c) in B, F, N. fold r in B, F, N.
  split; [lia|]. split.
  - rewrite (all_repeat (slice data i r) c).
    + f_equal. pose proof (len_slice data i r ltac:(lia) ltac:(lia)) as L.
      unfold len in L. lia.
    + rewrite Forall_at in F. intros j Hj. now apply Z.eqb_eq, F.
  - intros Hr E. specialize (N Hr). apply Z.eqb_neq in N. contradiction.
Qed.

Lemma skipChar_run data pre k rest c :
  data = pre ++ repeat c k ++ rest -> (rest = [] \/ rest.[0] <> c) ->
  skipChar data (len pre) c = len pre + Z.of_nat k.
Proof.
  intros E Hrest. rewrite <- (len_repeat c k).
  apply (advance_run (fun x => x =? c) data pre (repeat c k) rest (length data) E).
  - apply Forall_forall. intros x Hx. apply repeat_spec in Hx. subst.
    apply Z.eqb_refl.
  - destruct Hrest as [-> | Hne]; [now left | right; now apply Z.eqb_neq].
  - rewrite E. unfold len. rewrite !length_app. lia.
Qed.

Lemma repeat_eq_inv (c d : byte) m k :
  (0 < m)%nat -> repeat c m = repeat d k -> c = d /\ m = k.
Proof.
  intros Hm E. assert (m = k).
  { apply (f_equal (@length _)) in E. now rewrite !repeat_length in E. }
  subst k. destruct m; [lia|]. simpl in E. inversion E. auto.
Qed.

(** What [isFenceLine] can return. *)
Lemma isFenceLine_result l old e m s :
  isFenceLine l old = (e, m, s) -> e <> 0 ->
  (e = len l \/ (0 < e <= len l /\ l.[e - 1] = nl)) /\
  exists c k, m = repeat c k /\ (3 <= k)%nat /\ fence_char c.
Proof.
  unfold isFenceLine.
  destruct (lead3_spec l _ (fence_cond l)) as (Bi & L & U & _).
  set (i := advance 3 _ 0) in *.
  destruct (Z.geb_spec i (len l)) as [|Hi]; [intros [= <- _ _]; congruence|].
  destruct (negb (l.[i] =? c_tilde) && negb (l.[i] =? c_backtick)) eqn:Hc;
    [intros [= <- _ _]; congruence|].
  destruct (skipChar_split l i l.[i] ltac:(lia)) as (Br & R & _).
  set (r := skipChar l i l.[i]) in *.
  destruct (Z.ltb_spec (r - i) 3) as [|Hsz]; [intros [= <- _ _]; congruence|].
  replace (r - (r - i)) with i by lia.
  assert (Hm : exists c k, slice l i r = repeat c k /\ (3 <= k)%nat /\ fence_char c).
  { exists l.[i], (Z.to_nat (r - i)). split; [assumption|]. split; [lia|].
    unfold fence_char. apply andb_false_iff in Hc.
    destruct Hc as [Hc|Hc]; apply negb_false_iff, Z.eqb_eq in Hc; auto. }
  assert (Tail : forall j s0 e m s,
    0 <= j <= len l ->
    (let j' := skipChar l j sp in
     if (j' >=? len l) || negb (l.[j'] =? nl)
     then if j' =? len l then (j', slice l i r, s0)
          else ((0, [], None) : Z * bytes * option bytes)
     else (j' + 1, slice l i r, s0)) = (e, m, s) -> e <> 0 ->
    (e = len l \/ (0 < e <= len l /\ l.[e - 1] = nl)) /\ m = slice l i r).
  { intros j s0 e' m' s' Hj. cbv zeta.
    destruct (skipChar_split l j sp Hj) as (Bj & _).
    set (j' := skipChar l j sp) in *.
    destruct (Z.geb_spec j' (len l)) as [Hge|Hlt]; simpl orb.
    - destruct (Z.eqb_spec j' (len l)); intros [= <- <- _] ?; [auto | congruence].
    - destruct (Z.eqb_spec l.[j'] nl) as [Hnl|Hnl]; simpl negb; cbv iota.
      + intros [= <- <- _] _. split; [right|reflexivity].
        replace (j' + 1 - 1) with j' by lia. split; [lia | assumption].
      + destruct (Z.eqb_spec j' (len l)); intros [= <- <- _] ?; [lia | congruence]. }
  destruct (negb (len old =? 0) && negb (bytes_eqb (slice l i r) old));
    [intros [= <- _ _]; congruence|].
  destruct (len old =? 0).
  - destruct (skipChar_split l r sp ltac:(lia)) as (Bq & _).
    set (q := skipChar l r sp) in *.
    destruct (Z.geb_spec q (len l)) as [Hq|Hq].
    + destruct (Z.eqb_spec q (len l)); intros [= <- <- _] ?; [|congruence].
      split; [now left | assumption].
    + destruct (syntaxRange l q) as [[ss sl] q'] eqn:Hsr.
      destruct ((ss =? 0) && (sl =? 0)); [intros [= <- _ _]; congruence|].
      intros Ht Hne.
      assert (Hq' : 0 <= q' <= len l).
      { unfold syntaxRange in Hsr.
        destruct (l.[q] =? c_lbrace).
        - match type of Hsr with context [advance ?f ?c ?a] =>
            pose proof (advance_run_split
              (fun x => negb (x =? c_rbrace) && negb (x =? nl)) l (length l)
              (q + 1) ltac:(lia) ltac:(unfold len; lia)) as (Ba & _ & _);
            rewrite (advance_ext c
              (fun i0 => (i0 <? len l) && (fun x => negb (x =? c_rbrace) && negb (x =? nl)) l.[i0]))
              in Hsr by (intro; cbv beta; now rewrite andb_assoc)
          end.
          set (a := advance (length l) _ (q + 1)) in *.
          destruct (Z.geb_spec a (len l)); simpl orb in Hsr.
          + inversion Hsr; subst. lia.
          + destruct (negb (l.[a] =? c_rbrace)); [inversion Hsr; subst; lia|].
            destruct (trim_front (length l) l (q + 1) (a - (q + 1))).
            inversion Hsr; subst. lia.
        - inversion Hsr; subst.
          destruct (advance_run_split (fun x => negb (x =? nl)) l (length l) q
                      ltac:(lia) ltac:(unfold len; lia)) as (Ba & _).
          unfold skipUntilChar. lia. }
      destruct (Tail q' _ _ _ _ Hq' Ht Hne) as [T1 ->]. split; assumption.
  - intros Ht Hne. destruct (Tail r _ _ _ _ ltac:(lia) Ht Hne) as [T1 ->].
    split; assumption.
Qed.

Lemma slice_app_mid (pre mid post : bytes) :
  slice (pre ++ mid ++ post) (len pre) (len pre + len mid) = mid.
Proof.
  unfold slice. rewrite from_app. replace (len pre + len mid - len pre) with (len mid) by lia.
  unfold upto, len. rewrite Nat2Z.id, firstn_app, firstn_all, Nat.sub_diag.
  simpl. apply app_nil_r.
Qed.

Lemma ends_nl_last l : ends_nl l -> 0 < len l /\ l.[len l - 1] = nl.
Proof.
  intros [d ->]. rewrite len_app. pose proof (len_nonneg d).
  change (len [nl]) with 1. split; [lia|].
  rewrite at_app_r by lia. replace (len d + 1 - 1 - len d) with 0 by lia.
  reflexivity.
Qed.

Lemma ends_nl_from l pos : 0 <= pos < len l -> ends_nl l -> ends_nl (from l pos).
Proof.
  intros Hp [d ->]. rewrite len_app in Hp. change (len [nl]) with 1 in Hp.
  exists (from d pos). unfold from. rewrite skipn_app.
  replace (Z.to_nat pos - length d)%nat with O by (unfold len in Hp; lia).
  reflexivity.
Qed.

Lemma fence_char_not_sp c : fence_char c -> c <> sp /\ c <> nl.
Proof. intros [-> | ->]; split; discriminate. Qed.

Lemma at_repeat_run (pre post : bytes) c k j :
  len pre <= j < len pre + Z.of_nat k -> (pre ++ repeat c k ++ post).[j] = c.
Proof.
  intro H. pose proof (len_nonneg pre). rewrite at_app_r by lia.
  rewrite at_app_l by (rewrite len_repeat; lia). apply at_repeat. lia.
Qed.

(** With a marker given, [isFenceLine] accepts exactly the closing fence
    lines of that marker. *)
Lemma isFenceLine_closing l c m :
  (3 <= m)%nat -> fence_char c -> ends_nl l ->
  fst (fst (isFenceLine l (repeat c m))) <> 0 <-> closing_fence (repeat c m) l.
Proof.
  intros Hm Hc Hnl. destruct (fence_char_not_sp c Hc) as [Hcsp Hcnl].
  assert (Hold : (len (repeat c m) =? 0) = false)
    by (apply Z.eqb_neq; rewrite len_repeat; lia).
  split.
  - unfold isFenceLine. rewrite Hold. cbn [negb andb].
    destruct (lead3_spec l _ (fence_cond l)) as (Bi & L & U & _).
    set (i := advance 3 _ 0) in *.
    destruct (Z.geb_spec i (len l)) as [|Hi]; [cbn [fst]; congruence|].
    destruct (negb (l.[i] =? c_tilde) && negb (l.[i] =? c_backtick)) eqn:Hfc;
      [cbn [fst]; congruence|].
    destruct (skipChar_split l i l.[i] ltac:(lia)) as (Br & R & _).
    set (r := skipChar l i l.[i]) in *.
    destruct (Z.ltb_spec (r - i) 3) as [|Hsz]; [cbn [fst]; congruence|].
    replace (r - (r - i)) with i by lia.
    destruct (bytes_eqb (slice l i r) (repeat c m)) eqn:Heq;
      [|cbn [negb fst]; congruence].
    apply bytes_eqb_eq in Heq. cbn [negb andb].
    rewrite Heq in R. symmetry in R.
    apply repeat_eq_inv in R; [|lia]. destruct R as [Hli Hri].
    destruct (skipChar_split l r sp ltac:(lia)) as (Bq & Q & _).
    set (q := skipChar l r sp) in *.
    destruct (ends_nl_last l Hnl) as [Hpos Hlast].
    assert (Hq : q < len l).
    { destruct (Z_lt_dec q (len l)); [assumption|]. exfalso.
      assert (q = len l) by lia.
      destruct (Z_lt_dec r q) as [Hrq|Hrq].
      - assert (E : (slice l r q).[len l - 1 - r] = sp)
          by (rewrite Q; apply at_repeat; lia).
        rewrite at_slice in E by lia.
        replace (r + (len l - 1 - r)) with (len l - 1) in E by lia.
        rewrite Hlast in E. discriminate E.
      - assert (E : (slice l i r).[len l - 1 - i] = c)
          by (rewrite Heq; apply at_repeat; lia).
        rewrite at_slice in E by lia.
        replace (i + (len l - 1 - i)) with (len l - 1) in E by lia. congruence. }
    destruct (Z.geb_spec q (len l)) as [|_]; [lia|]. cbn [orb].
    destruct (Z.eqb_spec l.[q] nl) as [Hqnl|Hqnl]; simpl negb; cbv iota.
    + intros _. exists (Z.to_nat i), (Z.to_nat (q - r)), (from l (q + 1)).
      split; [lia|]. rewrite <- U, <- Heq, <- Q, <- Hqnl, <- from_at by lia.
      rewrite (slice_split l i r) at 1 by lia. do 2 f_equal.
      rewrite (slice_split (from l r) 0 (q - r)) at 1
        by (rewrite ?len_from; lia).
      unfold upto at 1. simpl firstn. simpl app. f_equal.
      * unfold slice. rewrite from_0, Z.sub_0_r. reflexivity.
      * rewrite from_from by lia. f_equal. lia.
    + destruct (Z.eqb_spec q (len l)); [lia | cbn [fst]; congruence].
  - intros (k & t & rest & Hk & E).
    unfold isFenceLine. rewrite Hold. cbn [negb andb].
    assert (Hm0 : (repeat c m ++ repeat sp t ++ nl :: rest).[0] = c).
    { destruct m; [lia|]. reflexivity. }
    rewrite (lead3_eq l _ (fence_cond l) k _ Hk E)
      by (intros _; right; now rewrite Hm0).
    pose proof (len_nonneg rest) as Hr.
    assert (L : len l = Z.of_nat k + Z.of_nat m + Z.of_nat t + 1 + len rest).
    { rewrite E, !len_app, !len_repeat, len_cons. lia. }
    replace (Z.of_nat k >=? len l) with false
      by (symmetry; rewrite Z.geb_leb; apply Z.leb_gt; lia).
    assert (Hlk : l.[Z.of_nat k] = c).
    { rewrite E. apply at_repeat_run. rewrite len_repeat. lia. }
    rewrite Hlk.
    replace (negb (c =? c_tilde) && negb (c =? c_backtick)) with false
      by (destruct Hc as [-> | ->]; reflexivity).
    assert (Hr1 : skipChar l (Z.of_nat k) c = Z.of_nat k + Z.of_nat m).
    { rewrite <- (len_repeat sp k). apply skipChar_run with (rest := repeat sp t ++ nl :: rest).
      - exact E.
      - right. destruct t; simpl; rewrite at_cons_0; congruence. }
    rewrite Hr1.
    replace (Z.of_nat k + Z.of_nat m - Z.of_nat k <? 3) with false
      by (symmetry; apply Z.ltb_ge; lia).
    replace (Z.of_nat k + Z.of_nat m - (Z.of_nat k + Z.of_nat m - Z.of_nat k))
      with (Z.of_nat k) by lia.
    assert (Hsl : slice l (Z.of_nat k) (Z.of_nat k + Z.of_nat m) = repeat c m).
    { rewrite E.
      pose proof (slice_app_mid (repeat sp k) (repeat c m) (repeat sp t ++ nl :: rest))
        as Hs.
      now rewrite !len_repeat in Hs. }
    rewrite Hsl.
    replace (bytes_eqb (repeat c m) (repeat c m)) with true
      by (symmetry; now apply bytes_eqb_eq).
    cbn [negb andb].
    assert (Hr2 : skipChar l (Z.of_nat k + Z.of_nat m) sp
                  = Z.of_nat k + Z.of_nat m + Z.of_nat t).
    { replace (Z.of_nat k + Z.of_nat m) with (len (repeat sp k ++ repeat c m))
        by (rewrite len_app, !len_repeat; lia).
      apply skipChar_run with (rest := nl :: rest).
      - rewrite E, <- !app_assoc. reflexivity.
      - right. rewrite at_cons_0. discriminate. }
    rewrite Hr2.
    replace (Z.of_nat k + Z.of_nat m + Z.of_nat t >=? len l) with false
      by (symmetry; rewrite Z.geb_leb; apply Z.leb_gt; lia).
    assert (Hq : l.[Z.of_nat k + Z.of_nat m + Z.of_nat t] = nl).
    { rewrite E, !app_assoc, at_app_r by (rewrite !len_app, !len_repeat; lia).
      rewrite !len_app, !len_repeat.
      replace (_ - _) with 0 by lia. reflexivity. }
    rewrite Hq. simpl. lia.
Qed.

Lemma skipUntilChar_first data i c :
  0 <= i <= len data ->
  let r := skipUntilChar data i c in
  i <= r <= len data /\ (forall j, i <= j < r -> data.[j] <> c) /\
  (r < len data -> data.[r] = c).
Proof.
  intros Hi r.
  destruct (advance_run_split (fun x => negb (x =? c)) data (length data) i Hi
              ltac:(unfold len; lia)) as (B & F & N).
  fold (skipUntilChar data i c) in B, F, N. fold r in B, F, N.
  split; [lia|]. split.
  - intros j Hj. rewrite Forall_at in F. specialize (F (j - i)).
    rewrite len_slice, at_slice in F by lia.
    replace (i + (j - i)) with j in F by lia.
    apply Z.eqb_neq, negb_true_iff, F. lia.
  - intro Hr. apply Z.eqb_eq, negb_false_iff, N, Hr.
Qed.

Lemma isFenceLine_nil old : isFenceLine [] old = (0, [], None).
Proof. reflexivity. Qed.

(** The scanning loop finds a closing fence exactly when one of the lines
    from [beg] on is accepted by [isFenceLine]. *)
Lemma fence_scan_spec data marker : forall fuel beg work,
  0 <= beg <= len data -> len data - beg <= Z.of_nat fuel ->
  (forall e w, fence_scan fuel data marker beg work = Some (e, w) -> beg < e) /\
  (fence_scan fuel data marker beg work <> None <->
   exists pos, (pos = beg \/ (beg < pos /\ data.[pos - 1] = nl)) /\
     pos < len data /\ fst (fst (isFenceLine (from data pos) marker)) <> 0).
Proof.
  induction fuel as [|f IH]; intros beg work Hb Hf; simpl.
  - split; [discriminate|]. split; [congruence|].
    intros (pos & Hp & Hlen & _). exfalso. lia.
  - destruct (isFenceLine (from data beg) marker) as [[fenceEnd m] s] eqn:Hfl.
    destruct (Z.eqb_spec fenceEnd 0) as [H0|H0]; simpl negb; cbv iota.
    + destruct (skipUntilChar_first data beg nl) as (Br & Hno & Hnl).
      { lia. }
      set (r := skipUntilChar data beg nl) in *.
      destruct (Z.geb_spec (r + 1) (len data)) as [Hge|Hlt].
      * split; [discriminate|]. split; [congruence|].
        intros (pos & [-> | [Hp Hpnl]] & Hlen & Hne); exfalso.
        -- rewrite Hfl in Hne. simpl in Hne. contradiction.
        -- destruct (Z_lt_dec (pos - 1) r); [|lia].
           apply (Hno (pos - 1)); [lia | assumption].
      * destruct (IH (r + 1) (work ++ slice data beg (r + 1)) ltac:(lia) ltac:(lia))
          as [IH1 IH2].
        split.
        -- intros e w He. specialize (IH1 e w He). lia.
        -- rewrite IH2. split.
           ++ intros (pos & [-> | [Hp Hpnl]] & Hlen & Hne); exists pos || exists (r + 1).
              ** split; [right; split; [lia|] | auto].
                 replace (r + 1 - 1) with r by lia. apply Hnl. lia.
              ** split; [right; split; [lia | assumption] | auto].
           ++ intros (pos & [-> | [Hp Hpnl]] & Hlen & Hne).
              ** rewrite Hfl in Hne. simpl in Hne. contradiction.
              ** exists pos. split; [|auto].
                 destruct (Z.eq_dec pos (r + 1)); [now left | right].
                 split; [|assumption].
                 destruct (Z_lt_dec (pos - 1) r); [|lia].
                 exfalso. apply (Hno (pos - 1)); [lia | assumption].
    + assert (Hlen : beg < len data).
      { destruct (Z_lt_dec beg (len data)); [assumption|].
        rewrite from_all, isFenceLine_nil in Hfl by lia. congruence. }
      destruct (isFenceLine_result _ _ _ _ _ Hfl H0) as [Hres _].
      split.
      * intros e w [= <- _]. pose proof (len_nonneg (from data beg)). lia.
      * split; [|discriminate]. intros _. exists beg.
        split; [now left|]. split; [assumption|]. now rewrite Hfl.
Qed.

(** C1 (amended): after a fence-opening first line, [fencedCodeBlock]
    recognises a block exactly when a later line is a closing fence made of
    the opening marker itself (same character, same run length); with no
    such line it consumes 0 bytes. *)
Theorem fenced_code_block_closing : forall data beg marker syn,
  ends_nl data -> isFenceLine data [] = (beg, marker, syn) -> beg <> 0 ->
  (exists c m, marker = repeat c m /\ (3 <= m)%nat /\ fence_char c) /\
  (fencedCodeBlock_norender data <> 0 <->
   exists pos, later_line data beg pos /\ closing_fence marker (from data pos)) /\
  ((forall pos, later_line data beg pos -> ~ closing_fence marker (from data pos)) ->
   fencedCodeBlock_norender data = 0).
Proof.
  intros data beg marker syn Hnl Hfl Hbeg.
  destruct (isFenceLine_result _ _ _ _ _ Hfl Hbeg) as [Hres (c & m & -> & Hm & Hc)].
  split; [eauto|].
  assert (Hiff : fencedCodeBlock_norender data <> 0 <->
    exists pos, later_line data beg pos /\
      closing_fence (repeat c m) (from data pos)).
  { unfold fencedCodeBlock_norender, fencedCodeBlock_scan. rewrite Hfl.
    destruct (Z.eqb_spec beg 0) as [|_]; [contradiction|]. simpl orb.
    destruct (Z.geb_spec beg (len data)) as [Hge|Hlt].
    - split; [congruence|]. intros (pos & [Hp _] & _). lia.
    - assert (Hb : 0 < beg /\ data.[beg - 1] = nl) by (destruct Hres; [lia | tauto]).
      match goal with |- context [fence_scan _ _ _ _ ?w] => set (work := w) end.
      destruct (fence_scan_spec data (repeat c m) (length data) beg work
                  ltac:(lia) ltac:(unfold len; lia)) as [S1 S2].
      assert (Hpos : fence_scan (length data) data (repeat c m) beg work <> None <->
                match fence_scan (length data) data (repeat c m) beg work with
                | Some (beg0, _) => beg0
                | None => 0
                end <> 0).
      { destruct (fence_scan (length data) data (repeat c m) beg work)
          as [[e w]|]; [|tauto].
        specialize (S1 e w eq_refl). split; [lia | congruence]. }
      rewrite <- Hpos, S2. split.
      + intros (pos & Hp & Hlen & Hne). exists pos. split.
        * destruct Hp as [-> | [Hp Hpnl]]; split; (lia || tauto).
        * apply isFenceLine_closing; auto. apply ends_nl_from; [lia | assumption].
      + intros (pos & [Hp Hpnl] & Hcl). exists pos. split; [|split; [lia|]].
        * destruct (Z.eq_dec pos beg); [now left | right; split; [lia | assumption]].
        * apply isFenceLine_closing; auto. apply ends_nl_from; [lia | assumption]. }
  split; [assumption|]. intro Hnone.
  destruct (Z.eq_dec (fencedCodeBlock_norender data) 0) as [|Hne]; [assumption|].
  apply Hiff in Hne. destruct Hne as (pos & Hl & Hcf). exfalso. eapply Hnone; eauto.
Qed.

Lemma fenced_code_block_closing_witness :
  let data := bs "```go\nx := 1\n```\n"%string in
  fencedCodeBlock_norender data <> 0 <->
  exists pos, later_line data 6 pos /\
    closing_fence [c_backtick; c_backtick; c_backtick] (from data pos).
Proof.
  intro data.
  destruct (fenced_code_block_closing data 6 [c_backtick; c_backtick; c_backtick]
              (Some [103; 111])) as (_ & H & _).
  - exists (bs "```go\nx := 1\n```"%string). reflexivity.
  - vm_compute. reflexivity.
  - lia.
  - exact H.
Defined.

(** C1 as stated fails: three backticks closed by five.  The closing line
    is a fence of the same character and a longer run, yet nothing is
    recognised. *)
Lemma fenced_code_longer_closer_counterexample :
  ~ (forall data beg marker syn,
       ends_nl data -> isFenceLine data [] = (beg, marker, syn) -> beg <> 0 ->
       (fencedCodeBlock_norender data <> 0 <->
        exists pos c m m',
          marker = repeat c m /\ (m <= m')%nat /\ later_line data beg pos /\
          closing_fence (repeat c m') (from data pos))).
Proof.
  intro H.
  specialize (H (bs "```\nx\n`````\n"%string) 4
                [c_backtick; c_backtick; c_backtick] (Some [])).
  destruct H as [_ H].
  - exists (bs "```\nx\n`````"%string). reflexivity.
  - vm_compute. reflexivity.
  - lia.
  - apply H; [|vm_compute; reflexivity].
    exists 6, c_backtick, 3%nat, 5%nat. split; [reflexivity|]. split; [lia|].
    split.
    + split; [vm_compute; split; congruence | reflexivity].
    + exists 0%nat, 0%nat, []. split; [lia | reflexivity].
Qed.

(** ** The frame of the tree operations *)

Create HintDb framedb.

Lemma preserves_refl k p : preserves k p p.
Proof. unfold preserves. repeat split; auto. Qed.

Lemma preserves_trans k p p1 p2 :
  preserves k p p1 -> preserves k p1 p2 -> preserves k p p2.
Proof.
  intros (A1 & A2 & A3 & A4 & A5 & A6) (B1 & B2 & B3 & B4 & B5 & B6).
  unfold preserves. repeat split; try congruence; try lia; auto.
  intros id Hid. rewrite B5, A5 by assumption. reflexivity.
Qed.

Lemma preserves_weaken k k' p p' :
  (k' <= k)%nat -> preserves k p p' -> preserves k' p p'.
Proof.
  intros Hk (A1 & A2 & A3 & A4 & A5 & A6). unfold preserves. repeat split; auto.
  intros id Hid. apply A5. lia.
Qed.

Lemma frame_ordered p p' : frame p p' -> ordered p -> ordered p'.
Proof. intros (_ & _ & _ & _ & _ & H). exact H. Qed.

Lemma frame_refl p : frame p p.
Proof. apply preserves_refl. Qed.

Lemma frame_trans p p1 p2 : frame p p1 -> frame p1 p2 -> frame p p2.
Proof.
  intros H1 H2. unfold frame in *. eapply preserves_trans; [exact H1|].
  eapply preserves_weaken; [|exact H2]. destruct H1 as (_ & _ & _ & L & _). exact L.
Qed.

Lemma frame_preserves k p p' : frame p p' -> (k <= length (nodes p))%nat -> preserves k p p'.
Proof. intros H Hk. eapply preserves_weaken; eauto. Qed.

Lemma frame_set_tip p t : frame p (set_tip p t).
Proof. unfold frame, preserves. simpl. repeat split; auto. Qed.

Lemma frame_set_attr p a : frame p (set_attr p a).
Proof. unfold frame, preserves. simpl. repeat split; auto. Qed.

Lemma frame_set_includeStack p st : frame p (set_includeStack p st).
Proof. unfold frame, preserves. simpl. repeat split; auto. Qed.

Lemma frame_set_allHeadingsWithAutoID p hs : frame p (set_allHeadingsWithAutoID p hs).
Proof. unfold frame, preserves. simpl. repeat split; auto. Qed.

Lemma frame_Finalize p b : frame p (Finalize p b).
Proof. unfold frame, preserves. simpl. repeat split; auto. Qed.

Lemma length_update_nth ns f : forall id, length (update_nth ns id f) = length ns.
Proof.
  induction ns as [|n ns IH]; intros [|id]; simpl; auto.
Qed.

Lemma nth_error_update_nth ns f : forall id id',
  nth_error (update_nth ns id f) id' =
  if Nat.eqb id' id then option_map f (nth_error ns id) else nth_error ns id'.
Proof.
  induction ns as [|n ns IH]; intros [|id] [|id']; simpl; auto;
    try (now destruct (Nat.eqb id' id)); try (now destruct id').
Qed.

Lemma data_at_update_node p id f id' :
  data_at (update_node p id f) id' =
  if Nat.eqb id' id then option_map (fun n => node_data (f n)) (nth_error (nodes p) id)
  else data_at p id'.
Proof.
  unfold data_at, update_node. simpl. rewrite nth_error_update_nth.
  destruct (Nat.eqb id' id); [|reflexivity]. now destruct (nth_error (nodes p) id).
Qed.

Lemma ordered_update_node p id f :
  (forall n, nth_error (nodes p) id = Some n -> node_parent (f n) = node_parent n) ->
  ordered p -> ordered (update_node p id f).
Proof.
  intros Hf O id' n q Hn Hq. unfold update_node in Hn. simpl in Hn.
  rewrite nth_error_update_nth in Hn.
  destruct (Nat.eqb_spec id' id) as [->|Hne]; [|eapply O; eauto].
  destruct (nth_error (nodes p) id) as [m|] eqn:E; [|discriminate].
  injection Hn as <-. rewrite (Hf m eq_refl) in Hq. eapply O; eauto.
Qed.

(** Updating a node at or above [k], without touching its parent,
    preserves the nodes below [k]. *)
Lemma preserves_update_node k p id f :
  (forall n, nth_error (nodes p) id = Some n -> node_parent (f n) = node_parent n) ->
  (k <= id)%nat -> preserves k p (update_node p id f).
Proof.
  intros Hf Hk. unfold preserves. simpl. rewrite length_update_nth.
  repeat split; auto; [|now apply ordered_update_node].
  intros id' Hid. rewrite data_at_update_node.
  destruct (Nat.eqb_spec id' id); [lia | reflexivity].
Qed.

(** An update that keeps the node data and the parent keeps the frame. *)
Lemma frame_update_node p id f :
  (forall n, node_data (f n) = node_data n) ->
  (forall n, node_parent (f n) = node_parent n) ->
  frame p (update_node p id f).
Proof.
  intros Hf Hg. unfold frame, preserves. simpl. rewrite length_update_nth.
  repeat split; auto; [|apply ordered_update_node; auto].
  intros id' Hid. rewrite data_at_update_node.
  destruct (Nat.eqb_spec id' id) as [->|]; [|reflexivity].
  unfold data_at. destruct (nth_error (nodes p) id); simpl; [|reflexivity].
  now rewrite Hf.
Qed.

(** A node appended under a node that exists. *)
Lemma frame_append p n t :
  node_parent n = Some t -> (t < length (nodes p))%nat ->
  frame p (set_nodes p (nodes p ++ [n])).
Proof.
  intros Hp Ht. unfold frame, preserves. simpl. rewrite length_app. simpl.
  repeat split; auto; try lia.
  - intros id Hid. unfold data_at. simpl. now rewrite nth_error_app1.
  - intros O id m q Hm Hq. simpl in Hm.
    destruct (Nat.lt_ge_cases id (length (nodes p))) as [Hlt|Hge].
    + rewrite nth_error_app1 in Hm by assumption. eapply O; eauto.
    + rewrite nth_error_app2 in Hm by assumption.
      destruct (id - length (nodes p))%nat as [|k] eqn:E; simpl in Hm.
      * injection Hm as <-. rewrite Hp in Hq. injection Hq as <-. lia.
      * now destruct k.
Qed.

Lemma closeUntilContains_nodes v : forall fuel p p',
  closeUntilContains fuel p v = Ok p' ->
  frame p p' /\ nodes p' = nodes p /\
  exists t, tip p' = Some t /\ (t < length (nodes p'))%nat.
Proof.
  induction fuel as [|f IH]; intros p p' H; simpl in H; [discriminate|].
  destruct (tip p) as [t|] eqn:Et; [|discriminate].
  destruct (node_at p t) as [n|] eqn:En; [|discriminate].
  destruct (canNodeContain (node_data n) v).
  - inversion H; subst. split; [apply frame_refl|]. split; [reflexivity|].
    exists t. split; [exact Et|]. apply nth_error_Some. unfold node_at in En.
    now rewrite En.
  - apply IH in H. destruct H as (H1 & H2 & H3). split; [|split; [exact H2|exact H3]].
    eapply frame_trans; [apply frame_Finalize | exact H1].
Qed.

Lemma bind_Ok {A B} (r : res A) (k : A -> res B) b :
  bind r k = Ok b -> exists a, r = Ok a /\ k a = Ok b.
Proof. destruct r; simpl; intro H; [eauto | discriminate | discriminate]. Qed.

(** [addChild] appends exactly one node, at the next free index. *)
Lemma addChild_spec p node id p' :
  addChild p node = Ok (id, p') ->
  frame p p' /\ id = length (nodes p) /\
  length (nodes p') = S (length (nodes p)) /\
  data_at p' id = Some (node_data node).
Proof.
  unfold addChild. intro H. apply bind_Ok in H. destruct H as (p1 & H1 & H).
  apply closeUntilContains_nodes in H1. destruct H1 as (F1 & N1 & t' & T1 & T2).
  destruct (tip p1) as [t|]; [|discriminate]. injection T1 as <-.
  injection H as Hid Hp. subst id p'. rewrite <- N1.
  split; [|split; [reflexivity|split]].
  - eapply frame_trans; [exact F1|].
    set (f := fun n : Node => with_children (node_children n ++ [length (nodes p1)]) n).
    apply frame_trans with (update_node p1 t f);
      [apply frame_update_node; reflexivity|].
    eapply frame_trans; [|apply frame_set_tip].
    apply (frame_append (update_node p1 t f) (with_parent (Some t) node) t);
      [reflexivity|].
    simpl. now rewrite length_update_nth.
  - simpl. rewrite length_app, length_update_nth. simpl. lia.
  - unfold data_at. simpl. rewrite nth_error_app2 by (rewrite length_update_nth; lia).
    rewrite length_update_nth, Nat.sub_diag. reflexivity.
Qed.

(** ** The frame of the recognizers *)

(** Take a hypothesis [... = Ok _] of monadic code apart. *)
Ltac unbind :=
  repeat match goal with
         | H : bind _ _ = Ok _ |- _ =>
             apply bind_Ok in H; destruct H as (? & ? & H)
         | H : (match ?x with _ => _ end) = Ok _ |- _ =>
             first [ is_var x; destruct x | destruct x eqn:? ]
         | H : (match ?x with _ => _ end) = (_, _) |- _ =>
             first [ is_var x; destruct x | destruct x eqn:? ]
         | H : Ok _ = Ok _ |- _ => injection H as H
         | H : true = false |- _ => discriminate H
         | H : false = true |- _ => discriminate H
         | H : (_, _) = (_, _) |- _ => injection H as ? ?
         | H : Panic = Ok _ |- _ => discriminate H
         | H : OutOfFuel = Ok _ |- _ => discriminate H
         | H : ?x = ?y |- _ => is_var x; subst x
         | H : ?y = ?x |- _ => is_var x; subst x
         end.

(** Prove [frame a b] by following the states back from [b]. *)
Ltac chain :=
  lazymatch goal with
  | |- frame ?a ?a => apply frame_refl
  | |- frame ?a (Finalize ?x _) =>
      apply frame_trans with x; [chain | apply frame_Finalize]
  | |- frame ?a (set_tip ?x _) =>
      apply frame_trans with x; [chain | apply frame_set_tip]
  | |- frame ?a (set_allHeadingsWithAutoID ?x _) =>
      apply frame_trans with x; [chain | apply frame_set_allHeadingsWithAutoID]
  | |- frame ?a (match ?c with _ => _ end) => destruct c; chain
  | |- frame ?a ?b =>
      first [ assumption
            | eapply frame_trans; [ | solve [eauto 3 with framedb] ]; chain ]
  end.

Section Frames.
Variable C : Collaborators.
Hypothesis wbC : well_behaved C.

Lemma closeUnmatchedBlocks_frame p : frame p (closeUnmatchedBlocks C p).
Proof. apply wbC. Qed.

Lemma Inline_frame p n c n' p' : Inline C p n c = (n', p') -> frame p p'.
Proof. intro H. pose proof (wb_Inline C wbC p n c) as F. now rewrite H in F. Qed.

Lemma attribute_frame p d d' p' : attribute C p d = (d', p') -> frame p p'.
Proof. intro H. pose proof (wb_attribute C wbC p d) as F. now rewrite H in F. Qed.

Lemma table_frame p d z p' : table C p d = (z, p') -> frame p p'.
Proof. intro H. pose proof (wb_table C wbC p d) as F. now rewrite H in F. Qed.

Lemma figureBlock_frame p d r z p' : figureBlock C p d r = (z, p') -> frame p p'.
Proof. intro H. pose proof (wb_figureBlock C wbC p d r) as F. now rewrite H in F. Qed.

Lemma aside_frame p d z p' : aside C p d = (z, p') -> frame p p'.
Proof. intro H. pose proof (wb_aside C wbC p d) as F. now rewrite H in F. Qed.

Lemma isReference_frame p d t z p' : isReference C p d t = (z, p') -> frame p p'.
Proof. intro H. pose proof (wb_isReference C wbC p d t) as F. now rewrite H in F. Qed.

Lemma addChild_frame p node id p' : addChild p node = Ok (id, p') -> frame p p'.
Proof. intro H. now apply addChild_spec in H. Qed.

Lemma AddBlock_spec p n id p' :
  AddBlock C p n = Ok (id, p') ->
  frame p p' /\ (length (nodes p) <= id)%nat /\ (id < length (nodes p'))%nat /\
  data_at p' id = Some (node_data n).
Proof.
  unfold AddBlock. intro H.
  pose proof (closeUnmatchedBlocks_frame p) as F0.
  set (p0 := closeUnmatchedBlocks C p) in *.
  assert (L0 : (length (nodes p) <= length (nodes p0))%nat) by apply F0.
  destruct (attr p0) as [a|]; apply addChild_spec in H;
    destruct H as (F & -> & L & D); simpl in *.
  - split; [|split; [lia|split; [lia|exact D]]].
    eapply frame_trans; [exact F0|].
    eapply frame_trans; [apply (frame_set_attr p0 None) | exact F].
  - split; [|split; [lia|split; [lia|exact D]]]. eapply frame_trans; eauto.
Qed.

Lemma AddBlock_frame p n id p' : AddBlock C p n = Ok (id, p') -> frame p p'.
Proof. intro H. now apply AddBlock_spec in H. Qed.

Hint Resolve Inline_frame attribute_frame table_frame figureBlock_frame aside_frame
  isReference_frame addChild_frame AddBlock_frame : framedb.

Lemma addHeading_frame p data i e id level special p' :
  addHeading C p data i e id level special = Ok p' -> frame p p'.
Proof. unfold addHeading. intro H. unbind; chain. Qed.
Hint Resolve addHeading_frame : framedb.

Lemma prefixHeading_frame p data n p' :
  prefixHeading C p data = Ok (n, p') -> frame p p'.
Proof. unfold prefixHeading. intro H. unbind; chain. Qed.

Lemma prefixSpecialHeading_frame p data n p' :
  prefixSpecialHeading C p data = Ok (n, p') -> frame p p'.
Proof. unfold prefixSpecialHeading. intro H. unbind; chain. Qed.

Lemma titleBlock_frame p data n p' :
  titleBlock C p data = Ok (n, p') -> frame p p'.
Proof. unfold titleBlock. intro H. unbind; chain. Qed.

Lemma addHTMLBlock_frame p data size p' :
  addHTMLBlock C p data size = Ok p' -> frame p p'.
Proof.
  unfold addHTMLBlock. intro H. unbind.
  eapply frame_trans; [eapply AddBlock_frame; eassumption|].
  apply frame_update_node; reflexivity.
Qed.
Hint Resolve addHTMLBlock_frame : framedb.

Lemma html_frame p data r n p' : html C p data r = Ok (n, p') -> frame p p'.
Proof. unfold html. intro H. unbind; chain. Qed.

(** Finalizing a code block rewrites one node. *)
Lemma finalizeCodeBlock_at_preserves p id p' k :
  finalizeCodeBlock_at C p id = Ok p' -> (k <= id)%nat -> preserves k p p'.
Proof.
  unfold finalizeCodeBlock_at. intros H Hk.
  destruct (node_at p id) as [n|] eqn:En; [|discriminate].
  apply bind_Ok in H. destruct H as (n' & E & H). injection H as <-.
  apply preserves_update_node; [|exact Hk].
  intros m Hm. unfold node_at in En. rewrite En in Hm. injection Hm as <-.
  unfold finalizeCodeBlock in E. unbind; reflexivity.
Qed.

(** Adding a node and finalizing it. *)
Lemma add_finalize_frame p p1 p2 id :
  frame p p1 -> (length (nodes p) <= id)%nat ->
  finalizeCodeBlock_at C p1 id = Ok p2 -> frame p p2.
Proof.
  intros F Hid H. unfold frame. eapply preserves_trans; [exact F|].
  eapply finalizeCodeBlock_at_preserves; eauto.
Qed.

Lemma code_frame p data n p' : code C p data = Ok (n, p') -> frame p p'.
Proof.
  unfold code. intro H. unbind.
  match goal with
  | H1 : AddBlock _ _ _ = Ok _, H2 : finalizeCodeBlock_at _ _ _ = Ok _ |- _ =>
      apply AddBlock_spec in H1; destruct H1 as (F & L & _);
      eapply add_finalize_frame; eauto
  end.
Qed.

Lemma fencedCodeBlock_frame p data r n p' :
  fencedCodeBlock C p data r = Ok (n, p') -> frame p p'.
Proof.
  unfold fencedCodeBlock. intro H. unbind; try chain.
  - match goal with
    | H1 : AddBlock _ _ _ = Ok _, H2 : finalizeCodeBlock_at _ _ _ = Ok _ |- _ =>
        apply AddBlock_spec in H1; destruct H1 as (F & L & _);
        eapply add_finalize_frame; eauto
    end.
  - match goal with
    | H2 : addChild ?q1 _ = Ok (?id, ?q2),
      H3 : finalizeCodeBlock_at _ ?q2 ?id = Ok ?q3 |- _ =>
        assert (F1 : frame p q1) by chain;
        assert (F2 : frame p q2) by chain;
        pose proof (addChild_spec _ _ _ _ H2) as (_ & Hid & _);
        assert (F3 : frame p q3)
          by (eapply add_finalize_frame; [exact F2 | | exact H3];
              rewrite Hid; apply F1)
    end.
    chain.
  - match goal with
    | H1 : AddBlock _ _ _ = Ok _, H2 : finalizeCodeBlock_at _ _ _ = Ok _ |- _ =>
        apply AddBlock_spec in H1; destruct H1 as (F & L & _);
        eapply add_finalize_frame; eauto
    end.
Qed.

Lemma blockMath_frame p data n p' : blockMath C p data = Ok (n, p') -> frame p p'.
Proof. unfold blockMath. intro H. unbind; chain. Qed.

Lemma documentMatter_frame p data n p' :
  documentMatter C p data = Ok (n, p') -> frame p p'.
Proof. unfold documentMatter. intro H. unbind; chain. Qed.

Lemma renderParagraph_frame p data p' : renderParagraph C p data = Ok p' -> frame p p'.
Proof. unfold renderParagraph. intro H. unbind; chain. Qed.

Hint Resolve prefixHeading_frame prefixSpecialHeading_frame titleBlock_frame
  html_frame code_frame fencedCodeBlock_frame blockMath_frame documentMatter_frame
  renderParagraph_frame : framedb.

Lemma clear_tight_parent n : node_parent (clear_tight n) = node_parent n.
Proof. unfold clear_tight. now destruct (node_data n). Qed.

Lemma preserves_clear_tight k p lst :
  (k <= lst)%nat -> preserves k p (update_node p lst clear_tight).
Proof.
  intro H. apply preserves_update_node; [|exact H].
  intros n _. apply clear_tight_parent.
Qed.

(** The finalization pass only writes to the list node. *)
Lemma finalizeList_items_preserves lst : forall items p i last,
  preserves lst p (finalizeList_items p lst items i last).
Proof.
  induction items as [|item rest IH]; intros p i last; simpl;
    [apply preserves_refl|].
  destruct (negb (i =? last) && _).
  - apply preserves_clear_tight. lia.
  - eapply preserves_trans; [|apply IH].
    destruct (finalizeList_subItems _ _ _ _ _);
      [apply preserves_clear_tight; lia | apply preserves_refl].
Qed.

Lemma finalizeList_preserves p lst p' :
  finalizeList p lst = Ok p' -> preserves lst p p'.
Proof.
  unfold finalizeList. intro H. unbind. apply finalizeList_items_preserves.
Qed.

Section FrameRecursion.
Variable blk : bytes -> Parser -> res Parser.
Hypothesis blk_frame : forall d q q', blk d q = Ok q' -> frame q q'.
Hint Resolve blk_frame : framedb.

Lemma listItem_frame p data flags n flags' p' :
  listItem C blk p data flags = Ok (n, flags', p') -> frame p p'.
Proof. unfold listItem. intro H. unbind; chain. Qed.
Hint Resolve listItem_frame : framedb.

Lemma list_loop_preserves lst data : forall fuel p i flags i' p',
  (lst <= length (nodes p))%nat ->
  list_loop C blk fuel p lst data i flags = Ok (i', p') -> preserves lst p p'.
Proof.
  induction fuel as [|f IH]; intros p i flags i' p' Hl H; simpl in H;
    [discriminate|].
  destruct (i <? len data); [|unbind; apply preserves_refl].
  apply bind_Ok in H. destruct H as ([[skip fl] p1] & E & H).
  apply listItem_frame in E.
  assert (L1 : (length (nodes p) <= length (nodes p1))%nat) by apply E.
  set (p2 := if has fl ListItemContainsBlock then update_node p1 lst clear_tight else p1) in *.
  assert (F2 : preserves lst p p2).
  { eapply preserves_trans; [eapply frame_preserves; eauto|].
    unfold p2. destruct (has fl ListItemContainsBlock);
      [apply preserves_clear_tight; lia | apply preserves_refl]. }
  destruct ((skip =? 0) || has fl ListItemEndOfList).
  - injection H as <- <-. exact F2.
  - eapply preserves_trans; [exact F2|]. eapply IH; [|exact H].
    destruct F2 as (_ & _ & _ & L2 & _). lia.
Qed.

Lemma list_body_preserves p lst data flags n p' :
  (lst <= length (nodes p))%nat ->
  list_body C blk p lst data flags = Ok (n, p') -> preserves lst p p'.
Proof.
  unfold list_body. intros Hl H. unbind.
  match goal with
  | H1 : list_loop _ _ _ _ _ _ _ _ = Ok _, H2 : finalizeList _ _ = Ok _ |- _ =>
      apply list_loop_preserves in H1; [|assumption];
      apply finalizeList_preserves in H2
  end.
  eapply preserves_trans; [eassumption|].
  eapply preserves_trans; [eassumption|].
  unfold preserves. simpl. repeat split; auto.
Qed.

Lemma list_frame p data flags start delim n p' :
  list_ C blk p data flags start delim = Ok (n, p') -> frame p p'.
Proof.
  unfold list_. intro H. unbind.
  match goal with
  | H1 : AddBlock _ _ _ = Ok _, H2 : list_body _ _ _ _ _ _ = Ok _ |- _ =>
      apply AddBlock_spec in H1; destruct H1 as (F & L1 & L2 & _);
      apply list_body_preserves in H2; [|lia]
  end.
  unfold frame. eapply preserves_trans; [exact F|].
  eapply preserves_weaken; [|eassumption]. assumption.
Qed.
Hint Resolve list_frame : framedb.

Lemma quote_frame p data n p' : quote C blk p data = Ok (n, p') -> frame p p'.
Proof. unfold quote. intro H. unbind; chain. Qed.
Hint Resolve quote_frame : framedb.

Lemma paragraph_step_frame p data line i :
  match paragraph_step C blk p data line i with
  | Ok (ParaReturn _ p') => frame p p'
  | Ok (ParaNext _ _ _ p') => frame p p'
  | _ => True
  end.
Proof.
  destruct (paragraph_step C blk p data line i) as [[n p'|a b c p']| |] eqn:H;
    [| |exact I|exact I]; unfold paragraph_step in H; unbind;
    try discriminate; chain.
Qed.

Lemma paragraph_loop_frame data : forall fuel p line i n p',
  paragraph_loop C blk fuel p data line i = Ok (n, p') -> frame p p'.
Proof.
  induction fuel as [|f IH]; intros p line i n p' H; simpl in H; [discriminate|].
  destruct (i <? len data).
  - apply bind_Ok in H. destruct H as (st & E & H).
    pose proof (paragraph_step_frame p data line i) as F. rewrite E in F.
    destruct st; [injection H as <- <-; exact F|].
    eapply frame_trans; [exact F | eapply IH; eauto].
  - unbind. chain.
Qed.

Lemma paragraph_frame p data n p' : paragraph C blk p data = Ok (n, p') -> frame p p'.
Proof. apply paragraph_loop_frame. Qed.
Hint Resolve paragraph_frame : framedb.

Lemma includeStack_Push_frame p path : frame p (includeStack_Push C p path).
Proof. apply wbC. Qed.

Lemma includeStack_Pop_frame p : frame p (includeStack_Pop C p).
Proof. apply wbC. Qed.

Lemma consume_frame p data r d p' :
  (forall n q, r = Ok (n, q) -> frame p q) ->
  consume data r = Ok (d, p') -> frame p p'.
Proof.
  intros Hr H. unfold consume in H. unbind. eapply Hr. reflexivity.
Qed.

(** Reduce a goal on [consume] to the frame of the recognizer run. *)
Ltac consumed :=
  match goal with
  | H : consume _ _ = Ok _ |- frame _ _ =>
      eapply consume_frame; [ | exact H ]; intros ? ? ?; unbind; chain
  end.

Lemma Block_rest_frame p data d p' :
  Block_rest C blk p data = Ok (d, p') -> frame p p'.
Proof. unfold Block_rest. intro H. unbind; consumed. Qed.
Hint Resolve Block_rest_frame : framedb.

Lemma Block_lists_frame p data d p' :
  Block_lists C blk p data = Ok (d, p') -> frame p p'.
Proof. unfold Block_lists. intro H. unbind; first [consumed | chain]. Qed.
Hint Resolve Block_lists_frame : framedb.

Lemma Block_leaves_frame p data d p' :
  Block_leaves C blk p data = Ok (d, p') -> frame p p'.
Proof. unfold Block_leaves. intro H. unbind; first [consumed | chain]. Qed.
Hint Resolve Block_leaves_frame : framedb.

Lemma Block_headings_frame p data d p' :
  Block_headings C blk p data = Ok (d, p') -> frame p p'.
Proof. unfold Block_headings. intro H. unbind; first [consumed | chain]. Qed.
Hint Resolve Block_headings_frame : framedb.

Lemma Block_hook_frame p data d p' :
  Block_hook C blk p data = Ok (d, p') -> frame p p'.
Proof. unfold Block_hook. intro H. unbind; chain. Qed.
Hint Resolve Block_hook_frame : framedb.

Lemma Block_include_frame p data d p' :
  Block_include C blk p data = Ok (d, p') -> frame p p'.
Proof.
  unfold Block_include. intro H. unbind; try chain;
    match goal with
    | H : consume _ _ = Ok _, B : blk _ (includeStack_Push C ?x ?path) = Ok ?y
      |- frame _ _ =>
        eapply consume_frame; [ | exact H ]; intros ? ? E; injection E as _ <-;
        apply frame_trans with y; [|apply includeStack_Pop_frame];
        apply frame_trans with (includeStack_Push C x path);
          [apply includeStack_Push_frame | eapply blk_frame; eassumption]
    end.
Qed.
Hint Resolve Block_include_frame : framedb.

Lemma Block_step_frame p data d p' :
  Block_step C blk p data = Ok (d, p') -> frame p p'.
Proof. unfold Block_step. intro H. unbind; chain. Qed.

Lemma Block_loop_frame : forall fuel p data p',
  Block_loop C blk fuel p data = Ok p' -> frame p p'.
Proof.
  induction fuel as [|f IH]; intros p data p' H; simpl in H; [discriminate|].
  destruct (len data >? 0); [|injection H as <-; apply frame_refl].
  apply bind_Ok in H. destruct H as ([d p1] & E & H).
  eapply frame_trans; [eapply Block_step_frame; eauto | eapply IH; eauto].
Qed.

End FrameRecursion.

Lemma Block_eq depth data p :
  Block C depth data p =
  if nesting p >=? maxNesting p then Ok p
  else match depth with
       | O => OutOfFuel
       | S d =>
           q <- Block_loop C (Block C d) (S (length data))
                  (set_nesting p (nesting p + 1)) data ;;
           Ok (set_nesting q (nesting q - 1))
       end.
Proof. destruct depth; reflexivity. Qed.

(** Every call of [Block] leaves the depth counters, the extensions and the
    data of the nodes it found as they were. *)
Lemma Block_frame : forall depth data p p',
  Block C depth data p = Ok p' -> frame p p'.
Proof.
  induction depth as [|d IH]; intros data p p' H; rewrite Block_eq in H;
    (destruct (nesting p >=? maxNesting p);
     [injection H as <-; apply frame_refl|]); [discriminate|].
  apply bind_Ok in H. destruct H as (q & E & H). injection H as <-.
  apply Block_loop_frame in E; [|intros; eapply IH; eauto].
  destruct E as (A1 & A2 & A3 & A4 & A5 & A6). unfold frame, preserves in *.
  simpl in *. repeat split; auto. lia.
Qed.

End Frames.

(** ** The nesting counter *)

Lemma plain_well_behaved : well_behaved plain.
Proof.
  split; simpl; intros; try apply frame_refl;
    unfold frame, preserves; simpl; repeat split; auto.
Qed.

Lemma Block_capped C depth data p :
  maxNesting p <= nesting p -> Block C depth data p = Ok p.
Proof.
  intro H. rewrite Block_eq.
  destruct (nesting p >=? maxNesting p) eqn:E; [reflexivity|lia].
Qed.

(** C4: when the nesting counter has reached or exceeded the maximum
    nesting depth, [Block] returns at once, whatever the input and the
    collaborators: the result is the parser state it was given, document
    tree included, and it is a normal return, neither a panic nor a
    missing result. *)
Theorem Block_at_nesting_cap (C : Collaborators) (depth : nat) (data : bytes)
  (p : Parser) :
  maxNesting p <= nesting p -> Block C depth data p = Ok p.
Proof. apply Block_capped. Qed.

Lemma Block_at_nesting_cap_witness :
  maxNesting (set_nesting (newParser 0 16) 16)
    <= nesting (set_nesting (newParser 0 16) 16) /\
  Block plain 0 (bs "> > a\n") (set_nesting (newParser 0 16) 16)
    = Ok (set_nesting (newParser 0 16) 16).
Proof.
  split; [simpl; lia|].
  apply (Block_at_nesting_cap plain 0 (bs "> > a\n")
           (set_nesting (newParser 0 16) 16)).
  simpl; lia.
Defined.

(** Five nested block quotes under a cap of three: the tree stops at the
    third quote, whose content is dropped. *)
Example nesting_cap_example :
  match Block plain 3 (bs "> > > > > a\n") (newParser 0 3) with
  | Ok p => map node_data (nodes p) = [Document; BlockQuote; BlockQuote; BlockQuote]
            /\ nesting p = 0
  | _ => False
  end.
Proof. vm_compute. split; reflexivity. Qed.

(** C9: every call of [Block] that returns leaves [p.nesting] as it found
    it, for collaborators that keep to their contract; at the cap the
    counter is not even incremented, and below it the loop runs with the
    counter one higher, which the exit takes back. *)
Theorem Block_preserves_nesting (C : Collaborators) (depth : nat) (data : bytes)
  (p p' : Parser) :
  well_behaved C ->
  Block C depth data p = Ok p' ->
  nesting p' = nesting p /\
  (nesting p < maxNesting p ->
   exists d q, depth = S d /\
     Block_loop C (Block C d) (S (length data))
       (set_nesting p (nesting p + 1)) data = Ok q /\
     nesting q = nesting p + 1 /\ p' = set_nesting q (nesting q - 1)).
Proof.
  intros wb H. split; [apply (Block_frame C wb) in H; apply H|].
  intro Hlt. rewrite Block_eq in H.
  destruct (nesting p >=? maxNesting p) eqn:E; [lia|].
  destruct depth as [|d]; [discriminate|].
  apply bind_Ok in H. destruct H as (q & Hq & H). injection H as <-.
  exists d, q. repeat split; auto.
  apply Block_loop_frame with (C := C) in Hq; auto.
  - apply Hq.
  - intros. eapply Block_frame; eauto.
Qed.

Lemma Block_preserves_nesting_witness :
  well_behaved plain /\
  Block plain 20 (bs "> * a\n>\n> b\n") (newParser 0 16)
    = Ok (returned (Block plain 20 (bs "> * a\n>\n> b\n") (newParser 0 16))
            (newParser 0 16)) /\
  nesting (returned (Block plain 20 (bs "> * a\n>\n> b\n") (newParser 0 16))
             (newParser 0 16)) = nesting (newParser 0 16).
Proof.
  split; [exact plain_well_behaved|].
  split; [vm_compute; reflexivity|].
  apply (Block_preserves_nesting plain 20 (bs "> * a\n>\n> b\n") (newParser 0 16)
           (returned (Block plain 20 (bs "> * a\n>\n> b\n") (newParser 0 16))
              (newParser 0 16)) plain_well_behaved).
  vm_compute; reflexivity.
Defined.

(** ** The Tight flag of a list *)

Lemma endsWithBlankLine_false : forall fuel p b, endsWithBlankLine fuel p b = false.
Proof.
  induction fuel as [|f IH]; intros p b; simpl; [reflexivity|].
  destruct b as [b|]; [|reflexivity].
  destruct (node_at p b) as [n|]; [|reflexivity].
  destruct (node_data n); auto.
Qed.

Lemma finalizeList_subItems_false p : forall subItems j last isLast,
  finalizeList_subItems p subItems j last isLast = false.
Proof.
  induction subItems as [|s rest IH]; intros j last isLast;
    cbn [finalizeList_subItems]; [reflexivity|].
  rewrite endsWithBlankLine_false, andb_false_r. apply IH.
Qed.

Lemma finalizeList_items_id lst : forall items p i last,
  finalizeList_items p lst items i last = p.
Proof.
  induction items as [|item rest IH]; intros p i last;
    cbn [finalizeList_items]; [reflexivity|].
  rewrite endsWithBlankLine_false, andb_false_r.
  rewrite finalizeList_subItems_false. apply IH.
Qed.

(** [finalizeList] changes nothing: [endsWithBlankLine] is always false. *)
Lemma finalizeList_id p lst p' : finalizeList p lst = Ok p' -> p' = p.
Proof.
  unfold finalizeList. destruct (GetParent p lst); [|discriminate].
  rewrite finalizeList_items_id. congruence.
Qed.

Lemma tight_of_clear p lst t :
  tight_of p lst = Some t -> tight_of (update_node p lst clear_tight) lst = Some false.
Proof.
  unfold tight_of. rewrite data_at_update_node, Nat.eqb_refl.
  unfold data_at. destruct (nth_error (nodes p) lst) as [n|]; simpl; [|discriminate].
  unfold clear_tight. destruct (node_data n) eqn:E; try discriminate.
  intros _. simpl. reflexivity.
Qed.

Lemma tight_of_frame p p' id :
  frame p p' -> (id < length (nodes p))%nat -> tight_of p' id = tight_of p id.
Proof.
  intros (_ & _ & _ & _ & H & _) Hid. unfold tight_of. now rewrite H.
Qed.

Lemma tight_of_bound p id t : tight_of p id = Some t -> (id < length (nodes p))%nat.
Proof.
  unfold tight_of, data_at. intro H. apply nth_error_Some.
  destruct (nth_error (nodes p) id); [discriminate|discriminate H].
Qed.

Section ListTight.
Variable C : Collaborators.
Hypothesis wbC : well_behaved C.
Variable blk : bytes -> Parser -> res Parser.
Hypothesis blk_frame : forall d q q', blk d q = Ok q' -> frame q q'.

(** What [listItem] returns beside the state is what its scan says. *)
Lemma listItem_scanned p data flags n fl p' :
  listItem C blk p data flags = Ok (n, fl, p') ->
  (listItem_scan (extensions p) data flags = Ok None /\ n = 0 /\ fl = flags)
  \/ exists sc, listItem_scan (extensions p) data flags = Ok (Some sc) /\
                n = scan_line sc /\ fl = scan_flags sc.
Proof.
  unfold listItem. intro H. apply bind_Ok in H. destruct H as ([sc|] & E & H).
  - right. exists sc. split; [exact E|]. unbind; auto.
  - left. injection H as <- <- <-. auto.
Qed.

(** The loop of [list] clears [Tight], and does so exactly when some item
    leaves [ListItemContainsBlock] in the flags. *)
Lemma list_loop_tight lst data : forall fuel p i flags i' p' t,
  tight_of p lst = Some t ->
  list_loop C blk fuel p lst data i flags = Ok (i', p') ->
  tight_of p' lst = Some (t && negb (list_loose fuel (extensions p) data i flags)).
Proof.
  induction fuel as [|f IH]; intros p i flags i' p' t Ht H; simpl in H;
    [discriminate|].
  cbn [list_loose]. destruct (i <? len data).
  2:{ injection H as <- <-. now rewrite andb_true_r. }
  apply bind_Ok in H. destruct H as ([[skip fl] p1] & E & H).
  pose proof (listItem_frame C wbC blk blk_frame _ _ _ _ _ _ E) as F.
  assert (Ht1 : tight_of p1 lst = Some t).
  { rewrite (tight_of_frame p p1); eauto using tight_of_bound. }
  assert (Hext : extensions p1 = extensions p) by apply F.
  apply listItem_scanned in E.
  destruct E as [(E & -> & ->) | (sc & E & -> & ->)]; rewrite E.
  - rewrite Z.eqb_refl in H. simpl in H. injection H as <- <-.
    destruct (has flags ListItemContainsBlock).
    + rewrite (tight_of_clear _ _ _ Ht1). now rewrite andb_false_r.
    + now rewrite Ht1, andb_true_r.
  - cbv zeta.
    set (p2 := if has (scan_flags sc) ListItemContainsBlock
               then update_node p1 lst clear_tight else p1) in *.
    assert (Ht2 : tight_of p2 lst
                  = Some (t && negb (has (scan_flags sc) ListItemContainsBlock))).
    { unfold p2. destruct (has (scan_flags sc) ListItemContainsBlock).
      - rewrite (tight_of_clear _ _ _ Ht1). now rewrite andb_false_r.
      - now rewrite Ht1, andb_true_r. }
    assert (Hext2 : extensions p2 = extensions p).
    { unfold p2. destruct (has (scan_flags sc) ListItemContainsBlock); auto. }
    destruct ((scan_line sc =? 0) || has (scan_flags sc) ListItemEndOfList).
    + injection H as <- <-. now rewrite orb_false_r.
    + apply (IH _ _ _ _ _ _ Ht2) in H. rewrite H, Hext2.
      rewrite negb_orb, andb_assoc. reflexivity.
Qed.

End ListTight.

(** C2 (amended): the life of the [Tight] flag.  No call of [Block] changes
    the flag of a list that exists when the call begins; [list] creates its
    node with [Tight = true]; the item loop of [list] only ever clears the
    flag, exactly when some call of [listItem] leaves
    [ListItemContainsBlock] in the flags; and the finalization pass changes
    nothing.  Collaborators are assumed to keep to their contract. *)
Theorem tight_flag_lifecycle (C : Collaborators) (depth : nat) (p : Parser)
  (data : bytes) (flags start : Z) (delim : byte) (n : Z) (p' : Parser) :
  well_behaved C ->
  list_ C (Block C depth) p data flags start delim = Ok (n, p') ->
  let fl := Z.lor flags ListItemBeginningOfList in
  (forall d s s' id, Block C depth d s = Ok s' -> (id < length (nodes s))%nat ->
     tight_of s' id = tight_of s id) /\
  (forall fuel s lst d i f i' s' t,
     tight_of s lst = Some t ->
     list_loop C (Block C depth) fuel s lst d i f = Ok (i', s') ->
     tight_of s' lst = Some (t && negb (list_loose fuel (extensions s) d i f))) /\
  (forall s lst s', finalizeList s lst = Ok s' -> s' = s) /\
  exists block p1 i q,
    AddBlock C p (new_node (List fl true start delim)) = Ok (block, p1) /\
    tight_of p1 block = Some true /\
    list_loop C (Block C depth) (S (length data)) p1 block data 0 fl = Ok (i, q) /\
    tight_of q block
      = Some (negb (list_loose (S (length data)) (extensions p) data 0 fl)) /\
    finalizeList q block = Ok q /\
    tight_of p' block = tight_of q block /\
    (forall id, (id < length (nodes p))%nat -> tight_of p' id = tight_of p id).
Proof.
  intros wb H fl.
  assert (BF : forall d q q', Block C depth d q = Ok q' -> frame q q')
    by (intros; eapply Block_frame; eauto).
  split; [intros; apply tight_of_frame; eauto|].
  split; [intros; eapply list_loop_tight; eauto|].
  split; [apply finalizeList_id|].
  pose proof (list_frame C wb _ BF _ _ _ _ _ _ _ H) as F.
  unfold list_ in H. apply bind_Ok in H. destruct H as ([block p1] & A & H).
  unfold list_body in H. apply bind_Ok in H. destruct H as ([i q] & L & H).
  apply bind_Ok in H. destruct H as (q' & Fin & H).
  pose proof (finalizeList_id _ _ _ Fin) as ->. injection H as <- <-.
  exists block, p1, i, q.
  pose proof (AddBlock_spec C wb _ _ _ _ A) as (F1 & _ & _ & D).
  assert (T1 : tight_of p1 block = Some true) by (unfold tight_of; now rewrite D).
  pose proof (list_loop_tight C wb _ BF _ _ _ _ _ _ _ _ _ T1 L) as T2.
  repeat split; auto.
  - rewrite T2. replace (extensions p1) with (extensions p) by (symmetry; apply F1).
    reflexivity.
  - intros id Hid. apply tight_of_frame; auto.
Qed.

Lemma tight_flag_lifecycle_witness :
  well_behaved plain /\
  list_ plain (Block plain 20) (newParser 0 16) (bs "* a\n\n* b\n") 0 0 c_dot
    = Ok (returned (list_ plain (Block plain 20) (newParser 0 16)
                      (bs "* a\n\n* b\n") 0 0 c_dot) (0, newParser 0 16)) /\
  exists block,
    tight_of (snd (returned (list_ plain (Block plain 20) (newParser 0 16)
                               (bs "* a\n\n* b\n") 0 0 c_dot) (0, newParser 0 16)))
      block = Some false.
Proof.
  split; [exact plain_well_behaved|].
  assert (R : list_ plain (Block plain 20) (newParser 0 16) (bs "* a\n\n* b\n") 0 0 c_dot
    = Ok (returned (list_ plain (Block plain 20) (newParser 0 16)
                      (bs "* a\n\n* b\n") 0 0 c_dot) (0, newParser 0 16)))
    by (vm_compute; reflexivity).
  split; [exact R|].
  destruct (returned _ _) as [n p'] in R |- *.
  destruct (tight_flag_lifecycle plain 20 (newParser 0 16) (bs "* a\n\n* b\n")
              0 0 c_dot n p' plain_well_behaved R)
    as (_ & _ & _ & block & p1 & i & q & _ & _ & _ & T & _ & T' & _).
  exists block. simpl. rewrite T'. exact T.
Defined.

(** The item loop of [list] clears [Tight] before the finalization pass
    runs, and the pass then changes nothing. *)
Lemma tight_cleared_by_item_loop_counterexample :
  exists block p1 i q,
    AddBlock plain (newParser 0 16) (new_node (List 16 true 0 c_dot))
      = Ok (block, p1) /\
    tight_of p1 block = Some true /\
    list_loop plain (Block plain 20) 10 p1 block (bs "* a\n\n* b\n") 0 16
      = Ok (i, q) /\
    tight_of q block = Some false /\
    finalizeList q block = Ok q.
Proof.
  do 4 eexists. split; [vm_compute; reflexivity|].
  split; [vm_compute; reflexivity|].
  split; [vm_compute; reflexivity|].
  split; vm_compute; reflexivity.
Qed.

(** ** Lists without blank lines *)

Lemma has_lor f b c : Z.land b c = 0 -> has (Z.lor f b) c = has f c.
Proof.
  intro H. unfold has. now rewrite Z.land_lor_distr_l, H, Z.lor_0_r.
Qed.

Lemma has_land_lnot f b c : Z.land (Z.lnot b) c = c -> has (Z.land f (Z.lnot b)) c = has f c.
Proof.
  intro H. unfold has. now rewrite <- Z.land_assoc, H.
Qed.

Lemma no_blank_line_spec data :
  no_blank_line data = true ->
  forall l, 0 <= l < len data -> line_start data l = true -> IsEmpty (from data l) = 0.
Proof.
  unfold no_blank_line. rewrite forallb_forall. intros H l Hl Hs.
  specialize (H l). rewrite Hs in H. simpl in H. apply Z.eqb_eq, H.
  apply in_map_iff. exists (Z.to_nat l). split; [lia|].
  apply in_seq. unfold len in Hl. lia.
Qed.

Lemma no_hash_spec data : no_hash data = true -> forall j, data.[j] <> c_hash.
Proof.
  unfold no_hash. rewrite forallb_forall. intros H j. unfold at_.
  destruct (nth_in_or_default (Z.to_nat j) data 0) as [I| ->]; [|discriminate].
  apply H in I. destruct (Z.eqb_spec (nth (Z.to_nat j) data 0) c_hash); [discriminate|auto].
Qed.


Lemma no_hash_incl data d :
  incl d data -> no_hash data = true -> no_hash d = true.
Proof.
  unfold no_hash. rewrite !forallb_forall. intros I H x Hx. apply H, I, Hx.
Qed.

Lemma incl_from data a : incl (from data a) data.
Proof.
  unfold from. intros x Hx. rewrite <- (firstn_skipn (Z.to_nat a) data).
  apply in_or_app. now right.
Qed.

Lemma incl_upto data b : incl (upto data b) data.
Proof.
  unfold upto. intros x Hx. rewrite <- (firstn_skipn (Z.to_nat b) data).
  apply in_or_app. now left.
Qed.

Lemma incl_slice data a b : incl (slice data a b) data.
Proof.
  unfold slice. intros x Hx. apply (incl_from data a), (incl_upto _ (b - a)), Hx.
Qed.

Lemma from_slice_app data a b :
  0 <= a <= b -> from data a = slice data a b ++ from data b.
Proof.
  intros H. unfold slice, from, upto.
  replace (Z.to_nat b) with (Z.to_nat (b - a) + Z.to_nat a)%nat by lia.
  rewrite <- skipn_skipn. symmetry. apply firstn_skipn.
Qed.

(** The end of the line that begins at [line]: where the loops of
    [listItem] stop. *)
Lemma line_end_spec data line :
  0 <= line < len data ->
  let i := advance (length data)
             (fun i => (i <? len data) && negb (data.[i - 1] =? nl)) (line + 1) in
  line < i <= len data /\
  (forall j, line <= j < i - 1 -> data.[j] <> nl) /\
  (i < len data -> data.[i - 1] = nl).
Proof.
  intros Hl i.
  set (cond := fun i => (i <? len data) && negb (data.[i - 1] =? nl)) in *.
  pose proof (advance_bounds cond (length data) (line + 1)) as B. fold i in B.
  assert (Hstop : cond i = false).
  { apply advance_stop_bounded with (n := len data).
    - intros j Hj. unfold cond in Hj. lia.
    - unfold len. lia. }
  assert (Htrue : forall j, line + 1 <= j < i -> cond j = true)
    by (intros j Hj; apply (advance_true cond (length data) (line + 1)); exact Hj).
  assert (Hi : i <= len data).
  { destruct (Z.eq_dec i (line + 1)); [lia|].
    specialize (Htrue (i - 1) ltac:(lia)). unfold cond in Htrue. lia. }
  split; [lia|]. split.
  - intros j Hj. specialize (Htrue (j + 1) ltac:(lia)). unfold cond in Htrue.
    replace (j + 1 - 1) with j in Htrue by lia.
    destruct (Z.eqb_spec data.[j] nl); [|assumption].
    rewrite andb_false_r in Htrue. discriminate.
  - intros Hlt. unfold cond in Hstop.
    destruct (Z.eqb_spec data.[i - 1] nl); [assumption|].
    simpl in Hstop. lia.
Qed.

(** A line is blank for [IsEmpty] whether it is cut at its end or not. *)
Lemma IsEmpty_line data line i :
  0 <= line < i -> i <= len data -> (i < len data -> data.[i - 1] = nl) ->
  IsEmpty (from data line) = 0 -> IsEmpty (slice data line i) = 0.
Proof.
  intros Hl Hi Hnl H. apply IsEmpty_zero. apply IsEmpty_zero in H.
  intro B. apply H. clear H.
  rewrite (from_slice_app data line i) by lia.
  destruct B as (ws & Hws & [(rest & E) | (E & Hne)]).
  - exists ws. split; [exact Hws|]. left. exists (rest ++ from data i).
    rewrite E, <- app_assoc. reflexivity.
  - exists ws. split; [exact Hws|]. right.
    destruct (Z.eq_dec i (len data)) as [->|Hlt].
    + replace (from data (len data)) with (@nil byte).
      * rewrite app_nil_r. split; [exact E|]. now rewrite E in *.
      * symmetry. unfold from. apply skipn_all2. unfold len. lia.
    + exfalso. specialize (Hnl ltac:(lia)).
      assert (A : (slice data line i).[i - line - 1] = nl).
      { rewrite at_slice by lia. rewrite <- Hnl. f_equal. lia. }
      rewrite E in A. apply (proj1 (Forall_at blank ws)) with (j := i - line - 1) in Hws.
      * apply blank_not_nl in Hws. contradiction.
      * rewrite <- E. rewrite len_slice by lia. lia.
Qed.

Lemma not_heading ext chunk :
  no_hash chunk = true -> 0 < len chunk ->
  isPrefixHeading ext chunk || isPrefixSpecialHeading ext chunk = false.
Proof.
  intros NH Hl. pose proof (no_hash_spec chunk NH) as Hh.
  unfold isPrefixHeading, isPrefixSpecialHeading.
  destruct (Z.eqb_spec chunk.[0] c_hash) as [E|_]; [now apply Hh in E|].
  destruct (Z.eqb_spec chunk.[1] c_hash) as [E|_]; [now apply Hh in E|].
  replace (len chunk >? 0) with true by lia. simpl.
  destruct (Z.lor ext Mmark =? 0); [reflexivity|].
  destruct (len chunk <? 4); [reflexivity|].
  destruct (negb (chunk.[0] =? c_dot)); reflexivity.
Qed.

Lemma all_blank_line l : l <> [] -> Forall blank l -> IsEmpty l <> 0.
Proof.
  intros Hne Hb H. apply IsEmpty_zero in H. apply H.
  exists l. split; [exact Hb|]. right. auto.
Qed.

(** The line that is not blank has a byte after its indentation. *)
Lemma indent_inside data line i :
  0 <= line < i -> i <= len data -> IsEmpty (slice data line i) = 0 ->
  let k := advance 4 (fun k => (k <? 4) && (line + k <? i)
                               && (data.[line + k] =? sp)) 0 in
  0 <= k /\ line + k < i.
Proof.
  intros Hl Hi Hz k.
  set (cond := fun k => (k <? 4) && (line + k <? i) && (data.[line + k] =? sp)) in *.
  pose proof (advance_bounds cond 4 0) as B. fold k in B. split; [lia|].
  assert (Htrue : forall j, 0 <= j < k -> cond j = true)
    by (intros j Hj; apply (advance_true cond 4 0); exact Hj).
  destruct (Z_lt_ge_dec (line + k) i) as [|Hge]; [assumption|exfalso].
  assert (Hk : line + k = i).
  { destruct (Z.eq_dec k 0); [lia|].
    specialize (Htrue (k - 1) ltac:(lia)). unfold cond in Htrue. lia. }
  apply (all_blank_line (slice data line i)); [| |exact Hz].
  - intro E. apply (f_equal len) in E. rewrite len_slice in E by lia.
    simpl in E. unfold len in E. simpl in E. lia.
  - apply Forall_at. intros j Hj. rewrite len_slice in Hj by lia.
    rewrite at_slice by lia. specialize (Htrue j ltac:(lia)).
    unfold cond in Htrue. left. lia.
Qed.

Lemma tab_inside data line i :
  0 <= line < i -> i <= len data -> IsEmpty (slice data line i) = 0 ->
  data.[line] = tab -> line + 1 < i.
Proof.
  intros Hl Hi Hz Ht.
  destruct (Z_lt_ge_dec (line + 1) i) as [|Hge]; [assumption|exfalso].
  apply (all_blank_line (slice data line i)); [| |exact Hz].
  - intro E. apply (f_equal len) in E. rewrite len_slice in E by lia.
    unfold len in E. simpl in E. lia.
  - apply Forall_at. intros j Hj. rewrite len_slice in Hj by lia.
    rewrite at_slice by lia. right. rewrite <- Ht. f_equal. lia.
Qed.

Lemma gather_step_tight ext data isDef indent g brk g' :
  no_blank_line data = true -> no_hash data = true ->
  gather_step ext data isDef indent g = Ok (brk, g') ->
  g_containsBlankLine g = false ->
  has (g_flags g) ListItemContainsBlock = false ->
  g_i g = g_line g -> 0 <= g_line g < len data ->
  line_start data (g_line g) = true ->
  has (g_flags g') ListItemContainsBlock = false /\
  if brk then g_line g' = g_line g
  else g_containsBlankLine g' = false /\ g_i g' = g_line g' /\
       g_line g < g_line g' /\
       (g_line g' < len data -> line_start data (g_line g') = true).
Proof.
  intros NB NH H Hc Hf Hi Hl Hs. unfold gather_step in H.
  rewrite Hc, Hi in H. cbn [andb] in H.
  pose proof (line_end_spec data (g_line g) Hl) as (E1 & E2 & E3).
  set (i := advance _ _ _) in *.
  assert (Z0 : IsEmpty (slice data (g_line g) i) = 0).
  { apply IsEmpty_line; try lia; auto. apply no_blank_line_spec; auto. }
  rewrite Z0 in H. change (0 >? 0) with false in H. cbv iota in H.
  assert (LS : i < len data -> line_start data i = true).
  { intro Hlt. unfold line_start. rewrite (E3 Hlt), Z.eqb_refl. apply orb_true_r. }
  assert (EOL : has (Z.lor (g_flags g) ListItemEndOfList) ListItemContainsBlock = false)
    by (rewrite has_lor; auto).
  destruct (data.[g_line g] =? tab) eqn:Et.
  - assert (Hin : g_line g + 1 < i) by (apply (tab_inside data); try lia; auto).
    rewrite (not_heading ext (slice data (g_line g + 1) i)) in H.
    2:{ apply (no_hash_incl data); [apply incl_slice | exact NH]. }
    2:{ rewrite len_slice by lia. lia. }
    unbind; simpl; auto; repeat split; auto; lia.
  - pose proof (indent_inside data (g_line g) i ltac:(lia) ltac:(lia) Z0) as (K0 & Hin).
    set (k := advance 4 _ 0) in *.
    rewrite (not_heading ext (slice data (g_line g + k) i)) in H.
    2:{ apply (no_hash_incl data); [apply incl_slice | exact NH]. }
    2:{ rewrite len_slice by lia. lia. }
    unbind; simpl; auto; repeat split; auto; lia.
Qed.

Lemma gatherlines_tight ext data isDef indent : forall fuel g gf,
  no_blank_line data = true -> no_hash data = true ->
  gatherlines fuel ext data isDef indent g = Ok gf ->
  g_containsBlankLine g = false ->
  has (g_flags g) ListItemContainsBlock = false ->
  g_i g = g_line g -> 0 <= g_line g ->
  (g_line g < len data -> line_start data (g_line g) = true) ->
  has (g_flags gf) ListItemContainsBlock = false /\ g_line g <= g_line gf /\
  (g_line gf < len data -> line_start data (g_line gf) = true).
Proof.
  induction fuel as [|f IH]; intros g gf NB NH H Hc Hf Hi Hl Hs; simpl in H;
    [discriminate|].
  destruct (g_line g <? len data) eqn:Elt.
  2:{ injection H as <-. repeat split; auto. lia. }
  apply bind_Ok in H. destruct H as ([brk g1] & E & H).
  apply gather_step_tight in E; auto; try lia; [|apply Hs; lia].
  destruct E as (F1 & E).
  destruct brk.
  - injection H as <-. rewrite E. repeat split; auto. lia.
  - destruct E as (C1 & I1 & L1 & S1).
    apply IH in H; auto; try lia. destruct H as (A & B & D).
    repeat split; auto. lia.
Qed.

Lemma first_line_end data i1 :
  0 <= i1 ->
  let r := advance (length data)
             (fun i => (0 <? i) && (i <? len data) && negb (data.[i - 1] =? nl)) i1 in
  0 <= r /\ (r < len data -> line_start data r = true).
Proof.
  intros H0 r.
  set (cond := fun i => (0 <? i) && (i <? len data) && negb (data.[i - 1] =? nl)) in *.
  pose proof (advance_bounds cond (length data) i1) as B. fold r in B.
  split; [lia|]. intro Hlt.
  assert (Hstop : cond r = false).
  { apply advance_stop_bounded with (n := len data).
    - intros j Hj. unfold cond in Hj. lia.
    - unfold len. lia. }
  unfold cond in Hstop. unfold line_start.
  destruct (Z.eqb_spec r 0); [reflexivity|].
  destruct (Z.eqb_spec data.[r - 1] nl); [reflexivity|]. simpl in *. lia.
Qed.

Lemma skipCharN_nonneg data c m : 0 <= skipCharN data 0 c m.
Proof.
  unfold skipCharN. generalize (length data) as fuel. intro fuel.
  assert (G : forall i m, 0 <= i -> 0 <= skipCharN_loop fuel data i c m).
  { induction fuel as [|f IH]; intros i m' Hi; simpl; [assumption|].
    destruct (_ && _); [apply IH; lia | assumption]. }
  apply G. lia.
Qed.

Lemma uliPrefix_nonneg data : 0 <= uliPrefix data.
Proof.
  unfold uliPrefix. pose proof (skipCharN_nonneg data sp 3).
  destruct (_ >=? _); [lia|]. destruct (_ || _); lia.
Qed.

Lemma dliPrefix_nonneg data : 0 <= dliPrefix data.
Proof.
  unfold dliPrefix. destruct (_ <? _); [lia|]. destruct (_ || _); [lia|].
  pose proof (advance_bounds (fun i => (i <? len data) && (data.[i] =? sp))
                (length data) 0).
  unfold skipChar. lia.
Qed.

Lemma listItem_scan_tight ext data flags sc :
  no_blank_line data = true -> no_hash data = true ->
  listItem_scan ext data flags = Ok (Some sc) ->
  has flags ListItemContainsBlock = false ->
  has (scan_flags sc) ListItemContainsBlock = false /\ 0 <= scan_line sc /\
  (scan_line sc < len data -> line_start data (scan_line sc) = true).
Proof.
  intros NB NH H Hf. unfold listItem_scan in H.
  apply bind_Ok in H. destruct H as (d0 & _ & H).
  apply bind_Ok in H. destruct H as (itemIndent & _ & H).
  pose proof (uliPrefix_nonneg data) as U. pose proof (oliPrefix_nonneg data) as O.
  pose proof (dliPrefix_nonneg data) as D.
  assert (T1 : has (Z.land flags (Z.lnot ListTypeTerm)) ListItemContainsBlock = false)
    by (rewrite has_land_lnot; auto).
  assert (T2 : has (Z.lor flags ListTypeTerm) ListItemContainsBlock = false)
    by (rewrite has_lor; auto).
  assert (T3 : has (Z.lor (Z.land flags (Z.lnot ListTypeTerm)) ListTypeTerm)
                 ListItemContainsBlock = false)
    by (rewrite has_lor; auto).
  assert (G : forall pfx fl g,
    0 <= pfx -> has fl ListItemContainsBlock = false ->
    gatherlines (S (length data)) ext data (has flags ListTypeDefinition) itemIndent
      {| g_i := advance (length data)
                  (fun i => (0 <? i) && (i <? len data) && negb (data.[i - 1] =? nl))
                  (skipChar data pfx sp);
         g_line := advance (length data)
                  (fun i => (0 <? i) && (i <? len data) && negb (data.[i - 1] =? nl))
                  (skipChar data pfx sp);
         g_raw := slice data (skipChar data pfx sp)
                    (advance (length data)
                       (fun i => (0 <? i) && (i <? len data)
                                 && negb (data.[i - 1] =? nl))
                       (skipChar data pfx sp));
         g_containsBlankLine := false; g_sublist := 0; g_flags := fl |} = Ok g ->
    has (g_flags g) ListItemContainsBlock = false /\ 0 <= g_line g /\
    (g_line g < len data -> line_start data (g_line g) = true)).
  { intros pfx fl g Hp Hfl Hg.
    assert (Hs : 0 <= skipChar data pfx sp).
    { pose proof (advance_bounds (fun i => (i <? len data) && (data.[i] =? sp))
                    (length data) pfx). unfold skipChar. lia. }
    pose proof (first_line_end data _ Hs) as (R0 & R1).
    apply gatherlines_tight in Hg; auto. simpl in Hg.
    destruct Hg as (A & B & C'). repeat split; auto. lia. }
  destruct (uliPrefix data =? 0) eqn:Eu;
    [destruct (oliPrefix data >? 0) eqn:Eo|];
    cbv beta iota zeta in H;
    repeat match type of H with
           | context [if ?c then _ else _] =>
               match c with
               | context [dliPrefix] => destruct c eqn:?
               | context [Z.eqb] => destruct c eqn:?
               | context [negb] => destruct c eqn:?
               end; cbv beta iota zeta in H
           end;
    try discriminate;
    apply bind_Ok in H; destruct H as (g & Hg & H); injection H as <-; simpl;
    (eapply G; [ | | exact Hg]; auto; lia).
Qed.

Lemma no_blank_line_from data i :
  0 <= i < len data -> line_start data i = true ->
  no_blank_line data = true -> no_blank_line (from data i) = true.
Proof.
  intros Hi Hs NB. pose proof (no_blank_line_spec data NB) as S.
  unfold no_blank_line. apply forallb_forall. intros l Hl.
  apply in_map_iff in Hl. destruct Hl as (m & <- & Hm). apply in_seq in Hm.
  assert (Hlen : len (from data i) = len data - i) by (apply len_from; lia).
  unfold len in Hlen.
  destruct (line_start (from data i) (Z.of_nat m)) eqn:Els; [simpl|reflexivity].
  apply Z.eqb_eq. rewrite from_from by lia. apply S; [unfold len in *; lia|].
  unfold line_start in *. destruct (Z.eqb_spec (Z.of_nat m) 0) as [E0|N0].
  - rewrite E0, Z.add_0_r. exact Hs.
  - simpl in Els. rewrite at_from in Els by lia.
    replace (i + Z.of_nat m - 1) with (i + (Z.of_nat m - 1)) by lia.
    rewrite Els. apply orb_true_r.
Qed.

(** Without a blank line and without a ['#'], no item leaves
    [ListItemContainsBlock] in the flags. *)
Lemma list_loose_tight ext data : forall fuel i flags,
  no_blank_line data = true -> no_hash data = true ->
  0 <= i -> (i < len data -> line_start data i = true) ->
  has flags ListItemContainsBlock = false ->
  list_loose fuel ext data i flags = false.
Proof.
  induction fuel as [|f IH]; intros i flags NB NH Hi Hs Hf; cbn [list_loose];
    [reflexivity|].
  destruct (i <? len data) eqn:Elt; [|reflexivity].
  assert (Hlt : i < len data) by lia.
  assert (NB' : no_blank_line (from data i) = true)
    by (apply no_blank_line_from; auto; lia).
  assert (NH' : no_hash (from data i) = true)
    by (apply (no_hash_incl data); [apply incl_from | exact NH]).
  destruct (listItem_scan ext (from data i) flags) as [[sc|]| |] eqn:E; auto.
  apply listItem_scan_tight in E; auto. destruct E as (A & B & D).
  cbv zeta. rewrite A. cbn [orb].
  destruct (_ || _); [reflexivity|].
  apply IH; auto; try lia.
  - intro Hlt'. rewrite len_from in D by lia. specialize (D ltac:(lia)).
    unfold line_start in *. destruct (Z.eqb_spec (scan_line sc) 0) as [E0|N0].
    + rewrite E0, Z.add_0_r. apply Hs. lia.
    + simpl in D. rewrite at_from in D by lia.
      replace (i + scan_line sc - 1) with (i + (scan_line sc - 1)) by lia.
      rewrite D. apply orb_true_r.
  - rewrite has_land_lnot; auto.
Qed.

Lemma data_at_clear p lst a t s d :
  data_at p lst = Some (List a t s d) ->
  data_at (update_node p lst clear_tight) lst = Some (List a false s d).
Proof.
  rewrite data_at_update_node, Nat.eqb_refl. unfold data_at.
  destruct (nth_error (nodes p) lst) as [n|]; simpl; [|discriminate].
  intro H. injection H as H. unfold clear_tight. now rewrite H.
Qed.

Lemma data_at_bound p id d : data_at p id = Some d -> (id < length (nodes p))%nat.
Proof.
  unfold data_at. intro H. apply nth_error_Some.
  destruct (nth_error (nodes p) id); [discriminate|discriminate H].
Qed.

Section ListNode.
Variable C : Collaborators.
Hypothesis wbC : well_behaved C.
Variable blk : bytes -> Parser -> res Parser.
Hypothesis blk_frame : forall d q q', blk d q = Ok q' -> frame q q'.

(** The loop of [list] leaves the list node as it was, but for [Tight]. *)
Lemma list_loop_node lst data : forall fuel p i flags i' p' a t s d,
  data_at p lst = Some (List a t s d) ->
  list_loop C blk fuel p lst data i flags = Ok (i', p') ->
  data_at p' lst
  = Some (List a (t && negb (list_loose fuel (extensions p) data i flags)) s d).
Proof.
  induction fuel as [|f IH]; intros p i flags i' p' a t s d Ht H; simpl in H;
    [discriminate|].
  cbn [list_loose]. destruct (i <? len data).
  2:{ injection H as <- <-. now rewrite andb_true_r. }
  apply bind_Ok in H. destruct H as ([[skip fl] p1] & E & H).
  pose proof (listItem_frame C wbC blk blk_frame _ _ _ _ _ _ E) as F.
  assert (Ht1 : data_at p1 lst = Some (List a t s d)).
  { destruct F as (_ & _ & _ & _ & F & _). rewrite F; eauto using data_at_bound. }
  assert (Hext : extensions p1 = extensions p) by apply F.
  apply listItem_scanned in E.
  destruct E as [(E & -> & ->) | (sc & E & -> & ->)]; rewrite E.
  - rewrite Z.eqb_refl in H. simpl in H. injection H as <- <-.
    destruct (has flags ListItemContainsBlock).
    + rewrite (data_at_clear _ _ _ _ _ _ Ht1). now rewrite andb_false_r.
    + now rewrite Ht1, andb_true_r.
  - cbv zeta.
    set (p2 := if has (scan_flags sc) ListItemContainsBlock
               then update_node p1 lst clear_tight else p1) in *.
    assert (Ht2 : data_at p2 lst
                  = Some (List a (t && negb (has (scan_flags sc) ListItemContainsBlock))
                            s d)).
    { unfold p2. destruct (has (scan_flags sc) ListItemContainsBlock).
      - rewrite (data_at_clear _ _ _ _ _ _ Ht1). now rewrite andb_false_r.
      - now rewrite Ht1, andb_true_r. }
    assert (Hext2 : extensions p2 = extensions p).
    { unfold p2. destruct (has (scan_flags sc) ListItemContainsBlock); auto. }
    destruct ((scan_line sc =? 0) || has (scan_flags sc) ListItemEndOfList).
    + injection H as <- <-. now rewrite orb_false_r.
    + apply (IH _ _ _ _ _ _ _ _ _ Ht2) in H. rewrite H, Hext2.
      rewrite negb_orb, andb_assoc. reflexivity.
Qed.

(** The node [list] adds: a [List] with the flags, start and delimiter it
    was given, and [Tight] unless an item left [ListItemContainsBlock]. *)
Lemma list_node p data flags start delim n p' :
  list_ C blk p data flags start delim = Ok (n, p') ->
  exists block,
    (length (nodes p) <= block)%nat /\
    data_at p' block
    = Some (List (Z.lor flags ListItemBeginningOfList)
              (negb (list_loose (S (length data)) (extensions p) data 0
                       (Z.lor flags ListItemBeginningOfList)))
              start delim).
Proof.
  intro H. unfold list_ in H. apply bind_Ok in H. destruct H as ([block p1] & A & H).
  unfold list_body in H. apply bind_Ok in H. destruct H as ([i q] & L & H).
  apply bind_Ok in H. destruct H as (q' & Fin & H).
  pose proof (finalizeList_id _ _ _ Fin) as ->. injection H as <- <-.
  pose proof (AddBlock_spec C wbC _ _ _ _ A) as (F1 & B1 & _ & D).
  exists block. split; [exact B1|].
  apply (list_loop_node _ _ _ _ _ _ _ _ _ _ _ _ D) in L.
  replace (extensions p1) with (extensions p) in L by (symmetry; apply F1).
  exact L.
Qed.

End ListNode.

(** ** Lists with a blank line between two items *)

Lemma has_lor_same f b : b <> 0 -> has (Z.lor f b) b = true.
Proof.
  intro Hb. unfold has.
  replace (Z.land (Z.lor f b) b) with b; [now apply negb_true_iff, Z.eqb_neq|].
  apply Z.bits_inj'. intros n Hn. rewrite Z.land_spec, Z.lor_spec.
  destruct (Z.testbit f n), (Z.testbit b n); reflexivity.
Qed.

(** Where a turn of [gatherlines] leaves the cursors, and that it keeps
    the type of the list. *)
Lemma gather_step_line ext d isDef indent g brk g' :
  gather_step ext d isDef indent g = Ok (brk, g') ->
  has (g_flags g') ListTypeDefinition = has (g_flags g) ListTypeDefinition /\
  if brk then g_line g' = g_line g
  else g_line g' = advance (length d)
                     (fun i => (i <? len d) && negb (d.[i - 1] =? nl)) (g_i g + 1)
       /\ g_i g' = g_line g'.
Proof.
  unfold gather_step. intro H.
  unbind; simpl; try destruct (g_containsBlankLine g);
    rewrite ?has_lor by reflexivity; auto.
Qed.

(** After a blank line, a turn that stops the item marks it as containing
    a block, or ends the list. *)
Lemma gather_step_after_blank ext d isDef indent g g' :
  gather_step ext d isDef indent g = Ok (true, g') ->
  g_containsBlankLine g = true ->
  has (g_flags g) ListTypeDefinition = false ->
  has (g_flags g') ListItemContainsBlock = true \/
  has (g_flags g') ListItemEndOfList = true.
Proof.
  unfold gather_step. intros H Hc Hd. rewrite Hc, Hd in H. cbn [andb] in H.
  unbind; simpl; rewrite ?has_lor_same by discriminate; auto.
Qed.

Lemma gather_step_blank ext d isDef indent g :
  0 < IsEmpty (slice d (g_line g)
                 (advance (length d)
                    (fun i => (i <? len d) && negb (d.[i - 1] =? nl)) (g_i g + 1))) ->
  exists g', gather_step ext d isDef indent g = Ok (false, g') /\
             g_containsBlankLine g' = true /\ g_flags g' = g_flags g.
Proof.
  intro H. unfold gather_step. apply Z.gtb_lt in H. rewrite H.
  eexists. split; [reflexivity|]. simpl. auto.
Qed.

(** The list item prefixes do not reach beyond the first line. *)
Lemma uliPrefix_line d j : 0 <= j < uliPrefix d -> d.[j] <> nl.
Proof.
  unfold uliPrefix. rewrite skipCharN_lead3.
  pose proof (lead3_spec d _ (fun j => eq_refl)) as (B & L & U & S).
  set (i := advance 3 _ 0) in *.
  destruct (i >=? len d - 1) eqn:E1; [lia|].
  destruct (_ || _) eqn:E2; [lia|]. intro Hj.
  apply orb_false_elim in E2. destruct E2 as (E2 & E3).
  destruct (Z_lt_ge_dec j i) as [Hlt|Hge].
  - rewrite <- (at_upto d i) by lia. rewrite U, at_repeat by lia. discriminate.
  - destruct (Z.eq_dec j i) as [->|Hne].
    + intro E. rewrite E in E2. discriminate E2.
    + replace j with (i + 1) by lia. intro E. rewrite E in E3. discriminate E3.
Qed.

Lemma oliPrefix_line d j : 0 <= j < oliPrefix d -> d.[j] <> nl.
Proof.
  intro Hj. destruct (oliPrefix_shape d ltac:(lia)) as (k & digits & c & w & rest & P).
  rewrite (oliPrefix_value _ _ _ _ _ _ P) in Hj.
  destruct P as (Hk & Hne & Hd & Hc & Hw & ->).
  assert (F : Forall (fun x => x <> nl) (repeat sp k ++ digits ++ [c; w])).
  { apply Forall_app. split.
    - apply Forall_forall. intros x Hx. apply repeat_spec in Hx. subst. discriminate.
    - apply Forall_app. split.
      + eapply Forall_impl; [|exact Hd]. intros a Ha E. subst a. discriminate Ha.
      + repeat constructor; [destruct Hc as [-> | ->] | destruct Hw as [-> | ->]];
          discriminate. }
  replace (repeat sp k ++ digits ++ c :: w :: rest)
    with ((repeat sp k ++ digits ++ [c; w]) ++ rest)
    by (rewrite <- !app_assoc; reflexivity).
  assert (L : len (repeat sp k ++ digits ++ [c; w]) = Z.of_nat k + len digits + 2).
  { rewrite !len_app, len_repeat. change (len [c; w]) with 2. lia. }
  rewrite at_app_l by lia. apply (proj1 (Forall_at _ _) F). lia.
Qed.

Lemma skipChar_stay d c : d.[0] <> c -> skipChar d 0 c = 0.
Proof.
  intro H. unfold skipChar. destruct (length d); simpl; [reflexivity|].
  destruct (Z.eqb_spec d.[0] c); [contradiction|]. now rewrite andb_false_r.
Qed.

Lemma dliPrefix_line d j : 0 <= j < dliPrefix d -> d.[j] <> nl.
Proof.
  unfold dliPrefix. destruct (len d <? 2); [lia|].
  destruct (_ || _) eqn:E; [lia|].
  apply orb_false_elim in E. destruct E as (E1 & E2).
  apply negb_false_iff in E1, E2. apply Z.eqb_eq in E1.
  rewrite skipChar_stay by (rewrite E1; discriminate). intro Hj.
  destruct (Z.eq_dec j 0) as [->|Hne].
  - rewrite E1. discriminate.
  - replace j with 1 by lia. intro E. rewrite E in E2. discriminate E2.
Qed.

Lemma skipChar_line d pfx j :
  (forall x, 0 <= x < pfx -> d.[x] <> nl) ->
  0 <= j < skipChar d pfx sp -> d.[j] <> nl.
Proof.
  intros H Hj. destruct (Z_lt_ge_dec j pfx) as [Hlt|Hge]; [apply H; lia|].
  assert (T : (j <? len d) && (d.[j] =? sp) = true).
  { apply (advance_true (fun i => (i <? len d) && (d.[i] =? sp)) (length d) pfx).
    unfold skipChar in Hj. lia. }
  apply andb_true_iff in T. destruct T as (_ & T). apply Z.eqb_eq in T.
  rewrite T. discriminate.
Qed.

(** The first line of an item ends at or before any later line start. *)
Lemma first_line_before d i1 k :
  0 <= i1 -> (forall x, 0 <= x < i1 -> d.[x] <> nl) -> 0 < k -> d.[k - 1] = nl ->
  advance (length d)
    (fun i => (0 <? i) && (i <? len d) && negb (d.[i - 1] =? nl)) i1 <= k.
Proof.
  intros H0 Hn Hk Hnl.
  set (cond := fun i => (0 <? i) && (i <? len d) && negb (d.[i - 1] =? nl)).
  assert (Hi : i1 <= k - 1).
  { destruct (Z_le_gt_dec i1 (k - 1)); [assumption|].
    exfalso. apply (Hn (k - 1)); [lia | exact Hnl]. }
  destruct (Z_le_gt_dec (advance (length d) cond i1) k) as [|Hgt]; [assumption|].
  assert (T : cond k = true) by (apply (advance_true cond (length d) i1); lia).
  unfold cond in T. rewrite Hnl, Z.eqb_refl, andb_false_r in T. discriminate.
Qed.

Lemma gatherlines_line ext d isDef indent : forall fuel g gf,
  gatherlines fuel ext d isDef indent g = Ok gf ->
  g_i g = g_line g -> 0 <= g_line g ->
  (g_line g < len d -> line_start d (g_line g) = true) ->
  has (g_flags gf) ListTypeDefinition = has (g_flags g) ListTypeDefinition /\
  g_line g <= g_line gf /\
  (g_line gf < len d -> line_start d (g_line gf) = true).
Proof.
  induction fuel as [|f IH]; intros g gf H Hi Hl Hs; simpl in H; [discriminate|].
  destruct (g_line g <? len d) eqn:Elt.
  2:{ injection H as <-. repeat split; auto. lia. }
  apply bind_Ok in H. destruct H as ([brk g1] & E & H).
  apply gather_step_line in E. destruct E as (F1 & E).
  pose proof (line_end_spec d (g_line g) ltac:(lia)) as (E1 & E2 & E3).
  rewrite Hi in E. destruct brk.
  - injection H as <-. rewrite E. repeat split; auto; try lia.
  - destruct E as (L1 & I1). rewrite <- L1 in *.
    apply IH in H; auto; try lia.
    + destruct H as (A & B & D). rewrite A. repeat split; auto. lia.
    + intro Hlt. unfold line_start. rewrite (E3 Hlt), Z.eqb_refl. apply orb_true_r.
Qed.

Section BlankLine.
Variables (pre0 ws post : bytes).
Hypothesis ws_blank : Forall blank ws.
Let d := (pre0 ++ [nl]) ++ ws ++ nl :: post.
Let k := len pre0 + 1.
Let e := len pre0 + 1 + len ws + 1.

Lemma blank_len : len d = e + len post.
Proof.
  unfold d, e. rewrite !len_app, !len_cons. change (len []) with 0. lia.
Qed.

Lemma blank_before : d.[k - 1] = nl.
Proof.
  unfold d, k. rewrite at_app_l by (rewrite len_app; change (len [nl]) with 1;
    pose proof (len_nonneg pre0); lia).
  rewrite at_app_r by lia. replace (len pre0 + 1 - 1 - len pre0) with 0 by lia.
  reflexivity.
Qed.

Lemma blank_inside j : k <= j < e - 1 -> blank d.[j].
Proof.
  intro Hj. unfold d, k, e in *.
  assert (L : len (pre0 ++ [nl]) = len pre0 + 1) by (rewrite len_app; reflexivity).
  rewrite at_app_r by lia. rewrite at_app_l by lia.
  apply (proj1 (Forall_at _ _) ws_blank). lia.
Qed.

Lemma blank_end : d.[e - 1] = nl.
Proof.
  unfold d, e.
  assert (L : len (pre0 ++ [nl]) = len pre0 + 1) by (rewrite len_app; reflexivity).
  pose proof (len_nonneg ws). pose proof (len_nonneg pre0).
  rewrite at_app_r by lia. rewrite at_app_r by lia.
  replace (len pre0 + 1 + len ws + 1 - 1 - len (pre0 ++ [nl]) - len ws) with 0 by lia.
  reflexivity.
Qed.

Lemma blank_line_end :
  advance (length d) (fun i => (i <? len d) && negb (d.[i - 1] =? nl)) (k + 1) = e.
Proof.
  pose proof (len_nonneg ws). pose proof (len_nonneg pre0). pose proof (len_nonneg post).
  pose proof blank_len as L.
  apply advance_eq.
  - unfold e, k. lia.
  - unfold len in *. unfold e, k in *. unfold len. lia.
  - intros j Hj. apply andb_true_iff. split; [apply Z.ltb_lt; unfold k in *; lia|].
    apply negb_true_iff, Z.eqb_neq, blank_not_nl, blank_inside. unfold k, e in *. lia.
  - rewrite blank_end, Z.eqb_refl. apply andb_false_r.
Qed.

Lemma blank_slice : slice d k e = ws ++ [nl].
Proof.
  unfold slice, d, k, e.
  replace (len pre0 + 1) with (len (pre0 ++ [nl])) by (rewrite len_app; reflexivity).
  rewrite from_app.
  replace (len (pre0 ++ [nl]) + len ws + 1 - len (pre0 ++ [nl]))
    with (len (ws ++ [nl])) by (rewrite !len_app; change (len [nl]) with 1; lia).
  change (nl :: post) with ([nl] ++ post). rewrite app_assoc.
  unfold upto, len. rewrite Nat2Z.id. rewrite firstn_app, Nat.sub_diag, firstn_all.
  simpl. apply app_nil_r.
Qed.

Lemma blank_IsEmpty : 0 < IsEmpty (slice d k e).
Proof.
  rewrite blank_slice. apply IsEmpty_blank_line. exists ws. split; [exact ws_blank|].
  left. now exists [].
Qed.

(** An item whose lines are gathered over the blank line and that stops at
    the line after it contains a block, or ends the list. *)
Lemma gatherlines_blank_stop ext isDef indent : forall fuel g gf,
  gatherlines fuel ext d isDef indent g = Ok gf ->
  g_i g = g_line g -> 0 <= g_line g <= k -> line_start d (g_line g) = true ->
  has (g_flags g) ListTypeDefinition = false ->
  g_line gf = e -> post <> [] ->
  has (g_flags gf) ListItemContainsBlock = true \/
  has (g_flags gf) ListItemEndOfList = true.
Proof.
  pose proof (len_nonneg ws) as Hws. pose proof (len_nonneg pre0) as Hpre.
  pose proof blank_len as L.
  induction fuel as [|f IH]; intros g gf H Hi Hl Hs Hd He Hpost; simpl in H;
    [discriminate|].
  assert (Lpost : 0 < len post).
  { pose proof (len_nonneg post).
    assert (len post <> 0) by (intro E0; apply len_0 in E0; contradiction). lia. }
  assert (Hlen : e < len d) by lia.
  replace (g_line g <? len d) with true in H by (symmetry; apply Z.ltb_lt; unfold e, k in *; lia).
  destruct (Z.eq_dec (g_line g) k) as [Ek|Nk].
  - destruct (gather_step_blank ext d isDef indent g) as (g1 & E1 & C1 & F1).
    { rewrite Hi, Ek, blank_line_end. apply blank_IsEmpty. }
    rewrite E1 in H. simpl in H.
    apply gather_step_line in E1. destruct E1 as (_ & L1 & I1).
    rewrite Hi, Ek, blank_line_end in L1.
    destruct f as [|f']; simpl in H; [discriminate|].
    rewrite L1 in H.
    replace (e <? len d) with true in H by (symmetry; apply Z.ltb_lt; lia).
    apply bind_Ok in H. destruct H as ([brk g2] & E2 & H).
    destruct brk.
    + injection H as <-. apply gather_step_after_blank in E2; auto. now rewrite F1.
    + exfalso. pose proof E2 as E2'. apply gather_step_line in E2'.
      destruct E2' as (_ & L2 & I2).
      pose proof (line_end_spec d e ltac:(unfold e; lia)) as (A1 & A2 & A3).
      rewrite I1, L1 in L2.
      apply gatherlines_line in H; [lia | exact I2 | lia |].
      intro Hlt. unfold line_start. rewrite L2. rewrite (A3 ltac:(lia)), Z.eqb_refl.
      apply orb_true_r.
  - apply bind_Ok in H. destruct H as ([brk g1] & E1 & H).
    apply gather_step_line in E1. destruct E1 as (F1 & E1).
    pose proof (line_end_spec d (g_line g) ltac:(unfold k in *; lia)) as (A1 & A2 & A3).
    rewrite Hi in E1. destruct brk.
    + injection H as <-. exfalso. unfold e, k in *. lia.
    + destruct E1 as (L1 & I1). rewrite <- L1 in *.
      assert (Hle : g_line g1 <= k).
      { destruct (Z_le_gt_dec (g_line g1) k); [assumption|exfalso].
        apply (A2 (k - 1)); [lia | apply blank_before]. }
      apply IH in H; auto; try lia.
      * unfold line_start. rewrite (A3 ltac:(unfold e, k in *; lia)), Z.eqb_refl.
        apply orb_true_r.
      * now rewrite F1.
Qed.

End BlankLine.

(** [listItem] up to its rendering: a prefix on the first line, then the
    lines that [gatherlines] collects. *)
Lemma listItem_scan_inv ext d flags sc :
  listItem_scan ext d flags = Ok (Some sc) ->
  exists pfx fl itemIndent g,
    0 <= pfx /\ (forall j, 0 <= j < pfx -> d.[j] <> nl) /\
    ((has flags ListTypeDefinition = false ->
      0 < pfx /\ (pfx = uliPrefix d \/ pfx = oliPrefix d \/ pfx = dliPrefix d)) /\
     (0 < uliPrefix d \/ 0 < oliPrefix d \/ 0 < dliPrefix d -> 0 < pfx)) /\
    has fl ListTypeDefinition = has flags ListTypeDefinition /\
    has fl ListItemContainsBlock = has flags ListItemContainsBlock /\
    gatherlines (S (length d)) ext d (has flags ListTypeDefinition) itemIndent
      {| g_i := advance (length d)
                  (fun i => (0 <? i) && (i <? len d) && negb (d.[i - 1] =? nl))
                  (skipChar d pfx sp);
         g_line := advance (length d)
                  (fun i => (0 <? i) && (i <? len d) && negb (d.[i - 1] =? nl))
                  (skipChar d pfx sp);
         g_raw := slice d (skipChar d pfx sp)
                    (advance (length d)
                       (fun i => (0 <? i) && (i <? len d) && negb (d.[i - 1] =? nl))
                       (skipChar d pfx sp));
         g_containsBlankLine := false; g_sublist := 0; g_flags := fl |} = Ok g /\
    scan_line sc = g_line g /\ scan_flags sc = g_flags g.
Proof.
  intro H. unfold listItem_scan in H.
  apply bind_Ok in H. destruct H as (d0 & _ & H).
  apply bind_Ok in H. destruct H as (itemIndent & _ & H).
  pose proof (uliPrefix_nonneg d) as U. pose proof (oliPrefix_nonneg d) as O.
  pose proof (dliPrefix_nonneg d) as D.
  pose proof (uliPrefix_line d) as UL. pose proof (oliPrefix_line d) as OL.
  pose proof (dliPrefix_line d) as DL.
  destruct (uliPrefix d =? 0) eqn:Eu;
    [destruct (oliPrefix d >? 0) eqn:Eo|];
    cbv beta iota zeta in H;
    repeat match type of H with
           | context [if ?c then _ else _] =>
               match c with
               | context [dliPrefix] => destruct c eqn:?
               | context [Z.eqb] => destruct c eqn:?
               | context [negb] => destruct c eqn:?
               end; cbv beta iota zeta in H
           end;
    try discriminate;
    apply bind_Ok in H; destruct H as (g & Hg & H); injection H as <-;
    match type of Hg with
    | gatherlines _ _ _ _ ?ii
        (Build_Gather (advance _ _ (skipChar _ ?pfx _)) _ _ _ _ ?fl) = _ =>
        exists pfx, fl, ii, g
    end;
    (split; [lia|]); (split; [auto; intros; lia|]);
    (split; [split; [intro Hd;
                     first [ solve [rewrite Hd in *; simpl in *; discriminate]
                           | split; [lia | auto] ]
                    | intros; lia]|]);
    (split; [rewrite ?has_lor, ?has_land_lnot by reflexivity; reflexivity|]);
    (split; [rewrite ?has_lor, ?has_land_lnot by reflexivity; reflexivity|]);
    (split; [exact Hg | split; reflexivity]).
Qed.

Lemma listItem_scan_line ext d flags sc :
  listItem_scan ext d flags = Ok (Some sc) ->
  has (scan_flags sc) ListTypeDefinition = has flags ListTypeDefinition /\
  0 <= scan_line sc /\
  (scan_line sc < len d -> line_start d (scan_line sc) = true).
Proof.
  intro H. apply listItem_scan_inv in H.
  destruct H as (pfx & fl & ii & g & P0 & _ & _ & FD & _ & G & -> & ->).
  assert (Hs : 0 <= skipChar d pfx sp).
  { pose proof (advance_bounds (fun i => (i <? len d) && (d.[i] =? sp))
                  (length d) pfx). unfold skipChar. lia. }
  pose proof (first_line_end d _ Hs) as (R0 & R1).
  apply gatherlines_line in G; auto. simpl in G.
  destruct G as (A & B & D). rewrite A, FD. repeat split; auto. lia.
Qed.

(** The marker of a list item prefix: a byte that is not blank. *)
Lemma uliPrefix_mark d : 0 < uliPrefix d -> exists j, 0 <= j < uliPrefix d /\ ~ blank d.[j].
Proof.
  unfold uliPrefix. rewrite skipCharN_lead3.
  pose proof (lead3_spec d _ (fun j => eq_refl)) as (B & L & U & S).
  set (i := advance 3 _ 0) in *.
  destruct (i >=? len d - 1) eqn:E1; [lia|].
  destruct (_ || _) eqn:E2; [lia|]. intros _.
  apply orb_false_elim in E2. destruct E2 as (E2 & _).
  exists i. split; [lia|]. intros [E | E]; rewrite E in E2; discriminate E2.
Qed.

Lemma oliPrefix_mark d : 0 < oliPrefix d -> exists j, 0 <= j < oliPrefix d /\ ~ blank d.[j].
Proof.
  intro Hp. destruct (oliPrefix_shape d Hp) as (k & digits & c & w & rest & P).
  rewrite (oliPrefix_value _ _ _ _ _ _ P).
  destruct P as (Hk & Hne & Hd & Hc & Hw & ->).
  destruct digits as [|x digits]; [contradiction|].
  exists (Z.of_nat k). rewrite len_cons. pose proof (len_nonneg digits).
  split; [lia|]. rewrite at_app_r by (rewrite len_repeat; lia).
  rewrite len_repeat, Z.sub_diag. unfold at_. simpl.
  apply Forall_inv in Hd. intros [-> | ->]; discriminate Hd.
Qed.

Lemma dliPrefix_mark d : 0 < dliPrefix d -> exists j, 0 <= j < dliPrefix d /\ ~ blank d.[j].
Proof.
  unfold dliPrefix. destruct (len d <? 2); [lia|].
  destruct (_ || _) eqn:E; [lia|]. intros Hp.
  apply orb_false_elim in E. destruct E as (E1 & _).
  apply negb_false_iff, Z.eqb_eq in E1.
  exists 0. split; [lia|]. rewrite E1. intros [E | E]; discriminate E.
Qed.

(** No item begins on a blank line. *)
Lemma listItem_scan_blank ext ws post flags sc :
  Forall blank ws -> has flags ListTypeDefinition = false ->
  listItem_scan ext (ws ++ nl :: post) flags <> Ok (Some sc).
Proof.
  intros Hws Hd H. apply listItem_scan_inv in H.
  destruct H as (pfx & fl & ii & g & P0 & PL & (PM & _) & _).
  destruct (PM Hd) as (Hpos & Hp).
  assert (M : exists j, 0 <= j < pfx /\ ~ blank (ws ++ nl :: post).[j]).
  { destruct Hp as [-> | [-> | ->]];
      [apply uliPrefix_mark | apply oliPrefix_mark | apply dliPrefix_mark]; exact Hpos. }
  destruct M as (j & Hj & Hb). pose proof (len_nonneg ws) as Hw.
  assert (Hle : pfx <= len ws).
  { destruct (Z_le_gt_dec pfx (len ws)); [assumption|exfalso].
    apply (PL (len ws)); [lia|]. rewrite at_app_r, Z.sub_diag by lia. reflexivity. }
  apply Hb. rewrite at_app_l by lia. apply (proj1 (Forall_at _ _) Hws). lia.
Qed.

Lemma from_app_l (a b : bytes) i : 0 <= i <= len a -> from (a ++ b) i = from a i ++ b.
Proof.
  intro H. unfold from. rewrite skipn_app.
  replace (Z.to_nat i - length a)%nat with O by (unfold len in H; lia).
  reflexivity.
Qed.

Lemma item_starts_ge ext data : forall fuel i flags x,
  In x (item_starts fuel ext data i flags) -> i <= x.
Proof.
  induction fuel as [|f IH]; intros i flags x H; simpl in H; [contradiction|].
  destruct (i <? len data); [|contradiction].
  destruct (listItem_scan ext (from data i) flags) as [[sc|]| |] eqn:E;
    try contradiction.
  destruct H as [<- | H]; [lia|].
  destruct (_ || _); [contradiction|].
  apply IH in H. apply listItem_scan_line in E. lia.
Qed.

Section BlankBetweenItems.
Variables (pre0 ws post : bytes).
Hypothesis ws_blank : Forall blank ws.
Hypothesis post_item : post <> [].
Let d := (pre0 ++ [nl]) ++ ws ++ nl :: post.
Let k := len pre0 + 1.
Let e := len pre0 + 1 + len ws + 1.

Lemma listItem_scan_blank_stop ext flags sc :
  listItem_scan ext d flags = Ok (Some sc) ->
  has flags ListTypeDefinition = false ->
  scan_line sc = e ->
  has (scan_flags sc) ListItemContainsBlock = true \/
  has (scan_flags sc) ListItemEndOfList = true.
Proof.
  intros H Hd He. apply listItem_scan_inv in H.
  destruct H as (pfx & fl & ii & g & P0 & PL & _ & FD & _ & G & L & ->).
  pose proof (len_nonneg pre0) as Hpre. pose proof (len_nonneg ws) as Hws.
  pose proof (len_nonneg post) as Hpost.
  pose proof (blank_len pre0 ws post) as Hlen. fold d in Hlen.
  assert (Hs : 0 <= skipChar d pfx sp).
  { pose proof (advance_bounds (fun i => (i <? len d) && (d.[i] =? sp))
                  (length d) pfx). unfold skipChar. lia. }
  pose proof (first_line_end d _ Hs) as (R0 & R1).
  pose proof (first_line_before d _ k Hs (fun x => skipChar_line d pfx x PL)
                ltac:(unfold k; lia) (blank_before pre0 ws post)) as R2.
  eapply (gatherlines_blank_stop pre0 ws post ws_blank) in G; eauto.
  - simpl. apply R1. unfold k in *. lia.
  - rewrite <- L. exact He.
Qed.

End BlankBetweenItems.

(** A blank line before an item of the list other than the first: the
    item before it is left with [ListItemContainsBlock]. *)
Lemma list_loose_blank ext pre0 ws post :
  Forall blank ws -> post <> [] ->
  let data := (pre0 ++ [nl]) ++ ws ++ nl :: post in
  forall fuel i flags,
    0 <= i <= len pre0 + 1 -> line_start data i = true ->
    has flags ListTypeDefinition = false ->
    In (len pre0 + 1 + len ws + 1) (item_starts fuel ext data i flags) ->
    list_loose fuel ext data i flags = true.
Proof.
  intros Hws Hpost data.
  pose proof (len_nonneg pre0) as Lpre. pose proof (len_nonneg ws) as Lws.
  pose proof (len_nonneg post) as Lpost.
  pose proof (blank_len pre0 ws post) as Hlen. fold data in Hlen.
  induction fuel as [|f IH]; intros i flags Hi Hs Hd Hin; simpl in Hin;
    [contradiction|].
  cbn [list_loose]. destruct (i <? len data); [|contradiction].
  destruct (listItem_scan ext (from data i) flags) as [[sc|]| |] eqn:E;
    try contradiction.
  cbv zeta in *. destruct Hin as [Hin | Hin]; [lia|].
  destruct (has (scan_flags sc) ListItemContainsBlock) eqn:ECB; [reflexivity|].
  cbn [orb].
  destruct ((scan_line sc =? 0) || has (scan_flags sc) ListItemEndOfList) eqn:Estop;
    [contradiction|].
  apply orb_false_elim in Estop. destruct Estop as (Eskip & EEOL).
  pose proof (item_starts_ge _ _ _ _ _ _ Hin) as Hge.
  pose proof (listItem_scan_line _ _ _ _ E) as (FD & S0 & S1).
  assert (Hik : i <> len pre0 + 1).
  { intros ->. unfold data in E.
    replace (len pre0 + 1) with (len (pre0 ++ [nl])) in E
      by (rewrite len_app; reflexivity).
    rewrite from_app in E. now apply listItem_scan_blank in E. }
  assert (Hfrom : from data i = (from pre0 i ++ [nl]) ++ ws ++ nl :: post).
  { unfold data. rewrite <- !app_assoc. rewrite from_app_l by lia. reflexivity. }
  assert (Lfrom : len (from pre0 i) = len pre0 - i) by (apply len_from; lia).
  destruct (Z.eq_dec (i + scan_line sc) (len pre0 + 1 + len ws + 1)) as [Ee|Ne].
  - exfalso. rewrite Hfrom in E.
    apply (listItem_scan_blank_stop (from pre0 i) ws post Hws Hpost) in E; auto;
      [|lia].
    destruct E as [E | E]; congruence.
  - apply IH; auto.
    + split; [lia|].
      destruct (Z_le_gt_dec (i + scan_line sc) (len pre0 + 1)); [assumption|exfalso].
      rewrite len_from in S1 by lia. specialize (S1 ltac:(lia)).
      unfold line_start in S1. rewrite Eskip in S1. simpl in S1.
      rewrite at_from in S1 by lia. apply Z.eqb_eq in S1.
      apply (blank_not_nl data.[i + (scan_line sc - 1)]); [|exact S1].
      apply (blank_inside pre0 ws post Hws). lia.
    + rewrite len_from in S1 by lia. specialize (S1 ltac:(lia)).
      unfold line_start in *. rewrite Eskip in S1. simpl in S1.
      rewrite at_from in S1 by lia.
      replace (i + scan_line sc - 1) with (i + (scan_line sc - 1)) by lia.
      rewrite S1. apply orb_true_r.
    + rewrite has_land_lnot by reflexivity. now rewrite FD.
Qed.


(** No blank line anywhere, and yet the list is loose: the heading line
    inside the first item sets [ListItemContainsBlock]. *)
Lemma heading_line_in_item_counterexample :
  no_blank_line (bs "* a\n# h\n* b\n") = true /\
  exists n p',
    list_ plain (Block plain 20) (newParser 0 16) (bs "* a\n# h\n* b\n") 0 0 c_dot
      = Ok (n, p') /\
    data_at p' 1 = Some (List 16 false 0 c_dot) /\
    children_data p' 1 = [ListItem 24 false c_star c_dot;
                          ListItem 8 false c_star c_dot].
Proof.
  split; [vm_compute; reflexivity|].
  do 2 eexists. split; [vm_compute; reflexivity|].
  split; vm_compute; reflexivity.
Qed.

(** ** Every turn of the loop of [Block] consumes input *)

Lemma listItem_scan_pos ext d flags sc :
  0 < uliPrefix d \/ 0 < oliPrefix d \/ 0 < dliPrefix d ->
  listItem_scan ext d flags = Ok (Some sc) -> 0 < scan_line sc.
Proof.
  intros Hp H. apply listItem_scan_inv in H.
  destruct H as (pfx & fl & ii & g & P0 & _ & (_ & PP) & _ & _ & G & -> & _).
  specialize (PP Hp).
  assert (Hs : pfx <= skipChar d pfx sp).
  { pose proof (advance_bounds (fun i => (i <? len d) && (d.[i] =? sp))
                  (length d) pfx). unfold skipChar. lia. }
  pose proof (advance_bounds
                (fun i => (0 <? i) && (i <? len d) && negb (d.[i - 1] =? nl))
                (length d) (skipChar d pfx sp)) as B.
  pose proof (first_line_end d (skipChar d pfx sp) ltac:(lia)) as (R0 & R1).
  apply gatherlines_line in G; auto; simpl in *; lia.
Qed.

Lemma listItem_scan_some ext d flags :
  0 < uliPrefix d \/ 0 < oliPrefix d \/ 0 < dliPrefix d ->
  listItem_scan ext d flags <> Ok None.
Proof.
  intros Hp H. unfold listItem_scan in H.
  apply bind_Ok in H. destruct H as (d0 & _ & H).
  apply bind_Ok in H. destruct H as (itemIndent & _ & H).
  destruct (uliPrefix d =? 0) eqn:Eu;
    [destruct (oliPrefix d >? 0) eqn:Eo|];
    cbv beta iota zeta in H;
    repeat match type of H with
           | context [if ?c then _ else _] =>
               match c with
               | context [dliPrefix] => destruct c eqn:?
               | context [Z.eqb] => destruct c eqn:?
               | context [negb] => destruct c eqn:?
               end; cbv beta iota zeta in H
           end;
    try (apply bind_Ok in H; destruct H as (g & Hg & H); discriminate H);
    pose proof (uliPrefix_nonneg d); pose proof (oliPrefix_nonneg d);
    pose proof (dliPrefix_nonneg d); simpl in *; lia.
Qed.

Section Progress.
Variable C : Collaborators.
Variable blk : bytes -> Parser -> res Parser.

Lemma list_loop_ge lst data : forall fuel p i flags i' p',
  list_loop C blk fuel p lst data i flags = Ok (i', p') -> i <= i'.
Proof.
  induction fuel as [|f IH]; intros p i flags i' p' H; simpl in H; [discriminate|].
  destruct (i <? len data); [|injection H as <- _; lia].
  apply bind_Ok in H. destruct H as ([[skip fl] p1] & E & H).
  apply listItem_scanned in E.
  assert (Hs : 0 <= skip).
  { destruct E as [(_ & -> & _) | (sc & E & -> & _)]; [lia|].
    now apply listItem_scan_line in E. }
  destruct ((skip =? 0) || has fl ListItemEndOfList).
  - injection H as <- _. lia.
  - apply IH in H. lia.
Qed.

(** [list] called on an item prefix consumes it. *)
Lemma list_pos p data flags start delim n p' :
  0 < uliPrefix data \/ 0 < oliPrefix data \/ 0 < dliPrefix data ->
  0 < len data ->
  list_ C blk p data flags start delim = Ok (n, p') -> 0 < n.
Proof.
  intros Hp Hl H. unfold list_ in H. apply bind_Ok in H.
  destruct H as ([block p1] & _ & H).
  unfold list_body in H. apply bind_Ok in H. destruct H as ([i q] & L & H).
  apply bind_Ok in H. destruct H as (q' & _ & H). injection H as <- _.
  cbn [list_loop] in L.
  replace (0 <? len data) with true in L by (symmetry; apply Z.ltb_lt; lia).
  apply bind_Ok in L. destruct L as ([[skip fl] p2] & E & L).
  apply listItem_scanned in E. change (from data 0) with data in E.
  destruct E as [(E & _) | (sc & E & -> & _)];
    [now apply listItem_scan_some in E|].
  apply listItem_scan_pos in E; auto.
  destruct ((scan_line sc =? 0) || has fl ListItemEndOfList).
  - injection L as <- _. lia.
  - apply list_loop_ge in L. lia.
Qed.

End Progress.

Lemma skipCharN_loop_ge c data : forall fuel i m, i <= skipCharN_loop fuel data i c m.
Proof.
  induction fuel as [|f IH]; intros i m; simpl; [lia|].
  destruct (_ && _); [|lia]. specialize (IH (i + 1) (m - 1)). lia.
Qed.

Lemma skipChar_ge data i c : i <= skipChar data i c.
Proof.
  pose proof (advance_bounds (fun i => (i <? len data) && (data.[i] =? c))
                (length data) i). unfold skipChar. lia.
Qed.

Lemma skipUntilChar_ge data i c : i <= skipUntilChar data i c.
Proof.
  pose proof (advance_bounds (fun i => (i <? len data) && negb (data.[i] =? c))
                (length data) i). unfold skipUntilChar. lia.
Qed.

Lemma skipUntilChar_pos data c : 0 < len data -> data.[0] <> c -> 0 < skipUntilChar data 0 c.
Proof.
  intros Hl Hc. unfold skipUntilChar.
  destruct (length data) as [|n] eqn:E; [unfold len in Hl; lia|].
  cbn [advance].
  replace (0 <? len data) with true by (symmetry; apply Z.ltb_lt; lia).
  destruct (Z.eqb_spec data.[0] c); [contradiction|]. cbn [negb andb].
  pose proof (advance_bounds (fun i => (i <? len data) && negb (data.[i] =? c)) n (0 + 1)).
  lia.
Qed.

Lemma heading_extent_skip C ext data i id e skip :
  heading_extent C ext data i = (id, e, skip) -> i <= skip.
Proof.
  unfold heading_extent. intro H.
  pose proof (skipUntilChar_ge data i nl) as S1.
  destruct (has ext HeadingIDs); [|injection H as _ _ <-; exact S1].
  set (j := advance _ _ i) in *.
  set (k := advance _ _ (j + 1)) in *.
  assert (Hj : i <= j) by apply advance_bounds.
  assert (Hk : j + 1 <= k) by apply advance_bounds.
  destruct ((j <? skipUntilChar data i nl) && (k <? skipUntilChar data i nl));
    injection H as _ _ <-; lia.
Qed.

Lemma skipCharN_first data c m :
  0 < len data -> data.[0] = c -> 0 < m -> 1 <= skipCharN data 0 c m.
Proof.
  intros Hl Hc Hm. unfold skipCharN.
  destruct (length data) as [|n] eqn:E; [unfold len in Hl; lia|].
  cbn [skipCharN_loop].
  replace (0 <? len data) with true by (symmetry; apply Z.ltb_lt; lia).
  replace (0 <? m) with true by (symmetry; apply Z.ltb_lt; lia).
  rewrite Hc, Z.eqb_refl. cbn [andb].
  apply (skipCharN_loop_ge c data n (0 + 1) (m - 1)).
Qed.

Section Progress1.
Variable C : Collaborators.
Variable blk : bytes -> Parser -> res Parser.

Lemma prefixHeading_pos p data n p' :
  isPrefixHeading (extensions p) data = true -> 0 < len data ->
  prefixHeading C p data = Ok (n, p') -> 0 < n.
Proof.
  intros Hh Hl H. unfold prefixHeading in H.
  destruct (heading_extent _ _ _ _) as [[id e] skip] eqn:E.
  apply bind_Ok in H. destruct H as (q & _ & H). injection H as <- _.
  apply heading_extent_skip in E.
  assert (H0 : data.[0] = c_hash).
  { unfold isPrefixHeading in Hh.
    replace (len data >? 0) with true in Hh by (symmetry; apply Z.gtb_lt; lia).
    destruct (Z.eqb_spec data.[0] c_hash); [assumption|discriminate]. }
  pose proof (skipCharN_first data c_hash 6 Hl H0 ltac:(lia)).
  pose proof (skipChar_ge data (skipCharN data 0 c_hash 6) sp). lia.
Qed.

Lemma prefixSpecialHeading_pos p data n p' :
  prefixSpecialHeading C p data = Ok (n, p') -> 0 < n.
Proof.
  intro H. unfold prefixSpecialHeading in H.
  destruct (heading_extent _ _ _ _) as [[id e] skip] eqn:E.
  apply bind_Ok in H. destruct H as (q & _ & H). injection H as <- _.
  apply heading_extent_skip in E.
  pose proof (skipChar_ge data 2 sp). lia.
Qed.

Lemma isHRule_first data : isHRule data = Ok true -> data.[0] <> nl.
Proof.
  unfold isHRule. intro H. apply bind_Ok in H. destruct H as (i & Hi & H).
  apply bind_Ok in H. destruct H as (d & Hd & H).
  intro E. cbn [isHRule_spaces] in Hi. change (0 <? 3) with true in Hi. cbv iota in Hi.
  apply bind_Ok in Hi. destruct Hi as (d0 & Hd0 & Hi).
  unfold get, index in Hd0.
  destruct ((0 <=? 0) && (0 <? len data)); [|discriminate].
  injection Hd0 as <-. rewrite E in Hi. change (nl =? sp) with false in Hi.
  injection Hi as <-. unfold get, index in Hd.
  destruct ((0 <=? 0) && (0 <? len data)); [|discriminate].
  injection Hd as <-. rewrite E in H. simpl in H. discriminate.
Qed.
End Progress1.

Lemma code_loop_ge data : forall fuel i work r w,
  code_loop fuel data i work = (r, w) -> i <= r.
Proof.
  induction fuel as [|f IH]; intros i work r w H; simpl in H;
    [injection H as <- _; lia|].
  destruct (i <? len data); [|injection H as <- _; lia].
  pose proof (skipUntilChar_ge data i nl) as S1.
  pose proof (skipCharN_loop_ge nl data (length data) (skipUntilChar data i nl) 1) as S2.
  fold (skipCharN data (skipUntilChar data i nl) nl 1) in S2.
  destruct (codePrefix _ >? 0).
  - apply IH in H. lia.
  - destruct (negb _); [injection H as <- _; lia|]. apply IH in H. lia.
Qed.

Lemma codePrefix_first data :
  0 < codePrefix data ->
  0 < len data /\ data.[0] <> nl /\
  forall i, skipUntilChar data 0 nl <= i -> 0 < codePrefix (slice data 0 i).
Proof.
  unfold codePrefix at 1. intro H.
  destruct ((len data >=? 1) && (data.[0] =? tab)) eqn:E1.
  - apply andb_true_iff in E1. destruct E1 as (L & T). apply Z.eqb_eq in T.
    split; [lia|]. split; [rewrite T; discriminate|]. intros i Hi.
    assert (P : 0 < skipUntilChar data 0 nl).
    { apply skipUntilChar_pos; [lia | rewrite T; discriminate]. }
    assert (Ls : 1 <= len (slice data 0 i)).
    { destruct (Z_le_gt_dec i (len data)).
      - rewrite len_slice by lia. lia.
      - unfold slice, from, upto. simpl. rewrite firstn_all2 by (unfold len in *; lia).
        lia. }
    unfold codePrefix. rewrite at_slice by lia. simpl (0 + 0). rewrite T.
    replace (len (slice data 0 i) >=? 1) with true by (symmetry; apply Z.geb_le; lia). simpl. lia.
  - match type of H with
    | context [if ?c then 4 else 0] => destruct c eqn:E2; [|lia]
    end.
    repeat (apply andb_true_iff in E2; destruct E2 as (E2 & ?)).
    repeat match goal with H : (_ =? _) = true |- _ => apply Z.eqb_eq in H end.
    assert (Q : forall j, 0 <= j < 4 -> data.[j] <> nl).
    { intros j Hj. assert (j = 0 \/ j = 1 \/ j = 2 \/ j = 3) as [-> | [-> | [-> | ->]]]
        by lia;
        match goal with
        | Hx : data.[?j] = sp |- data.[?j] <> nl => rewrite Hx; discriminate
        end. }
    split; [lia|]. split; [apply Q; lia|]. intros i Hi.
    assert (P : 4 <= skipUntilChar data 0 nl).
    { pose proof (skipUntilChar_first data 0 nl ltac:(lia)) as (B & N & _).
      destruct (Z_le_gt_dec 4 (skipUntilChar data 0 nl)); [assumption|exfalso].
      pose proof (skipUntilChar_first data 0 nl ltac:(lia)) as (_ & _ & X).
      specialize (X ltac:(lia)).
      apply (Q (skipUntilChar data 0 nl)); [lia | exact X]. }
    assert (Ls : 4 <= len (slice data 0 i)).
    { destruct (Z_le_gt_dec i (len data)).
      - rewrite len_slice by lia. lia.
      - unfold slice, from, upto. simpl. rewrite firstn_all2 by (unfold len in *; lia).
        lia. }
    unfold codePrefix. rewrite !at_slice by lia. simpl (0 + _).
    repeat match goal with H : data.[_] = sp |- _ => rewrite H end.
    replace (len (slice data 0 i) >=? 4) with true by (symmetry; apply Z.geb_le; lia).
    replace (len (slice data 0 i) >=? 1) with true by (symmetry; apply Z.geb_le; lia).
    simpl. lia.
Qed.

Section Progress2.
Variable C : Collaborators.
Variable blk : bytes -> Parser -> res Parser.

Lemma code_pos p data n p' :
  0 < codePrefix data -> code C p data = Ok (n, p') -> 0 < n.
Proof.
  intros Hc H. unfold code in H.
  destruct (code_loop _ _ _ _) as [i work] eqn:E.
  apply bind_Ok in H. destruct H as ([id q] & _ & H).
  apply bind_Ok in H. destruct H as (q' & _ & H). injection H as <- _.
  apply codePrefix_first in Hc. destruct Hc as (Hl & H0 & Hp).
  destruct (length data) as [|f] eqn:El; [unfold len in Hl; lia|].
  cbn [code_loop] in E.
  replace (0 <? len data) with true in E by (symmetry; apply Z.ltb_lt; lia).
  pose proof (skipUntilChar_pos data nl Hl H0) as P1.
  pose proof (skipCharN_loop_ge nl data (S f) (skipUntilChar data 0 nl) 1) as P2.
  rewrite <- El in P2. fold (skipCharN data (skipUntilChar data 0 nl) nl 1) in P2.
  specialize (Hp (skipCharN data (skipUntilChar data 0 nl) nl 1) P2).
  replace (codePrefix _ >? 0) with true in E by (symmetry; apply Z.gtb_lt; exact Hp).
  apply code_loop_ge in E. lia.
Qed.

End Progress2.

Lemma fencedCodeBlock_norender_ge2 d :
  0 < fencedCodeBlock_norender d -> 2 <= fencedCodeBlock_norender d.
Proof.
  unfold fencedCodeBlock_norender, fencedCodeBlock_scan.
  destruct (isFenceLine d []) as [[beg marker] syntax] eqn:E.
  destruct ((beg =? 0) || (beg >=? len d)) eqn:Eb; [lia|].
  apply orb_false_elim in Eb. destruct Eb as (B0 & B1).
  destruct (fence_scan _ _ _ _ _) as [[e w]|] eqn:F; [|lia]. intros _.
  pose proof (isFenceLine_result _ _ _ _ _ E ltac:(lia)) as ([Hb | Hb] & _); [lia|].
  pose proof (fence_scan_spec d marker (length d) beg
                (match syntax with Some x => x | None => [] end ++ [nl])
                ltac:(lia) ltac:(unfold len; lia)) as (S1 & _).
  specialize (S1 _ _ F). lia.
Qed.

Lemma quote_line_end_ge ext data : forall fuel e, e <= quote_line_end fuel ext data e.
Proof.
  induction fuel as [|f IH]; intros e; simpl; [lia|].
  destruct (_ && negb _); [|lia].
  destruct (has ext FencedCode && _) eqn:E.
  - apply andb_true_iff in E. destruct E as (_ & E).
    apply Z.gtb_lt, fencedCodeBlock_norender_ge2 in E. lia.
  - specialize (IH (e + 1)). lia.
Qed.

Lemma quote_iter_ge ext data beg raw brk e r :
  quote_iter ext data beg raw = (brk, e, r) -> beg <= e.
Proof.
  unfold quote_iter. intro H.
  pose proof (quote_line_end_ge ext data (length data) beg) as Q.
  pose proof (skipCharN_loop_ge nl data (length data)
                (quote_line_end (length data) ext data beg) 1) as S1.
  fold (skipCharN data (quote_line_end (length data) ext data beg) nl 1) in S1.
  destruct (_ >? 0); [injection H as _ <- _; lia|].
  destruct (terminateBlockquote _ _ _); injection H as _ <- _; lia.
Qed.

Lemma quote_gather_ge ext data : forall fuel beg end_ raw r e,
  quote_gather fuel ext data beg end_ raw = (r, e) -> end_ <= beg -> end_ <= e.
Proof.
  induction fuel as [|f IH]; intros beg end_ raw r e H Hb; simpl in H;
    [injection H as _ <-; lia|].
  destruct (beg <? len data); [|injection H as _ <-; lia].
  destruct (quote_iter ext data beg raw) as [[brk e1] r1] eqn:E.
  apply quote_iter_ge in E. destruct brk.
  - injection H as _ <-. lia.
  - apply IH in H; lia.
Qed.

Lemma quotePrefix_first data : 0 < quotePrefix data -> 0 < len data /\ data.[0] <> nl.
Proof.
  intro H. destruct (proj1 (quotePrefix_prefixed data) ltac:(lia)) as (k & rest & Hk & ->).
  destruct k as [|k]; simpl.
  - rewrite len_cons. pose proof (len_nonneg rest). split; [lia|]. discriminate.
  - rewrite len_cons. pose proof (len_nonneg (repeat sp k ++ c_gt :: rest)).
    split; [lia|]. discriminate.
Qed.

Lemma quote_gather_pos ext data raw e :
  0 < quotePrefix data ->
  quote_gather (length data) ext data 0 0 [] = (raw, e) -> 0 < e.
Proof.
  intros Hq G. pose proof (quotePrefix_first data Hq) as (Hl & H0).
  destruct (length data) as [|f] eqn:El; [unfold len in Hl; lia|].
  cbn [quote_gather] in G.
  replace (0 <? len data) with true in G by (symmetry; apply Z.ltb_lt; lia).
  unfold quote_iter in G. change (from data 0) with data in G.
  replace (quotePrefix data >? 0) with true in G by (symmetry; apply Z.gtb_lt; lia).
  assert (P : 1 <= quote_line_end (length data) ext data 0).
  { rewrite El. cbn [quote_line_end].
    replace (0 <? len data) with true by (symmetry; apply Z.ltb_lt; lia).
    destruct (Z.eqb_spec data.[0] nl); [contradiction|]. cbn [negb andb].
    destruct (has ext FencedCode && _) eqn:E.
    - apply andb_true_iff in E. destruct E as (_ & E).
      apply Z.gtb_lt, fencedCodeBlock_norender_ge2 in E. lia.
    - apply quote_line_end_ge. }
  pose proof (skipCharN_loop_ge nl data (length data)
                (quote_line_end (length data) ext data 0) 1) as S1.
  fold (skipCharN data (quote_line_end (length data) ext data 0) nl 1) in S1.
  apply quote_gather_ge in G; lia.
Qed.

Section Progress3.
Variable C : Collaborators.
Variable blk : bytes -> Parser -> res Parser.

Lemma quote_pos p data n p' :
  0 < quotePrefix data -> quote C blk p data = Ok (n, p') -> 0 < n.
Proof.
  intros Hq H. unfold quote in H.
  destruct (quote_gather _ _ _ _ _ _) as [raw e] eqn:G.
  apply quote_gather_pos in G; auto.
  unbind; lia.
Qed.

End Progress3.

(** ** The paragraph as the last resort *)

(** The shape of an unordered list item prefix. *)
Lemma uliPrefix_value k m w rest :
  (k <= 3)%nat -> (m = c_star \/ m = c_plus \/ m = c_minus) -> (w = sp \/ w = tab) ->
  uliPrefix (repeat sp k ++ m :: w :: rest) = Z.of_nat k + 2.
Proof.
  intros Hk Hm Hw. unfold uliPrefix. rewrite skipCharN_lead3.
  rewrite (lead3_eq (repeat sp k ++ m :: w :: rest) _ (fun j => eq_refl) k
             (m :: w :: rest) Hk eq_refl).
  2:{ intros _. right. unfold at_. simpl. destruct Hm as [-> | [-> | ->]]; discriminate. }
  rewrite len_app, len_repeat, !len_cons. pose proof (len_nonneg rest).
  replace (Z.of_nat k >=? Z.of_nat k + (len rest + 1 + 1) - 1) with false
    by (symmetry; rewrite Z.geb_leb; apply Z.leb_gt; lia).
  rewrite at_app_r by (rewrite len_repeat; lia).
  rewrite at_app_r by (rewrite len_repeat; lia).
  rewrite len_repeat, Z.sub_diag.
  replace (Z.of_nat k + 1 - Z.of_nat k) with 1 by lia.
  unfold at_. simpl.
  destruct Hm as [-> | [-> | ->]]; destruct Hw as [-> | ->]; reflexivity.
Qed.

Lemma uliPrefix_shape d :
  0 < uliPrefix d ->
  exists k m w rest,
    (k <= 3)%nat /\ (m = c_star \/ m = c_plus \/ m = c_minus) /\ (w = sp \/ w = tab) /\
    d = repeat sp k ++ m :: w :: rest.
Proof.
  unfold uliPrefix. rewrite skipCharN_lead3.
  pose proof (lead3_spec d _ (fun j => eq_refl)) as (B & L & U & S).
  set (i := advance 3 _ 0) in *.
  destruct (i >=? len d - 1) eqn:E1; [lia|].
  destruct (_ || _) eqn:E2; [lia|]. intros _.
  apply orb_false_elim in E2. destruct E2 as (E2 & E3).
  exists (Z.to_nat i), d.[i], d.[i + 1], (from d (i + 2)).
  split; [lia|]. split.
  { destruct (Z.eqb_spec d.[i] c_star); auto.
    destruct (Z.eqb_spec d.[i] c_plus); auto.
    destruct (Z.eqb_spec d.[i] c_minus); auto. discriminate E2. }
  split.
  { destruct (Z.eqb_spec d.[i + 1] sp); auto.
    destruct (Z.eqb_spec d.[i + 1] tab); auto. discriminate E3. }
  rewrite <- U. rewrite <- (upto_from d i) at 1. f_equal.
  rewrite (from_at d i) by lia. f_equal.
  rewrite (from_at d (i + 1)) by lia. f_equal. f_equal. lia.
Qed.

(** A prefix found on the first line alone is a prefix of the buffer. *)
Lemma uliPrefix_upto d e : 0 < uliPrefix (upto d e) -> 0 < uliPrefix d.
Proof.
  intro H. destruct (uliPrefix_shape _ H) as (k & m & w & rest & Hk & Hm & Hw & E).
  rewrite <- (upto_from d e), E, <- app_assoc. simpl.
  rewrite uliPrefix_value by auto. lia.
Qed.

Lemma oliPrefix_upto d e : 0 < oliPrefix (upto d e) -> 0 < oliPrefix d.
Proof.
  intro H. destruct (oliPrefix_shape _ H) as (k & digits & c & w & rest & P).
  destruct P as (Hk & Hne & Hd & Hc & Hw & E).
  rewrite (oliPrefix_value d k digits c w (rest ++ from d e)).
  - pose proof (len_nonneg digits). lia.
  - repeat split; auto. rewrite <- (upto_from d e) at 1. rewrite E.
    rewrite <- !app_assoc. reflexivity.
Qed.

Lemma dliPrefix_upto d e : 0 < dliPrefix (upto d e) -> 0 < dliPrefix d.
Proof.
  unfold dliPrefix at 1. destruct (len (upto d e) <? 2) eqn:E0; [lia|].
  destruct (_ || _) eqn:E; [lia|]. intros _.
  apply orb_false_elim in E. destruct E as (E1 & E2).
  apply negb_false_iff in E1, E2.
  assert (Le : 2 <= len (upto d e)) by lia.
  assert (Ld : len (upto d e) <= len d).
  { unfold upto, len. rewrite length_firstn. lia. }
  assert (He : 2 <= e).
  { unfold upto, len in Le. rewrite length_firstn in Le. lia. }
  rewrite !at_upto in * by lia.
  unfold dliPrefix. replace (len d <? 2) with false by lia.
  rewrite E1, E2. simpl. pose proof (skipChar_ge d 0 sp). lia.
Qed.

Lemma slice_0 data e : slice data 0 e = upto data e.
Proof. unfold slice. now rewrite Z.sub_0_r. Qed.

Lemma line_end_first data :
  0 < len data ->
  advance (length data) (fun i => (i <? len data) && negb (data.[i - 1] =? nl)) (0 + 1)
  = first_line data.
Proof.
  intro Hl. unfold first_line.
  pose proof (skipUntilChar_first data 0 nl ltac:(lia)) as (B & N & X).
  set (s := skipUntilChar data 0 nl) in *.
  apply advance_eq.
  - destruct (s <? len data) eqn:E; lia.
  - unfold len in *. destruct (s <? Z.of_nat (length data)) eqn:E; lia.
  - intros j Hj. apply andb_true_iff. split.
    + apply Z.ltb_lt. destruct (s <? len data) eqn:E; lia.
    + apply negb_true_iff, Z.eqb_neq, N. destruct (s <? len data) eqn:E; lia.
  - destruct (s <? len data) eqn:E.
    + replace (s + 1 - 1) with s by lia. rewrite (X ltac:(lia)), Z.eqb_refl.
      apply andb_false_r.
    + rewrite Z.ltb_irrefl. reflexivity.
Qed.

Lemma first_line_pos data : 0 < len data -> 0 < first_line data <= len data.
Proof.
  intro Hl. unfold first_line.
  pose proof (skipUntilChar_first data 0 nl ltac:(lia)) as (B & _).
  destruct (_ <? _) eqn:E; lia.
Qed.

(** The first line of an item ends at the end of the first line of the
    buffer, or later, when the item has a prefix or leading spaces. *)
Lemma first_line_after d i1 :
  1 <= i1 -> (forall x, 0 <= x < i1 -> d.[x] <> nl) ->
  first_line d <=
  advance (length d)
    (fun i => (0 <? i) && (i <? len d) && negb (d.[i - 1] =? nl)) i1.
Proof.
  intros H1 Hn.
  set (cond := fun i => (0 <? i) && (i <? len d) && negb (d.[i - 1] =? nl)).
  set (r := advance (length d) cond i1).
  pose proof (advance_bounds cond (length d) i1) as B. fold r in B.
  assert (Hstop : cond r = false).
  { apply advance_stop_bounded with (n := len d).
    - intros j Hj. unfold cond in Hj. lia.
    - unfold len. lia. }
  destruct (Z_le_gt_dec (len d) 0) as [Hl0|Hl0].
  { unfold first_line. pose proof (skipUntilChar_ge d 0 nl).
    replace (skipUntilChar d 0 nl <? len d) with false by lia. lia. }
  pose proof (first_line_pos d ltac:(lia)) as F.
  destruct (Z_le_gt_dec (first_line d) r) as [|Hlt]; [assumption|exfalso].
  unfold cond in Hstop.
  replace (0 <? r) with true in Hstop by (symmetry; apply Z.ltb_lt; lia).
  replace (r <? len d) with true in Hstop by (symmetry; apply Z.ltb_lt; lia).
  simpl in Hstop. apply negb_false_iff, Z.eqb_eq in Hstop.
  pose proof (skipUntilChar_first d 0 nl ltac:(lia)) as (_ & N & _).
  apply (N (r - 1)); [|exact Hstop].
  unfold first_line in Hlt. destruct (_ <? _) eqn:E; lia.
Qed.

Lemma skipChar_0 d c : skipChar d 0 c = 0 -> 0 < len d -> d.[0] <> c.
Proof.
  unfold skipChar. intros H Hl E.
  destruct (length d) as [|n] eqn:El; [unfold len in Hl; lia|].
  cbn [advance] in H.
  replace (0 <? len d) with true in H by (symmetry; apply Z.ltb_lt; lia).
  rewrite E, Z.eqb_refl in H. cbn [andb] in H.
  pose proof (advance_bounds (fun i => (i <? len d) && (d.[i] =? c)) n (0 + 1)). lia.
Qed.

(** In a definition list, the line of a term that stands at the start of
    the buffer is gathered: the turn does not stop the item. *)
Lemma gather_step_term ext d indent g brk g' :
  gather_step ext d true indent g = Ok (brk, g') ->
  g_line g = 0 -> g_i g = 0 -> g_containsBlankLine g = false ->
  0 < len d -> d.[0] <> tab -> d.[0] <> sp ->
  uliPrefix d <= 0 -> oliPrefix d <= 0 -> dliPrefix d <= 0 ->
  brk = false.
Proof.
  intros H Hl Hi Hc Hlen Ht Hs U O D. unfold gather_step in H.
  rewrite Hl, Hi, Hc in H. cbn [andb negb] in H.
  set (e := advance _ _ (0 + 1)) in *.
  destruct (IsEmpty _ >? 0); [injection H as <- _; reflexivity|].
  destruct (Z.eqb_spec d.[0] tab) as [|_]; [contradiction|].
  assert (K : advance 4 (fun k => (k <? 4) && (0 + k <? e) && (d.[0 + k] =? sp)) 0 = 0).
  { cbn [advance]. simpl (0 + 0). destruct (Z.eqb_spec d.[0] sp); [contradiction|].
    now rewrite andb_false_r. }
  rewrite K in H. simpl (0 + 0) in H. rewrite slice_0 in H.
  assert (U' : (uliPrefix (upto d e) >? 0) = false).
  { destruct (uliPrefix (upto d e) >? 0) eqn:E; [|reflexivity].
    apply Z.gtb_lt, uliPrefix_upto in E. lia. }
  assert (O' : (oliPrefix (upto d e) >? 0) = false).
  { destruct (oliPrefix (upto d e) >? 0) eqn:E; [|reflexivity].
    apply Z.gtb_lt, oliPrefix_upto in E. lia. }
  assert (D' : (dliPrefix (upto d e) >? 0) = false).
  { destruct (dliPrefix (upto d e) >? 0) eqn:E; [|reflexivity].
    apply Z.gtb_lt, dliPrefix_upto in E. lia. }
  rewrite U', O', D' in H. cbn [bind andb orb] in H.
  destruct (_ || _); injection H as <- _; reflexivity.
Qed.

Ltac scan_cases H d :=
  destruct (uliPrefix d =? 0) eqn:?;
    [destruct (oliPrefix d >? 0) eqn:?|];
    cbv beta iota zeta in H;
    repeat match type of H with
           | context [if ?c then _ else _] =>
               match c with
               | context [dliPrefix] => destruct c eqn:?
               | context [Z.eqb] => destruct c eqn:?
               | context [negb] => destruct c eqn:?
               end; cbv beta iota zeta in H
           end.

Lemma listItem_scan_def ext d flags :
  has flags ListTypeDefinition = true -> listItem_scan ext d flags <> Ok None.
Proof.
  intros Hd H. unfold listItem_scan in H. rewrite Hd in H.
  apply bind_Ok in H. destruct H as (d0 & _ & H).
  apply bind_Ok in H. destruct H as (itemIndent & _ & H).
  scan_cases H d;
    try (apply bind_Ok in H; destruct H as (g & Hg & H); discriminate H);
    simpl in *; try discriminate; try lia.
Qed.

(** The term of a definition list, scanned from the start of a buffer on
    which no list item prefix, no code prefix was found: [listItem]
    consumes its line. *)
Lemma listItem_scan_term ext d flags sc :
  listItem_scan ext d flags = Ok (Some sc) ->
  has flags ListTypeDefinition = true ->
  0 < len d -> codePrefix d <= 0 ->
  uliPrefix d <= 0 -> oliPrefix d <= 0 -> dliPrefix d <= 0 ->
  first_line d <= scan_line sc.
Proof.
  intros H Hd Hlen Hcode U O D. apply listItem_scan_inv in H.
  destruct H as (pfx & fl & ii & g & P0 & PL & _ & _ & _ & G & -> & _).
  rewrite Hd in G.
  pose proof (skipChar_ge d pfx sp) as S1.
  destruct (Z_le_gt_dec 1 (skipChar d pfx sp)) as [H1|H1].
  - pose proof (first_line_after d _ H1 (fun x => skipChar_line d pfx x PL)) as F.
    pose proof (first_line_end d (skipChar d pfx sp) ltac:(lia)) as (R0 & R1).
    apply gatherlines_line in G; auto. simpl in G. lia.
  - assert (Hp : pfx = 0) by lia. subst pfx.
    assert (Hs0 : skipChar d 0 sp = 0) by lia.
    pose proof (skipChar_0 d sp Hs0 Hlen) as Hsp.
    assert (Htab : d.[0] <> tab).
    { intro E. unfold codePrefix in Hcode. rewrite E in Hcode.
      replace (len d >=? 1) with true in Hcode by (symmetry; apply Z.geb_le; lia).
      simpl in Hcode. lia. }
    rewrite Hs0 in G.
    assert (A0 : advance (length d)
                   (fun i => (0 <? i) && (i <? len d) && negb (d.[i - 1] =? nl)) 0 = 0).
    { destruct (length d); reflexivity. }
    rewrite A0 in G. cbn [gatherlines] in G. cbn [g_line] in G.
    replace (0 <? len d) with true in G by (symmetry; apply Z.ltb_lt; lia).
    apply bind_Ok in G. destruct G as ([brk g1] & E & G).
    pose proof (gather_step_term _ _ _ _ _ _ E eq_refl eq_refl eq_refl Hlen Htab Hsp U O D)
      as ->.
    apply gather_step_line in E. destruct E as (_ & L1 & I1). cbn [g_i] in L1.
    rewrite line_end_first in L1 by lia.
    pose proof (first_line_pos d Hlen) as F.
    apply gatherlines_line in G; auto; try lia.
    intro Hlt. rewrite L1. unfold line_start.
    unfold first_line in *.
    pose proof (skipUntilChar_first d 0 nl ltac:(lia)) as (_ & _ & X).
    destruct (skipUntilChar d 0 nl <? len d) eqn:Es; [|lia].
    replace (skipUntilChar d 0 nl + 1 - 1) with (skipUntilChar d 0 nl) by lia.
    rewrite (X ltac:(lia)), Z.eqb_refl. apply orb_true_r.
Qed.

Section ProgressTerm.
Variable C : Collaborators.
Variable blk : bytes -> Parser -> res Parser.

Lemma list_ge p data flags start delim n p' :
  list_ C blk p data flags start delim = Ok (n, p') -> 0 <= n.
Proof.
  intro H. unfold list_ in H. apply bind_Ok in H.
  destruct H as ([block p1] & _ & H).
  unfold list_body in H. apply bind_Ok in H. destruct H as ([i q] & L & H).
  apply bind_Ok in H. destruct H as (q' & _ & H). injection H as <- _.
  now apply list_loop_ge in L.
Qed.

(** [list] called by [paragraph] on a term and its definition consumes
    the line of the term. *)
Lemma list_term p data n p' :
  0 < len data -> codePrefix data <= 0 ->
  uliPrefix data <= 0 -> oliPrefix data <= 0 -> dliPrefix data <= 0 ->
  list_ C blk p data ListTypeDefinition 0 c_dot = Ok (n, p') ->
  first_line data <= n.
Proof.
  intros Hl Hc U O D H. unfold list_ in H. apply bind_Ok in H.
  destruct H as ([block p1] & _ & H).
  unfold list_body in H. apply bind_Ok in H. destruct H as ([i q] & L & H).
  apply bind_Ok in H. destruct H as (q' & _ & H). injection H as <- _.
  cbn [list_loop] in L.
  replace (0 <? len data) with true in L by (symmetry; apply Z.ltb_lt; lia).
  apply bind_Ok in L. destruct L as ([[skip fl] p2] & E & L).
  apply listItem_scanned in E. change (from data 0) with data in E.
  destruct E as [(E & _) | (sc & E & -> & _)];
    [now apply listItem_scan_def in E|].
  apply listItem_scan_term in E; auto.
  destruct ((scan_line sc =? 0) || has fl ListItemEndOfList).
  - injection L as <- _. lia.
  - apply list_loop_ge in L. lia.
Qed.

End ProgressTerm.

Lemma codePrefix_nonneg d : 0 <= codePrefix d.
Proof.
  unfold codePrefix. destruct (_ && _); [lia|]. destruct (_ && _); lia.
Qed.

Lemma first_line_IndexByte data :
  (if IndexByte data nl >=? 0 then 0 + (IndexByte data nl + 1) else 0 + len data)
  = first_line data.
Proof.
  unfold IndexByte, first_line. pose proof (skipUntilChar_ge data 0 nl).
  destruct (skipUntilChar data 0 nl <? len data) eqn:E.
  - replace (skipUntilChar data 0 nl >=? 0) with true
      by (symmetry; apply Z.geb_le; lia). lia.
  - reflexivity.
Qed.

Section ProgressParagraph.
Variable C : Collaborators.
Hypothesis wbC : well_behaved C.
Hypothesis csC : consuming C.
Variable blk : bytes -> Parser -> res Parser.
Hypothesis blk_frame : forall d q q', blk d q = Ok q' -> frame q q'.

(** The first turn of [paragraph], when nothing else matched: it returns
    past the first line, or goes on with the second. *)
Lemma paragraph_step_first p data st :
  fallthrough C (extensions p) data ->
  paragraph_step C blk p data 0 0 = Ok st ->
  match st with
  | ParaReturn n _ => first_line data <= n
  | ParaNext _ line i _ => line = 0 /\ i = first_line data
  end.
Proof.
  intros FT H. unfold paragraph_step in H. change (from data 0) with data in H.
  set (ext := extensions p) in *.
  destruct (isReference C p data _) as [refEnd p1] eqn:R.
  assert (X1 : extensions p1 = ext) by (apply isReference_frame in R; auto; apply R).
  destruct (refEnd >? 0) eqn:ER.
  { apply bind_Ok in H. destruct H as (q & _ & H). injection H as <-.
    pose proof (cs_isReference C csC p data
                  (if has ext TabSizeEight then tabSizeDouble else tabSizeDefault)) as CR.
    rewrite R in CR. simpl in CR. lia. }
  pose proof (ft_blank _ _ _ FT) as B.
  replace (IsEmpty data >? 0) with false in H by lia.
  change (0 >? 0) with false in H. cbn [bind] in H. change (0 >? 0) with false in H.
  cbv iota in H.
  apply bind_Ok in H. destruct H as ([h p2] & Hh & H).
  assert (Hh' : h <= 0 /\ p2 = p1).
  { destruct (has ext LaxHTMLBlocks && (data.[0] =? c_lt)) eqn:EL;
      [|injection Hh as <- <-; split; [lia|reflexivity]].
    apply andb_true_iff in EL. destruct EL as (_ & EL). apply Z.eqb_eq in EL.
    unfold html in Hh. apply bind_Ok in Hh. destruct Hh as (size & Hs & Hh).
    rewrite andb_false_r in Hh. injection Hh as <- <-.
    split; [|reflexivity]. eapply (ft_html _ _ _ FT EL p1); eauto. }
  destruct Hh' as (Hh0 & ->).
  replace (h >? 0) with false in H by lia.
  rewrite (ft_heading _ _ _ FT), (ft_special _ _ _ FT) in H. cbn [orb] in H.
  rewrite (ft_hrule _ _ _ FT) in H. cbn [bind] in H.
  pose proof (ft_quote _ _ _ FT) as Q. pose proof (quotePrefix_nonneg data) as Q0.
  replace (quotePrefix data >? 0) with false in H by lia.
  apply bind_Ok in H. destruct H as ([f p3] & Hf & H).
  assert (Hf' : f <= 0 /\ p3 = p1).
  { destruct (has ext FencedCode) eqn:EF;
      [|injection Hf as <- <-; split; [lia|reflexivity]].
    pose proof (ft_fence _ _ _ FT EF) as FF.
    unfold fencedCodeBlock in Hf. unfold fencedCodeBlock_norender in FF.
    destruct (fencedCodeBlock_scan data) as [[beg work]|];
      injection Hf as <- <-; split; auto; lia. }
  destruct Hf' as (Hf0 & ->).
  replace (f >? 0) with false in H by lia.
  destruct (if has ext Mmark then figureBlock C p1 data false else (0, p1))
    as [g p4] eqn:G.
  assert (Hg : g <= 0 /\ extensions p4 = ext).
  { destruct (has ext Mmark) eqn:EM; [|injection G as <- <-; split; [lia|auto]].
    pose proof (ft_figure _ _ _ FT EM p1 X1) as FG. rewrite G in FG. split; [exact FG|].
    pose proof (wb_figureBlock C wbC p1 data false) as W. rewrite G in W.
    simpl in W. destruct W as (_ & _ & W & _). congruence. }
  destruct Hg as (Hg0 & X4).
  replace (g >? 0) with false in H by lia.
  assert (HT : has ext Tables && (tableHeader C p4 data >? 0) = false).
  { destruct (has ext Tables) eqn:ET; [|reflexivity].
    pose proof (ft_table _ _ _ FT ET p4 X4). simpl. lia. }
  rewrite HT in H.
  pose proof (dliPrefix_nonneg data) as D0.
  assert (HD : has ext DefinitionLists && negb (dliPrefix data =? 0) = false).
  { destruct (has ext DefinitionLists) eqn:ED; [|reflexivity].
    pose proof (ft_dli _ _ _ FT ED). simpl. lia. }
  rewrite HD in H.
  pose proof (ft_uli _ _ _ FT) as U. pose proof (uliPrefix_nonneg data) as U0.
  pose proof (ft_oli _ _ _ FT) as O. pose proof (oliPrefix_nonneg data) as O0.
  pose proof (ft_code _ _ _ FT) as K. pose proof (codePrefix_nonneg data) as K0.
  replace (uliPrefix data =? 0) with true in H by lia.
  replace (oliPrefix data =? 0) with true in H by lia.
  replace (quotePrefix data =? 0) with true in H by lia.
  replace (codePrefix data =? 0) with true in H by lia.
  cbn [negb orb] in H. rewrite andb_false_r in H.
  injection H as <-. split; [reflexivity|]. apply first_line_IndexByte.
Qed.

(** A later turn of [paragraph]: the cursor is past the first line, and
    stays there. *)
Lemma paragraph_step_later p data line i st :
  0 < i < len data -> first_line data <= i ->
  (line = 0 \/ first_line data <= line) ->
  (line = 0 -> fallthrough C (extensions p) data) ->
  paragraph_step C blk p data line i = Ok st ->
  match st with
  | ParaReturn n _ => first_line data <= n
  | ParaNext _ line' i' _ => line' = i /\ i < i'
  end.
Proof.
  intros Hi Hf Hline FT H. unfold paragraph_step in H.
  set (ext := extensions p) in *.
  destruct (isReference C p (from data i) _) as [refEnd p1] eqn:R.
  assert (X1 : extensions p1 = ext) by (apply isReference_frame in R; auto; apply R).
  assert (TERM : forall q n q',
            has ext DefinitionLists = true ->
            list_ C blk q (from data line) ListTypeDefinition 0 c_dot = Ok (n, q') ->
            (0 < n -> first_line data <= line + n) /\ first_line data <= n + line).
  { intros q n q' ED HL. pose proof (list_ge _ _ _ _ _ _ _ _ _ HL) as G0.
    destruct Hline as [-> | Hline]; [|lia].
    change (from data 0) with data in HL. specialize (FT eq_refl).
    apply list_term in HL; try apply FT; auto; lia. }
  destruct (refEnd >? 0) eqn:ER.
  { apply bind_Ok in H. destruct H as (q & _ & H). injection H as <-. lia. }
  pose proof (IsEmpty_nonneg (from data i)) as E0.
  destruct (IsEmpty (from data i) >? 0) eqn:EE.
  { apply bind_Ok in H. destruct H as ([listLen q] & HL & H).
    destruct (listLen >? 0) eqn:EL.
    - injection H as <-.
      destruct (has ext DefinitionLists && _ && _) eqn:ED; [|injection HL as <- _; lia].
      apply andb_true_iff in ED. destruct ED as (ED & _).
      apply andb_true_iff in ED. destruct ED as (ED & _).
      apply TERM in HL; auto. lia.
    - apply bind_Ok in H. destruct H as (q2 & _ & H). injection H as <-. lia. }
  replace (i >? 0) with true in H by lia.
  apply bind_Ok in H. destruct H as (level & _ & H).
  destruct (level >? 0).
  { apply bind_Ok in H. destruct H as (q & _ & H).
    match type of H with
    | (if ?c then Panic else _) = _ => destruct c; [discriminate|]
    end.
    apply bind_Ok in H. destruct H as ([b q2] & _ & H). injection H as <-.
    pose proof (skipUntilChar_ge data i nl). lia. }
  assert (DONE : forall q st',
            (q' <- renderParagraph C q (upto data i) ;; Ok (ParaReturn i q')) = Ok st' ->
            match st' with
            | ParaReturn n _ => first_line data <= n
            | ParaNext _ line' i' _ => line' = i /\ i < i'
            end).
  { intros q st' HD. apply bind_Ok in HD. destruct HD as (q' & _ & HD).
    injection HD as <-. exact Hf. }
  apply bind_Ok in H. destruct H as ([h p2] & _ & H).
  destruct (h >? 0); [eapply DONE; eauto|].
  apply bind_Ok in H. destruct H as (hr & _ & H).
  destruct hr; [eapply DONE; eauto|].
  destruct (quotePrefix _ >? 0); [eapply DONE; eauto|].
  apply bind_Ok in H. destruct H as ([f p3] & _ & H).
  destruct (f >? 0); [eapply DONE; eauto|].
  destruct (if has ext Mmark then _ else _) as [g p4].
  destruct (g >? 0); [eapply DONE; eauto|].
  destruct (has ext Tables && _); [eapply DONE; eauto|].
  destruct (has ext DefinitionLists && _) eqn:ED.
  { apply andb_true_iff in ED. destruct ED as (ED & _).
    apply bind_Ok in H. destruct H as ([ret q] & HL & H). injection H as <-.
    apply TERM in HL; auto. lia. }
  destruct (has ext NoEmptyLineBeforeBlock && _); [eapply DONE; eauto|].
  injection H as <-. split; [reflexivity|].
  assert (Lc : len (from data i) = len data - i) by (apply len_from; lia).
  unfold IndexByte. pose proof (skipUntilChar_ge (from data i) 0 nl).
  destruct (skipUntilChar (from data i) 0 nl <? len (from data i)) eqn:E.
  - replace (skipUntilChar (from data i) 0 nl >=? 0) with true
      by (symmetry; apply Z.geb_le; lia). lia.
  - change (-1 >=? 0) with false. cbv iota. lia.
Qed.

Lemma paragraph_loop_later data : forall fuel p line i n p',
  0 < i -> first_line data <= i ->
  (line = 0 \/ first_line data <= line) ->
  (line = 0 -> fallthrough C (extensions p) data) ->
  paragraph_loop C blk fuel p data line i = Ok (n, p') ->
  first_line data <= n.
Proof.
  induction fuel as [|f IH]; intros p line i n p' Hi Hf Hline FT H; simpl in H;
    [discriminate|].
  destruct (i <? len data) eqn:Elt.
  - apply bind_Ok in H. destruct H as (st & E & H).
    assert (Hi2 : 0 < i < len data) by lia.
    pose proof (paragraph_step_later _ _ _ _ _ Hi2 Hf Hline FT E) as S.
    destruct st as [m q | prev line' i' q]; [injection H as <- _; exact S|].
    destruct S as (-> & Hi').
    apply IH in H; auto; try lia.
  - apply bind_Ok in H. destruct H as (q & _ & H). injection H as <- _. exact Hf.
Qed.

(** When nothing else matched, [paragraph] consumes the first line at
    least. *)
Lemma paragraph_first_line p data n p' :
  fallthrough C (extensions p) data ->
  paragraph C blk p data = Ok (n, p') -> first_line data <= n.
Proof.
  intros FT H. unfold paragraph in H. cbn [paragraph_loop] in H.
  pose proof (ft_len _ _ _ FT) as Hl. pose proof (first_line_pos data Hl) as F.
  replace (0 <? len data) with true in H by (symmetry; apply Z.ltb_lt; lia).
  apply bind_Ok in H. destruct H as (st & E & H).
  pose proof (paragraph_step_first _ _ _ FT E) as S.
  pose proof (paragraph_step_frame C wbC blk blk_frame p data 0 0) as FR.
  rewrite E in FR.
  destruct st as [m q | prev line i q]; [injection H as <- _; exact S|].
  destruct S as (-> & ->).
  apply paragraph_loop_later in H; auto; try lia.
  intros _. replace (extensions q) with (extensions p) by (symmetry; apply FR).
  exact FT.
Qed.

End ProgressParagraph.

(** ** The stages of a turn of [Block] *)

Lemma consume_spec data r d' p' :
  consume data r = Ok (d', p') ->
  exists n, r = Ok (n, p') /\ 0 <= n <= len data /\ d' = from data n.
Proof.
  unfold consume. intro H. apply bind_Ok in H. destruct H as ([n q] & E & H).
  apply bind_Ok in H. destruct H as (d & S & H). injection H as <- <-.
  unfold slice_from in S. destruct (_ && _) eqn:B; [|discriminate].
  injection S as <-. exists n. split; [exact E|]. split; [lia|reflexivity].
Qed.

Lemma len_from_pos data n : 0 < n <= len data -> len (from data n) < len data.
Proof. intro H. rewrite len_from by lia. lia. Qed.

Lemma len_from_le data n : 0 <= n <= len data -> len (from data n) <= len data.
Proof. intro H. rewrite len_from by lia. lia. Qed.

Section Stages.
Variable C : Collaborators.
Hypothesis wbC : well_behaved C.
Hypothesis csC : consuming C.
Variable blk : bytes -> Parser -> res Parser.
Hypothesis blk_frame : forall d q q', blk d q = Ok q' -> frame q q'.

Lemma html_size_ext p q data :
  extensions q = extensions p -> html_size C q data = html_size C p data.
Proof.
  intro E. unfold html_size, htmlComment_size.
  rewrite (cs_inlineHTMLComment C csC p q data E), E. reflexivity.
Qed.

Lemma fencedCodeBlock_nonpos p data f p' :
  fencedCodeBlock C p data true = Ok (f, p') -> f <= 0 ->
  fencedCodeBlock_norender data <= 0.
Proof.
  unfold fencedCodeBlock, fencedCodeBlock_norender. intros H Hf.
  destruct (fencedCodeBlock_scan data) as [[beg work]|]; [|lia].
  cbn [negb] in H. cbv iota in H. unbind; lia.
Qed.

Lemma Block_rest_progress p data d' p' :
  fallthrough C (extensions p) data ->
  Block_rest C blk p data = Ok (d', p') -> len d' < len data.
Proof.
  intros FT H. unfold Block_rest in H.
  apply bind_Ok in H. destruct H as ([m p1] & E1 & H).
  assert (X1 : extensions p1 = extensions p).
  { destruct (has (extensions p) MathJax);
      [apply blockMath_frame in E1; auto; apply E1 | now injection E1 as _ <-]. }
  destruct (m >? 0) eqn:Em.
  { apply consume_spec in H. destruct H as (n & E & B & ->).
    injection E as <- _. apply len_from_pos. lia. }
  apply bind_Ok in H. destruct H as ([dm p2] & E2 & H).
  assert (X2 : extensions p2 = extensions p).
  { destruct (has (extensions p) Mmark);
      [apply documentMatter_frame in E2; auto; destruct E2 as (_ & _ & E2 & _); congruence
      | injection E2 as _ <-; exact X1]. }
  destruct (dm >? 0) eqn:Ed.
  { apply consume_spec in H. destruct H as (n & E & B & ->).
    injection E as <- _. apply len_from_pos. lia. }
  apply consume_spec in H. destruct H as (n & E & B & ->).
  apply paragraph_first_line in E; auto; [|now rewrite X2].
  pose proof (first_line_pos data (ft_len _ _ _ FT)). apply len_from_pos. lia.
Qed.

Lemma Block_lists_progress p data d' p' :
  past_leaves C (extensions p) data ->
  Block_lists C blk p data = Ok (d', p') -> len d' < len data.
Proof.
  intros PL H. unfold Block_lists in H. pose proof (pl_len _ _ _ PL) as Hl.
  set (ext := extensions p) in *.
  destruct (has ext Mmark && (asidePrefix C p data >? 0)) eqn:EA.
  { apply andb_true_iff in EA. destruct EA as (_ & EA).
    apply consume_spec in H. destruct H as (n & E & B & ->).
    pose proof (cs_aside C csC p data ltac:(lia)) as A.
    injection E as E. rewrite E in A. simpl in A. apply len_from_pos. lia. }
  destruct (if has ext Mmark then figureBlock C p data true else (0, p))
    as [g p1] eqn:G.
  assert (X1 : extensions p1 = ext).
  { destruct (has ext Mmark); [|now injection G as _ <-].
    apply figureBlock_frame in G; auto. apply G. }
  destruct (g >? 0) eqn:Eg.
  { apply consume_spec in H. destruct H as (n & E & B & ->).
    injection E as <- _. apply len_from_pos. lia. }
  destruct (if has ext Tables then table C p1 data else (0, p1)) as [tb p2] eqn:T.
  assert (X2 : extensions p2 = ext).
  { destruct (has ext Tables); [|now injection T as _ <-].
    apply table_frame in T; auto. destruct T as (_ & _ & T & _). congruence. }
  destruct (tb >? 0) eqn:Et.
  { apply consume_spec in H. destruct H as (n & E & B & ->).
    injection E as <- _. apply len_from_pos. lia. }
  destruct (uliPrefix data >? 0) eqn:EU.
  { apply consume_spec in H. destruct H as (n & E & B & ->).
    apply list_pos in E; auto; [|lia]. apply len_from_pos. lia. }
  destruct (oliPrefix data >? 0) eqn:EO.
  { destruct (orderedListStart _ _ _) as [start delim].
    apply consume_spec in H. destruct H as (n & E & B & ->).
    apply list_pos in E; auto; [|lia]. apply len_from_pos. lia. }
  destruct (has ext DefinitionLists && (dliPrefix data >? 0)) eqn:ED.
  { apply andb_true_iff in ED. destruct ED as (_ & ED).
    apply consume_spec in H. destruct H as (n & E & B & ->).
    apply list_pos in E; auto; [|lia]. apply len_from_pos. lia. }
  apply Block_rest_progress in H; auto. rewrite X2.
  destruct PL. constructor; auto; try lia.
  - intros EM q Xq.
    destruct (Z_le_gt_dec (fst (figureBlock C q data false)) 0) as [|Hgt];
      [assumption|exfalso].
    pose proof (cs_figureBlock C csC p q data Xq ltac:(lia)) as F.
    fold ext in EM. rewrite EM in G. rewrite G in F. simpl in F. lia.
  - intros ET q Xq.
    destruct (Z_le_gt_dec (tableHeader C q data) 0) as [|Hgt]; [assumption|exfalso].
    pose proof (cs_table C csC p1 q data ltac:(congruence) ltac:(lia)) as F.
    fold ext in ET. rewrite ET in T. rewrite T in F. simpl in F. lia.
  - intro ED'. fold ext in ED'. rewrite ED' in ED. simpl in ED. lia.
Qed.

Lemma Block_leaves_progress p data d' p' :
  0 < len data ->
  isPrefixHeading (extensions p) data = false ->
  isPrefixSpecialHeading (extensions p) data = false ->
  Block_leaves C blk p data = Ok (d', p') -> len d' < len data.
Proof.
  intros Hl HH HS H. unfold Block_leaves in H.
  set (ext := extensions p) in *.
  apply bind_Ok in H. destruct H as ([h p1] & E1 & H).
  assert (X1 : extensions p1 = ext).
  { destruct (data.[0] =? c_lt); [|now injection E1 as _ <-].
    apply html_frame in E1; auto. apply E1. }
  destruct (h >? 0) eqn:Eh.
  { apply consume_spec in H. destruct H as (n & E & B & ->).
    injection E as <- _. apply len_from_pos. lia. }
  assert (HTML : data.[0] = c_lt ->
                 forall q h', extensions q = ext -> html_size C q data = Ok h' -> h' <= 0).
  { intros E0 q h' Xq Hq. rewrite E0, Z.eqb_refl in E1.
    unfold html in E1. apply bind_Ok in E1. destruct E1 as (size & Hs & E1).
    rewrite (html_size_ext p q data Xq) in Hq.
    assert (size = h) by (destruct (_ && _); unbind; reflexivity).
    subst size. rewrite Hs in Hq. injection Hq as <-. lia. }
  apply bind_Ok in H. destruct H as ([t p2] & E2 & H).
  assert (X2 : extensions p2 = ext).
  { destruct (has ext Titleblock && _); [|injection E2 as _ <-; exact X1].
    apply titleBlock_frame in E2; auto. destruct E2 as (_ & _ & E2 & _). congruence. }
  destruct (t >? 0) eqn:Et.
  { apply consume_spec in H. destruct H as (n & E & B & ->).
    injection E as <- _. apply len_from_pos. lia. }
  destruct (IsEmpty data >? 0) eqn:Eb.
  { apply consume_spec in H. destruct H as (n & E & B & ->).
    injection E as <- _. apply len_from_pos. lia. }
  destruct (codePrefix data >? 0) eqn:Ec.
  { apply consume_spec in H. destruct H as (n & E & B & ->).
    apply code_pos in E; [|lia]. apply len_from_pos. lia. }
  apply bind_Ok in H. destruct H as ([f p3] & E3 & H).
  assert (X3 : extensions p3 = ext).
  { destruct (has ext FencedCode); [|injection E3 as _ <-; exact X2].
    apply fencedCodeBlock_frame in E3; auto. destruct E3 as (_ & _ & E3 & _).
    congruence. }
  destruct (f >? 0) eqn:Ef.
  { apply consume_spec in H. destruct H as (n & E & B & ->).
    injection E as <- _. apply len_from_pos. lia. }
  apply bind_Ok in H. destruct H as (hr & Ehr & H).
  destruct hr.
  { apply bind_Ok in H. destruct H as ([id p4] & _ & H).
    apply consume_spec in H. destruct H as (n & E & B & ->).
    injection E as <- _. apply len_from_pos.
    pose proof (skipUntilChar_pos data nl Hl (isHRule_first data Ehr)). lia. }
  destruct (quotePrefix data >? 0) eqn:Eq.
  { apply consume_spec in H. destruct H as (n & E & B & ->).
    apply quote_pos in E; [|lia]. apply len_from_pos. lia. }
  apply Block_lists_progress in H; auto. rewrite X3.
  constructor; auto; try lia.
  intros EF. rewrite EF in E3. eapply fencedCodeBlock_nonpos; eauto. lia.
Qed.

Lemma Block_headings_progress p data d' p' :
  Block_headings C blk p data = Ok (d', p') ->
  len d' <= len data /\ (0 < len data -> len d' < len data).
Proof.
  intro H. unfold Block_headings in H.
  destruct (isPrefixHeading (extensions p) data) eqn:EH.
  { apply consume_spec in H. destruct H as (n & E & B & ->).
    split; [apply len_from_le; lia|]. intro Hl.
    apply prefixHeading_pos in E; auto. apply len_from_pos. lia. }
  destruct (isPrefixSpecialHeading (extensions p) data) eqn:ES.
  { apply consume_spec in H. destruct H as (n & E & B & ->).
    apply prefixSpecialHeading_pos in E.
    split; [apply len_from_le; lia | intros _; apply len_from_pos; lia]. }
  destruct (len data =? 0) eqn:E0.
  { injection H as <- _. lia. }
  pose proof (len_nonneg data).
  apply Block_leaves_progress in H; auto; lia.
Qed.

Lemma Block_hook_progress p data d' p' :
  Block_hook C blk p data = Ok (d', p') ->
  len d' <= len data /\ (0 < len data -> len d' < len data).
Proof.
  intro H. unfold Block_hook in H.
  destruct (match ParserHook C with Some hookf => hookf data | None => _ end)
    as [[node blockdata] consumed].
  destruct (consumed >? 0) eqn:Ec; [|apply (Block_headings_progress _ _ _ _ H)].
  apply bind_Ok in H. destruct H as (d & S & H).
  unfold slice_from in S. destruct (_ && _) eqn:B; [|discriminate].
  injection S as <-.
  assert (d' = from data consumed) by (unbind; reflexivity). subst d'.
  split; [apply len_from_le; lia | intros _; apply len_from_pos; lia].
Qed.

Lemma include_captions_ge p data : forall caps included consumed included' consumed',
  include_captions C p data included consumed caps = Ok (included', consumed') ->
  consumed <= consumed'.
Proof.
  induction caps as [|cap rest IH]; intros included consumed included' consumed' H;
    cbn [include_captions] in H; [injection H as _ <-; lia|].
  apply bind_Ok in H. destruct H as (d & _ & H).
  destruct (caption C p d cap) as [[a b] capcon].
  destruct (capcon >? 0) eqn:E; [|now apply IH in H].
  match type of H with
  | (if ?c then Panic else _) = _ => destruct c; [discriminate|]
  end.
  assert (X : consumed' = consumed + (1 + capcon)) by congruence.
  apply Z.gtb_lt in E. lia.
Qed.

Lemma Block_include_progress p data d' p' :
  Block_include C blk p data = Ok (d', p') ->
  len d' <= len data /\ (0 < len data -> len d' < len data).
Proof.
  intro H. unfold Block_include in H.
  destruct (if has (extensions p) Includes then _ else _)
    as [[[path address] consumed] code_include].
  destruct (has (extensions p) Includes && (consumed >? 0)) eqn:Ec;
    [|apply (Block_hook_progress _ _ _ _ H)].
  apply andb_true_iff in Ec. destruct Ec as (_ & Ec).
  apply bind_Ok in H. destruct H as ([included consumed'] & IC & H).
  apply include_captions_ge in IC.
  apply bind_Ok in H. destruct H as (q & _ & H).
  apply consume_spec in H. destruct H as (n & E & B & ->). injection E as <- _.
  split; [apply len_from_le; lia | intros _; apply len_from_pos; lia].
Qed.

(** Every turn of the loop of [Block] that is entered with input left
    returns with less. *)
Lemma Block_step_progress p data d' p' :
  0 < len data -> Block_step C blk p data = Ok (d', p') -> len d' < len data.
Proof.
  intros Hl H. unfold Block_step in H.
  destruct (if has (extensions p) Attributes then attribute C p data else (data, p))
    as [data1 p1] eqn:A.
  assert (L1 : len data1 <= len data).
  { destruct (has (extensions p) Attributes); [|injection A as <- _; lia].
    pose proof (cs_attribute C csC p data) as X. now rewrite A in X. }
  apply Block_include_progress in H. destruct H as (H1 & H2).
  destruct (Z_le_gt_dec (len data1) 0); [lia|]. specialize (H2 ltac:(lia)). lia.
Qed.

End Stages.

(** ** No loop of the parser is cut short *)

Lemma finishes_Ok {A} (a : A) : finishes (Ok a).
Proof. discriminate. Qed.

Lemma finishes_Panic {A} : finishes (@Panic A).
Proof. discriminate. Qed.

Lemma bind_finishes {A B} (r : res A) (k : A -> res B) :
  finishes r -> (forall a, r = Ok a -> finishes (k a)) -> finishes (bind r k).
Proof.
  unfold finishes. destruct r; simpl; intros H1 H2; try congruence.
  now apply H2.
Qed.

Lemma level_preserves N M k p q : level N M p -> preserves k p q -> level N M q.
Proof.
  intros (O & Hn & Hm) (A1 & A2 & _ & _ & _ & A6). repeat split; auto; congruence.
Qed.

Lemma level_frame N M p q : level N M p -> frame p q -> level N M q.
Proof. apply level_preserves. Qed.

Lemma closeUntilContains_finishes v : forall fuel p,
  ordered p ->
  (0 < fuel)%nat ->
  (forall t, tip p = Some t -> (t < length (nodes p))%nat -> (t + 1 < fuel)%nat) ->
  finishes (closeUntilContains fuel p v).
Proof.
  induction fuel as [|f IH]; intros p O Hf Ht; [lia|].
  simpl. destruct (tip p) as [t|] eqn:T; [|apply finishes_Panic].
  unfold node_at. destruct (nth_error (nodes p) t) as [n|] eqn:E; [|apply finishes_Panic].
  destruct (canNodeContain (node_data n) v); [apply finishes_Ok|].
  assert (t < length (nodes p))%nat as L by (apply nth_error_Some; congruence).
  specialize (Ht t eq_refl L).
  apply IH.
  - exact O.
  - lia.
  - unfold Finalize, GetParent, node_at. simpl. rewrite E. intros q Hq _.
    specialize (O t n q E Hq). lia.
Qed.

Lemma addChild_finishes p node : ordered p -> finishes (addChild p node).
Proof.
  intro O. unfold addChild. apply bind_finishes.
  - apply closeUntilContains_finishes; [exact O | lia | intros; lia].
  - intros q _. destruct (tip q); [apply finishes_Ok | apply finishes_Panic].
Qed.

Create HintDb keepdb.
Create HintDb findb.

Lemma frame_keeps p q : frame p q -> preserves 0 p q.
Proof. intro F. apply frame_preserves; [exact F | lia]. Qed.

Lemma keeps_update_node p id f :
  (forall n, node_parent (f n) = node_parent n) -> preserves 0 p (update_node p id f).
Proof. intro H. apply preserves_update_node; [intros n _; apply H | lia]. Qed.

Ltac keep :=
  lazymatch goal with
  | |- level _ _ (match ?c with _ => _ end) => destruct c; keep
  | |- level _ _ ?q =>
      first [ eassumption
            | eapply level_preserves; [ | solve [eauto 4 with keepdb] ]; keep ]
  end.

Ltac fin :=
  repeat match goal with
         | |- finishes (Ok _) => apply finishes_Ok
         | |- finishes Panic => apply finishes_Panic
         | H : Ok _ = Ok ?b |- _ => is_var b; injection H as <-
         | |- finishes (bind (if ?c then _ else _) _) => destruct c eqn:?
         | |- finishes (bind _ _) => apply bind_finishes; [| intros ? ?]
         | |- finishes (match (_, _) with _ => _ end) => cbv beta iota
         | |- finishes (match (if ?c then _ else _) with _ => _ end) => destruct c eqn:?
         | |- finishes (match ?x with _ => _ end) =>
             first [ is_var x; destruct x | destruct x eqn:? ]
         | |- finishes _ => solve [eauto 3 with findb]
         end.

Section Finishes.
Variable C : Collaborators.
Hypothesis wbC : well_behaved C.

Hint Resolve frame_keeps : keepdb.
Hint Resolve frame_Finalize frame_set_tip frame_set_attr frame_set_allHeadingsWithAutoID
  closeUnmatchedBlocks_frame includeStack_Push_frame includeStack_Pop_frame
  Inline_frame attribute_frame table_frame figureBlock_frame aside_frame
  isReference_frame addChild_frame AddBlock_frame addHeading_frame
  addHTMLBlock_frame prefixHeading_frame prefixSpecialHeading_frame titleBlock_frame
  html_frame code_frame fencedCodeBlock_frame blockMath_frame documentMatter_frame
  renderParagraph_frame : keepdb.
Hint Extern 1 (level _ _ _) => keep : findb.
Hint Resolve finishes_Ok finishes_Panic : findb.

Lemma AddBlock_finishes N M p n : level N M p -> finishes (AddBlock C p n).
Proof.
  intro L. unfold AddBlock.
  assert (level N M (closeUnmatchedBlocks C p)) as L1 by keep.
  destruct (attr (closeUnmatchedBlocks C p)); apply addChild_finishes.
  - assert (level N M (set_attr (closeUnmatchedBlocks C p) None)) as L2 by keep.
    apply L2.
  - apply L1.
Qed.

Lemma addChild_level N M p n : level N M p -> finishes (addChild p n).
Proof. intros (O & _). now apply addChild_finishes. Qed.

Hint Resolve AddBlock_finishes addChild_level : findb.

Lemma get_finishes data i : finishes (get data i).
Proof. unfold get. fin. Qed.

Lemma slice_from_finishes data a : finishes (slice_from data a).
Proof. unfold slice_from. fin. Qed.

Hint Resolve get_finishes slice_from_finishes : findb.

Lemma isHRule_spaces_finishes data : forall fuel i, finishes (isHRule_spaces fuel data i).
Proof. induction fuel; intro i; simpl; fin. Qed.

Hint Resolve isHRule_spaces_finishes : findb.

Lemma isHRule_finishes data : finishes (isHRule data).
Proof. unfold isHRule. fin. Qed.

Lemma isUnderlinedHeading_finishes data : finishes (isUnderlinedHeading data).
Proof. unfold isUnderlinedHeading. fin. Qed.

Lemma html_size_finishes p data : finishes (html_size C p data).
Proof. unfold html_size, htmlComment_size. fin. Qed.

Lemma finalizeCodeBlock_at_finishes p id : finishes (finalizeCodeBlock_at C p id).
Proof. unfold finalizeCodeBlock_at, finalizeCodeBlock. fin. Qed.

Hint Resolve isHRule_finishes isUnderlinedHeading_finishes html_size_finishes
  finalizeCodeBlock_at_finishes : findb.

Lemma addHeading_finishes N M p data i e id lv sp_ :
  level N M p -> finishes (addHeading C p data i e id lv sp_).
Proof. intro L. unfold addHeading. fin. Qed.

Hint Resolve addHeading_finishes : findb.

Lemma prefixHeading_finishes N M p data : level N M p -> finishes (prefixHeading C p data).
Proof. intro L. unfold prefixHeading. fin. Qed.

Lemma prefixSpecialHeading_finishes N M p data :
  level N M p -> finishes (prefixSpecialHeading C p data).
Proof. intro L. unfold prefixSpecialHeading. fin. Qed.

Lemma titleBlock_finishes N M p data : level N M p -> finishes (titleBlock C p data).
Proof. intro L. unfold titleBlock. fin. Qed.

Lemma addHTMLBlock_finishes N M p data size :
  level N M p -> finishes (addHTMLBlock C p data size).
Proof. intro L. unfold addHTMLBlock. fin. Qed.

Hint Resolve addHTMLBlock_finishes : findb.

Lemma html_finishes N M p data r : level N M p -> finishes (html C p data r).
Proof. intro L. unfold html. fin. Qed.

Lemma code_finishes N M p data : level N M p -> finishes (code C p data).
Proof. intro L. unfold code. fin. Qed.

Lemma blockMath_finishes N M p data : level N M p -> finishes (blockMath C p data).
Proof. intro L. unfold blockMath. fin. Qed.

Lemma documentMatter_finishes N M p data : level N M p -> finishes (documentMatter C p data).
Proof. intro L. unfold documentMatter. fin. Qed.

Lemma renderParagraph_finishes N M p data :
  level N M p -> finishes (renderParagraph C p data).
Proof. intro L. unfold renderParagraph. fin. Qed.

Hint Resolve prefixHeading_finishes prefixSpecialHeading_finishes titleBlock_finishes
  html_finishes code_finishes blockMath_finishes documentMatter_finishes
  renderParagraph_finishes : findb.

Lemma finalizeCodeBlock_at_keeps p id p' :
  finalizeCodeBlock_at C p id = Ok p' -> preserves 0 p p'.
Proof. intro H. eapply finalizeCodeBlock_at_preserves; eauto. lia. Qed.

Hint Resolve finalizeCodeBlock_at_keeps : keepdb.

Lemma fencedCodeBlock_finishes N M p data r :
  level N M p -> finishes (fencedCodeBlock C p data r).
Proof. intro L. unfold fencedCodeBlock. fin. Qed.

Hint Resolve fencedCodeBlock_finishes : findb.

Lemma finalizeList_finishes p lst : finishes (finalizeList p lst).
Proof. unfold finalizeList. fin. Qed.

Lemma gather_step_finishes ext data isDef indent g :
  finishes (gather_step ext data isDef indent g).
Proof. unfold gather_step. cbv zeta. fin. Qed.

Lemma gatherlines_finishes ext data isDef indent : forall fuel g,
  g_i g = g_line g ->
  (Z.to_nat (len data - g_line g) < fuel)%nat ->
  finishes (gatherlines fuel ext data isDef indent g).
Proof.
  induction fuel as [|f IH]; intros g Hi Hf; [lia|].
  simpl. destruct (g_line g <? len data) eqn:E; [|apply finishes_Ok].
  apply Z.ltb_lt in E.
  apply bind_finishes; [apply gather_step_finishes|].
  intros [brk g'] H. destruct brk; [apply finishes_Ok|].
  apply gather_step_line in H. destruct H as (_ & H1 & H2).
  pose proof (advance_bounds (fun i => (i <? len data) && negb (data.[i - 1] =? nl))
                (length data) (g_i g + 1)) as B.
  apply IH; [exact H2 | lia].
Qed.

Lemma listItem_scan_finishes ext data flags : finishes (listItem_scan ext data flags).
Proof.
  unfold listItem_scan.
  apply bind_finishes; [apply get_finishes | intros d0 _].
  apply bind_finishes; [destruct (d0 =? tab); fin | intros itemIndent _].
  pose proof (uliPrefix_nonneg data) as U. pose proof (oliPrefix_nonneg data) as O.
  pose proof (dliPrefix_nonneg data) as D.
  assert (G : forall pfx fl bc dl, 0 <= pfx ->
    finishes
      (g <- gatherlines (S (length data)) ext data (has flags ListTypeDefinition) itemIndent
           {| g_i := advance (length data)
                       (fun i => (0 <? i) && (i <? len data) && negb (data.[i - 1] =? nl))
                       (skipChar data pfx sp);
              g_line := advance (length data)
                          (fun i => (0 <? i) && (i <? len data) && negb (data.[i - 1] =? nl))
                          (skipChar data pfx sp);
              g_raw := slice data (skipChar data pfx sp)
                         (advance (length data)
                            (fun i => (0 <? i) && (i <? len data)
                                      && negb (data.[i - 1] =? nl))
                            (skipChar data pfx sp));
              g_containsBlankLine := false; g_sublist := 0; g_flags := fl |} ;;
       Ok (Some {| scan_line := g_line g; scan_flags := g_flags g; scan_raw := g_raw g;
                   scan_sublist := g_sublist g; scan_bulletChar := bc;
                   scan_delimiter := dl |}))).
  { intros pfx fl bc dl Hp. apply bind_finishes; [|intros; apply finishes_Ok].
    apply gatherlines_finishes; [reflexivity|]. cbn [g_line].
    pose proof (skipChar_ge data pfx sp).
    pose proof (advance_bounds
                  (fun i => (0 <? i) && (i <? len data) && negb (data.[i - 1] =? nl))
                  (length data) (skipChar data pfx sp)).
    unfold len in *. lia. }
  destruct (uliPrefix data =? 0) eqn:Eu;
    [destruct (oliPrefix data >? 0) eqn:Eo|];
    cbv beta iota zeta;
    repeat match goal with
           | |- finishes (if ?c then _ else _) => destruct c eqn:?
           | |- context [if ?c then (_, _) else (_, _)] => destruct c eqn:?
           | |- finishes (Ok _) => apply finishes_Ok
           end; cbv beta iota zeta; try apply finishes_Ok; apply G; lia.
Qed.

Hint Resolve finalizeList_finishes listItem_scan_finishes : findb.

Variable blk : bytes -> Parser -> res Parser.
Hypothesis blk_frame : forall d q q', blk d q = Ok q' -> frame q q'.
Variables N M : Z.
Hypothesis blk_finishes : forall d q, level N M q -> finishes (blk d q).

Hint Resolve blk_frame : keepdb.
Hint Resolve blk_finishes : findb.

Lemma listItem_finishes p data flags : level N M p -> finishes (listItem C blk p data flags).
Proof. intro L. unfold listItem. fin. Qed.

Hint Resolve listItem_finishes : findb.
Hint Resolve listItem_frame : keepdb.

Lemma list_loop_finishes lst data : forall fuel p i flags,
  level N M p -> 0 <= i -> (Z.to_nat (len data - i) < fuel)%nat ->
  finishes (list_loop C blk fuel p lst data i flags).
Proof.
  induction fuel as [|f IH]; intros p i flags L Hi Hf; [lia|].
  simpl. destruct (i <? len data) eqn:E; [|apply finishes_Ok].
  apply Z.ltb_lt in E.
  apply bind_finishes; [now apply listItem_finishes|].
  intros [[skip fl] p1] H.
  assert (Hs : 0 <= skip).
  { pose proof H as H0. apply listItem_scanned in H0.
    destruct H0 as [(_ & -> & _) | (sc & E1 & -> & _)]; [lia|].
    now apply listItem_scan_line in E1. }
  destruct (skip =? 0) eqn:E0; [apply finishes_Ok|]. cbn [orb].
  destruct (has fl ListItemEndOfList); [apply finishes_Ok|].
  apply Z.eqb_neq in E0.
  apply IH; [|lia|lia].
  assert (level N M p1) as L1 by keep.
  destruct (has fl ListItemContainsBlock); [|exact L1].
  eapply level_preserves; [exact L1|]. apply (preserves_clear_tight 0). lia.
Qed.
Lemma list_body_finishes p block data flags :
  level N M p -> finishes (list_body C blk p block data flags).
Proof.
  intro L. unfold list_body. apply bind_finishes.
  - apply list_loop_finishes; [exact L | lia | unfold len; lia].
  - intros [i q] _. fin.
Qed.

Hint Resolve list_body_finishes : findb.

Lemma list_finishes p data flags start delim :
  level N M p -> finishes (list_ C blk p data flags start delim).
Proof. intro L. unfold list_. fin. Qed.

Lemma quote_finishes p data : level N M p -> finishes (quote C blk p data).
Proof. intro L. unfold quote. fin. Qed.

Hint Resolve list_finishes quote_finishes : findb.
Hint Resolve list_frame quote_frame : keepdb.

Lemma paragraph_step_finishes p data line i :
  level N M p -> finishes (paragraph_step C blk p data line i).
Proof. intro L. unfold paragraph_step. cbv zeta. fin. Qed.

Lemma paragraph_step_next p data line i prev line' i' p' :
  0 <= i < len data ->
  paragraph_step C blk p data line i = Ok (ParaNext prev line' i' p') -> i < i'.
Proof.
  intros Hi H. unfold paragraph_step in H. unbind; try discriminate;
    pose proof (len_from data line' ltac:(lia));
    destruct (IndexByte (from data line') nl >=? 0) eqn:E; lia.
Qed.

Lemma paragraph_loop_finishes data : forall fuel p line i,
  level N M p -> 0 <= i -> (Z.to_nat (len data - i) < fuel)%nat ->
  finishes (paragraph_loop C blk fuel p data line i).
Proof.
  induction fuel as [|f IH]; intros p line i L Hi Hf; [lia|].
  simpl. destruct (i <? len data) eqn:E.
  - apply Z.ltb_lt in E.
    apply bind_finishes; [now apply paragraph_step_finishes|].
    intros [n q|prev line' i' q] H; [apply finishes_Ok|].
    pose proof (paragraph_step_frame C wbC blk blk_frame p data line i) as F.
    rewrite H in F.
    apply paragraph_step_next in H; [|lia].
    apply IH; [keep | lia | lia].
  - fin.
Qed.

Lemma paragraph_finishes p data : level N M p -> finishes (paragraph C blk p data).
Proof.
  intro L. unfold paragraph.
  apply paragraph_loop_finishes; [exact L | lia | unfold len; lia].
Qed.

Lemma include_captions_finishes p data : forall caps included consumed,
  finishes (include_captions C p data included consumed caps).
Proof. induction caps as [|c rest IH]; intros; cbn [include_captions]; fin. Qed.

Lemma consume_finishes data r : finishes r -> finishes (consume data r).
Proof. intro H. unfold consume. fin. Qed.

Hint Resolve paragraph_finishes include_captions_finishes consume_finishes : findb.
Hint Resolve paragraph_frame : keepdb.

Lemma Block_rest_finishes p data : level N M p -> finishes (Block_rest C blk p data).
Proof. intro L. unfold Block_rest. fin. Qed.

Hint Resolve Block_rest_finishes : findb.

Lemma Block_lists_finishes p data : level N M p -> finishes (Block_lists C blk p data).
Proof. intro L. unfold Block_lists. fin. Qed.

Hint Resolve Block_lists_finishes : findb.

Lemma Block_leaves_finishes p data : level N M p -> finishes (Block_leaves C blk p data).
Proof. intro L. unfold Block_leaves. fin. Qed.

Hint Resolve Block_leaves_finishes : findb.

Lemma Block_headings_finishes p data : level N M p -> finishes (Block_headings C blk p data).
Proof. intro L. unfold Block_headings. fin. Qed.

Hint Resolve Block_headings_finishes : findb.

Lemma Block_hook_finishes p data : level N M p -> finishes (Block_hook C blk p data).
Proof. intro L. unfold Block_hook. fin. Qed.

Hint Resolve Block_hook_finishes : findb.

Lemma Block_include_finishes p data : level N M p -> finishes (Block_include C blk p data).
Proof. intro L. unfold Block_include. fin. Qed.

Hint Resolve Block_include_finishes : findb.

Lemma Block_step_finishes p data : level N M p -> finishes (Block_step C blk p data).
Proof. intro L. unfold Block_step. fin. Qed.

Hypothesis csC : consuming C.

Lemma Block_loop_finishes : forall fuel p data,
  level N M p -> (length data < fuel)%nat -> finishes (Block_loop C blk fuel p data).
Proof.
  induction fuel as [|f IH]; intros p data L Hf; [lia|].
  simpl. destruct (len data >? 0) eqn:E; [|apply finishes_Ok].
  apply bind_finishes; [now apply Block_step_finishes|].
  intros [d q] H.
  pose proof (Block_step_frame C wbC blk blk_frame _ _ _ _ H) as F.
  apply (Block_step_progress C wbC csC blk blk_frame) in H; [|lia].
  apply IH; [keep | unfold len in H; lia].
Qed.
End Finishes.

(** [Block] comes to its end when the depth the model follows covers the
    nesting levels left below [maxNesting]. *)
Lemma Block_finishes C (wbC : well_behaved C) (csC : consuming C) :
  forall depth data p,
    ordered p -> (Z.to_nat (maxNesting p - nesting p) <= depth)%nat ->
    finishes (Block C depth data p).
Proof.
  induction depth as [|d IH]; intros data p O Hd; rewrite Block_eq;
    destruct (nesting p >=? maxNesting p) eqn:E; try apply finishes_Ok;
    rewrite Z.geb_leb in E; apply Z.leb_gt in E; [lia|].
  apply bind_finishes; [|intros; apply finishes_Ok].
  apply (Block_loop_finishes C wbC (Block C d) (Block_frame C wbC d)
           (nesting p + 1) (maxNesting p)).
  - intros d0 q (Oq & Hn & Hm). apply IH; [exact Oq|]. rewrite Hn, Hm. lia.
  - exact csC.
  - repeat split. exact O.
  - lia.
Qed.

(** ** The dispatcher loop consumes its input and ends *)

Lemma plain_consuming : consuming plain.
Proof. split; simpl; intros; lia. Qed.

Lemma newParser_ordered ext maxNest : ordered (newParser ext maxNest).
Proof.
  intros [|[|id]] n q H Hq; simpl in H; try discriminate.
  injection H as <-. discriminate Hq.
Qed.

(** C5: with collaborators that keep to their contracts, every turn of
    the dispatcher loop of [Block] that is entered with input left and
    returns has consumed at least one byte; when none of the recognizers
    tried before it matches, the paragraph recognizer consumes at least
    the first line, which is not empty; and [Block] comes to its end on
    every input, in a tree whose parents precede their children, once the
    depth followed covers the nesting levels left: no loop is cut short. *)
Theorem Block_terminates (C : Collaborators) :
  well_behaved C -> consuming C ->
  (forall d p data d' p',
     0 < len data ->
     Block_step C (Block C d) p data = Ok (d', p') -> len d' < len data) /\
  (forall d p data n p',
     fallthrough C (extensions p) data ->
     paragraph C (Block C d) p data = Ok (n, p') -> 0 < first_line data <= n) /\
  (forall depth data p,
     ordered p -> (Z.to_nat (maxNesting p - nesting p) <= depth)%nat ->
     Block C depth data p <> OutOfFuel).
Proof.
  intros wb cs. split; [|split].
  - intros d p data d' p' Hl H.
    exact (Block_step_progress C wb cs (Block C d) (Block_frame C wb d) p data d' p' Hl H).
  - intros d p data n p' FT H.
    pose proof (first_line_pos data (ft_len _ _ _ FT)).
    pose proof (paragraph_first_line C wb cs (Block C d) (Block_frame C wb d) _ _ _ _ FT H).
    lia.
  - intros depth data p O Hd. now apply Block_finishes.
Qed.

Lemma Block_terminates_witness :
  (len (bs "b\n") < len (bs "a\n\nb\n")) /\
  (0 < first_line (bs "a b\nc\n\nd\n") <= 7) /\
  Block plain 16 (bs "> * a\n>\n> # b\n\n    c\n") (newParser 0 16) <> OutOfFuel.
Proof.
  destruct (Block_terminates plain plain_well_behaved plain_consuming) as (P & Q & R).
  split; [|split].
  - apply (P 15%nat (set_nesting (newParser 0 16) 1) (bs "a\n\nb\n") (bs "b\n")
             (snd (returned (Block_step plain (Block plain 15)
                               (set_nesting (newParser 0 16) 1) (bs "a\n\nb\n"))
                     ([], newParser 0 16)))).
    + vm_compute. reflexivity.
    + vm_compute. reflexivity.
  - apply (Q 15%nat (set_nesting (newParser 0 16) 1) (bs "a b\nc\n\nd\n") 7
             (snd (returned (paragraph plain (Block plain 15)
                               (set_nesting (newParser 0 16) 1) (bs "a b\nc\n\nd\n"))
                     (0, newParser 0 16)))).
    + split; try (vm_compute; reflexivity); try (vm_compute; discriminate);
        try (intros; vm_compute; discriminate).
      all: intros; try discriminate.
    + vm_compute. reflexivity.
  - apply R; [apply newParser_ordered | vm_compute; lia].
Defined.

(** ** The cursor helpers, as loops over the buffer *)

(** A forward loop [for i < len(data) && f(i) { i++ }]. *)
Lemma advance_scan (f : Z -> bool) data i :
  0 <= i ->
  let r := advance (length data) (fun j => (j <? len data) && f j) i in
  i <= r <= Z.max i (len data) /\
  (forall j, i <= j < r -> f j = true) /\
  (r < len data -> f r = false).
Proof.
  intros Hi r.
  pose proof (advance_bounds (fun j => (j <? len data) && f j) (length data) i) as B.
  fold r in B.
  assert (S : (r <? len data) && f r = false).
  { apply (advance_stop_bounded (fun j => (j <? len data) && f j) (length data) i
             (len data)).
    - intros j Hj. apply andb_prop in Hj. lia.
    - unfold len. lia. }
  assert (T : forall j, i <= j < r -> (j <? len data) && f j = true).
  { intros j Hj.
    apply (advance_true (fun j => (j <? len data) && f j) (length data) i j Hj). }
  split; [|split].
  - split; [lia|]. destruct (Z.eq_dec r i); [lia|].
    specialize (T (r - 1) ltac:(lia)). apply andb_prop in T. lia.
  - intros j Hj. specialize (T j Hj). now apply andb_prop in T.
  - intro Hr. apply andb_false_iff in S. destruct S as [S|S]; [lia | exact S].
Qed.

(** X1: from a cursor inside the buffer, [skipChar] stops at the end of
    the run of [c] that starts there, and [skipUntilChar] at the first [c]
    at or after it, or at the end of the buffer; neither moves a cursor
    that is at or past the end. *)
Theorem skipChar_skipUntilChar_spec data i c :
  0 <= i ->
  (let r := skipChar data i c in
   i <= r <= Z.max i (len data) /\
   (forall j, i <= j < r -> data.[j] = c) /\
   (r < len data -> data.[r] <> c)) /\
  (let r := skipUntilChar data i c in
   i <= r <= Z.max i (len data) /\
   (forall j, i <= j < r -> data.[j] <> c) /\
   (r < len data -> data.[r] = c)).
Proof.
  intro Hi. split; intro r; subst r.
  - destruct (advance_scan (fun j => data.[j] =? c) data i Hi) as (B & T & S).
    unfold skipChar. split; [exact B|]. split.
    + intros j Hj. apply Z.eqb_eq. now apply T.
    + intro Hr. apply Z.eqb_neq. now apply S.
  - destruct (advance_scan (fun j => negb (data.[j] =? c)) data i Hi) as (B & T & S).
    unfold skipUntilChar. split; [exact B|]. split.
    + intros j Hj. apply Z.eqb_neq. apply negb_true_iff. now apply T.
    + intro Hr. apply Z.eqb_eq. apply negb_false_iff. now apply S.
Qed.

Lemma skipChar_skipUntilChar_spec_witness :
  skipChar (bs "aab") 0 97 = 2 /\ skipUntilChar (bs "ab\ncd") 1 nl = 2 /\
  (bs "aab").[2] <> 97 /\ (bs "ab\ncd").[2] = nl.
Proof.
  pose proof (skipChar_skipUntilChar_spec (bs "aab") 0 97 ltac:(lia)) as (A & _).
  pose proof (skipChar_skipUntilChar_spec (bs "ab\ncd") 1 nl ltac:(lia)) as (_ & B).
  cbv zeta in A, B. destruct A as (_ & _ & A). destruct B as (_ & _ & B).
  split; [vm_compute; reflexivity|]. split; [vm_compute; reflexivity|].
  split; [apply A | apply B]; vm_compute; reflexivity.
Defined.

Lemma skipCharN_scan data i c max :
  0 <= i ->
  (max <= 0 -> skipCharN data i c max = i) /\
  (0 <= max ->
   let r := skipCharN data i c max in
   i <= r <= i + max /\ r <= Z.max i (len data) /\
   (forall j, i <= j < r -> data.[j] = c) /\
   (r < i + max -> r < len data -> data.[r] <> c)).
Proof.
  intro Hi. split.
  - intro Hm. unfold skipCharN. destruct (length data); simpl; [reflexivity|].
    replace (0 <? max) with false by (symmetry; apply Z.ltb_ge; lia).
    now rewrite andb_false_r.
  - intros Hm r. subst r. unfold skipCharN.
    rewrite skipCharN_loop_advance by (unfold len; lia).
    set (cond := fun j => (j <? len data) && (data.[j] =? c)).
    pose proof (advance_bounds cond (Z.to_nat max) i) as B.
    assert (T : forall j, i <= j < advance (Z.to_nat max) cond i ->
                          (j <? len data) && (data.[j] =? c) = true).
    { intros j Hj. apply (advance_true cond (Z.to_nat max) i j Hj). }
    split; [lia|]. split; [|split].
    + destruct (Z.eq_dec (advance (Z.to_nat max) cond i) i); [lia|].
      specialize (T (advance (Z.to_nat max) cond i - 1) ltac:(lia)).
      apply andb_prop in T. lia.
    + intros j Hj. specialize (T j Hj). apply andb_prop in T. lia.
    + intros Hr Hl.
      pose proof (advance_stop cond (Z.to_nat max) i ltac:(lia)) as S.
      change ((advance (Z.to_nat max) cond i <? len data)
              && (data.[advance (Z.to_nat max) cond i] =? c) = false) in S.
      apply andb_false_iff in S. lia.
Qed.

(** X2: [skipCharN] skips a run of [c] like [skipChar], but at most [max]
    bytes of it, and nothing when [max] is not positive. *)
Theorem skipCharN_spec data i c max :
  0 <= i ->
  (max <= 0 -> skipCharN data i c max = i) /\
  (0 <= max ->
   let r := skipCharN data i c max in
   i <= r <= i + max /\ r <= Z.max i (len data) /\
   (forall j, i <= j < r -> data.[j] = c) /\
   (r < i + max -> r < len data -> data.[r] <> c)).
Proof.
  intro Hi. split.
  - intro Hm. unfold skipCharN. destruct (length data) as [|n]; [reflexivity|].
    cbn [skipCharN_loop].
    replace (0 <? max) with false by (symmetry; apply Z.ltb_ge; lia).
    now rewrite andb_false_r.
  - intro Hm. destruct (skipCharN_scan data i c max Hi) as (_ & H).
    exact (H Hm).
Qed.

Lemma skipCharN_spec_witness :
  skipCharN (bs "####### x") 0 c_hash 6 = 6 /\ skipCharN (bs "## x") 0 c_hash 6 = 2 /\
  (bs "## x").[2] <> c_hash.
Proof.
  pose proof (skipCharN_spec (bs "## x") 0 c_hash 6 ltac:(lia)) as (_ & A).
  specialize (A ltac:(lia)). cbv zeta in A. destruct A as (_ & _ & _ & A).
  split; [vm_compute; reflexivity|]. split; [vm_compute; reflexivity|].
  apply A; vm_compute; reflexivity.
Defined.

(** A backward loop [for i > 0 && f(i) { i-- }]. *)
Lemma retreat_scan (f : Z -> bool) : forall fuel i,
  0 <= i <= Z.of_nat fuel ->
  let r := retreat fuel (fun j => (0 <? j) && f j) i in
  0 <= r <= i /\
  (forall j, r < j <= i -> f j = true) /\
  (0 < r -> f r = false).
Proof.
  induction fuel as [|n IH]; intros i Hi; simpl.
  - repeat split; intros; lia.
  - destruct (Z.ltb_spec 0 i) as [Hp|Hz]; simpl.
    + destruct (f i) eqn:E.
      * specialize (IH (i - 1) ltac:(lia)). cbv zeta in IH.
        destruct IH as (B & T & S). split; [lia|]. split; [|exact S].
        intros j Hj. destruct (Z.eq_dec j i) as [->|]; [exact E|]. apply T. lia.
      * split; [lia|]. split; [intros; lia | intros _; exact E].
    + repeat split; intros; lia.
Qed.

(** X3: from a cursor inside the buffer, [backChar] steps back over the
    run of [c] that ends there, and [backUntilChar] back to just after the
    last [c] before it, or to the start of the buffer. *)
Theorem backChar_backUntilChar_spec data i c :
  0 <= i <= len data ->
  (let r := backChar data i c in
   0 <= r <= i /\
   (forall j, r <= j < i -> data.[j] = c) /\
   (0 < r -> data.[r - 1] <> c)) /\
  (let r := backUntilChar data i c in
   0 <= r <= i /\
   (forall j, r <= j < i -> data.[j] <> c) /\
   (0 < r -> data.[r - 1] = c)).
Proof.
  intro Hi. split; intro r; subst r.
  - destruct (retreat_scan (fun j => data.[j - 1] =? c) (Z.to_nat i) i ltac:(lia))
      as (B & T & S).
    unfold backChar. split; [exact B|]. split.
    + intros j Hj. specialize (T (j + 1) ltac:(lia)).
      replace (j + 1 - 1) with j in T by lia. now apply Z.eqb_eq.
    + intro Hr. apply Z.eqb_neq. now apply S.
  - destruct (retreat_scan (fun j => negb (data.[j - 1] =? c)) (Z.to_nat i) i ltac:(lia))
      as (B & T & S).
    unfold backUntilChar. split; [exact B|]. split.
    + intros j Hj. specialize (T (j + 1) ltac:(lia)).
      replace (j + 1 - 1) with j in T by lia.
      apply Z.eqb_neq. now apply negb_true_iff.
    + intro Hr. apply Z.eqb_eq. apply negb_false_iff. now apply S.
Qed.

Lemma backChar_backUntilChar_spec_witness :
  backChar (bs "ab\n\n") 4 nl = 2 /\ backUntilChar (bs "a\nbc") 4 nl = 2 /\
  (bs "ab\n\n").[1] <> nl /\ (bs "a\nbc").[1] = nl.
Proof.
  pose proof (backChar_backUntilChar_spec (bs "ab\n\n") 4 nl
                ltac:(vm_compute; split; discriminate)) as (A & _).
  pose proof (backChar_backUntilChar_spec (bs "a\nbc") 4 nl
                ltac:(vm_compute; split; discriminate)) as (_ & B).
  cbv zeta in A, B. destruct A as (_ & _ & A). destruct B as (_ & _ & B).
  split; [vm_compute; reflexivity|]. split; [vm_compute; reflexivity|].
  split; [apply A | apply B]; vm_compute; reflexivity.
Defined.

(** ** Line tests *)

Lemma IsEmpty_loop_blank ws rest :
  Forall blank ws -> (rest = [] \/ exists t, rest = nl :: t) ->
  IsEmpty_loop (length (ws ++ rest)) (ws ++ rest) 0 = Some (len ws).
Proof.
  intros F R. set (data := ws ++ rest).
  pose proof (len_nonneg ws) as Hw. pose proof (len_nonneg rest) as Hr.
  assert (L : len data = len ws + len rest) by apply len_app.
  rewrite Forall_at in F.
  pose proof (IsEmpty_loop_spec (length data) data 0 ltac:(lia)) as H.
  destruct (IsEmpty_loop (length data) data 0) as [r|].
  - destruct H as (B & A & N); [unfold len; lia|]. f_equal.
    destruct (Z_lt_dec r (len ws)) as [Hlt|Hge].
    + exfalso. apply (blank_not_nl data.[r]).
      * unfold data. rewrite at_app_l by lia. apply F. lia.
      * apply N. lia.
    + destruct (Z.eq_dec r (len ws)) as [|Hne]; [assumption|]. exfalso.
      destruct R as [-> | (t & ->)].
      * rewrite len_nil in L. lia.
      * apply (blank_not_nl data.[len ws]); [apply A; lia|].
        unfold data. rewrite at_app_r, Z.sub_diag by lia. reflexivity.
  - exfalso. destruct H as (j & B & A & N1 & N2); [unfold len; lia|].
    destruct (Z_lt_dec j (len ws)) as [Hlt|Hge].
    + apply N2. unfold data. rewrite at_app_l by lia. apply F. lia.
    + destruct R as [-> | (t & ->)]; [rewrite len_nil in L; lia|].
      destruct (Z.eq_dec j (len ws)) as [->|Hne].
      * apply N1. unfold data. rewrite at_app_r, Z.sub_diag by lia. reflexivity.
      * apply (blank_not_nl data.[len ws]); [apply A; lia|].
        unfold data. rewrite at_app_r, Z.sub_diag by lia. reflexivity.
Qed.

(** X4: [IsEmpty] measures a blank first line.  On a line of spaces and
    tabs it returns the length of the line with its newline, or of what
    is left of the buffer when the newline is missing; on an empty buffer,
    and on a first line that holds anything else, it returns 0. *)
Theorem IsEmpty_spec :
  IsEmpty [] = 0 /\
  (forall ws rest, Forall blank ws -> IsEmpty (ws ++ nl :: rest) = len ws + 1) /\
  (forall ws, Forall blank ws -> IsEmpty ws = len ws) /\
  (forall data, ~ blank_line data -> IsEmpty data = 0).
Proof.
  split; [reflexivity|]. split; [|split].
  - intros ws rest F. unfold IsEmpty.
    pose proof (len_nonneg ws) as Hw. pose proof (len_nonneg rest) as Hr.
    assert (L : len (ws ++ nl :: rest) = len ws + (len rest + 1))
      by (rewrite len_app, len_cons; reflexivity).
    destruct (Z.eqb_spec (len (ws ++ nl :: rest)) 0); [lia|].
    rewrite IsEmpty_loop_blank by (eauto).
    rewrite skipCharN_1 by lia.
    replace (len ws <? len (ws ++ nl :: rest)) with true
      by (symmetry; apply Z.ltb_lt; lia).
    rewrite at_app_r, Z.sub_diag by lia. reflexivity.
  - intros ws F. unfold IsEmpty.
    destruct (Z.eqb_spec (len ws) 0) as [E|E]; [lia|].
    pose proof (IsEmpty_loop_blank ws [] F (or_introl eq_refl)) as H.
    rewrite app_nil_r in H. rewrite H.
    rewrite skipCharN_1 by apply len_nonneg.
    replace (len ws <? len ws) with false by (symmetry; apply Z.ltb_ge; lia).
    reflexivity.
  - intros data H. now apply IsEmpty_zero.
Qed.

Lemma IsEmpty_spec_witness :
  IsEmpty (bs " \n\nx") = 2 /\ IsEmpty [sp; tab] = 2 /\ IsEmpty (bs "a\n") = 0.
Proof.
  destruct IsEmpty_spec as (_ & A & B & C).
  split; [|split].
  - apply (A [sp] (bs "\nx")). apply Forall_cons; [now left | constructor].
  - apply (B [sp; tab]). apply Forall_cons; [now left|].
    apply Forall_cons; [now right | constructor].
  - apply C. intro H. apply IsEmpty_blank_line in H. vm_compute in H. discriminate.
Defined.

Lemma hrule_cond data j :
  (fun i => (i <? 3) && (i <? len data) && (data.[i] =? sp)) j =
  (j <? 3) && (j <? len data) && (data.[j] =? sp).
Proof. reflexivity. Qed.

(** The unguarded loop over the leading spaces panics where the guarded
    one runs into the end of the buffer. *)
Lemma isHRule_spaces_lead3 data : forall fuel i0,
  0 <= i0 <= len data -> i0 + Z.of_nat fuel = 3 ->
  isHRule_spaces fuel data i0 =
  let i := advance fuel (fun i => (i <? 3) && (i <? len data) && (data.[i] =? sp)) i0 in
  if (i <? 3) && (len data <=? i) then Panic else Ok i.
Proof.
  induction fuel as [|f IH]; intros i0 Hi Hf; simpl.
  - replace (i0 <? 3) with false by (symmetry; apply Z.ltb_ge; lia). reflexivity.
  - assert (E3 : (i0 <? 3) = true) by (apply Z.ltb_lt; lia). rewrite E3.
    unfold get, index.
    replace (0 <=? i0) with true by (symmetry; apply Z.leb_le; lia).
    destruct (Z.ltb_spec i0 (len data)) as [Hlt|Hge]; cbn [andb bind].
    + destruct (data.[i0] =? sp) eqn:E.
      * apply IH; lia.
      * rewrite E3.
        replace (len data <=? i0) with false by (symmetry; apply Z.leb_gt; lia).
        reflexivity.
    + rewrite E3.
      replace (len data <=? i0) with true by (symmetry; apply Z.leb_le; lia).
      reflexivity.
Qed.

Lemma slice_cons data i e :
  0 <= i < e -> i < len data -> slice data i e = data.[i] :: slice data (i + 1) e.
Proof.
  intros Hi Hl. unfold slice. rewrite (from_at data i) by lia. unfold upto.
  replace (Z.to_nat (e - i)) with (S (Z.to_nat (e - (i + 1)))) by lia.
  reflexivity.
Qed.

Lemma slice_empty data i : slice data i i = [].
Proof. unfold slice, upto. now rewrite Z.sub_diag. Qed.

Lemma isHRule_line_Some data c : forall fuel i n m,
  0 <= i -> len data - i <= Z.of_nat fuel ->
  isHRule_line fuel data c i n = Some m ->
  exists e, i <= e <= Z.max i (len data) /\
    (forall j, i <= j < e -> data.[j] = c \/ data.[j] = sp) /\
    (e < len data -> data.[e] = nl) /\
    m = n + Z.of_nat (length (filter (Z.eqb c) (slice data i e))).
Proof.
  induction fuel as [|f IH]; intros i n m Hi Hf H; simpl in H.
  - injection H as <-. exists i. rewrite slice_empty. simpl.
    repeat split; intros; lia.
  - destruct (Z.ltb_spec i (len data)) as [Hlt|Hge]; cbn [andb] in H.
    2: { injection H as <-. exists i. rewrite slice_empty. simpl.
         repeat split; intros; lia. }
    destruct (Z.eqb_spec data.[i] nl) as [Hnl|Hnl]; cbn [negb] in H.
    { injection H as <-. exists i. rewrite slice_empty. simpl.
      repeat split; intros; lia. }
    destruct (Z.eqb_spec data.[i] c) as [Hc|Hc].
    + apply IH in H; [|lia|lia]. destruct H as (e & B & A & N & ->).
      exists e. split; [lia|]. split; [|split; [exact N|]].
      * intros j Hj. destruct (Z.eq_dec j i) as [->|]; [now left|]. apply A. lia.
      * rewrite (slice_cons data i e) by lia. cbn [filter].
        rewrite Hc, Z.eqb_refl. cbn [length]. lia.
    + destruct (Z.eqb_spec data.[i] sp) as [Hs|Hs]; cbn [negb] in H; [|discriminate].
      apply IH in H; [|lia|lia]. destruct H as (e & B & A & N & ->).
      exists e. split; [lia|]. split; [|split; [exact N|]].
      * intros j Hj. destruct (Z.eq_dec j i) as [->|]; [now right|]. apply A. lia.
      * rewrite (slice_cons data i e) by lia. cbn [filter].
        replace (c =? data.[i]) with false by (symmetry; apply Z.eqb_neq; congruence).
        reflexivity.
Qed.

Lemma isHRule_line_run c rest :
  c <> nl -> c <> sp -> (rest = [] \/ exists t, rest = nl :: t) ->
  forall line pre n fuel,
    Forall (fun x => x = c \/ x = sp) line -> (length line <= fuel)%nat ->
    isHRule_line fuel (pre ++ line ++ rest) c (len pre) n =
    Some (n + Z.of_nat (length (filter (Z.eqb c) line))).
Proof.
  intros Hc Hs R. induction line as [|x line IH]; intros pre n fuel F Hf.
  - simpl. rewrite Z.add_0_r. destruct fuel; simpl; [reflexivity|].
    destruct R as [-> | (t & ->)].
    + rewrite app_nil_r, Z.ltb_irrefl. reflexivity.
    + rewrite at_app_r, Z.sub_diag by lia. change ((nl :: t).[0]) with nl.
      rewrite Z.eqb_refl. now rewrite andb_false_r.
  - destruct fuel as [|f]; [simpl in Hf; lia|]. inversion F as [|? ? Hx F']; subst.
    pose proof (len_nonneg pre) as Hp. pose proof (len_nonneg (line ++ rest)) as Hr.
    assert (A : (pre ++ (x :: line) ++ rest).[len pre] = x).
    { rewrite at_app_r, Z.sub_diag by lia. reflexivity. }
    assert (E : pre ++ (x :: line) ++ rest = (pre ++ [x]) ++ line ++ rest)
      by (rewrite <- app_assoc; reflexivity).
    assert (L : len pre + 1 = len (pre ++ [x]))
      by (rewrite len_app, len_cons, len_nil; lia).
    cbn [isHRule_line]. rewrite A.
    replace (len pre <? len (pre ++ (x :: line) ++ rest)) with true.
    2: { symmetry. apply Z.ltb_lt. rewrite len_app.
         change ((x :: line) ++ rest) with (x :: line ++ rest). rewrite len_cons. lia. }
    replace (x =? nl) with false
      by (symmetry; apply Z.eqb_neq; destruct Hx as [-> | ->]; [exact Hc | discriminate]).
    cbn [andb negb]. cbn [filter].
    destruct (Z.eqb_spec x c) as [->|Hne].
    + rewrite Z.eqb_refl. rewrite E, L, IH by (auto; simpl in Hf; lia).
      cbn [length]. f_equal. lia.
    + destruct Hx as [-> | ->]; [congruence|]. rewrite Z.eqb_refl. cbn [negb].
      replace (c =? sp) with false by (symmetry; apply Z.eqb_neq; congruence).
      rewrite E, L, IH by (auto; simpl in Hf; lia). reflexivity.
Qed.

Lemma hrule_char_plain c : hrule_char c -> c <> nl /\ c <> sp.
Proof. intros [-> | [-> | ->]]; split; discriminate. Qed.

Lemma hrule_char_test c :
  hrule_char c <->
  negb (c =? c_star) && negb (c =? c_minus) && negb (c =? c_underscore) = false.
Proof.
  unfold hrule_char.
  destruct (Z.eqb_spec c c_star), (Z.eqb_spec c c_minus), (Z.eqb_spec c c_underscore);
    simpl; intuition congruence.
Qed.

(** X5: [isHRule] reads [data[i]] without a bounds check while it skips up
    to three spaces: it panics exactly on a buffer of at most three spaces
    and nothing else (the empty buffer included).  It answers true exactly
    on a horizontal rule: up to three spaces, then a first line made of
    one of [*], [-], [_] and of spaces, with the character three times or
    more. *)
Theorem isHRule_spec data :
  (isHRule data = Panic <-> exists k, (k <= 3)%nat /\ data = repeat sp k) /\
  (isHRule data = Ok true <-> hrule_line data).
Proof.
  pose proof (len_nonneg data) as Hn.
  destruct (lead3_spec data _ (hrule_cond data)) as (B & L & U & S).
  set (i := advance 3 (fun i => (i <? 3) && (i <? len data) && (data.[i] =? sp)) 0) in *.
  assert (Hs : isHRule_spaces 3 data 0 =
               if (i <? 3) && (len data <=? i) then Panic else Ok i)
    by (apply (isHRule_spaces_lead3 data 3 0); lia).
  assert (Hd : data = repeat sp (Z.to_nat i) ++ from data i)
    by (rewrite <- U; symmetry; apply upto_from).
  split; split.
  - (* a panic: the buffer is its leading spaces *)
    intro H. exists (Z.to_nat i). split; [lia|].
    assert (i = len data) as E.
    { unfold isHRule in H. rewrite Hs in H.
      destruct (Z.ltb_spec i 3); destruct (Z.leb_spec (len data) i); cbn [andb bind] in H;
        try lia.
      - unfold get, index in H.
        replace ((0 <=? i) && (i <? len data)) with true in H
          by (symmetry; apply andb_true_iff; split; [apply Z.leb_le|apply Z.ltb_lt]; lia).
        cbn [bind] in H.
        match type of H with (if ?b then _ else _) = _ => destruct b end;
          [discriminate|].
        destruct (isHRule_line _ _ _ _ _); discriminate.
      - unfold get, index in H.
        replace ((0 <=? i) && (i <? len data)) with true in H
          by (symmetry; apply andb_true_iff; split; [apply Z.leb_le|apply Z.ltb_lt]; lia).
        cbn [bind] in H.
        match type of H with (if ?b then _ else _) = _ => destruct b end;
          [discriminate|].
        destruct (isHRule_line _ _ _ _ _); discriminate. }
    rewrite Hd at 1. rewrite from_all by lia. apply app_nil_r.
  - intros (k & Hk & E).
    assert (i = len data) as Ei.
    { assert (len data = Z.of_nat k) by (rewrite E; apply len_repeat).
      destruct (Z_lt_dec i (len data)) as [Hlt|]; [exfalso|lia].
      cbv beta in S.
      replace (i <? 3) with true in S by (symmetry; apply Z.ltb_lt; lia).
      replace (i <? len data) with true in S by (symmetry; apply Z.ltb_lt; lia).
      rewrite E, at_repeat in S by lia. discriminate. }
    unfold isHRule. rewrite Hs.
    destruct (Z.ltb_spec i 3); destruct (Z.leb_spec (len data) i); cbn [andb bind];
      try lia; try reflexivity.
    unfold get, index.
    replace (i <? len data) with false by (symmetry; apply Z.ltb_ge; lia).
    rewrite andb_false_r. reflexivity.
  - (* true: read the rule off the buffer *)
    intro H. unfold isHRule in H. rewrite Hs in H.
    destruct ((i <? 3) && (len data <=? i)); cbn [bind] in H; [discriminate|].
    unfold get, index in H.
    destruct (Z.ltb_spec i (len data)) as [Hlt|Hge];
      [|rewrite andb_false_r in H; discriminate].
    replace (0 <=? i) with true in H by (symmetry; apply Z.leb_le; lia).
    cbn [andb bind] in H.
    match type of H with (if ?b then _ else _) = _ => destruct b eqn:Ec end;
      [discriminate|].
    apply hrule_char_test in Ec. destruct (hrule_char_plain _ Ec) as (Cn & Cs).
    destruct (isHRule_line (length data) data data.[i] i 0) as [m|] eqn:El;
      [|discriminate].
    injection H as H. rewrite Z.geb_leb in H. apply Z.leb_le in H.
    apply isHRule_line_Some in El; [|lia|unfold len; lia].
    destruct El as (e & Be & A & N & ->).
    assert (i < e).
    { destruct (Z.eq_dec e i) as [->|]; [|lia]. now specialize (N Hlt). }
    rewrite (slice_cons data i e) in H by lia. cbn [filter] in H.
    rewrite Z.eqb_refl in H. cbn [length] in H.
    exists (Z.to_nat i), data.[i], (slice data (i + 1) e), (from data e).
    split; [lia|]. split; [exact Ec|]. split; [|split; [|split; [lia|]]].
    + apply Forall_at. intros j Hj. rewrite len_slice in Hj by lia.
      rewrite at_slice by lia. apply A. lia.
    + destruct (Z_lt_dec e (len data)) as [He|He].
      * right. exists (from data (e + 1)). rewrite (from_at data e) by lia.
        now rewrite N.
      * left. apply from_all. lia.
    + rewrite Hd at 1. f_equal. rewrite (from_at data i) by lia. f_equal.
      pose proof (slice_split (from data (i + 1)) 0 (e - (i + 1))) as P.
      rewrite len_from in P by lia. specialize (P ltac:(lia) ltac:(lia)).
      change (upto (from data (i + 1)) 0) with (@nil byte) in P. cbn [app] in P.
      rewrite P at 1. f_equal.
      * unfold slice. rewrite from_0, Z.sub_0_r. reflexivity.
      * rewrite from_from by lia. f_equal. lia.
  - (* a rule is accepted *)
    intros (k & c & line & rest & Hk & Hc & F & R & Cnt & E).
    destruct (hrule_char_plain _ Hc) as (Cn & Cs).
    assert (Ei : i = Z.of_nat k).
    { apply (lead3_eq data _ (hrule_cond data) k (c :: line ++ rest) Hk E).
      intros _. right. exact Cs. }
    assert (Ll : len data = Z.of_nat k + (len (line ++ rest) + 1))
      by (rewrite E, len_app, len_repeat, len_cons; reflexivity).
    pose proof (len_nonneg (line ++ rest)) as Hr.
    assert (Ac : data.[i] = c).
    { rewrite E, Ei, at_app_r by (rewrite len_repeat; lia).
      rewrite len_repeat, Z.sub_diag. reflexivity. }
    unfold isHRule. rewrite Hs.
    replace (len data <=? i) with false by (symmetry; apply Z.leb_gt; lia).
    rewrite andb_false_r. cbn [bind]. unfold get, index.
    replace ((0 <=? i) && (i <? len data)) with true
      by (symmetry; apply andb_true_iff; split; [apply Z.leb_le|apply Z.ltb_lt]; lia).
    cbn [bind]. rewrite Ac.
    apply hrule_char_test in Hc. rewrite Hc.
    assert (El : isHRule_line (length data) data c i 0 =
                 Some (0 + Z.of_nat (length (filter (Z.eqb c) (c :: line))))).
    { rewrite Ei, <- (len_repeat sp k). rewrite E at 2.
      change (c :: line ++ rest) with ((c :: line) ++ rest).
      apply isHRule_line_run;
        [exact Cn | exact Cs | exact R | constructor; [now left | exact F] |].
      rewrite E, length_app, repeat_length. simpl length.
      rewrite length_app. lia. }
    rewrite El. cbn [filter]. rewrite Z.eqb_refl. cbn [length]. f_equal.
    rewrite Z.geb_leb. apply Z.leb_le. lia.
Qed.

Lemma isHRule_spec_witness :
  isHRule (bs "  ") = Panic /\ isHRule (bs " * * *\nx") = Ok true.
Proof.
  split.
  - apply (isHRule_spec (bs "  ")). exists 2%nat. split; [lia | reflexivity].
  - apply (isHRule_spec (bs " * * *\nx")).
    exists 1%nat, c_star, (bs " * *"), (bs "\nx").
    split; [lia|]. split; [now left|]. split.
    + repeat (apply Forall_cons; [first [now left | now right]|]). constructor.
    + split; [right; exists (bs "x"); reflexivity|].
      split; [vm_compute; lia | reflexivity].
Defined.

(** ** Heading tests *)

Lemma skipCharN_repeat c k m rest :
  0 <= Z.of_nat k <= m -> (rest = [] \/ rest.[0] <> c) ->
  skipCharN (repeat c k ++ rest) 0 c m = Z.of_nat k.
Proof.
  intros Hk R. set (data := repeat c k ++ rest).
  destruct (skipCharN_scan data 0 c m ltac:(lia)) as (_ & H).
  specialize (H ltac:(lia)). cbv zeta in H. destruct H as (B & L & T & S).
  set (r := skipCharN data 0 c m) in *.
  pose proof (len_nonneg rest) as Hr.
  assert (Ld : len data = Z.of_nat k + len rest)
    by (unfold data; rewrite len_app, len_repeat; reflexivity).
  destruct (Z_lt_dec r (Z.of_nat k)) as [Hlt|Hge].
  - exfalso. apply S; [lia|lia|]. unfold data.
    rewrite at_app_l by (rewrite len_repeat; lia). apply at_repeat. lia.
  - destruct (Z.eq_dec r (Z.of_nat k)) as [|Hne]; [assumption|]. exfalso.
    destruct R as [-> | R].
    + rewrite len_nil in Ld. lia.
    + apply R. specialize (T (Z.of_nat k) ltac:(lia)). unfold data in T.
      rewrite at_app_r in T by (rewrite len_repeat; lia).
      now rewrite len_repeat, Z.sub_diag in T.
Qed.

(** X6: what [isPrefixHeading] accepts.  Without the SpaceHeadings
    extension: a buffer that starts with [#], and the empty buffer, whose
    first byte is not looked at.  With it: one to six [#] followed by a
    space; seven or more are refused. *)
Theorem isPrefixHeading_spec ext data :
  (has ext SpaceHeadings = false ->
   (isPrefixHeading ext data = true <-> data = [] \/ exists rest, data = c_hash :: rest)) /\
  (has ext SpaceHeadings = true ->
   (isPrefixHeading ext data = true <->
    exists k rest, (1 <= k <= 6)%nat /\ data = repeat c_hash k ++ sp :: rest)).
Proof.
  pose proof (len_nonneg data) as Hn. unfold isPrefixHeading. split; intro Hs; rewrite Hs.
  - destruct data as [|x rest].
    + simpl. split; [now left | reflexivity].
    + rewrite len_cons, at_cons_0. pose proof (len_nonneg rest).
      replace (len rest + 1 >? 0) with true by (symmetry; apply Z.gtb_lt; lia).
      cbn [andb]. destruct (Z.eqb_spec x c_hash) as [->|Hx]; cbn [negb].
      * split; [right; now exists rest | reflexivity].
      * split; [discriminate|]. intros [E | (r & E)]; [discriminate | congruence].
  - destruct (skipCharN_scan data 0 c_hash 6 ltac:(lia)) as (_ & H).
    specialize (H ltac:(lia)). cbv zeta in H. destruct H as (B & L & T & S).
    set (level := skipCharN data 0 c_hash 6) in *.
    split.
    + intro H.
      destruct ((len data >? 0) && negb (data.[0] =? c_hash)) eqn:E0; [discriminate|].
      destruct (Z.eqb_spec level (len data)) as [El|El]; [discriminate|].
      cbn [orb] in H.
      destruct (Z.eqb_spec data.[level] sp) as [Esp|Esp]; [|discriminate].
      assert (Hl : 0 < len data) by lia.
      assert (H0 : data.[0] = c_hash).
      { replace (len data >? 0) with true in E0 by (symmetry; apply Z.gtb_lt; lia).
        cbn [andb] in E0. apply negb_false_iff in E0. now apply Z.eqb_eq. }
      assert (1 <= level).
      { destruct (Z.eq_dec level 0) as [E|]; [|lia]. exfalso.
        rewrite E in Esp. rewrite H0 in Esp. discriminate. }
      exists (Z.to_nat level), (from data (level + 1)). split; [lia|].
      rewrite <- (upto_from data level) at 1. f_equal.
      * apply upto_repeat; [lia|]. intros j Hj. apply T. lia.
      * rewrite (from_at data level) by lia. now rewrite Esp.
    + intros (k & rest & Hk & E).
      assert (Hlev : level = Z.of_nat k).
      { unfold level. rewrite E. apply skipCharN_repeat; [lia|].
        right. discriminate. }
      pose proof (len_nonneg rest).
      assert (Ld : len data = Z.of_nat k + (len rest + 1))
        by (rewrite E, len_app, len_repeat, len_cons; reflexivity).
      assert (H0 : data.[0] = c_hash).
      { rewrite E, at_app_l by (rewrite len_repeat; lia). apply at_repeat. lia. }
      rewrite H0, Z.eqb_refl. cbn [negb]. rewrite andb_false_r.
      replace (level =? len data) with false by (symmetry; apply Z.eqb_neq; lia).
      cbn [orb].
      assert (Hsp : data.[level] = sp).
      { rewrite Hlev, E, at_app_r by (rewrite len_repeat; lia).
        rewrite len_repeat, Z.sub_diag. reflexivity. }
      rewrite Hsp, Z.eqb_refl. reflexivity.
Qed.

Lemma isPrefixHeading_spec_witness :
  isPrefixHeading 0 [] = true /\
  isPrefixHeading SpaceHeadings (bs "###### a") = true /\
  isPrefixHeading SpaceHeadings (bs "####### a") = false.
Proof.
  split; [|split].
  - destruct (isPrefixHeading_spec 0 []) as (A & _).
    apply A; [reflexivity | now left].
  - destruct (isPrefixHeading_spec SpaceHeadings (bs "###### a")) as (_ & A).
    apply A; [reflexivity|].
    exists 6%nat, (bs "a"). split; [lia | reflexivity].
  - reflexivity.
Defined.

Lemma Mmark_set ext : (Z.lor ext Mmark =? 0) = false.
Proof.
  apply Z.eqb_neq. intro H. apply Z.lor_eq_0_iff in H. destruct H as [_ H].
  discriminate H.
Qed.

(** X7: what [isPrefixSpecialHeading] accepts: [.#], then a byte that is
    not [#] (a space under SpaceHeadings), then one byte more at least.
    Its first test, [p.extensions|Mmark == 0], never holds, so the answer
    does not depend on whether the Mmark extension is enabled. *)
Theorem isPrefixSpecialHeading_spec ext data :
  (isPrefixSpecialHeading ext data = true <->
   exists x y rest,
     data = c_dot :: c_hash :: x :: y :: rest /\ x <> c_hash /\
     (has ext SpaceHeadings = true -> x = sp)) /\
  (forall ext', has ext' SpaceHeadings = has ext SpaceHeadings ->
                isPrefixSpecialHeading ext' data = isPrefixSpecialHeading ext data).
Proof.
  split.
  - unfold isPrefixSpecialHeading. rewrite Mmark_set.
    destruct data as [|a [|b [|x [|y rest]]]];
      try (split; [discriminate | intros (? & ? & ? & E & _); discriminate E]).
    rewrite !len_cons. pose proof (len_nonneg rest).
    replace (len rest + 1 + 1 + 1 + 1 <? 4) with false
      by (symmetry; apply Z.ltb_ge; lia).
    change ((a :: b :: x :: y :: rest).[0]) with a.
    change ((a :: b :: x :: y :: rest).[1]) with b.
    change ((a :: b :: x :: y :: rest).[2]) with x.
    destruct (Z.eqb_spec a c_dot) as [->|Ha]; cbn [negb].
    2: { split; [discriminate | intros (? & ? & ? & E & _); congruence]. }
    destruct (Z.eqb_spec b c_hash) as [->|Hb]; cbn [negb].
    2: { split; [discriminate | intros (? & ? & ? & E & _); congruence]. }
    destruct (Z.eqb_spec x c_hash) as [->|Hx].
    { split; [discriminate | intros (? & ? & ? & E & N & _); congruence]. }
    destruct (has ext SpaceHeadings); cbn [andb].
    + destruct (Z.eqb_spec x sp) as [->|Hsp]; cbn [negb].
      * split; [|reflexivity]. intros _. exists sp, y, rest. auto.
      * split; [discriminate|]. intros (x' & ? & ? & E & _ & S).
        injection E as -> _ _. now specialize (S eq_refl).
    + split; [|reflexivity]. intros _. exists x, y, rest.
      split; [reflexivity|]. split; [exact Hx | discriminate].
  - intros ext' H. unfold isPrefixSpecialHeading. rewrite !Mmark_set, H. reflexivity.
Qed.

Lemma isPrefixSpecialHeading_spec_witness :
  isPrefixSpecialHeading 0 (bs ".# a") = true /\
  isPrefixSpecialHeading Mmark (bs ".# a") = isPrefixSpecialHeading 0 (bs ".# a").
Proof.
  destruct (isPrefixSpecialHeading_spec 0 (bs ".# a")) as (A & B).
  split.
  - apply A.
    exists sp, 97, []. split; [reflexivity|]. split; [discriminate | reflexivity].
  - apply B. reflexivity.
Defined.

Lemma underline_scan data c :
  0 < len data -> data.[0] = c -> c <> sp -> c <> nl ->
  let i := skipChar data (skipChar data 1 c) sp in
  ((i <? len data) && (data.[i] =? nl) = true <->
   exists k t rest, data = repeat c (S k) ++ repeat sp t ++ nl :: rest).
Proof.
  intros Hl H0 Hs Hn i.
  destruct (skipChar_split data 1 c ltac:(lia)) as (B1 & R1 & N1). cbv zeta in B1, R1, N1.
  set (i1 := skipChar data 1 c) in *.
  destruct (skipChar_split data i1 sp ltac:(lia)) as (B2 & R2 & N2).
  cbv zeta in B2, R2, N2. fold i in B2, R2, N2.
  split.
  - intro H. apply andb_prop in H. destruct H as (Hi & He).
    apply Z.ltb_lt in Hi. apply Z.eqb_eq in He.
    exists (Z.to_nat (i1 - 1)), (Z.to_nat (i - i1)), (from data (i + 1)).
    rewrite <- (upto_from data 1) at 1.
    rewrite (from_slice_app data 1 i1) by lia.
    rewrite (from_slice_app data i1 i) by lia.
    rewrite R1, R2, (from_at data i) by lia. rewrite He.
    replace (upto data 1) with [c].
    + reflexivity.
    + rewrite <- H0. destruct data; [rewrite len_nil in Hl; lia | reflexivity].
  - intros (k & t & rest & E).
    pose proof (len_nonneg rest) as Hr.
    assert (E1 : i1 = 1 + Z.of_nat k).
    { unfold i1. change 1 with (len [c]) at 1.
      apply (skipChar_run data [c] k (repeat sp t ++ nl :: rest) c); [exact E|].
      right. destruct t; simpl; rewrite at_cons_0; congruence. }
    assert (E2 : i = 1 + Z.of_nat k + Z.of_nat t).
    { unfold i. rewrite E1.
      replace (1 + Z.of_nat k) with (len (repeat c (S k)))
        by (rewrite len_repeat; lia).
      apply (skipChar_run data (repeat c (S k)) t (nl :: rest) sp); [exact E|].
      right. rewrite at_cons_0. discriminate. }
    assert (Ld : len data = 1 + Z.of_nat k + (Z.of_nat t + (len rest + 1))).
    { rewrite E, !len_app, !len_repeat, len_cons. lia. }
    apply andb_true_iff. split; [apply Z.ltb_lt; lia|]. apply Z.eqb_eq.
    rewrite E2, E. rewrite at_app_r by (rewrite len_repeat; lia).
    rewrite at_app_r by (rewrite !len_repeat; lia).
    rewrite !len_repeat.
    replace (1 + Z.of_nat k + Z.of_nat t - Z.of_nat (S k) - Z.of_nat t) with 0 by lia.
    reflexivity.
Qed.

(** X8: [isUnderlinedHeading] reads [data[0]] unguarded and panics exactly
    on the empty buffer.  It answers 1 exactly on a first line of one or
    more [=], then spaces, then the newline, and 2 exactly on such a line
    of [-]; a last line without its newline is never an underline. *)
Theorem isUnderlinedHeading_spec data :
  (isUnderlinedHeading data = Panic <-> data = []) /\
  (forall lv, 0 < lv ->
     (isUnderlinedHeading data = Ok lv <->
      exists c k t rest,
        (c = c_eq /\ lv = 1 \/ c = c_minus /\ lv = 2) /\
        data = repeat c (S k) ++ repeat sp t ++ nl :: rest)).
Proof.
  unfold isUnderlinedHeading, get, index. destruct data as [|x l].
  { simpl. split; [split; reflexivity|]. intros lv Hlv. split; [discriminate|].
    intros (c & k & t & rest & _ & E). discriminate E. }
  set (data := x :: l).
  assert (Hl : 0 < len data) by (unfold data; rewrite len_cons; pose proof (len_nonneg l); lia).
  replace ((0 <=? 0) && (0 <? len data)) with true
    by (symmetry; apply andb_true_iff; split; [reflexivity | apply Z.ltb_lt; lia]).
  cbn [bind]. change (data.[0]) with x.
  assert (Hx : forall c k t rest,
             data = repeat c (S k) ++ repeat sp t ++ nl :: rest -> x = c).
  { intros c k t rest E. unfold data in E. simpl in E. congruence. }
  split.
  { split; [|discriminate]. repeat destruct (_ =? _); discriminate. }
  intros lv Hlv.
  destruct (Z.eqb_spec x c_eq) as [->|He].
  - pose proof (underline_scan data c_eq Hl eq_refl ltac:(discriminate) ltac:(discriminate))
      as U. cbv zeta in U.
    destruct ((_ <? _) && (_ =? _)).
    + split.
      * intro H. injection H as <-. destruct U as [U _].
        destruct (U eq_refl) as (k & t & rest & E).
        exists c_eq, k, t, rest. auto.
      * intros (c & k & t & rest & [(-> & ->) | (-> & ->)] & E); [reflexivity|].
        apply Hx in E. discriminate E.
    + split; [intro H; injection H as <-; lia|].
      intros (c & k & t & rest & [(-> & ->) | (-> & ->)] & E).
      * destruct U as [_ U]. discriminate U. eauto.
      * apply Hx in E. discriminate E.
  - destruct (Z.eqb_spec x c_minus) as [->|Hm].
    + pose proof (underline_scan data c_minus Hl eq_refl ltac:(discriminate)
                    ltac:(discriminate)) as U. cbv zeta in U.
      destruct ((_ <? _) && (_ =? _)).
      * split.
        -- intro H. injection H as <-. destruct U as [U _].
           destruct (U eq_refl) as (k & t & rest & E).
           exists c_minus, k, t, rest. auto.
        -- intros (c & k & t & rest & [(-> & ->) | (-> & ->)] & E); [|reflexivity].
           apply Hx in E. discriminate E.
      * split; [intro H; injection H as <-; lia|].
        intros (c & k & t & rest & [(-> & ->) | (-> & ->)] & E).
        -- apply Hx in E. discriminate E.
        -- destruct U as [_ U]. discriminate U. eauto.
    + split; [intro H; injection H as <-; lia|].
      intros (c & k & t & rest & [(-> & ->) | (-> & ->)] & E);
        apply Hx in E; congruence.
Qed.

Lemma isUnderlinedHeading_spec_witness :
  isUnderlinedHeading (bs "===  \nx") = Ok 1 /\ isUnderlinedHeading (bs "-\n") = Ok 2.
Proof.
  split.
  - destruct (isUnderlinedHeading_spec (bs "===  \nx")) as (_ & A).
    apply (A 1 ltac:(lia)). exists c_eq, 2%nat, 2%nat, (bs "x").
    split; [now left | reflexivity].
  - destruct (isUnderlinedHeading_spec (bs "-\n")) as (_ & A).
    apply (A 2 ltac:(lia)). exists c_minus, 0%nat, 0%nat, [].
    split; [now right | reflexivity].
Defined.

(** ** List item prefixes *)

(** X9: [uliPrefix] is not 0 exactly on up to three spaces, one of [*],
    [+], [-], then a space or a tab, and it is then the length of that
    prefix.  [dliPrefix] is 2 exactly on [:] followed by a space or a tab
    and 0 otherwise: its own [skipChar] never moves, as the first byte is
    the colon. *)
Theorem item_prefix_spec data :
  (uliPrefix data <> 0 <->
   exists k m w rest,
     (k <= 3)%nat /\ (m = c_star \/ m = c_plus \/ m = c_minus) /\
     (w = sp \/ w = tab) /\ data = repeat sp k ++ m :: w :: rest) /\
  (forall k m w rest,
     (k <= 3)%nat -> (m = c_star \/ m = c_plus \/ m = c_minus) -> (w = sp \/ w = tab) ->
     data = repeat sp k ++ m :: w :: rest -> uliPrefix data = Z.of_nat k + 2) /\
  (dliPrefix data = 0 \/ dliPrefix data = 2) /\
  (dliPrefix data = 2 <->
   exists w rest, (w = sp \/ w = tab) /\ data = c_colon :: w :: rest).
Proof.
  split; [|split; [|split]].
  - split.
    + intro H. apply uliPrefix_shape. pose proof (uliPrefix_nonneg data). lia.
    + intros (k & m & w & rest & Hk & Hm & Hw & ->).
      rewrite uliPrefix_value by assumption. lia.
  - intros k m w rest Hk Hm Hw ->. now apply uliPrefix_value.
  - unfold dliPrefix. destruct (len data <? 2); [now left|].
    destruct (_ || _) eqn:E; [now left|]. right.
    apply orb_false_elim in E. destruct E as (E1 & _).
    apply negb_false_iff in E1. apply Z.eqb_eq in E1.
    rewrite skipChar_stay by (rewrite E1; discriminate). reflexivity.
  - unfold dliPrefix. split.
    + destruct (Z.ltb_spec (len data) 2) as [Hl|Hl]; [discriminate|].
      destruct (_ || _) eqn:E; [discriminate|]. intros _.
      apply orb_false_elim in E. destruct E as (E1 & E2).
      apply negb_false_iff in E1, E2. apply Z.eqb_eq in E1.
      destruct data as [|a [|w rest]]; try (rewrite ?len_cons, ?len_nil in Hl; lia).
      change ((a :: w :: rest).[0]) with a in E1.
      change ((a :: w :: rest).[1]) with w in E2. subst a.
      exists w, rest. split; [|reflexivity].
      apply orb_prop in E2. destruct E2 as [E2|E2]; apply Z.eqb_eq in E2; auto.
    + intros (w & rest & Hw & ->). rewrite !len_cons. pose proof (len_nonneg rest).
      replace (len rest + 1 + 1 <? 2) with false by (symmetry; apply Z.ltb_ge; lia).
      change ((c_colon :: w :: rest).[0]) with c_colon.
      change ((c_colon :: w :: rest).[1]) with w.
      replace ((w =? sp) || (w =? tab)) with true
        by (destruct Hw as [-> | ->]; reflexivity).
      cbn [negb orb Z.eqb c_colon Pos.eqb].
      rewrite skipChar_stay by (change ((c_colon :: w :: rest).[0]) with c_colon; discriminate).
      reflexivity.
Qed.

Lemma item_prefix_spec_witness :
  uliPrefix (bs "  - a") = 4 /\ dliPrefix (bs ": a") = 2.
Proof.
  destruct (item_prefix_spec (bs "  - a")) as (_ & A & _).
  destruct (item_prefix_spec (bs ": a")) as (_ & _ & _ & B).
  split.
  - apply (A 2%nat c_minus sp (bs "a")); auto.
  - apply B. exists sp, (bs "a"). auto.
Defined.

(** ** What a call of [Block] does to the tree *)

(** X10: [Block] only appends to the tree.  Whatever the input, a call
    that returns leaves the extensions and both nesting counters as they
    were, keeps every node it found with the variant and attributes it
    had, never shrinks the tree, and keeps parents before their children.
    The functions missing from the sources are assumed to do the same. *)
Theorem Block_appends (C : Collaborators) (depth : nat) (data : bytes) (p p' : Parser) :
  well_behaved C ->
  Block C depth data p = Ok p' ->
  extensions p' = extensions p /\ maxNesting p' = maxNesting p /\
  nesting p' = nesting p /\
  (length (nodes p) <= length (nodes p'))%nat /\
  (forall id, (id < length (nodes p))%nat -> data_at p' id = data_at p id) /\
  (ordered p -> ordered p').
Proof.
  intros wb H. apply (Block_frame C wb) in H.
  destruct H as (A1 & A2 & A3 & A4 & A5 & A6). repeat split; assumption.
Qed.

Lemma Block_appends_witness :
  exists p',
    Block plain 16 (bs "# a\n\n> b\n\n* c\n") (newParser 0 16) = Ok p' /\
    data_at p' 0 = Some Document /\ (1 <= length (nodes p'))%nat /\ ordered p'.
Proof.
  eexists. split; [vm_compute; reflexivity|].
  match goal with
  | |- data_at ?q _ = _ /\ _ =>
      destruct (Block_appends plain 16 (bs "# a\n\n> b\n\n* c\n") (newParser 0 16) q
                  plain_well_behaved ltac:(vm_compute; reflexivity))
        as (_ & _ & _ & L & D & O)
  end.
  split; [|split].
  - rewrite D; [reflexivity | simpl; lia].
  - exact L.
  - apply O, newParser_ordered.
Defined.

(** X11: every turn of the loop of [Block] consumes input.  A turn entered
    with bytes left that returns, returns with fewer bytes left, whichever
    recognizer took the turn; the recognizers missing from the sources are
    assumed to keep to their contracts ([consuming]). *)
Theorem Block_step_consumes (C : Collaborators) (d : nat) (p p' : Parser)
  (data data' : bytes) :
  well_behaved C -> consuming C ->
  0 < len data ->
  Block_step C (Block C d) p data = Ok (data', p') ->
  len data' < len data.
Proof.
  intros wb cs Hl H. unfold Block_step in H.
  destruct (if has (extensions p) Attributes then attribute C p data else (data, p))
    as [data1 p1] eqn:A.
  assert (L1 : len data1 <= len data).
  { destruct (has (extensions p) Attributes); [|injection A as <- _; lia].
    pose proof (cs_attribute C cs p data) as X. now rewrite A in X. }
  apply (Block_include_progress C wb cs (Block C d) (Block_frame C wb d)) in H.
  destruct H as (H1 & H2).
  destruct (Z_le_gt_dec (len data1) 0); [lia|]. specialize (H2 ltac:(lia)). lia.
Qed.

Lemma Block_step_consumes_witness :
  len (bs "b\n") < len (bs "a\n\nb\n").
Proof.
  apply (Block_step_consumes plain 15 (set_nesting (newParser 0 16) 1)
           (snd (returned (Block_step plain (Block plain 15)
                             (set_nesting (newParser 0 16) 1) (bs "a\n\nb\n"))
                   ([], newParser 0 16)))
           (bs "a\n\nb\n") (bs "b\n") plain_well_behaved plain_consuming).
  - vm_compute. reflexivity.
  - vm_compute. reflexivity.
Defined.

(** X12: the paragraph is the last resort and takes its first line.  When
    none of the tests that [Block] makes before it accepts the start of
    the buffer, a call of [paragraph] that returns has consumed the whole
    first line at least, and that line is not empty. *)
Theorem paragraph_takes_first_line (C : Collaborators) (d : nat) (p p' : Parser)
  (data : bytes) (n : Z) :
  well_behaved C -> consuming C ->
  fallthrough C (extensions p) data ->
  paragraph C (Block C d) p data = Ok (n, p') ->
  0 < first_line data <= n.
Proof.
  intros wb cs FT H.
  pose proof (first_line_pos data (ft_len _ _ _ FT)).
  pose proof (paragraph_first_line C wb cs (Block C d) (Block_frame C wb d) _ _ _ _ FT H).
  lia.
Qed.

Lemma paragraph_takes_first_line_witness :
  0 < first_line (bs "a b\nc\n\nd\n") <= 7.
Proof.
  apply (paragraph_takes_first_line plain 15 (set_nesting (newParser 0 16) 1)
           (snd (returned (paragraph plain (Block plain 15)
                             (set_nesting (newParser 0 16) 1) (bs "a b\nc\n\nd\n"))
                   (0, newParser 0 16)))
           (bs "a b\nc\n\nd\n") 7 plain_well_behaved plain_consuming).
  - split; try (vm_compute; reflexivity); try (vm_compute; discriminate);
      intros; try discriminate.
  - vm_compute. reflexivity.
Defined.

(** X13: [Block] comes to its end on every input.  From a state whose
    tree has parents before their children, and with the depth followed
    covering the levels left below [maxNesting], no loop of the parser is
    cut short: the call returns, or it panics.  The functions missing from
    the sources are assumed to keep to their contracts. *)
Theorem Block_never_cut_short (C : Collaborators) (depth : nat) (data : bytes)
  (p : Parser) :
  well_behaved C -> consuming C ->
  ordered p -> (Z.to_nat (maxNesting p - nesting p) <= depth)%nat ->
  Block C depth data p <> OutOfFuel.
Proof.
  intros wb cs. revert data p.
  induction depth as [|d IH]; intros data p O Hd; rewrite Block_eq;
    destruct (nesting p >=? maxNesting p) eqn:E; try discriminate;
    rewrite Z.geb_leb in E; apply Z.leb_gt in E; [lia|].
  apply bind_finishes; [|intros; apply finishes_Ok].
  apply (Block_loop_finishes C wb (Block C d) (Block_frame C wb d)
           (nesting p + 1) (maxNesting p)).
  - intros d0 q (Oq & Hn & Hm). apply IH; [exact Oq|]. rewrite Hn, Hm. lia.
  - exact cs.
  - repeat split. exact O.
  - lia.
Qed.

Lemma Block_never_cut_short_witness :
  Block plain 16 (bs "> * a\n>\n> # b\n\n    c\n") (newParser 0 16) <> OutOfFuel.
Proof.
  apply (Block_never_cut_short plain 16 _ (newParser 0 16)
           plain_well_behaved plain_consuming (newParser_ordered 0 16)).
  vm_compute. lia.
Defined.

Lemma IsEmpty_whitespace data :
  Forall (fun c => c = sp \/ c = tab \/ c = nl) data -> data <> [] ->
  0 < IsEmpty data <= len data.
Proof.
  intros F Hne. pose proof (len_nonneg data) as Hn.
  assert (Hl : 0 < len data).
  { destruct data; [congruence|]. rewrite len_cons. pose proof (len_nonneg data). lia. }
  rewrite Forall_at in F. unfold IsEmpty.
  destruct (Z.eqb_spec (len data) 0); [lia|].
  pose proof (IsEmpty_loop_spec (length data) data 0 ltac:(lia)) as H.
  destruct (IsEmpty_loop (length data) data 0) as [r|].
  - destruct H as (B & A & N); [unfold len; lia|].
    rewrite skipCharN_1 by lia.
    destruct (Z.ltb_spec r (len data)) as [Hr|Hr]; cbn [andb]; [|lia].
    rewrite (N Hr), Z.eqb_refl. lia.
  - exfalso. destruct H as (j & B & _ & N1 & N2); [unfold len; lia|].
    destruct (F j ltac:(lia)) as [E | [E | E]]; [apply N2; now left | apply N2; now right
                                                 | contradiction].
Qed.

Lemma Forall_from (P : byte -> Prop) data n : Forall P data -> Forall P (from data n).
Proof.
  intro F. apply Forall_forall. intros x Hx. rewrite Forall_forall in F.
  apply F. now apply (incl_from data n).
Qed.

Lemma set_nesting_back p n : set_nesting (set_nesting p n) (nesting p) = p.
Proof. destruct p. reflexivity. Qed.

(** A turn of the loop on a buffer of white space: the blank line at the
    start is dropped and the state is kept. *)
Lemma Block_step_whitespace C blk p data :
  ParserHook C = None ->
  has (extensions p) Attributes = false -> has (extensions p) Includes = false ->
  Forall (fun c => c = sp \/ c = tab \/ c = nl) data -> data <> [] ->
  Block_step C blk p data = Ok (from data (IsEmpty data), p).
Proof.
  intros Hh Ha Hi F Hne.
  pose proof (IsEmpty_whitespace data F Hne) as (E1 & E2).
  assert (H0 : data.[0] = sp \/ data.[0] = tab \/ data.[0] = nl).
  { rewrite Forall_at in F. apply F. lia. }
  unfold Block_step. rewrite Ha.
  unfold Block_include. rewrite Hi. cbn [andb].
  unfold Block_hook. rewrite Hh. change (0 >? 0) with false. cbv iota.
  unfold Block_headings.
  assert (Hp : isPrefixHeading (extensions p) data = false).
  { unfold isPrefixHeading.
    replace (len data >? 0) with true by (symmetry; apply Z.gtb_lt; lia).
    destruct H0 as [-> | [-> | ->]]; reflexivity. }
  assert (Hq : isPrefixSpecialHeading (extensions p) data = false).
  { unfold isPrefixSpecialHeading. rewrite Mmark_set.
    destruct (len data <? 4); [reflexivity|].
    destruct H0 as [-> | [-> | ->]]; reflexivity. }
  rewrite Hp, Hq.
  replace (len data =? 0) with false by (symmetry; apply Z.eqb_neq; lia).
  unfold Block_leaves.
  replace (data.[0] =? c_lt) with false
    by (destruct H0 as [-> | [-> | ->]]; reflexivity).
  cbn [bind]. change (0 >? 0) with false. cbv iota.
  replace (data.[0] =? c_percent) with false
    by (destruct H0 as [-> | [-> | ->]]; reflexivity).
  rewrite andb_false_r. cbn [bind]. change (0 >? 0) with false. cbv iota.
  replace (IsEmpty data >? 0) with true by (symmetry; apply Z.gtb_lt; lia).
  unfold consume, slice_from. cbn [bind].
  replace ((0 <=? IsEmpty data) && (IsEmpty data <=? len data)) with true
    by (symmetry; apply andb_true_iff; split; apply Z.leb_le; lia).
  reflexivity.
Qed.

(** X14: white space adds nothing.  With no parser hook and without the
    Attributes and Includes extensions, [Block] on a buffer made of
    spaces, tabs and newlines only (the empty buffer included) returns the
    state it was given: no node is added and the tip stays where it was. *)
Theorem Block_whitespace (C : Collaborators) (d : nat) (data : bytes) (p : Parser) :
  ParserHook C = None ->
  has (extensions p) Attributes = false -> has (extensions p) Includes = false ->
  Forall (fun c => c = sp \/ c = tab \/ c = nl) data ->
  Block C (S d) data p = Ok p.
Proof.
  intros Hh Ha Hi F. rewrite Block_eq.
  destruct (nesting p >=? maxNesting p); [reflexivity|].
  set (q := set_nesting p (nesting p + 1)).
  assert (L : forall fuel data0,
             Forall (fun c => c = sp \/ c = tab \/ c = nl) data0 ->
             (length data0 < fuel)%nat ->
             Block_loop C (Block C d) fuel q data0 = Ok q).
  { induction fuel as [|f IH]; intros data0 F0 Hf; [lia|].
    cbn [Block_loop]. destruct (Z.gtb_spec (len data0) 0) as [Hl|Hl]; [|reflexivity].
    assert (Hne : data0 <> []) by (intros ->; rewrite len_nil in Hl; lia).
    rewrite (Block_step_whitespace C (Block C d) q data0 Hh Ha Hi F0 Hne). cbn [bind].
    pose proof (IsEmpty_whitespace data0 F0 Hne) as (E1 & E2).
    apply IH; [now apply Forall_from|].
    pose proof (len_from data0 (IsEmpty data0) ltac:(lia)) as Lf. unfold len in *. lia. }
  rewrite L by (auto; lia). cbn [bind]. f_equal.
  unfold q. replace (nesting (set_nesting p (nesting p + 1)) - 1) with (nesting p)
    by (simpl; lia).
  apply set_nesting_back.
Qed.

Lemma Block_whitespace_witness :
  Block plain 1 (bs " \n\t\n\n  ") (newParser 0 16) = Ok (newParser 0 16).
Proof.
  apply Block_whitespace; try reflexivity.
  repeat (apply Forall_cons; [first [now left | right; now left | right; now right]|]).
  constructor.
Defined.

(** ** Rendering code blocks *)

Lemma slice_snoc d a b :
  0 <= a <= b -> b < len d -> slice d a (b + 1) = slice d a b ++ [d.[b]].
Proof.
  intros Ha Hb.
  pose proof (from_slice_app d a b Ha) as E1.
  pose proof (from_slice_app d a (b + 1) ltac:(lia)) as E2.
  rewrite (from_at d b) in E1 by lia. rewrite E1 in E2.
  change (d.[b] :: from d (b + 1)) with ([d.[b]] ++ from d (b + 1)) in E2.
  rewrite app_assoc in E2. now apply app_inv_tail in E2.
Qed.

(** The loop writes the escapes of the bytes it has passed, less the plain
    bytes since [start], which are still to be written. *)
Lemma EscapeHTML_loop_spec d : forall fuel w start end_,
  0 <= start <= end_ -> end_ <= len d -> len d - end_ <= Z.of_nat fuel ->
  (forall j, start <= j < end_ -> Escaper d.[j] = None) ->
  let '(w', start', end') := EscapeHTML_loop fuel d w start end_ in
  end' = len d /\ 0 <= start' <= len d /\
  (forall j, start' <= j < len d -> Escaper d.[j] = None) /\
  w' ++ slice d start' (len d) = w ++ slice d start end_ ++ flat_map escaped (from d end_).
Proof.
  induction fuel as [|f IH]; intros w start end_ Hs He Hf Hp; simpl.
  - assert (end_ = len d) by lia. subst end_.
    rewrite from_all by lia. simpl. rewrite app_nil_r.
    repeat split; try lia. exact Hp.
  - destruct (Z.ltb_spec end_ (len d)) as [Hlt|Hge].
    + rewrite (from_at d end_) by lia. cbn [flat_map].
      destruct (Escaper d.[end_]) as [esc|] eqn:E.
      * specialize (IH (w ++ slice d start end_ ++ esc) (end_ + 1) (end_ + 1)
                      ltac:(lia) ltac:(lia) ltac:(lia) ltac:(intros; lia)).
        destruct (EscapeHTML_loop f d _ _ _) as [[w' start'] end'].
        destruct IH as (A & B & P & W). repeat split; try lia; auto.
        rewrite W, slice_empty. unfold escaped at 2. rewrite E.
        cbn [app]. now rewrite <- !app_assoc.
      * specialize (IH w start (end_ + 1) ltac:(lia) ltac:(lia) ltac:(lia)).
        destruct (EscapeHTML_loop f d _ _ _) as [[w' start'] end'].
        destruct IH as (A & B & P & W).
        { intros j Hj. destruct (Z.eq_dec j end_) as [->|]; [exact E | apply Hp; lia]. }
        repeat split; try lia; auto.
        rewrite W, slice_snoc by lia. unfold escaped at 2. rewrite E.
        now rewrite <- !app_assoc.
    + assert (end_ = len d) by lia. subst end_.
      rewrite from_all by lia. simpl. rewrite app_nil_r.
      repeat split; try lia. exact Hp.
Qed.

Lemma EscapeHTML_flat_map w d : EscapeHTML w d = w ++ flat_map escaped d.
Proof.
  unfold EscapeHTML. pose proof (len_nonneg d) as Hn.
  pose proof (EscapeHTML_loop_spec d (length d) w 0 0 ltac:(lia) ltac:(lia)
                ltac:(unfold len; lia) ltac:(intros; lia)) as H.
  destruct (EscapeHTML_loop (length d) d w 0 0) as [[w' start'] end'].
  destruct H as (-> & B & P & W).
  rewrite slice_empty, from_0 in W. cbn [app] in W. rewrite <- W.
  rewrite Z.leb_refl, andb_true_r.
  destruct (Z.ltb_spec start' (len d)); [reflexivity|].
  replace start' with (len d) by lia. rewrite slice_empty. now rewrite app_nil_r.
Qed.

(** X15: [EscapeHTML] of main.go writes, after what the writer holds, the
    bytes of [d] in order with [&], [<], [>] and the double quote replaced
    by their entities.  So what it writes holds none of [<], [>] and the
    double quote, text without the four bytes is written as it is, and
    escaping a concatenation is escaping its parts one after the other. *)
Theorem EscapeHTML_spec (w d : bytes) :
  EscapeHTML w d = w ++ flat_map escaped d /\
  Forall (fun c => c <> 60 /\ c <> 62 /\ c <> 34) (EscapeHTML [] d) /\
  (Forall (fun c => c <> 38 /\ c <> 60 /\ c <> 62 /\ c <> 34) d -> EscapeHTML w d = w ++ d) /\
  (forall d', EscapeHTML w (d ++ d') = EscapeHTML (EscapeHTML w d) d').
Proof.
  split; [apply EscapeHTML_flat_map|]. split; [|split].
  - rewrite EscapeHTML_flat_map. cbn [app].
    induction d as [|c d IH]; [constructor|].
    cbn [flat_map]. apply Forall_app. split; [|exact IH].
    unfold escaped, Escaper.
    destruct (Z.eqb_spec c 38); [repeat constructor; discriminate|].
    destruct (Z.eqb_spec c 60); [repeat constructor; discriminate|].
    destruct (Z.eqb_spec c 62); [repeat constructor; discriminate|].
    destruct (Z.eqb_spec c 34); [repeat constructor; discriminate|].
    repeat constructor; assumption.
  - intro F. rewrite EscapeHTML_flat_map. f_equal.
    induction F as [|c l (H1 & H2 & H3 & H4) F IH]; [reflexivity|].
    cbn [flat_map]. rewrite IH. unfold escaped, Escaper.
    apply Z.eqb_neq in H1, H2, H3, H4. now rewrite H1, H2, H3, H4.
  - intro d'. rewrite !EscapeHTML_flat_map, flat_map_app. apply app_assoc.
Qed.

Lemma EscapeHTML_spec_witness :
  EscapeHTML (bs "<pre><code>") (bs "a<b && c>" ++ [34])
  = bs "<pre><code>a&lt;b &amp;&amp; c&gt;&quot;" /\
  EscapeHTML [] (bs "x y") = bs "x y".
Proof.
  split; [vm_compute; reflexivity|].
  destruct (EscapeHTML_spec [] (bs "x y")) as (_ & _ & A & _). apply A.
  repeat (apply Forall_cons; [repeat split; discriminate|]). constructor.
Defined.

Lemma In_at (c : byte) (l : bytes) : In c l <-> exists j, 0 <= j < len l /\ l.[j] = c.
Proof.
  split.
  - intro H. apply (In_nth (A := byte) _ _ 0) in H. destruct H as (k & Hk & E).
    exists (Z.of_nat k). split; [unfold len; lia|]. unfold at_. now rewrite Nat2Z.id.
  - intros (j & Hj & E). rewrite <- E. unfold at_. apply nth_In. unfold len in Hj. lia.
Qed.

(** Where the backward search for the last [c] ends. *)
Lemma backUntilChar_last input c :
  (~ In c input -> backUntilChar input (len input) c = 0) /\
  (In c input -> 0 < backUntilChar input (len input) c) /\
  (forall a b, input = a ++ c :: b -> ~ In c b ->
               backUntilChar input (len input) c = len a + 1).
Proof.
  pose proof (len_nonneg input) as Hn.
  destruct (retreat_scan (fun j => negb (input.[j - 1] =? c)) (Z.to_nat (len input))
              (len input) ltac:(lia)) as (B & T & St).
  fold (backUntilChar input (len input) c) in B, T, St.
  set (r := backUntilChar input (len input) c) in *.
  split; [|split].
  - intro H. destruct (Z.eq_dec r 0) as [|Hr]; [assumption|]. exfalso.
    specialize (St ltac:(lia)). apply negb_false_iff, Z.eqb_eq in St.
    apply H. apply In_at. exists (r - 1). split; [lia | exact St].
  - intro H. apply In_at in H. destruct H as (j & Hj & E).
    destruct (Z_lt_dec r (j + 1)) as [Hlt|]; [exfalso|lia].
    specialize (T (j + 1) ltac:(lia)). replace (j + 1 - 1) with j in T by lia.
    rewrite E, Z.eqb_refl in T. discriminate T.
  - intros a b E Hb. pose proof (len_nonneg a). pose proof (len_nonneg b).
    assert (L : len input = len a + (len b + 1))
      by (rewrite E, len_app, len_cons; reflexivity).
    destruct (Z_lt_dec r (len a + 1)) as [Hlt|Hge].
    + exfalso. specialize (T (len a + 1) ltac:(lia)).
      replace (len a + 1 - 1) with (len a) in T by lia.
      rewrite E, at_app_r, Z.sub_diag in T by lia.
      change ((c :: b).[0]) with c in T. rewrite Z.eqb_refl in T. discriminate T.
    + destruct (Z.eq_dec r (len a + 1)) as [|Hne]; [assumption|]. exfalso.
      specialize (St ltac:(lia)). apply negb_false_iff, Z.eqb_eq in St.
      apply Hb. apply In_at. exists (r - 1 - (len a + 1)). split; [lia|].
      rewrite E, at_app_r in St by lia.
      rewrite at_cons_S in St by lia. rewrite <- St. f_equal. lia.
Qed.

Lemma upto_app_l (a b : bytes) : upto (a ++ b) (len a) = a.
Proof.
  unfold upto. rewrite firstn_app.
  replace (Z.to_nat (len a) - length a)%nat with O by (unfold len; lia).
  cbn [firstn]. rewrite app_nil_r. apply firstn_all2. unfold len. lia.
Qed.

(** X16: [SpecialTrim] of main.go slices its input at the last newline
    without testing that there is one: it panics exactly on an input that
    holds no newline (the empty one included), and otherwise returns what
    precedes the last newline, so that a text ending in a newline loses
    exactly that newline. *)
Theorem SpecialTrim_spec (input : bytes) :
  (SpecialTrim input = Panic <-> ~ In nl input) /\
  (forall a b, input = a ++ nl :: b -> ~ In nl b -> SpecialTrim input = Ok a) /\
  (forall a, input = a ++ [nl] -> SpecialTrim input = Ok a).
Proof.
  destruct (backUntilChar_last input nl) as (None_ & Some_ & Last).
  assert (Split : forall a b, input = a ++ nl :: b -> ~ In nl b ->
                              SpecialTrim input = Ok a).
  { intros a b E Hb. unfold SpecialTrim, LastIndexByte.
    rewrite (Last a b E Hb). pose proof (len_nonneg a).
    replace (len a + 1 - 1 <? 0) with false by (symmetry; apply Z.ltb_ge; lia).
    f_equal. replace (len a + 1 - 1) with (len a) by lia.
    rewrite E. apply upto_app_l. }
  split; [|split].
  - split.
    + intros H Hin. specialize (Some_ Hin). unfold SpecialTrim, LastIndexByte in H.
      destruct (Z.ltb_spec (backUntilChar input (len input) nl - 1) 0);
        [lia | discriminate H].
    + intro H. unfold SpecialTrim, LastIndexByte. rewrite (None_ H). reflexivity.
  - exact Split.
  - intros a E. apply (Split a [] E). intros [].
Qed.

Lemma SpecialTrim_spec_witness :
  SpecialTrim (bs "x := 1") = Panic /\ SpecialTrim (bs "a\nb\n") = Ok (bs "a\nb").
Proof.
  split.
  - apply (SpecialTrim_spec (bs "x := 1")). vm_compute. intuition discriminate.
  - destruct (SpecialTrim_spec (bs "a\nb\n")) as (_ & _ & A). now apply A.
Defined.

(** ** The code block that [fencedCodeBlock] builds *)

Lemma trim_front_range data : forall fuel s n s' n',
  0 <= n -> trim_front fuel data s n = (s', n') -> s <= s' /\ s' + n' = s + n /\ 0 <= n'.
Proof.
  induction fuel as [|f IH]; intros s n s' n' Hn H; simpl in H.
  - injection H as <- <-. lia.
  - destruct (Z.ltb_spec 0 n); cbn [andb] in H; [|injection H as <- <-; lia].
    destruct (IsSpace data.[s]); [|injection H as <- <-; lia].
    apply IH in H; lia.
Qed.

Lemma trim_back_range data s : forall fuel n, 0 <= n -> 0 <= trim_back fuel data s n <= n.
Proof.
  induction fuel as [|f IH]; intros n Hn; simpl; [lia|].
  destruct (Z.ltb_spec 0 n); cbn [andb]; [|lia].
  destruct (IsSpace data.[s + n - 1]); [|lia].
  specialize (IH (n - 1) ltac:(lia)). lia.
Qed.

(** The syntax annotation lies within one line. *)
Lemma syntaxRange_line l q ss sl q' :
  0 <= q -> syntaxRange l q = (ss, sl, q') ->
  0 <= ss /\ 0 <= sl /\ forall j, ss <= j < ss + sl -> j < len l /\ l.[j] <> nl.
Proof.
  intros Hq H. unfold syntaxRange in H.
  destruct (l.[q] =? c_lbrace).
  - set (cond := fun i => (i <? len l) && negb (l.[i] =? c_rbrace) && negb (l.[i] =? nl)) in *.
    pose proof (advance_bounds cond (length l) (q + 1)) as B.
    assert (T : forall j, q + 1 <= j < advance (length l) cond (q + 1) ->
                          j < len l /\ l.[j] <> nl).
    { intros j Hj. pose proof (advance_true cond (length l) (q + 1) j Hj) as X.
      unfold cond in X. apply andb_prop in X. destruct X as (X & X2).
      apply andb_prop in X. destruct X as (X & _).
      apply negb_true_iff, Z.eqb_neq in X2. split; [lia | exact X2]. }
    set (a := advance (length l) cond (q + 1)) in *.
    destruct ((a >=? len l) || negb (l.[a] =? c_rbrace)).
    + injection H as <- <- _. split; [lia|]. split; [lia|]. intros; lia.
    + destruct (trim_front (length l) l (q + 1) (a - (q + 1))) as [s1 n1] eqn:E.
      apply trim_front_range in E; [|lia].
      pose proof (trim_back_range l s1 (length l) n1 ltac:(lia)).
      injection H as <- <- _. split; [lia|]. split; [lia|].
      intros j Hj. apply T. lia.
  - injection H as <- <- _.
    destruct (advance_scan (fun j => negb (l.[j] =? nl)) l q Hq) as (B & T & _).
    fold (skipUntilChar l q nl) in B, T.
    split; [lia|]. split; [lia|]. intros j Hj.
    specialize (T j ltac:(lia)). apply negb_true_iff, Z.eqb_neq in T.
    split; [lia | exact T].
Qed.

Lemma slice_no_nl l a n :
  0 <= a -> 0 <= n -> (forall j, a <= j < a + n -> j < len l /\ l.[j] <> nl) ->
  ~ In nl (slice l a (a + n)).
Proof.
  intros Ha Hn H Hin.
  destruct (Z.eq_dec n 0) as [->|Hne].
  { rewrite Z.add_0_r, slice_empty in Hin. exact Hin. }
  assert (Hl : a + n <= len l) by (specialize (H (a + n - 1) ltac:(lia)); lia).
  apply (In_nth (A := byte) _ _ 0) in Hin. destruct Hin as (k & Hk & E).
  pose proof (len_slice l a (a + n) ltac:(lia) Hl) as L. unfold len in L.
  pose proof (at_slice l a (a + n) (Z.of_nat k) Ha ltac:(lia)) as A.
  unfold at_ at 1 in A. rewrite Nat2Z.id, E in A.
  destruct (H (a + Z.of_nat k) ltac:(lia)) as (_ & N). congruence.
Qed.

(** The syntax [isFenceLine] hands back holds no newline. *)
Lemma isFenceLine_syntax l old e m syn :
  isFenceLine l old = (e, m, Some syn) -> ~ In nl syn.
Proof.
  unfold isFenceLine.
  destruct (lead3_spec l _ (fence_cond l)) as (Bi & L & U & _).
  set (i := advance 3 _ 0) in *.
  destruct (i >=? len l); [discriminate|].
  destruct (negb (l.[i] =? c_tilde) && negb (l.[i] =? c_backtick)); [discriminate|].
  destruct (skipChar_split l i l.[i] ltac:(lia)) as (Br & _).
  set (r := skipChar l i l.[i]) in *.
  destruct (r - i <? 3); [discriminate|].
  destruct (negb (len old =? 0) && negb (bytes_eqb _ old)); [discriminate|].
  destruct (len old =? 0).
  - destruct (skipChar_split l r sp ltac:(lia)) as (Bq & _).
    set (q := skipChar l r sp) in *.
    destruct (q >=? len l); [destruct (q =? len l); discriminate|].
    destruct (syntaxRange l q) as [[ss sl] q'] eqn:Hsr.
    destruct ((ss =? 0) && (sl =? 0)); [discriminate|].
    apply syntaxRange_line in Hsr; [|lia]. destruct Hsr as (H1 & H2 & H3).
    cbv zeta. intro H.
    assert (syn = slice l ss (ss + sl)).
    { destruct (_ || _) in H; [destruct (_ =? _) in H; [|discriminate]|];
        injection H as _ _ <-; reflexivity. }
    subst syn. now apply slice_no_nl.
  - cbv zeta. destruct (_ || _); [destruct (_ =? _)|]; discriminate.
Qed.

Lemma slice_app3 d a b c :
  0 <= a <= b -> b <= c -> slice d a b ++ slice d b c = slice d a c.
Proof.
  intros Ha Hb.
  pose proof (from_slice_app d a b Ha) as E1.
  pose proof (from_slice_app d b c ltac:(lia)) as E2.
  pose proof (from_slice_app d a c ltac:(lia)) as E3.
  rewrite E2 in E1. rewrite E1, app_assoc in E3. now apply app_inv_tail in E3.
Qed.

(** What the scan of [fencedCodeBlock] gathers: the lines, as they are,
    from the cursor to the closing fence line. *)
Lemma fence_scan_work data marker : forall fuel beg work e w,
  0 <= beg -> fence_scan fuel data marker beg work = Some (e, w) ->
  exists pos,
    (pos = beg \/ (beg < pos /\ data.[pos - 1] = nl)) /\ pos <= len data /\
    fst (fst (isFenceLine (from data pos) marker)) <> 0 /\
    e = pos + fst (fst (isFenceLine (from data pos) marker)) /\
    w = work ++ slice data beg pos.
Proof.
  induction fuel as [|f IH]; intros beg work e w Hb H; simpl in H; [discriminate|].
  destruct (isFenceLine (from data beg) marker) as [[fenceEnd m] s] eqn:Hfl.
  destruct (Z.eqb_spec fenceEnd 0) as [H0|H0]; cbn [negb] in H.
  - destruct (advance_scan (fun j => negb (data.[j] =? nl)) data beg Hb) as (B & _ & St).
    fold (skipUntilChar data beg nl) in B, St.
    set (r := skipUntilChar data beg nl) in *.
    destruct (Z.geb_spec (r + 1) (len data)) as [Hge|Hlt]; [discriminate|].
    apply IH in H; [|lia]. destruct H as (pos & Hp & Hl & Hf & -> & ->).
    exists pos. split; [|split; [exact Hl|split; [exact Hf|split; [reflexivity|]]]].
    + right. specialize (St ltac:(lia)). apply negb_false_iff, Z.eqb_eq in St.
      destruct Hp as [-> | (Hp & E)].
      * replace (r + 1 - 1) with r by lia. split; [lia | exact St].
      * split; [lia | exact E].
    + rewrite <- app_assoc. f_equal. apply slice_app3; [lia|].
      destruct Hp as [-> | (Hp & _)]; lia.
  - injection H as <- <-. exists beg. rewrite Hfl. cbn [fst].
    split; [now left|]. split.
    + destruct (Z_le_gt_dec beg (len data)); [assumption|]. exfalso.
      rewrite from_all, isFenceLine_nil in Hfl by lia. congruence.
    + split; [exact H0|]. split; [reflexivity|]. now rewrite slice_empty, app_nil_r.
Qed.

Lemma IndexByte_first a b c : ~ In c a -> IndexByte (a ++ c :: b) c = len a.
Proof.
  intro Ha. unfold IndexByte. pose proof (len_nonneg a). pose proof (len_nonneg b).
  assert (L : len (a ++ c :: b) = len a + (len b + 1))
    by (rewrite len_app, len_cons; reflexivity).
  assert (E : skipUntilChar (a ++ c :: b) 0 c = len a).
  { unfold skipUntilChar. apply advance_eq; try lia.
    - unfold len. rewrite length_app. simpl. lia.
    - intros j Hj. replace (j <? len (a ++ c :: b)) with true
        by (symmetry; apply Z.ltb_lt; lia). cbn [andb].
      apply negb_true_iff, Z.eqb_neq. intro E. apply Ha.
      rewrite at_app_l in E by lia. rewrite <- E. unfold at_. apply nth_In.
      unfold len in Hj. lia.
    - rewrite at_app_r, Z.sub_diag by lia. change ((c :: b).[0]) with c.
      rewrite Z.eqb_refl. now rewrite andb_false_r. }
  rewrite E. replace (len a <? len (a ++ c :: b)) with true
    by (symmetry; apply Z.ltb_lt; lia). reflexivity.
Qed.

Lemma IndexByte_none data c : ~ In c data -> IndexByte data c = -1.
Proof.
  intro Hn. unfold IndexByte.
  destruct (advance_scan (fun j => negb (data.[j] =? c)) data 0 ltac:(lia)) as (B & _ & St).
  fold (skipUntilChar data 0 c) in B, St.
  destruct (Z.ltb_spec (skipUntilChar data 0 c) (len data)) as [Hlt|]; [|reflexivity].
  exfalso. specialize (St Hlt). apply negb_false_iff, Z.eqb_eq in St.
  apply Hn. rewrite <- St. unfold at_. apply nth_In. unfold len in *. lia.
Qed.

Lemma IndexByte_nonneg data c : -1 <= IndexByte data c.
Proof.
  unfold IndexByte. pose proof (skipUntilChar_ge data 0 c).
  destruct (_ <? _); lia.
Qed.

Lemma trim_nl_none (a : bytes) :
  ~ In nl a ->
  slice a (advance (length a) (fun i => (i <? len a) && (a.[i] =? nl)) 0)
          (retreat (length a) (fun i => (0 <? i) && (a.[i - 1] =? nl)) (len a)) = a.
Proof.
  intro Ha. pose proof (len_nonneg a) as Hn.
  assert (N : forall j, 0 <= j < len a -> (a.[j] =? nl) = false).
  { intros j Hj. apply Z.eqb_neq. intro E. apply Ha. rewrite <- E.
    unfold at_. apply nth_In. unfold len in Hj. lia. }
  assert (E1 : advance (length a) (fun i => (i <? len a) && (a.[i] =? nl)) 0 = 0).
  { destruct (length a) eqn:El; [reflexivity|]. cbn [advance].
    destruct (Z.ltb_spec 0 (len a)); [|reflexivity]. now rewrite N by lia. }
  assert (E2 : retreat (length a) (fun i => (0 <? i) && (a.[i - 1] =? nl)) (len a) = len a).
  { destruct (length a) eqn:El; [reflexivity|]. cbn [retreat].
    destruct (Z.ltb_spec 0 (len a)); [|reflexivity]. now rewrite N by lia. }
  rewrite E1, E2. unfold slice. rewrite from_0, Z.sub_0_r.
  unfold upto. apply firstn_all2. unfold len. lia.
Qed.

Section CodeBlocks.
Variable C : Collaborators.

Lemma finalizeCodeBlock_fenced code x a b :
  node_data code = CodeBlock true x -> node_content code = a ++ nl :: b -> ~ In nl a ->
  finalizeCodeBlock C code =
  Ok (with_content [] (with_literal b (with_data (CodeBlock true (unescapeString C a)) code))).
Proof.
  intros Hd Hc Ha. unfold finalizeCodeBlock. rewrite Hd, Hc.
  rewrite IndexByte_first by assumption. pose proof (len_nonneg a).
  replace (len a <? 0) with false by (symmetry; apply Z.ltb_ge; lia).
  rewrite upto_app_l.
  replace (from (a ++ nl :: b) (len a + 1)) with b.
  2: { change (a ++ nl :: b) with (a ++ [nl] ++ b). rewrite app_assoc.
       replace (len a + 1) with (len (a ++ [nl])) by (rewrite len_app; reflexivity).
       now rewrite from_app. }
  now rewrite trim_nl_none.
Qed.

(** X17: [finalizeCodeBlock] splits the content of a fenced code block at
    its first newline: what precedes it, unescaped, becomes the info
    string, what follows it the literal, and the content is cleared.  It
    slices at the result of [bytes.IndexByte] unchecked, so on a fenced
    block whose content holds no newline it panics.  The content of an
    indented code block becomes its literal as it is. *)
Theorem finalizeCodeBlock_spec (code : Node) (x : bytes) :
  (node_data code = CodeBlock true x ->
   (finalizeCodeBlock C code = Panic <-> ~ In nl (node_content code)) /\
   (forall a b, node_content code = a ++ nl :: b -> ~ In nl a ->
      finalizeCodeBlock C code =
      Ok (with_content []
            (with_literal b (with_data (CodeBlock true (unescapeString C a)) code))))) /\
  (node_data code = CodeBlock false x ->
   finalizeCodeBlock C code = Ok (with_content [] (with_literal (node_content code) code))).
Proof.
  split.
  - intro Hd. split; [|intros a b; now apply (finalizeCodeBlock_fenced code x)].
    split.
    + intros H Hin.
      assert (exists a b, node_content code = a ++ nl :: b /\ ~ In nl a) as (a & b & E & Ha).
      { clear H. induction (node_content code) as [|y l IH]; [destruct Hin|].
        destruct (Z.eq_dec y nl) as [->|Hy].
        - exists [], l. split; [reflexivity | intros []].
        - destruct Hin as [E|Hin]; [congruence|].
          destruct (IH Hin) as (a & b & -> & Ha). exists (y :: a), b.
          split; [reflexivity|]. intros [E|E]; [congruence | contradiction]. }
      rewrite (finalizeCodeBlock_fenced code x a b Hd E Ha) in H. discriminate H.
    + intro H. unfold finalizeCodeBlock. rewrite Hd, (IndexByte_none _ _ H). reflexivity.
  - intro Hd. unfold finalizeCodeBlock. now rewrite Hd.
Qed.


(** X19: the literal of a fenced code block, seen from main.go.  [Format]
    passes the literal of a code block that has an info string to
    [SpecialTrim].  On the literal that [fencedCodeBlock] and
    [finalizeCodeBlock] produce, [SpecialTrim] panics exactly when the
    closing fence follows the opening line at once, so that the block has
    no line of text; otherwise it returns the literal without its last
    newline. *)
Theorem fenced_literal_SpecialTrim (data : bytes) (e : Z) (w : bytes) (node : Node) :
  fencedCodeBlock_scan data = Some (e, w) ->
  finalizeCodeBlock C (with_content w (new_node (CodeBlock true []))) = Ok node ->
  (SpecialTrim (node_literal node) = Panic <-> node_literal node = []) /\
  (node_literal node = [] <->
   fst (fst (isFenceLine (from data (fst (fst (isFenceLine data []))))
               (snd (fst (isFenceLine data []))))) <> 0) /\
  (node_literal node <> [] ->
   exists b, node_literal node = b ++ [nl] /\ SpecialTrim (node_literal node) = Ok b).
Proof.
  intros Hs Hf.
  pose proof Hs as Hw. unfold fencedCodeBlock_scan in Hw.
  destruct (isFenceLine data []) as [[beg marker] syn] eqn:Hfl.
  destruct (Z.eqb_spec beg 0) as [H0|H0]; cbn [orb] in Hw; [discriminate|].
  destruct (Z.geb_spec beg (len data)) as [Hge|Hlt]; [discriminate|].
  destruct (isFenceLine_result _ _ _ _ _ Hfl H0) as ([Hb | (Hb & _)] & _); [lia|].
  pose proof Hw as Hw2. apply fence_scan_work in Hw2; [|lia].
  destruct Hw2 as (pos & Hp & Hl & Hfe & -> & ->).
  assert (Hi : ~ In nl match syn with Some s => s | None => [] end).
  { destruct syn as [s|]; [|intros []]. eapply isFenceLine_syntax; eauto. }
  rewrite (finalizeCodeBlock_fenced _ [] (match syn with Some s => s | None => [] end)
             (slice data beg pos)) in Hf;
    [|reflexivity|simpl; now rewrite <- app_assoc|exact Hi].
  injection Hf as <-. cbn [node_literal with_content with_literal with_data fst snd].
  assert (Body : slice data beg pos = [] <-> pos = beg).
  { split; [|intros ->; apply slice_empty]. intro E.
    destruct Hp as [-> | (Hp & _)]; [reflexivity|].
    pose proof (len_slice data beg pos ltac:(lia) Hl) as L. rewrite E, len_nil in L. lia. }
  assert (Last : slice data beg pos <> [] ->
                 exists b, slice data beg pos = b ++ [nl]).
  { intro Hne. destruct Hp as [-> | (Hp & E)]; [now rewrite slice_empty in Hne|].
    exists (slice data beg (pos - 1)). replace pos with (pos - 1 + 1) at 1 by lia.
    rewrite slice_snoc by lia. now rewrite E. }
  destruct (backUntilChar_last (slice data beg pos) nl) as (None_ & _ & Last_).
  split; [|split].
  - split.
    + intro H. destruct (slice data beg pos) as [|y l] eqn:E; [reflexivity|]. exfalso.
      destruct (Last ltac:(discriminate)) as (b & Eb).
      unfold SpecialTrim, LastIndexByte in H.
      rewrite (Last_ b [] Eb (fun X => X)) in H. pose proof (len_nonneg b).
      destruct (Z.ltb_spec (len b + 1 - 1) 0); [lia | discriminate H].
    + intros ->. reflexivity.
  - rewrite Body. split.
    + intros ->. exact Hfe.
    + intro Hne. destruct Hp as [-> | (Hp & _)]; [reflexivity|]. exfalso.
      (* the scan stops at the first closing fence *)
      unfold fence_scan in Hw. destruct (length data) as [|f] eqn:El;
        [unfold len in Hlt; lia|]. fold fence_scan in Hw.
      destruct (isFenceLine (from data beg) marker) as [[fe m] s] eqn:E1.
      cbn [fst] in Hne.
      replace (negb (fe =? 0)) with true in Hw
        by (symmetry; apply negb_true_iff, Z.eqb_neq; exact Hne).
      injection Hw as _ Hw. rewrite <- (app_nil_r (_ ++ [nl])) in Hw at 1.
      apply app_inv_head in Hw. symmetry in Hw. apply Body in Hw. lia.
  - intro Hne. destruct (Last Hne) as (b & Eb). exists b. split; [exact Eb|].
    unfold SpecialTrim, LastIndexByte.
    rewrite (Last_ b [] Eb (fun X => X)). pose proof (len_nonneg b).
    replace (len b + 1 - 1 <? 0) with false by (symmetry; apply Z.ltb_ge; lia).
    f_equal. replace (len b + 1 - 1) with (len b) by lia.
    rewrite Eb. apply upto_app_l.
Qed.

End CodeBlocks.

Lemma finalizeCodeBlock_spec_witness :
  finalizeCodeBlock plain (with_content (bs "go") (new_node (CodeBlock true []))) = Panic /\
  finalizeCodeBlock plain (with_content (bs "go\nx\n") (new_node (CodeBlock true [])))
  = Ok (with_literal (bs "x\n") (new_node (CodeBlock true (bs "go")))).
Proof.
  destruct (finalizeCodeBlock_spec plain
              (with_content (bs "go") (new_node (CodeBlock true []))) [])
    as (A & _).
  destruct (finalizeCodeBlock_spec plain
              (with_content (bs "go\nx\n") (new_node (CodeBlock true []))) [])
    as (B & _).
  split.
  - apply (A eq_refl). vm_compute. intuition discriminate.
  - destruct (B eq_refl) as (_ & B'). rewrite (B' (bs "go") (bs "x\n")).
    + reflexivity.
    + reflexivity.
    + vm_compute. intuition discriminate.
Defined.


Lemma fenced_literal_SpecialTrim_witness :
  SpecialTrim [] = Panic /\
  fencedCodeBlock_scan (bs "```go\n```\n") = Some (10, bs "go\n").
Proof.
  destruct (fenced_literal_SpecialTrim plain (bs "```go\n```\n") 10 (bs "go\n")
              (with_literal [] (new_node (CodeBlock true (bs "go"))))
              ltac:(vm_compute; reflexivity) ltac:(vm_compute; reflexivity))
    as (A & _).
  split; [apply A; reflexivity | vm_compute; reflexivity].
Defined.

(** ** The paragraph that [renderParagraph] adds *)


Section Paragraphs.
Variable C : Collaborators.


End Paragraphs.


(** ** Prefix headings *)

Lemma retreat_le cond : forall fuel i, retreat fuel cond i <= i.
Proof.
  induction fuel as [|f IH]; intro i; simpl; [lia|].
  destruct (cond i); [specialize (IH (i - 1))|]; lia.
Qed.

Lemma backChar_le data i c : backChar data i c <= i.
Proof. unfold backChar. apply retreat_le. Qed.

Ltac le_chain :=
  cbv zeta;
  repeat first [ lia
               | eapply Z.le_trans; [apply backChar_le|]
               | eapply Z.le_trans; [apply retreat_le|] ].

(** Where [heading_extent] puts the end of the text and of the heading. *)
Lemma heading_extent_bounds C ext data i id e skip :
  heading_extent C ext data i = (id, e, skip) ->
  i <= skip <= skipUntilChar data i nl /\ e <= skipUntilChar data i nl /\
  (has ext HeadingIDs = false -> skip = skipUntilChar data i nl /\ id = []).
Proof.
  unfold heading_extent. intro H.
  pose proof (skipUntilChar_ge data i nl) as S1.
  set (eol := skipUntilChar data i nl) in *.
  destruct (has ext HeadingIDs).
  - set (j := advance _ _ i) in *.
    set (k := advance _ _ (j + 1)) in *.
    assert (Hj : i <= j) by apply advance_bounds.
    assert (Hk : j + 1 <= k) by apply advance_bounds.
    destruct (Z.ltb_spec j eol) as [Hje|Hje]; cbn [andb] in H.
    + destruct (Z.ltb_spec k eol) as [Hke|Hke]; injection H as _ <- <-;
        (split; [lia|]; split; [le_chain | discriminate]).
    + injection H as _ <- <-. split; [lia|]. split; [le_chain | discriminate].
  - injection H as <- <- <-. split; [lia|]. split; [le_chain | auto].
Qed.

Lemma retreat_barrier cond lo : forall fuel i,
  lo <= i -> cond lo = false -> lo <= retreat fuel cond i.
Proof.
  induction fuel as [|f IH]; intros i Hi Hlo; simpl; [lia|].
  destruct (cond i) eqn:E; [|lia].
  apply IH; [|assumption].
  destruct (Z.eq_dec i lo) as [->|]; [congruence | lia].
Qed.

(** The text of a heading, the id behind it and the end of what is taken:
    what [heading_extent] returns, on the bytes. *)
Lemma heading_extent_spec C ext data i id e skip :
  0 <= i ->
  heading_extent C ext data i = (id, e, skip) ->
  let eol := skipUntilChar data i nl in
  e <= skip /\ (0 < e -> data.[e - 1] <> sp) /\
  (has ext HeadingIDs = true ->
   forall j k, i <= j -> j < k < eol ->
     data.[j] = c_lbrace -> data.[j + 1] = c_hash -> data.[k] = c_rbrace ->
     (forall x, i <= x < j -> data.[x] <> c_lbrace \/ data.[x + 1] <> c_hash) ->
     (forall x, j < x < k -> data.[x] <> c_rbrace) ->
     skip = k + 1 /\ id = slice data (j + 2) k /\ e <= j) /\
  (has ext HeadingIDs = true ->
   (forall j k, i <= j -> j < k < eol ->
      data.[j] = c_lbrace -> data.[j + 1] = c_hash -> data.[k] <> c_rbrace) ->
   skip = eol /\ id = []) /\
  (i < len data -> data.[i] <> c_hash -> data.[i] <> c_lbrace ->
   data.[i] <> nl -> data.[i] <> sp -> i < e).
Proof.
  intros Hi H eol. unfold heading_extent in H. fold eol in H.
  pose proof (len_nonneg data) as Hn.
  assert (Heol : i <= eol <= Z.max i (len data)).
  { destruct (advance_scan (fun j => negb (data.[j] =? nl)) data i Hi) as (B & _).
    exact B. }
  assert (Hnl : i < len data -> data.[i] <> nl -> i < eol).
  { intros Hl Hd.
    destruct (advance_scan (fun j => negb (data.[j] =? nl)) data i Hi) as (B & _ & St).
    fold (skipUntilChar data i nl) in B, St. fold eol in B, St.
    destruct (Z.eq_dec eol i) as [E|]; [|lia]. exfalso.
    rewrite E in St. specialize (St Hl).
    apply negb_false_iff, Z.eqb_eq in St. contradiction. }
  set (cj := fun j => (j <? eol - 1)
                      && (negb (data.[j] =? c_lbrace) || negb (data.[j + 1] =? c_hash))) in *.
  set (j0 := advance (length data) cj i) in *.
  set (ck := fun k => (k <? eol) && negb (data.[k] =? c_rbrace)) in *.
  set (k0 := advance (length data) ck (j0 + 1)) in *.
  assert (Bj : i <= j0) by apply advance_bounds.
  assert (Bk : j0 + 1 <= k0) by apply advance_bounds.
  assert (Sj : cj j0 = false).
  { apply advance_stop_bounded with (n := eol - 1).
    - intros j Hj. unfold cj in Hj. apply andb_prop in Hj. destruct Hj as (Hj & _). lia.
    - unfold len in *. lia. }
  assert (Sk : k0 < eol -> data.[k0] = c_rbrace).
  { intro Hk.
    assert (X : ck k0 = false).
    { apply advance_stop_bounded with (n := eol).
      - intros k Hk'. unfold ck in Hk'. apply andb_prop in Hk'. destruct Hk' as (Hk' & _). lia.
      - unfold len in *. lia. }
    unfold ck in X. replace (k0 <? eol) with true in X by (symmetry; apply Z.ltb_lt; lia).
    cbn [andb] in X. now apply negb_false_iff, Z.eqb_eq in X. }
  assert (Mj : j0 < eol - 1 -> data.[j0] = c_lbrace /\ data.[j0 + 1] = c_hash).
  { intro Hj. unfold cj in Sj.
    replace (j0 <? eol - 1) with true in Sj by (symmetry; apply Z.ltb_lt; lia).
    cbn [andb] in Sj. apply orb_false_elim in Sj. destruct Sj as (S1 & S2).
    apply negb_false_iff, Z.eqb_eq in S1, S2. auto. }
  (* the two trimming loops at the end *)
  assert (Trim : forall e0, 0 <= e0 ->
    let e1 := retreat (Z.to_nat e0)
                (fun e => (0 <? e) && (data.[e - 1] =? c_hash)
                          && negb (isBackslashEscaped C data (e - 1))) e0 in
    let e2 := backChar data e1 sp in
    e2 <= e0 /\ (0 < e2 -> data.[e2 - 1] <> sp) /\
    (i < e0 -> data.[i] <> c_hash -> data.[i] <> sp -> i < e2)).
  { intros e0 He0 e1 e2.
    assert (L1 : e1 <= e0) by apply retreat_le.
    assert (G1 : 0 <= e1).
    { apply retreat_barrier; [lia | reflexivity]. }
    destruct (retreat_scan (fun j => data.[j - 1] =? sp) (Z.to_nat e1) e1 ltac:(lia))
      as (B & _ & St).
    fold (backChar data e1 sp) in B, St. fold e2 in B, St.
    split; [lia|]. split.
    - intro Hp. specialize (St Hp). now apply Z.eqb_neq in St.
    - intros Hie Hh Hs.
      assert (X1 : i + 1 <= e1).
      { apply retreat_barrier; [lia|].
        replace (i + 1 - 1) with i by lia. apply Z.eqb_neq in Hh. rewrite Hh.
        now rewrite andb_false_r. }
      assert (X2 : i + 1 <= e2).
      { apply retreat_barrier; [lia|].
        replace (i + 1 - 1) with i by lia. apply Z.eqb_neq in Hs. rewrite Hs.
        now rewrite andb_false_r. }
      lia. }
  destruct (has ext HeadingIDs) eqn:Hx.
  - destruct (Z.ltb_spec j0 eol) as [Hje|Hje]; cbn [andb] in H.
    + destruct (Z.ltb_spec k0 eol) as [Hke|Hke].
      * (* an id was found *)
        injection H as <- <- <-.
        destruct (Mj ltac:(lia)) as (Dj & Dj1). pose proof (Sk Hke) as Dk.
        assert (Gb : 0 <= backChar data j0 sp).
        { apply retreat_barrier; [lia | reflexivity]. }
        assert (Lb : backChar data j0 sp <= j0) by apply backChar_le.
        destruct (Trim (backChar data j0 sp) Gb) as (T1 & T2 & _).
        split; [lia|]. split; [exact T2|]. split; [|split].
        -- intros _ j k Hij Hjk Ej Ej1 Ek Fj Fk.
           assert (J : j0 = j).
           { destruct (Z_lt_ge_dec j0 j) as [Hlt|Hge].
             - destruct (Fj j0 ltac:(lia)); congruence.
             - destruct (Z.eq_dec j0 j) as [|Hne]; [assumption|]. exfalso.
               pose proof (advance_true cj (length data) i j ltac:(lia)) as X.
               unfold cj in X. apply andb_prop in X. destruct X as (_ & X).
               rewrite Ej, Ej1, !Z.eqb_refl in X. discriminate X. }
           subst j.
           assert (K : k0 = k).
           { destruct (Z_lt_ge_dec k0 k) as [Hlt|Hge].
             - destruct (Z.eq_dec k0 (j0 + 1)) as [E1|].
               + rewrite E1 in Dk. rewrite Dk in Dj1. discriminate.
               + exfalso. apply (Fk k0); [lia | exact Dk].
             - destruct (Z.eq_dec k0 k) as [|Hne]; [assumption|]. exfalso.
               pose proof (advance_true ck (length data) (j0 + 1) k ltac:(lia)) as X.
               unfold ck in X. apply andb_prop in X. destruct X as (_ & X).
               rewrite Ek, Z.eqb_refl in X. discriminate X. }
           subst k. split; [reflexivity|]. split; [reflexivity | lia].
        -- intros _ No. exfalso. apply (No j0 k0); auto; lia.
        -- intros Hl Hh Hb Hd Hs.
           assert (Hj0 : i < j0) by (destruct (Z.eq_dec j0 i); [congruence | lia]).
           assert (X : i + 1 <= backChar data j0 sp).
           { apply retreat_barrier; [lia|].
             replace (i + 1 - 1) with i by lia. apply Z.eqb_neq in Hs. rewrite Hs.
             now rewrite andb_false_r. }
           destruct (Trim (backChar data j0 sp) Gb) as (_ & _ & T3).
           apply T3; auto; lia.
      * injection H as <- <- <-.
        destruct (Trim eol ltac:(lia)) as (T1 & T2 & T3).
        split; [lia|]. split; [exact T2|]. split; [|split].
        -- intros _ j k Hij Hjk Ej Ej1 Ek Fj Fk. exfalso.
           assert (J : j0 = j).
           { destruct (Z_lt_ge_dec j0 j) as [Hlt|Hge].
             - destruct (Mj ltac:(lia)) as (Dj & Dj1).
               destruct (Fj j0 ltac:(lia)); congruence.
             - destruct (Z.eq_dec j0 j) as [|Hne]; [assumption|]. exfalso.
               pose proof (advance_true cj (length data) i j ltac:(lia)) as X.
               unfold cj in X. apply andb_prop in X. destruct X as (_ & X).
               rewrite Ej, Ej1, !Z.eqb_refl in X. discriminate X. }
           subst j.
           pose proof (advance_true ck (length data) (j0 + 1) k ltac:(lia)) as X.
           unfold ck in X. apply andb_prop in X. destruct X as (_ & X).
           rewrite Ek, Z.eqb_refl in X. discriminate X.
        -- auto.
        -- intros Hl Hh Hb Hd Hs. apply T3; auto.
    + injection H as <- <- <-.
      destruct (Trim eol ltac:(lia)) as (T1 & T2 & T3).
      split; [lia|]. split; [exact T2|]. split; [|split].
      * intros _ j k Hij Hjk Ej Ej1 Ek Fj Fk. exfalso.
        pose proof (advance_true cj (length data) i j ltac:(lia)) as X.
        unfold cj in X. apply andb_prop in X. destruct X as (_ & X).
        rewrite Ej, Ej1, !Z.eqb_refl in X. discriminate X.
      * auto.
      * intros Hl Hh Hb Hd Hs. apply T3; auto.
  - injection H as <- <- <-.
    destruct (Trim eol ltac:(lia)) as (T1 & T2 & T3).
    split; [lia|]. split; [exact T2|]. split; [discriminate|]. split; [discriminate|].
    intros Hl Hh Hb Hd Hs. apply T3; auto.
Qed.

(** X21: what [prefixHeading] consumes and adds.  The level is the number
    of leading [#], six at most.  The call consumes the heading line up
    to its newline, which it leaves in the buffer; with the HeadingIDs
    extension and a ["{#"] followed by a ['}'] on the line it stops right
    after that closing brace, and the id is the text between them.  The
    heading text runs from the first byte behind the hashes and spaces to
    an end [e] before the id and the trailing hashes and spaces.  When
    that text is empty nothing is added and the state is unchanged;
    otherwise exactly one [Heading] of that level with that text as
    content goes through [AddBlock], and this is so whenever the text
    begins with a byte other than ['#'], ['{'] and a newline. *)
Theorem prefixHeading_spec (C : Collaborators) (p p' : Parser) (data : bytes) (n : Z) :
  prefixHeading C p data = Ok (n, p') ->
  let level := skipCharN data 0 c_hash 6 in
  let i := skipChar data level sp in
  let eol := skipUntilChar data i nl in
  let ids := has (extensions p) HeadingIDs in
  0 <= level <= 6 /\ i <= n <= eol /\
  (forall j, i <= j < n -> data.[j] <> nl) /\
  (ids = false -> n = eol) /\
  (ids = true -> forall j k, heading_id_at data i eol j k -> n = k + 1) /\
  (ids = true -> no_heading_id data i eol -> n = eol) /\
  (eol = i -> p' = p) /\
  exists id e,
    e <= n /\
    (i < e -> data.[i] <> sp /\ data.[e - 1] <> sp) /\
    (ids = false -> id = []) /\
    (ids = true -> no_heading_id data i eol -> id = []) /\
    (ids = true -> forall j k, heading_id_at data i eol j k ->
                   id = slice data (j + 2) k /\ e <= j) /\
    (i < len data -> data.[i] <> c_hash -> data.[i] <> c_lbrace ->
     data.[i] <> nl -> i < e) /\
    (e <= i -> p' = p) /\
    (i < e ->
     let auto := (len id =? 0) && has (extensions p) AutoHeadingIDs in
     let hid := if auto then autoHeadingID C (slice data i e) else id in
     exists nid q,
       AddBlock C p (with_content (slice data i e)
                       (new_node (Heading hid level false false))) = Ok (nid, q) /\
       p' = if auto
            then set_allHeadingsWithAutoID q (allHeadingsWithAutoID q ++ [nid])
            else q).
Proof.
  intros H level i eol ids. unfold prefixHeading in H. fold level i in H.
  destruct (skipCharN_scan data 0 c_hash 6 ltac:(lia)) as (_ & L).
  specialize (L ltac:(lia)). cbv zeta in L. fold level in L.
  assert (Hi : 0 <= i) by (pose proof (skipChar_ge data level sp); unfold i; lia).
  destruct (advance_scan (fun j => data.[j] =? sp) data level ltac:(lia)) as (Bi & _ & Si).
  fold (skipChar data level sp) in Bi, Si. fold i in Bi, Si.
  destruct (advance_scan (fun j => negb (data.[j] =? nl)) data i Hi) as (Be & T & _).
  fold (skipUntilChar data i nl) in Be, T. fold eol in Be, T.
  destruct (heading_extent C (extensions p) data i) as [[id e] skip] eqn:E.
  pose proof (heading_extent_bounds _ _ _ _ _ _ _ E) as (B1 & _ & B3). fold eol in B1, B3.
  apply heading_extent_spec in E; [|exact Hi]. cbv zeta in E. fold eol in E.
  destruct E as (E1 & E2 & E3 & E4 & E5).
  apply bind_Ok in H. destruct H as (q & A & H). injection H as <- <-.
  assert (Hsp : i < len data -> data.[i] <> sp).
  { intros Hl. specialize (Si Hl). now apply Z.eqb_neq in Si. }
  assert (Hno : e <= i -> q = p).
  { intro He. unfold addHeading in A.
    destruct (Z.gtb_spec e i); [lia|]. now injection A as <-. }
  split; [lia|]. split; [lia|]. split.
  { intros j Hj. specialize (T j ltac:(lia)). now apply negb_true_iff, Z.eqb_neq in T. }
  split; [intro X; now apply B3|].
  split; [intros X j k (F1 & F2 & F3 & F4 & F5 & F6 & F7);
          now destruct (E3 X j k F1 F2 F3 F4 F5 F6 F7)|].
  split; [intros X No; now destruct (E4 X No)|].
  split; [intro X; apply Hno; lia|].
  exists id, e. split; [lia|]. split.
  { intro He. split; [apply Hsp; lia | apply E2; lia]. }
  split; [intro X; now apply B3|].
  split; [intros X No; now destruct (E4 X No)|].
  split; [intros X j k (F1 & F2 & F3 & F4 & F5 & F6 & F7);
          destruct (E3 X j k F1 F2 F3 F4 F5 F6 F7) as (_ & ? & ?); auto|].
  split; [intros Hl Hh Hb Hd; apply E5; auto|].
  split; [exact Hno|].
  intros He auto hid. unfold addHeading in A.
  destruct (Z.gtb_spec e i); [|lia]. fold auto in A. cbv zeta in A. fold hid in A.
  apply bind_Ok in A. destruct A as ([nid q1] & A & A').
  exists nid, q1. split; [exact A|]. now injection A' as <-.
Qed.

Lemma prefixHeading_spec_witness :
  exists id e,
    e <= 14 /\
    (has 8192 HeadingIDs = true ->
     heading_id_at (bs "## Title {#t1} x" ++ nl :: bs "rest") 3 16 9 13 ->
     id = bs "t1" /\ e <= 9) /\
    (3 < e ->
     exists nid q,
       AddBlock plain (newParser 8192 16)
         (with_content (slice (bs "## Title {#t1} x" ++ nl :: bs "rest") 3 e)
            (new_node (Heading id 2 false false))) = Ok (nid, q)).
Proof.
  pose proof (prefixHeading_spec plain (newParser 8192 16)
                (snd (returned (prefixHeading plain (newParser 8192 16)
                                  (bs "## Title {#t1} x" ++ nl :: bs "rest"))
                        (0, newParser 8192 16)))
                (bs "## Title {#t1} x" ++ nl :: bs "rest") 14
                ltac:(vm_compute; reflexivity)) as H.
  cbv zeta in H. destruct H as (_ & _ & _ & _ & _ & _ & _ & id & e & H).
  destruct H as (H1 & _ & _ & _ & H5 & _ & _ & H8).
  exists id, e. split; [exact H1|]. split.
  - intros X F. exact (H5 X 9 13 F).
  - intro He. destruct (H8 He) as (nid & q & A & _).
    exists nid, q.
    assert (F : heading_id_at (bs "## Title {#t1} x" ++ nl :: bs "rest") 3 16 9 13).
    { unfold heading_id_at.
      repeat split; try lia; try (vm_compute; reflexivity); intros x Hx.
      - assert (Cx : x = 3 \/ x = 4 \/ x = 5 \/ x = 6 \/ x = 7 \/ x = 8) by lia.
        destruct Cx as [-> | [-> | [-> | [-> | [-> | ->]]]]]; left; vm_compute; discriminate.
      - assert (Cx : x = 10 \/ x = 11 \/ x = 12) by lia.
        destruct Cx as [-> | [-> | ->]]; vm_compute; discriminate. }
    destruct (H5 eq_refl 9 13 F) as (E & _). rewrite E in A |- *. exact A.
Defined.

(** ** The recognizers stay within the buffer *)

Lemma skipCharN_le data i c m :
  0 <= i <= len data -> 0 <= m -> i <= skipCharN data i c m <= len data.
Proof.
  intros Hi Hm. destruct (skipCharN_scan data i c m ltac:(lia)) as (_ & H).
  specialize (H Hm). cbv zeta in H. lia.
Qed.

Lemma skipUntilChar_le data i c :
  0 <= i <= len data -> i <= skipUntilChar data i c <= len data.
Proof.
  intro Hi.
  destruct (advance_scan (fun j => negb (data.[j] =? c)) data i ltac:(lia)) as (B & _).
  fold (skipUntilChar data i c) in B. lia.
Qed.

Lemma skipChar_le data i c : 0 <= i <= len data -> i <= skipChar data i c <= len data.
Proof.
  intro Hi.
  destruct (advance_scan (fun j => data.[j] =? c) data i ltac:(lia)) as (B & _).
  fold (skipChar data i c) in B. lia.
Qed.

Lemma fencedCodeBlock_norender_le data :
  0 <= fencedCodeBlock_norender data <= len data.
Proof.
  pose proof (len_nonneg data) as Hn.
  unfold fencedCodeBlock_norender.
  destruct (fencedCodeBlock_scan data) as [[e w]|] eqn:E; [|lia].
  unfold fencedCodeBlock_scan in E.
  destruct (isFenceLine data []) as [[beg marker] syn] eqn:Hfl.
  destruct (Z.eqb_spec beg 0) as [H0|H0]; cbn [orb] in E; [discriminate|].
  destruct (Z.geb_spec beg (len data)) as [Hge|Hlt]; [discriminate|].
  destruct (isFenceLine_result _ _ _ _ _ Hfl H0) as ([Hb | (Hb & _)] & _); [lia|].
  apply fence_scan_work in E; [|lia].
  destruct E as (pos & Hp & Hl & Hf & -> & _).
  destruct (isFenceLine (from data pos) marker) as [[fe m] s] eqn:E2. cbn [fst] in *.
  assert (Hpos : beg <= pos) by (destruct Hp as [-> | (Hp & _)]; lia).
  destruct (isFenceLine_result _ _ _ _ _ E2 Hf) as (R & _).
  rewrite len_from in R by lia. pose proof (len_nonneg (from data pos)). lia.
Qed.

Lemma code_loop_le data : forall fuel i work r w,
  0 <= i <= len data -> code_loop fuel data i work = (r, w) -> 0 <= r <= len data.
Proof.
  induction fuel as [|f IH]; intros i work r w Hi H; simpl in H;
    [injection H as <- _; lia|].
  destruct (i <? len data); [|injection H as <- _; lia].
  pose proof (skipUntilChar_le data i nl Hi) as S1.
  pose proof (skipCharN_le data (skipUntilChar data i nl) nl 1 ltac:(lia) ltac:(lia)) as S2.
  destruct (codePrefix _ >? 0).
  - apply IH in H; lia.
  - destruct (negb _); [injection H as <- _; lia|]. apply IH in H; lia.
Qed.

Lemma quote_line_end_le ext data : forall fuel e,
  0 <= e <= len data -> e <= quote_line_end fuel ext data e <= len data.
Proof.
  induction fuel as [|f IH]; intros e He; simpl; [lia|].
  destruct (Z.ltb_spec e (len data)); cbn [andb]; [|lia].
  destruct (negb _); [|lia].
  destruct (has ext FencedCode && _) eqn:E.
  - apply andb_true_iff in E. destruct E as (_ & E). apply Z.gtb_lt in E.
    pose proof (fencedCodeBlock_norender_le (from data e)) as F.
    rewrite len_from in F by lia. lia.
  - specialize (IH (e + 1) ltac:(lia)). lia.
Qed.

Lemma quote_gather_le ext data : forall fuel beg end_ raw r e,
  0 <= beg <= len data -> 0 <= end_ <= len data ->
  quote_gather fuel ext data beg end_ raw = (r, e) -> 0 <= e <= len data.
Proof.
  induction fuel as [|f IH]; intros beg end_ raw r e Hb He H; simpl in H;
    [injection H as _ <-; lia|].
  destruct (beg <? len data); [|injection H as _ <-; lia].
  destruct (quote_iter ext data beg raw) as [[brk e1] r1] eqn:E.
  assert (He1 : 0 <= e1 <= len data).
  { unfold quote_iter in E.
    pose proof (quote_line_end_le ext data (length data) beg Hb) as Q.
    pose proof (skipCharN_le data (quote_line_end (length data) ext data beg) nl 1
                  ltac:(lia) ltac:(lia)) as S1.
    destruct (_ >? 0); [injection E as _ <- _; lia|].
    destruct (terminateBlockquote _ _ _); injection E as _ <- _; lia. }
  destruct brk.
  - injection H as _ <-. lia.
  - apply IH in H; lia.
Qed.

Lemma gatherlines_le ext d isDef indent : forall fuel g gf,
  gatherlines fuel ext d isDef indent g = Ok gf ->
  g_i g = g_line g -> 0 <= g_line g <= len d -> 0 <= g_line gf <= len d.
Proof.
  induction fuel as [|f IH]; intros g gf H Hi Hl; simpl in H; [discriminate|].
  destruct (Z.ltb_spec (g_line g) (len d)) as [Hlt|Hge]; [|injection H as <-; lia].
  apply bind_Ok in H. destruct H as ([brk g1] & E & H).
  apply gather_step_line in E. destruct E as (_ & E).
  destruct brk.
  - injection H as <-. lia.
  - destruct E as (E1 & E2).
    apply IH in H; [exact H | exact E2|]. rewrite E1.
    destruct (advance_scan (fun i => negb (d.[i - 1] =? nl)) d (g_i g + 1) ltac:(lia))
      as (B & _).
    lia.
Qed.

Lemma uliPrefix_le d : uliPrefix d <= len d.
Proof.
  unfold uliPrefix. pose proof (len_nonneg d).
  destruct (Z.geb_spec (skipCharN d 0 sp 3) (len d - 1)); [lia|].
  destruct (_ || _); lia.
Qed.

Lemma oliPrefix_le d : oliPrefix d <= len d.
Proof.
  unfold oliPrefix. pose proof (len_nonneg d).
  destruct (_ =? _); cbn [orb]; [lia|].
  match goal with |- context [?a >=? len d - 1] => destruct (Z.geb_spec a (len d - 1)) end;
    [lia|].
  destruct (_ || _); lia.
Qed.

Lemma dliPrefix_le d : dliPrefix d <= len d.
Proof.
  unfold dliPrefix. pose proof (len_nonneg d).
  destruct (Z.ltb_spec (len d) 2); [lia|].
  destruct (_ || _) eqn:E; [lia|].
  apply orb_false_elim in E. destruct E as (E1 & _).
  apply negb_false_iff in E1. apply Z.eqb_eq in E1.
  rewrite skipChar_stay by (rewrite E1; discriminate). lia.
Qed.

Lemma listItem_scan_le ext d flags sc :
  listItem_scan ext d flags = Ok (Some sc) -> 0 <= scan_line sc <= len d.
Proof.
  intro H. unfold listItem_scan in H.
  apply bind_Ok in H. destruct H as (d0 & _ & H).
  apply bind_Ok in H. destruct H as (itemIndent & _ & H).
  pose proof (len_nonneg d) as Hn.
  pose proof (uliPrefix_nonneg d) as U. pose proof (oliPrefix_nonneg d) as O.
  pose proof (dliPrefix_nonneg d) as D.
  pose proof (uliPrefix_le d) as UL. pose proof (oliPrefix_le d) as OL.
  pose proof (dliPrefix_le d) as DL.
  assert (G : forall pfx isDef fl g,
             0 <= pfx <= len d ->
             gatherlines (S (length d)) ext d isDef itemIndent
               {| g_i := advance (length d)
                           (fun i => (0 <? i) && (i <? len d) && negb (d.[i - 1] =? nl))
                           (skipChar d pfx sp);
                  g_line := advance (length d)
                           (fun i => (0 <? i) && (i <? len d) && negb (d.[i - 1] =? nl))
                           (skipChar d pfx sp);
                  g_raw := slice d (skipChar d pfx sp)
                             (advance (length d)
                                (fun i => (0 <? i) && (i <? len d)
                                          && negb (d.[i - 1] =? nl))
                                (skipChar d pfx sp));
                  g_containsBlankLine := false; g_sublist := 0; g_flags := fl |} = Ok g ->
             0 <= g_line g <= len d).
  { intros pfx isDef fl g Hp Hg. apply gatherlines_le in Hg; [exact Hg | reflexivity|].
    cbn [g_line]. pose proof (skipChar_le d pfx sp Hp) as Sk.
    set (cond := fun i => (0 <? i) && (i <? len d) && negb (d.[i - 1] =? nl)).
    pose proof (advance_bounds cond (length d) (skipChar d pfx sp)) as B.
    split; [lia|].
    destruct (Z.eq_dec (advance (length d) cond (skipChar d pfx sp)) (skipChar d pfx sp))
      as [->|Hne]; [lia|].
    pose proof (advance_true cond (length d) (skipChar d pfx sp)
                  (advance (length d) cond (skipChar d pfx sp) - 1) ltac:(lia)) as T.
    unfold cond in T at 1. apply andb_prop in T. destruct T as (T & _).
    apply andb_prop in T. lia. }
  destruct (uliPrefix d =? 0) eqn:Eu;
    [destruct (oliPrefix d >? 0) eqn:Eo|];
    cbv beta iota zeta in H;
    repeat match type of H with
           | context [if ?c then _ else _] =>
               match c with
               | context [dliPrefix] => destruct c eqn:?
               | context [Z.eqb] => destruct c eqn:?
               | context [negb] => destruct c eqn:?
               end; cbv beta iota zeta in H
           end;
    try discriminate;
    apply bind_Ok in H; destruct H as (g & Hg & H); injection H as <-;
    cbn [scan_line]; apply G in Hg; (exact Hg || lia).
Qed.

Section Within.
Variable C : Collaborators.
Variable blk : bytes -> Parser -> res Parser.

Lemma list_loop_le lst data : forall fuel p i flags i' p',
  0 <= i <= len data ->
  list_loop C blk fuel p lst data i flags = Ok (i', p') ->
  0 <= i' <= len data /\
  ((i = 0 \/ i = len data \/ data.[i - 1] = nl) ->
   i' = 0 \/ i' = len data \/ data.[i' - 1] = nl).
Proof.
  induction fuel as [|f IH]; intros p i flags i' p' Hi H; simpl in H; [discriminate|].
  destruct (Z.ltb_spec i (len data)) as [Hlt|Hge].
  2: { injection H as <- _. split; [lia|]. intros _. right. left. lia. }
  apply bind_Ok in H. destruct H as ([[skip fl] p1] & E & H).
  apply listItem_scanned in E.
  assert (Hs : 0 <= skip <= len data - i /\
               (skip = 0 \/ i + skip = len data \/ data.[i + skip - 1] = nl)).
  { destruct E as [(_ & -> & _) | (sc & E & -> & _)]; [lia|].
    pose proof (listItem_scan_le _ _ _ _ E) as B. rewrite len_from in B by lia.
    split; [lia|].
    apply listItem_scan_line in E. destruct E as (_ & _ & L).
    destruct (Z_lt_dec (scan_line sc) (len (from data i))) as [Hl|Hl].
    - specialize (L Hl). unfold line_start in L.
      destruct (Z.eqb_spec (scan_line sc) 0); [now left|]. right. right.
      cbn [orb] in L. apply Z.eqb_eq in L. rewrite at_from in L by lia.
      rewrite <- L. f_equal. lia.
    - rewrite len_from in Hl by lia. right. left. lia. }
  destruct Hs as (Hs1 & Hs2).
  destruct ((skip =? 0) || has fl ListItemEndOfList).
  - injection H as <- _. split; [lia|]. intros Hstart.
    destruct Hs2 as [-> | [Hs2 | Hs2]].
    + rewrite Z.add_0_r. exact Hstart.
    + auto.
    + auto.
  - apply IH in H; [|lia]. destruct H as (H1 & H2). split; [exact H1|].
    intros Hstart. apply H2.
    destruct Hs2 as [-> | [Hs2 | Hs2]].
    + rewrite Z.add_0_r. exact Hstart.
    + auto.
    + auto.
Qed.

End Within.

Section WithinBuffer.
Variable C : Collaborators.
Variable blk : bytes -> Parser -> res Parser.

(** X22: the count a recognizer returns is a valid bound for the slice
    [data[n:]] that [Block] takes next, so that slice cannot panic.  This
    holds for the blank-line test, both prefix headings, the indented and
    the fenced code block, the block quote and block math (fenced code and
    quote without the Mmark captions, whose length comes from a function
    that is not among the sources). *)
Theorem recognizers_within_buffer (p : Parser) (data : bytes) :
  0 <= IsEmpty data <= len data /\
  (forall n p', prefixHeading C p data = Ok (n, p') -> 0 <= n <= len data) /\
  (forall n p', 2 <= len data ->
                prefixSpecialHeading C p data = Ok (n, p') -> 0 <= n <= len data) /\
  (forall n p', code C p data = Ok (n, p') -> 0 <= n <= len data) /\
  (forall r n p', has (extensions p) Mmark = false ->
                  fencedCodeBlock C p data r = Ok (n, p') -> 0 <= n <= len data) /\
  (forall n p', has (extensions p) Mmark = false ->
                quote C blk p data = Ok (n, p') -> 0 <= n <= len data) /\
  (forall n p', blockMath C p data = Ok (n, p') -> 0 <= n <= len data).
Proof.
  pose proof (len_nonneg data) as Hn.
  split; [|split; [|split; [|split; [|split; [|split]]]]].
  - split; [apply IsEmpty_nonneg|].
    unfold IsEmpty. destruct (len data =? 0); [lia|].
    pose proof (IsEmpty_loop_spec (length data) data 0 ltac:(lia)) as H.
    destruct (IsEmpty_loop (length data) data 0) as [r|]; [|lia].
    destruct H as (B & _); [unfold len; lia|].
    pose proof (skipCharN_le data r nl 1 ltac:(lia) ltac:(lia)). lia.
  - intros n p' H. unfold prefixHeading in H.
    destruct (heading_extent _ _ _ _) as [[id e] skip] eqn:E.
    apply heading_extent_bounds in E. destruct E as (B1 & _).
    apply bind_Ok in H. destruct H as (q & _ & H). injection H as <- _.
    pose proof (skipCharN_le data 0 c_hash 6 ltac:(lia) ltac:(lia)) as L1.
    pose proof (skipChar_le data (skipCharN data 0 c_hash 6) sp ltac:(lia)) as L2.
    pose proof (skipUntilChar_le data (skipChar data (skipCharN data 0 c_hash 6) sp) nl
                  ltac:(lia)) as L3.
    lia.
  - intros n p' Hl H. unfold prefixSpecialHeading in H.
    destruct (heading_extent _ _ _ _) as [[id e] skip] eqn:E.
    apply heading_extent_bounds in E. destruct E as (B1 & _).
    apply bind_Ok in H. destruct H as (q & _ & H). injection H as <- _.
    pose proof (skipChar_le data 2 sp ltac:(lia)) as L2.
    pose proof (skipUntilChar_le data (skipChar data 2 sp) nl ltac:(lia)) as L3.
    lia.
  - intros n p' H. unfold code in H.
    destruct (code_loop (length data) data 0 []) as [i work] eqn:E.
    apply code_loop_le in E; [|lia].
    apply bind_Ok in H. destruct H as ([id q] & _ & H).
    apply bind_Ok in H. destruct H as (q' & _ & H). injection H as <- _. exact E.
  - intros r n p' Hm H. unfold fencedCodeBlock in H. rewrite Hm in H. cbn [negb] in H.
    pose proof (fencedCodeBlock_norender_le data) as F. unfold fencedCodeBlock_norender in F.
    destruct (fencedCodeBlock_scan data) as [[beg work]|]; [|injection H as <- _; lia].
    destruct (negb r); [injection H as <- _; exact F|].
    apply bind_Ok in H. destruct H as ([id q] & _ & H).
    apply bind_Ok in H. destruct H as (q' & _ & H). injection H as <- _. exact F.
  - intros n p' Hm H. unfold quote in H. rewrite Hm in H. cbn [negb] in H.
    destruct (quote_gather _ _ _ _ _ _) as [raw e] eqn:G.
    apply quote_gather_le in G; [|lia|lia].
    apply bind_Ok in H. destruct H as ([id q] & _ & H).
    apply bind_Ok in H. destruct H as (q' & _ & H). injection H as <- _. exact G.
  - intros n p' H. unfold blockMath in H.
    destruct (Z.leb_spec (len data) 4) as [H4|H4]; cbn [orb] in H;
      [injection H as <- _; lia|].
    destruct (_ || _); [injection H as <- _; lia|].
    set (cond := fun e => (e + 1 <? len data)
                          && (negb (data.[e] =? c_dollar)
                              || negb (data.[e + 1] =? c_dollar))) in *.
    pose proof (advance_bounds cond (length data) 2) as B.
    assert (L : advance (length data) cond 2 + 1 <= len data).
    { destruct (Z.eq_dec (advance (length data) cond 2) 2) as [->|Hne]; [lia|].
      pose proof (advance_true cond (length data) 2 (advance (length data) cond 2 - 1)
                    ltac:(lia)) as T.
      unfold cond in T at 1. apply andb_prop in T. lia. }
    destruct (Z.eqb_spec (advance (length data) cond 2 + 1) (len data));
      [injection H as <- _; lia|].
    apply bind_Ok in H. destruct H as ([id q] & _ & H). injection H as <- _. lia.
Qed.

(** X23: [list] consumes whole lines of its buffer.  The count it returns
    is within the buffer and is 0, the length of the buffer, or the
    position after a newline; it is positive when the buffer starts with
    the prefix of a list item. *)
Theorem list_whole_lines (p p' : Parser) (data : bytes) (flags start : Z) (delim : byte)
  (n : Z) :
  list_ C blk p data flags start delim = Ok (n, p') ->
  0 <= n <= len data /\
  (n = 0 \/ n = len data \/ data.[n - 1] = nl) /\
  (0 < len data ->
   0 < uliPrefix data \/ 0 < oliPrefix data \/ 0 < dliPrefix data -> 0 < n).
Proof.
  intro H. pose proof (len_nonneg data) as Hn. pose proof H as H0.
  unfold list_ in H. apply bind_Ok in H. destruct H as ([block p1] & _ & H).
  unfold list_body in H. apply bind_Ok in H. destruct H as ([i q] & L & H).
  apply bind_Ok in H. destruct H as (q' & _ & H). injection H as <- _.
  apply list_loop_le in L; [|lia]. destruct L as (L1 & L2).
  split; [exact L1|]. split; [apply L2; now left|].
  intros Hl Hp. eapply list_pos; eauto.
Qed.

End WithinBuffer.

Lemma recognizers_within_buffer_witness :
  0 <= IsEmpty (bs "  \nx") <= 4 /\
  0 <= 7 <= len (bs "    a\n\nb\n").
Proof.
  destruct (recognizers_within_buffer plain (Block plain 4) (newParser 0 16) (bs "  \nx"))
    as (A & _).
  destruct (recognizers_within_buffer plain (Block plain 4) (newParser 0 16)
              (bs "    a\n\nb\n")) as (_ & _ & _ & B & _).
  split; [exact A|].
  apply (B 7 (snd (returned (code plain (newParser 0 16) (bs "    a\n\nb\n"))
                     (0, newParser 0 16)))).
  vm_compute. reflexivity.
Defined.

Lemma list_whole_lines_witness :
  0 <= 9 <= len (bs "* a\n* b\n\nc\n") /\ (bs "* a\n* b\n\nc\n").[9 - 1] = nl.
Proof.
  destruct (list_whole_lines plain (Block plain 4) (newParser 0 16)
              (snd (returned (list_ plain (Block plain 4) (newParser 0 16)
                                (bs "* a\n* b\n\nc\n") 0 0 c_dot) (0, newParser 0 16)))
              (bs "* a\n* b\n\nc\n") 0 0 c_dot 9 ltac:(vm_compute; reflexivity))
    as (A & [B | [B | B]] & _).
  - discriminate B.
  - vm_compute in B. discriminate B.
  - split; [exact A | exact B].
Defined.

(** ** Block math *)

Section Math.
Variable C : Collaborators.

(** X24: what [blockMath] accepts.  A call that returns a positive count
    has found the buffer to start with [$$], a non-empty text that does
    not start with [$], and the first [$$] after it; the count covers the
    closing [$$] and the text between the two is the literal of the math
    block it adds.  A call that returns 0 has added nothing. *)
Theorem blockMath_spec (p p' : Parser) (data : bytes) (n : Z) :
  blockMath C p data = Ok (n, p') ->
  (n = 0 -> p' = p) /\
  (0 < n ->
   exists body rest id,
     data = [c_dollar; c_dollar] ++ body ++ [c_dollar; c_dollar] ++ rest /\
     body <> [] /\ body.[0] <> c_dollar /\
     n = len body + 4 /\
     (forall j, 2 <= j < n - 2 -> data.[j] <> c_dollar \/ data.[j + 1] <> c_dollar) /\
     AddBlock C p (with_literal body (new_node MathBlock)) = Ok (id, p')).
Proof.
  intro H. pose proof (len_nonneg data) as Hn. unfold blockMath in H.
  destruct (Z.leb_spec (len data) 4) as [H4|H4]; cbn [orb] in H;
    [injection H as <- <-; split; [reflexivity | lia]|].
  destruct (Z.eqb_spec data.[0] c_dollar) as [D0|D0]; cbn [negb orb] in H;
    [|injection H as <- <-; split; [reflexivity | lia]].
  destruct (Z.eqb_spec data.[1] c_dollar) as [D1|D1]; cbn [negb orb] in H;
    [|injection H as <- <-; split; [reflexivity | lia]].
  destruct (Z.eqb_spec data.[2] c_dollar) as [D2|D2];
    [injection H as <- <-; split; [reflexivity | lia]|].
  set (cond := fun e => (e + 1 <? len data)
                        && (negb (data.[e] =? c_dollar)
                            || negb (data.[e + 1] =? c_dollar))) in *.
  pose proof (advance_bounds cond (length data) 2) as B.
  assert (T : forall j, 2 <= j < advance (length data) cond 2 ->
                        j + 1 < len data /\
                        (data.[j] <> c_dollar \/ data.[j + 1] <> c_dollar)).
  { intros j Hj. pose proof (advance_true cond (length data) 2 j Hj) as X.
    unfold cond in X at 1. apply andb_prop in X. destruct X as (X1 & X2).
    split; [lia|]. apply orb_prop in X2.
    destruct X2 as [X2|X2]; apply negb_true_iff, Z.eqb_neq in X2; auto. }
  assert (St : cond (advance (length data) cond 2) = false).
  { apply advance_stop_bounded with (n := len data).
    - intros j Hj. unfold cond in Hj. apply andb_prop in Hj. lia.
    - unfold len. lia. }
  set (e := advance (length data) cond 2) in *.
  assert (L : e + 1 <= len data).
  { destruct (Z.eq_dec e 2) as [->|Hne]; [lia|].
    destruct (T (e - 1) ltac:(lia)). lia. }
  destruct (Z.eqb_spec (e + 1) (len data)) as [E|E];
    [injection H as <- <-; split; [reflexivity | lia]|].
  apply bind_Ok in H. destruct H as ([id q] & A & H). injection H as <- <-.
  split; [lia|]. intros _.
  assert (He : 3 <= e).
  { destruct (Z.eq_dec e 2) as [E2|]; [|lia]. exfalso.
    unfold cond in St at 1. rewrite E2 in St.
    replace (2 + 1 <? len data) with true in St by (symmetry; apply Z.ltb_lt; lia).
    apply Z.eqb_neq in D2. rewrite D2 in St. discriminate St. }
  assert (Hd : data.[e] = c_dollar /\ data.[e + 1] = c_dollar).
  { unfold cond in St at 1.
    replace (e + 1 <? len data) with true in St by (symmetry; apply Z.ltb_lt; lia).
    cbn [andb] in St. apply orb_false_elim in St. destruct St as (S1 & S2).
    apply negb_false_iff, Z.eqb_eq in S1, S2. auto. }
  destruct Hd as (De & De1).
  exists (slice data 2 e), (from data (e + 2)), id.
  rewrite len_slice by lia.
  split; [|split; [|split; [|split; [lia|split; [|exact A]]]]].
  - rewrite <- (upto_from data 2) at 1.
    replace (upto data 2) with [c_dollar; c_dollar].
    2: { clear - D0 D1 H4.
         destruct data as [|a [|b l]]; rewrite ?len_cons, ?len_nil in H4;
           try (pose proof (len_nonneg l)); try lia.
         change (a = c_dollar) in D0. change (b = c_dollar) in D1.
         subst a b. reflexivity. }
    f_equal. rewrite (from_slice_app data 2 e) by lia. f_equal.
    rewrite (from_at data e), (from_at data (e + 1)) by lia.
    rewrite De, De1. replace (e + 1 + 1) with (e + 2) by lia. reflexivity.
  - intro X. pose proof (len_slice data 2 e ltac:(lia) ltac:(lia)) as Ls.
    rewrite X, len_nil in Ls. lia.
  - rewrite at_slice by lia. exact D2.
  - intros j Hj. apply T. lia.
Qed.

End Math.

Lemma blockMath_spec_witness :
  exists body rest,
    bs "$$x+y$$ z" = [c_dollar; c_dollar] ++ body ++ [c_dollar; c_dollar] ++ rest /\
    7 = len body + 4.
Proof.
  destruct (blockMath_spec plain (newParser 0 16)
              (snd (returned (blockMath plain (newParser 0 16) (bs "$$x+y$$ z"))
                      (0, newParser 0 16)))
              (bs "$$x+y$$ z") 7 ltac:(vm_compute; reflexivity)) as (_ & H).
  destruct (H ltac:(lia)) as (body & rest & id & E & _ & _ & L & _).
  exists body, rest. auto.
Defined.

(** ** Block quotes *)

Lemma isFenceLine_plain m b old :
  ~ In c_tilde m -> ~ In c_backtick m ->
  isFenceLine (m ++ nl :: b) old = (0, [], None).
Proof.
  intros Ht Hb. set (l := m ++ nl :: b). unfold isFenceLine.
  destruct (lead3_spec l _ (fence_cond l)) as (Bi & L & U & _).
  set (i := advance 3 _ 0) in *.
  destruct (Z.geb_spec i (len l)) as [Hi|Hi]; [reflexivity|].
  pose proof (len_nonneg m) as Hm.
  assert (Hsp : forall j, 0 <= j < i -> l.[j] = sp).
  { intros j Hj. rewrite <- (at_upto l i) by lia. rewrite U.
    apply at_repeat. lia. }
  assert (Hnl : l.[len m] = nl).
  { unfold l. rewrite at_app_r by lia. now rewrite Z.sub_diag. }
  assert (Him : i <= len m).
  { destruct (Z_le_gt_dec i (len m)); [assumption|].
    specialize (Hsp (len m) ltac:(lia)). rewrite Hnl in Hsp. discriminate. }
  assert (Hc : l.[i] <> c_tilde /\ l.[i] <> c_backtick).
  { destruct (Z.eq_dec i (len m)) as [->|Hne].
    - rewrite Hnl. split; discriminate.
    - unfold l. rewrite at_app_l by lia.
      split; intro E; [apply Ht | apply Hb]; apply In_at; exists i; split; auto; lia. }
  destruct Hc as (H1 & H2). apply Z.eqb_neq in H1, H2. now rewrite H1, H2.
Qed.

Lemma quote_line_end_plain ext : forall m a b fuel,
  plain_text m -> (length m <= fuel)%nat ->
  quote_line_end fuel ext (a ++ m ++ nl :: b) (len a) = len a + len m.
Proof.
  induction m as [|x m IH]; intros a b fuel (Hn & Ht & Hb) Hf.
  - rewrite len_nil, Z.add_0_r. destruct fuel as [|f]; [reflexivity|].
    cbn [quote_line_end app]. rewrite at_app_r by lia. rewrite Z.sub_diag.
    change ((nl :: b).[0] =? nl) with true. now rewrite andb_false_r.
  - destruct fuel as [|f]; [simpl in Hf; lia|]. cbn [quote_line_end].
    pose proof (len_nonneg a) as Ha. pose proof (len_nonneg m) as Hm.
    pose proof (len_nonneg b) as Hlb.
    assert (L : len (a ++ (x :: m) ++ nl :: b) = len a + (len m + 1 + (len b + 1))).
    { rewrite len_app, len_app, !len_cons. reflexivity. }
    replace (len a <? len (a ++ (x :: m) ++ nl :: b)) with true
      by (symmetry; apply Z.ltb_lt; lia).
    rewrite at_app_r by lia. rewrite Z.sub_diag.
    change (((x :: m) ++ nl :: b).[0]) with x.
    assert (Hx : (x =? nl) = false)
      by (apply Z.eqb_neq; intros ->; apply Hn; now left).
    rewrite Hx. cbn [negb andb].
    assert (Hfc : fencedCodeBlock_norender (from (a ++ (x :: m) ++ nl :: b) (len a)) = 0).
    { rewrite from_app. unfold fencedCodeBlock_norender, fencedCodeBlock_scan.
      now rewrite (isFenceLine_plain (x :: m) b []). }
    rewrite Hfc. change (0 >? 0) with false. rewrite andb_false_r.
    replace (a ++ (x :: m) ++ nl :: b) with ((a ++ [x]) ++ m ++ nl :: b)
      by (rewrite <- app_assoc; reflexivity).
    replace (len a + 1) with (len (a ++ [x])) by (rewrite len_app; reflexivity).
    rewrite IH.
    + rewrite len_app, !len_cons, len_nil. lia.
    + repeat split; intro H; [apply Hn | apply Ht | apply Hb]; now right.
    + simpl in Hf. lia.
Qed.

Lemma quote_gather_lines ext : forall ls pre raw fuel,
  Forall plain_text ls -> (length ls <= fuel)%nat ->
  quote_gather fuel ext (pre ++ quoted ls) (len pre) (len pre) raw
  = (raw ++ unquoted ls, len pre + len (quoted ls)).
Proof.
  induction ls as [|l ls IH]; intros pre raw fuel F Hf.
  - cbn [quoted unquoted flat_map]. rewrite !app_nil_r, len_nil, Z.add_0_r.
    destruct fuel as [|f]; [reflexivity|]. cbn [quote_gather].
    now rewrite Z.ltb_irrefl.
  - destruct fuel as [|f]; [simpl in Hf; lia|].
    inversion F as [|? ? Hl F']; subst.
    pose proof (len_nonneg pre) as Hp. pose proof (len_nonneg l) as Hll.
    pose proof (len_nonneg (quoted ls)) as Hq.
    change (quoted (l :: ls)) with ((c_gt :: sp :: l ++ [nl]) ++ quoted ls).
    change (unquoted (l :: ls)) with ((l ++ [nl]) ++ unquoted ls).
    set (data := pre ++ (c_gt :: sp :: l ++ [nl]) ++ quoted ls).
    assert (L : len data = len pre + (len l + 3 + len (quoted ls))).
    { unfold data. rewrite len_app, len_app, !len_cons, len_app.
      change (len [nl]) with 1. lia. }
    assert (D1 : data = pre ++ (c_gt :: sp :: l) ++ nl :: quoted ls).
    { unfold data. cbn [app]. rewrite <- app_assoc. reflexivity. }
    cbn [quote_gather].
    replace (len pre <? len data) with true by (symmetry; apply Z.ltb_lt; lia).
    unfold quote_iter.
    assert (E : quote_line_end (length data) ext data (len pre) = len pre + (len l + 2)).
    { rewrite D1 at 2. rewrite quote_line_end_plain.
      - rewrite !len_cons. lia.
      - destruct Hl as (Hn & Ht & Hb).
        repeat split; intros [X|[X|X]]; try discriminate X; auto.
      - rewrite D1, !length_app. simpl. lia. }
    rewrite E.
    assert (N : data.[len pre + (len l + 2)] = nl).
    { rewrite D1. rewrite at_app_r by lia.
      replace (len pre + (len l + 2) - len pre) with (len (c_gt :: sp :: l))
        by (rewrite !len_cons; lia).
      rewrite at_app_r by lia. now rewrite Z.sub_diag. }
    rewrite skipCharN_1 by lia. rewrite N.
    replace (len pre + (len l + 2) <? len data) with true
      by (symmetry; apply Z.ltb_lt; lia).
    cbn [andb]. change (nl =? nl) with true. cbv iota.
    assert (QP : quotePrefix (from data (len pre)) = 2).
    { unfold data. rewrite from_app.
      apply (quotePrefix_value 0 (sp :: (l ++ [nl]) ++ quoted ls)). lia. }
    rewrite QP. change (2 >? 0) with true. cbv iota.
    assert (Sl : slice data (len pre + 2) (len pre + (len l + 2) + 1) = l ++ [nl]).
    { replace data with ((pre ++ [c_gt; sp]) ++ (l ++ [nl]) ++ quoted ls)
        by (unfold data; rewrite <- app_assoc; reflexivity).
      replace (len pre + 2) with (len (pre ++ [c_gt; sp]))
        by (rewrite len_app; reflexivity).
      replace (len (pre ++ [c_gt; sp]) + (len l + 2) + 1 - 0)
        with (len (pre ++ [c_gt; sp]) + (len l + 2) + 1) by lia.
      replace (len pre + (len l + 2) + 1)
        with (len (pre ++ [c_gt; sp]) + len (l ++ [nl])).
      2: { rewrite !len_app. change (len [c_gt; sp]) with 2.
           change (len [nl]) with 1. lia. }
      apply slice_app_mid. }
    rewrite Sl.
    replace data with ((pre ++ c_gt :: sp :: l ++ [nl]) ++ quoted ls)
      by (unfold data; rewrite <- app_assoc; reflexivity).
    replace (len pre + (len l + 2) + 1) with (len (pre ++ c_gt :: sp :: l ++ [nl])).
    2: { rewrite len_app, !len_cons, len_app. change (len [nl]) with 1. lia. }
    rewrite IH by (auto; simpl in Hf; lia).
    f_equal; [now rewrite <- app_assoc|].
    rewrite !len_app, !len_cons, len_app. change (len [nl]) with 1. lia.
Qed.

Lemma quoted_length ls : (length ls <= length (quoted ls))%nat.
Proof.
  induction ls as [|l ls IH]; [simpl; lia|].
  change (quoted (l :: ls)) with ((c_gt :: sp :: l ++ [nl]) ++ quoted ls).
  rewrite length_app. simpl. lia.
Qed.

Section Quotes.
Variable C : Collaborators.
Variable blk : bytes -> Parser -> res Parser.

(** X25: a block quote gives back the text that was quoted.  On lines of
    plain text (no tilde, no backtick), each behind ["> "], and without
    the Mmark extension, [quote] adds one block-quote node, hands the
    nested parse exactly the lines without their prefix, and consumes the
    whole buffer. *)
Theorem quote_unquotes (p : Parser) (ls : list bytes) :
  Forall plain_text ls ->
  has (extensions p) Mmark = false ->
  quote C blk p (quoted ls) =
  ('(block, q) <- AddBlock C p (new_node BlockQuote) ;;
   q <- blk (unquoted ls) q ;;
   Ok (len (quoted ls), Finalize q block)).
Proof.
  intros F M. unfold quote.
  pose proof (quote_gather_lines (extensions p) ls [] [] (length (quoted ls)) F
                (quoted_length ls)) as G.
  rewrite len_nil in G. cbn [app] in G. rewrite G, M. reflexivity.
Qed.

End Quotes.

Lemma quote_unquotes_witness :
  quoted [bs "a b"; bs "c"] = bs "> a b" ++ [nl] ++ bs "> c" ++ [nl] /\
  quote plain (fun _ q => Ok q) (newParser 0 16) (quoted [bs "a b"; bs "c"]) =
  ('(block, q) <- AddBlock plain (newParser 0 16) (new_node BlockQuote) ;;
   q <- Ok q ;;
   Ok (len (quoted [bs "a b"; bs "c"]), Finalize q block)).
Proof.
  split; [reflexivity|].
  apply (quote_unquotes plain (fun _ q => Ok q) (newParser 0 16) [bs "a b"; bs "c"]).
  - repeat (apply Forall_cons || apply Forall_nil);
      (repeat split; intro H; simpl in H; intuition discriminate).
  - reflexivity.
Defined.

(** ** The gathering loop of [quote], turn by turn *)

Lemma closing_blank_break ext data b raw :
  0 <= b < len data ->
  (fst (fst (quote_iter ext data b raw)) = true <-> closing_blank data b).
Proof.
  intro Hb. rewrite quote_iter_break by exact Hb.
  assert (Hne : from data b <> []) by (rewrite from_at by lia; discriminate).
  split; intros (ws & F & [E | E]); exists ws; (split; [exact F|]).
  - left. split; [exact E | congruence].
  - now right.
  - left. tauto.
  - now right.
Qed.

Lemma quote_iter_stop ext data b raw :
  0 <= b < len data -> closing_blank data b ->
  quote_iter ext data b raw = (true, quote_turn_end ext data b, raw).
Proof.
  intros Hb Hc. apply (closing_blank_break ext data b raw Hb) in Hc.
  unfold quote_iter in *. fold (quote_turn_end ext data b) in *.
  destruct (quotePrefix (from data b) >? 0); [discriminate Hc|].
  destruct (terminateBlockquote data b (quote_turn_end ext data b));
    [reflexivity | discriminate Hc].
Qed.

Lemma quote_iter_go ext data b raw :
  0 <= b < len data -> ~ closing_blank data b ->
  quote_iter ext data b raw
  = (false, quote_turn_end ext data b, raw ++ quote_turn_text ext data b).
Proof.
  intros Hb Hc.
  assert (X : fst (fst (quote_iter ext data b raw)) <> true)
    by (intro X; apply Hc; now apply (closing_blank_break ext data b raw Hb)).
  unfold quote_iter, quote_turn_text in *. fold (quote_turn_end ext data b) in *.
  pose proof (quotePrefix_nonneg (from data b)) as Hq.
  destruct (Z.gtb_spec (quotePrefix (from data b)) 0) as [Hp|Hp]; [reflexivity|].
  destruct (terminateBlockquote data b (quote_turn_end ext data b));
    [exfalso; now apply X|].
  replace (quotePrefix (from data b)) with 0 by lia. now rewrite Z.add_0_r.
Qed.

Lemma quote_turn_end_bounds ext data b :
  0 <= b < len data -> b < quote_turn_end ext data b <= len data.
Proof.
  intro Hb. unfold quote_turn_end.
  pose proof (quote_line_end_le ext data (length data) b ltac:(lia)) as Q.
  set (e := quote_line_end (length data) ext data b) in *.
  pose proof (skipCharN_le data e nl 1 ltac:(lia) ltac:(lia)) as S1.
  split; [|lia].
  destruct (Z.eq_dec e b) as [E|]; [|lia].
  assert (N : data.[b] = nl).
  { unfold e in E. destruct (length data) as [|f] eqn:El; [unfold len in Hb; lia|].
    cbn [quote_line_end] in E.
    replace (b <? len data) with true in E by (symmetry; apply Z.ltb_lt; lia).
    destruct (Z.eqb_spec data.[b] nl) as [|Hn]; [assumption|]. exfalso.
    cbn [negb andb] in E.
    destruct (has ext FencedCode && _) eqn:Ef.
    - apply andb_true_iff in Ef. destruct Ef as (_ & Ef).
      apply Z.gtb_lt, fencedCodeBlock_norender_ge2 in Ef. lia.
    - pose proof (quote_line_end_ge ext data f (b + 1)). lia. }
  rewrite skipCharN_1, E, N by lia.
  replace (b <? len data) with true by (symmetry; apply Z.ltb_lt; lia).
  cbn. lia.
Qed.

Lemma IsEmpty_blank_nl ws rest :
  Forall blank ws -> IsEmpty (ws ++ nl :: rest) = len ws + 1.
Proof.
  intro F. unfold IsEmpty.
  pose proof (len_nonneg ws) as Hw. pose proof (len_nonneg rest) as Hr.
  assert (L : len (ws ++ nl :: rest) = len ws + (len rest + 1))
    by (rewrite len_app, len_cons; reflexivity).
  destruct (Z.eqb_spec (len (ws ++ nl :: rest)) 0); [lia|].
  rewrite IsEmpty_loop_blank by eauto.
  rewrite skipCharN_1 by lia. rewrite at_app_r, Z.sub_diag by lia.
  replace (len ws <? len (ws ++ nl :: rest)) with true
    by (symmetry; apply Z.ltb_lt; lia).
  reflexivity.
Qed.

Lemma IsEmpty_blank_eof ws : Forall blank ws -> IsEmpty ws = len ws.
Proof.
  intro F. unfold IsEmpty.
  destruct (Z.eqb_spec (len ws) 0) as [E|E]; [lia|].
  pose proof (IsEmpty_loop_blank ws [] F ltac:(now left)) as X.
  rewrite app_nil_r in X. rewrite X.
  rewrite skipCharN_1 by apply len_nonneg. now rewrite Z.ltb_irrefl.
Qed.

(** A turn that starts on a blank line ends behind that line. *)
Lemma quote_turn_end_blank ext data b :
  0 <= b -> blank_line (from data b) ->
  quote_turn_end ext data b = b + IsEmpty (from data b).
Proof.
  intros Hb (ws & F & [[rest E] | [E Hne]]); unfold quote_turn_end.
  - destruct (quote_end_blank ext data b ws rest Hb F E) as (-> & _).
    rewrite E, IsEmpty_blank_nl by exact F. lia.
  - rewrite (quote_end_blank_eof ext data b ws Hb F E) by (rewrite <- E; exact Hne).
    rewrite (from_nonempty_len data b Hb Hne).
    rewrite E at 2. rewrite IsEmpty_blank_eof by exact F. now rewrite E.
Qed.

Lemma closing_blank_line data b : closing_blank data b -> blank_line (from data b).
Proof.
  intros (ws & F & [[E Hne] | (rest & E & _)]); exists ws; (split; [exact F|]).
  - right. split; [exact E | congruence].
  - left. eauto.
Qed.

(** The loop stops at the first turn that starts on a closing blank
    line. *)
Lemma quote_gather_stop ext data : forall pre fuel b raw t post,
  0 <= b ->
  quote_turns fuel ext data b = pre ++ t :: post ->
  Forall (fun x => ~ closing_blank data x) pre -> closing_blank data t ->
  quote_gather fuel ext data b b raw
  = (raw ++ flat_map (quote_turn_text ext data) pre, t + IsEmpty (from data t)).
Proof.
  induction pre as [|x pre IH]; intros fuel b raw t post Hb T F Ct;
    (destruct fuel as [|f]; [discriminate T|]); cbn [quote_turns] in T;
    (destruct (Z.ltb_spec b (len data)) as [Hlt|Hge]; [|discriminate T]);
    cbn [quote_gather];
    (replace (b <? len data) with true by (symmetry; apply Z.ltb_lt; lia)).
  - injection T as <- _.
    rewrite quote_iter_stop by (auto; lia). cbn [flat_map]. rewrite app_nil_r.
    rewrite quote_turn_end_blank by (auto using closing_blank_line). reflexivity.
  - injection T as <- T. inversion F as [|? ? Hx F']; subst.
    rewrite quote_iter_go by (auto; lia).
    pose proof (quote_turn_end_bounds ext data b ltac:(lia)) as B.
    rewrite (IH f _ _ t post) by (auto; lia).
    cbn [flat_map]. now rewrite app_assoc.
Qed.

(** Without such a turn it runs to the end of the buffer. *)
Lemma quote_gather_all ext data : forall fuel b raw,
  0 <= b <= len data -> len data - b <= Z.of_nat fuel ->
  Forall (fun x => ~ closing_blank data x) (quote_turns fuel ext data b) ->
  quote_gather fuel ext data b b raw
  = (raw ++ flat_map (quote_turn_text ext data) (quote_turns fuel ext data b),
     len data).
Proof.
  induction fuel as [|f IH]; intros b raw Hb Hf F.
  - cbn. rewrite app_nil_r. f_equal. lia.
  - cbn [quote_turns quote_gather] in *.
    destruct (Z.ltb_spec b (len data)) as [Hlt|Hge].
    + inversion F as [|? ? Hx F']; subst.
      rewrite quote_iter_go by (auto; lia).
      pose proof (quote_turn_end_bounds ext data b ltac:(lia)) as B.
      rewrite IH by (auto; lia). cbn [flat_map]. now rewrite app_assoc.
    + cbn. rewrite app_nil_r. f_equal. lia.
Qed.

(** The inner loop of [quote] steps over bytes that are no newline and
    at which no fenced code block begins. *)
Lemma quote_line_end_scan ext data : forall k fuel b,
  0 <= b -> b + Z.of_nat k <= len data -> (k <= fuel)%nat ->
  (forall x, 0 <= x < Z.of_nat k ->
     data.[b + x] <> nl /\
     (has ext FencedCode = true -> fencedCodeBlock_norender (from data (b + x)) <= 0)) ->
  quote_line_end fuel ext data b
  = quote_line_end (fuel - k) ext data (b + Z.of_nat k).
Proof.
  induction k as [|k IH]; intros fuel b Hb Hl Hf H.
  - rewrite Nat.sub_0_r, Z.add_0_r. reflexivity.
  - destruct fuel as [|f]; [lia|]. cbn [quote_line_end].
    destruct (H 0 ltac:(lia)) as (H0 & F0). rewrite Z.add_0_r in H0, F0.
    replace (b <? len data) with true by (symmetry; apply Z.ltb_lt; lia).
    apply Z.eqb_neq in H0. rewrite H0. cbn [negb andb].
    replace (has ext FencedCode && (fencedCodeBlock_norender (from data b) >? 0))
      with false.
    2: { symmetry. destruct (has ext FencedCode); [|reflexivity]. cbn [andb].
         specialize (F0 eq_refl). rewrite Z.gtb_ltb. apply Z.ltb_ge. lia. }
    rewrite (IH f (b + 1)); try lia.
    + replace (S f - S k)%nat with (f - k)%nat by lia. f_equal. lia.
    + intros x Hx. specialize (H (x + 1) ltac:(lia)).
      now replace (b + 1 + x) with (b + (x + 1)) by lia.
Qed.

Lemma quote_line_end_stay ext data fuel b :
  len data <= b \/ data.[b] = nl -> quote_line_end fuel ext data b = b.
Proof.
  intro H. destruct fuel as [|f]; [reflexivity|]. cbn [quote_line_end].
  destruct (Z.ltb_spec b (len data)); [|reflexivity].
  destruct H as [H|H]; [lia|]. rewrite H. reflexivity.
Qed.

(** A turn on a line on which no fenced code block begins takes the
    line. *)
Lemma quote_turn_end_line ext data b l rest :
  0 <= b -> from data b = l ++ rest -> ~ In nl l ->
  (rest = [] \/ exists r, rest = nl :: r) ->
  (has ext FencedCode = true ->
   forall j, 0 <= j < len l -> fencedCodeBlock_norender (from data (b + j)) <= 0) ->
  quote_turn_end ext data b = b + len l + (if len rest =? 0 then 0 else 1).
Proof.
  intros Hb E Hl Hr Hf. unfold quote_turn_end.
  pose proof (len_nonneg l) as Hll. pose proof (len_nonneg rest) as Hlr.
  destruct (Z_lt_ge_dec (len data) b) as [Hout|Hin].
  { rewrite from_all in E by lia. symmetry in E. apply app_eq_nil in E.
    destruct E as (-> & ->). rewrite len_nil, quote_line_end_stay by lia.
    rewrite skipCharN_1 by lia.
    destruct (Z.ltb_spec b (len data)); [lia|]. cbn. lia. }
  assert (L : len data = b + (len l + len rest)).
  { rewrite <- len_app, <- E, len_from by lia. lia. }
  assert (A : forall x, 0 <= x < len l -> data.[b + x] <> nl).
  { intros x Hx. rewrite <- at_from, E, at_app_l by lia.
    intro X. apply Hl. apply In_at. exists x. split; [lia | exact X]. }
  rewrite (quote_line_end_scan ext data (length l) (length data) b); try lia.
  2: { unfold len in *. lia. }
  2: { unfold len in *. lia. }
  2: { intros x Hx. split; [apply A; unfold len; lia|].
       intro X. apply Hf; [exact X | unfold len; lia]. }
  fold (len l). rewrite quote_line_end_stay.
  - rewrite skipCharN_1 by lia.
    destruct Hr as [-> | (r & ->)].
    + rewrite len_nil in *. destruct (Z.ltb_spec (b + len l) (len data)); [lia|].
      cbn. lia.
    + rewrite len_cons in *. pose proof (len_nonneg r).
      replace (b + len l <? len data) with true by (symmetry; apply Z.ltb_lt; lia).
      rewrite <- at_from, E, at_app_r, Z.sub_diag by lia. cbn [at_ nth Z.to_nat].
      change ((nl :: r).[0]) with nl. rewrite Z.eqb_refl.
      destruct (Z.eqb_spec (len r + 1) 0); [lia|]. cbn. lia.
  - destruct Hr as [-> | (r & ->)].
    + left. rewrite len_nil in L. lia.
    + right. rewrite <- at_from, E, at_app_r, Z.sub_diag by lia. reflexivity.
Qed.

(** With fenced code, a turn takes the first fenced code block that begins
    on its line, down to the end of that block. *)
Lemma quote_turn_end_fence ext data b j :
  has ext FencedCode = true -> 0 <= b -> 0 <= j -> b + j < len data ->
  (forall x, 0 <= x <= j -> data.[b + x] <> nl) ->
  (forall x, 0 <= x < j -> fencedCodeBlock_norender (from data (b + x)) <= 0) ->
  0 < fencedCodeBlock_norender (from data (b + j)) ->
  quote_turn_end ext data b
  = skipCharN data (b + j + fencedCodeBlock_norender (from data (b + j)) - 1) nl 1.
Proof.
  intros Hx Hb Hj Hl A F P. unfold quote_turn_end. f_equal.
  rewrite (quote_line_end_scan ext data (Z.to_nat j) (length data) b); try lia.
  2: { unfold len in *. lia. }
  2: { intros x Hxj. split; [apply A; lia | intros _; apply F; lia]. }
  rewrite Z2Nat.id by lia.
  destruct (length data - Z.to_nat j)%nat as [|f] eqn:Ef; [unfold len in *; lia|].
  cbn [quote_line_end].
  replace (b + j <? len data) with true by (symmetry; apply Z.ltb_lt; lia).
  specialize (A j ltac:(lia)). apply Z.eqb_neq in A. rewrite A, Hx. cbn [negb andb].
  replace (fencedCodeBlock_norender (from data (b + j)) >? 0) with true
    by (symmetry; apply Z.gtb_lt; lia).
  lia.
Qed.

(** C7 (amended): [quotePrefix] is nonzero exactly on up to three spaces
    followed by ['>'], and its value also covers one space right after
    the ['>'].  The gathering loop of [quote] works in turns, the first at
    the start of the buffer and each next one where the turn before it
    ended.  It stops at the first turn that starts on a blank line which
    is the last line or whose next line is neither blank nor
    quote-prefixed, and returns the end of that blank line; when no turn
    starts on such a line it runs to the end of the buffer.  A turn takes
    its line; with the FencedCode extension it takes instead the text down
    to the end of the first fenced code block that begins on its line, so
    that a blank line inside that block starts no turn and does not end
    the quote.  Without Mmark, [quote] adds one block quote, parses the
    gathered text inside it and returns the end the loop found. *)
Theorem blockquote_prefix_and_termination :
  (forall data, quotePrefix data <> 0 <-> quote_prefixed data) /\
  (forall k rest, (k <= 3)%nat ->
     quotePrefix (repeat sp k ++ c_gt :: rest) =
     Z.of_nat k + 1 + match rest with
                      | c :: _ => if c =? sp then 1 else 0
                      | [] => 0
                      end) /\
  (forall data beg end_,
     terminateBlockquote data beg end_ = true <->
     blank_line (from data beg) /\
     (len data <= end_ \/
      (~ quote_prefixed (from data end_) /\ ~ blank_line (from data end_)))) /\
  (forall ext data pre b post,
     quote_turns (length data) ext data 0 = pre ++ b :: post ->
     Forall (fun t => ~ closing_blank data t) pre -> closing_blank data b ->
     quote_gather (length data) ext data 0 0 []
     = (flat_map (quote_turn_text ext data) pre, b + IsEmpty (from data b))) /\
  (forall ext data,
     Forall (fun t => ~ closing_blank data t) (quote_turns (length data) ext data 0) ->
     quote_gather (length data) ext data 0 0 []
     = (flat_map (quote_turn_text ext data) (quote_turns (length data) ext data 0),
        len data)) /\
  (forall ext data b l rest,
     0 <= b -> from data b = l ++ rest -> ~ In nl l ->
     (rest = [] \/ exists r, rest = nl :: r) ->
     (has ext FencedCode = true ->
      forall j, 0 <= j < len l -> fencedCodeBlock_norender (from data (b + j)) <= 0) ->
     quote_turn_end ext data b = b + len l + (if len rest =? 0 then 0 else 1)) /\
  (forall ext data b j,
     has ext FencedCode = true -> 0 <= b -> 0 <= j -> b + j < len data ->
     (forall x, 0 <= x <= j -> data.[b + x] <> nl) ->
     (forall x, 0 <= x < j -> fencedCodeBlock_norender (from data (b + x)) <= 0) ->
     0 < fencedCodeBlock_norender (from data (b + j)) ->
     quote_turn_end ext data b
     = skipCharN data (b + j + fencedCodeBlock_norender (from data (b + j)) - 1) nl 1) /\
  (forall C blk p data,
     has (extensions p) Mmark = false ->
     quote C blk p data
     = ('(block, q) <- AddBlock C p (new_node BlockQuote) ;;
        q <- blk (fst (quote_gather (length data) (extensions p) data 0 0 [])) q ;;
        Ok (snd (quote_gather (length data) (extensions p) data 0 0 []),
            Finalize q block))).
Proof.
  split; [exact quotePrefix_prefixed|].
  split; [exact quotePrefix_value|].
  split; [exact terminateBlockquote_spec|].
  split.
  { intros ext data pre b post T F Cb.
    apply (quote_gather_stop ext data pre (length data) 0 [] b post); auto. lia. }
  split.
  { intros ext data F. pose proof (len_nonneg data).
    apply (quote_gather_all ext data (length data) 0 []); auto; unfold len in *; lia. }
  split; [exact quote_turn_end_line|].
  split; [exact quote_turn_end_fence|].
  intros C blk p data M. unfold quote.
  destruct (quote_gather (length data) (extensions p) data 0 0 []) as [raw e].
  now rewrite M.
Qed.

Lemma blockquote_prefix_and_termination_witness :
  quotePrefix (repeat sp 2 ++ c_gt :: [sp; 120]) = 4 /\
  quote_gather 7 0 (bs "> a" ++ [nl; nl] ++ bs "b" ++ [nl]) 0 0 []
  = (bs "a" ++ [nl], 5).
Proof.
  destruct blockquote_prefix_and_termination as (_ & V & _ & L & _). split.
  - apply (V 2%nat [sp; 120]). lia.
  - apply (L 0 (bs "> a" ++ [nl; nl] ++ bs "b" ++ [nl]) [0] 4 [5]).
    + vm_compute. reflexivity.
    + apply Forall_cons; [|apply Forall_nil].
      intros (ws & F & [[E _] | (rest & E & _)]).
      * change (bs "> a" ++ [nl; nl] ++ bs "b" ++ [nl] = ws) in E. subst ws.
        inversion F as [|? ? B _]. destruct B; discriminate.
      * destruct ws as [|w ws]; [discriminate E|].
        injection E as <- _. inversion F as [|? ? B _]. destruct B; discriminate.
    + exists []. split; [apply Forall_nil|]. right.
      exists (bs "b" ++ [nl]). split; [reflexivity|]. right. split.
      * intro Q. apply quotePrefix_prefixed in Q. apply Q. vm_compute. reflexivity.
      * apply IsEmpty_zero. vm_compute. reflexivity.
Defined.

(** With the FencedCode extension, a blank line followed by a line that is
    neither blank nor quote-prefixed does not end the quote when it lies
    inside a fenced code block that begins on a quoted line: the quote
    takes the whole buffer, where without the extension it ends behind
    that blank line. *)
Lemma fenced_block_in_quote_counterexample :
  let d := bs "> ```" ++ [nl; nl] ++ bs "foo" ++ [nl] ++ bs "```" ++ [nl]
           ++ bs "bar" ++ [nl] in
  d.[5] = nl /\ closing_blank d 6 /\
  terminateBlockquote d 6 7 = true /\
  snd (quote_gather (length d) FencedCode d 0 0 []) = 19 /\
  len d = 19 /\
  snd (quote_gather (length d) 0 d 0 0 []) = 7.
Proof.
  intro d. split; [reflexivity|]. split.
  - exists []. split; [apply Forall_nil|]. right.
    exists (bs "foo" ++ [nl] ++ bs "```" ++ [nl] ++ bs "bar" ++ [nl]).
    split; [reflexivity|]. right. split.
    + intro Q. apply quotePrefix_prefixed in Q. apply Q. vm_compute. reflexivity.
    + apply IsEmpty_zero. vm_compute. reflexivity.
  - repeat split; vm_compute; reflexivity.
Qed.

(** ** Lists: which lines make a list loose *)

Lemma prev_start_spec d b :
  1 <= b ->
  0 <= prev_start d b < b /\
  (prev_start d b = 0 \/ d.[prev_start d b - 1] = nl) /\
  (forall j, prev_start d b <= j < b - 1 -> d.[j] <> nl).
Proof.
  intro Hb. unfold prev_start, backUntilChar.
  destruct (retreat_scan (fun j => negb (d.[j - 1] =? nl)) (Z.to_nat (b - 1)) (b - 1)
              ltac:(lia)) as (B & T & St).
  set (r := retreat _ _ _) in *.
  split; [lia|]. split.
  - destruct (Z.eq_dec r 0) as [|Hne]; [now left | right].
    specialize (St ltac:(lia)). now apply negb_false_iff, Z.eqb_eq in St.
  - intros j Hj. specialize (T (j + 1) ltac:(lia)).
    replace (j + 1 - 1) with j in T by lia. now apply negb_true_iff, Z.eqb_neq in T.
Qed.

Lemma prev_start_eq d a b :
  0 <= a < b -> (a = 0 \/ d.[a - 1] = nl) ->
  (forall j, a <= j < b - 1 -> d.[j] <> nl) ->
  prev_start d b = a.
Proof.
  intros Ha Hs Hn.
  destruct (prev_start_spec d b ltac:(lia)) as (B & S & N).
  set (r := prev_start d b) in *.
  destruct (Z_lt_ge_dec r a) as [Hlt|Hge].
  - exfalso. destruct Hs as [-> | Hs]; [lia|]. apply (N (a - 1)); [lia | exact Hs].
  - destruct (Z.eq_dec r a) as [|Hne]; [assumption | exfalso].
    destruct S as [S | S]; [lia|]. apply (Hn (r - 1)); [lia | exact S].
Qed.

Lemma from_slice d a b k :
  0 <= a -> 0 <= k <= b - a -> from (slice d a b) k = slice d (a + k) b.
Proof.
  intros Ha Hk. unfold slice, from, upto. rewrite skipn_firstn_comm, skipn_skipn.
  f_equal; [lia | f_equal; lia].
Qed.

(** The end of the line that starts at [line], as [gatherlines] finds
    it. *)
Lemma line_of_cut d line :
  0 <= line < len d ->
  line_of (from d line)
  = slice d line (advance (length d)
                    (fun i => (i <? len d) && negb (d.[i - 1] =? nl)) (line + 1)).
Proof.
  intro Hl. pose proof (line_end_spec d line Hl) as (E1 & E2 & E3).
  set (i := advance _ _ _) in *.
  unfold line_of, slice. f_equal. unfold first_line.
  assert (Lf : len (from d line) = len d - line) by (apply len_from; lia).
  destruct (advance_scan (fun j => negb ((from d line).[j] =? nl)) (from d line) 0
              ltac:(lia)) as (B & T & St).
  fold (skipUntilChar (from d line) 0 nl) in B, T, St.
  set (j := skipUntilChar (from d line) 0 nl) in *.
  assert (Tj : forall x, line <= x < line + j -> d.[x] <> nl).
  { intros x Hx. specialize (T (x - line) ltac:(lia)).
    rewrite at_from in T by lia. replace (line + (x - line)) with x in T by lia.
    now apply negb_true_iff, Z.eqb_neq in T. }
  destruct (Z.ltb_spec j (len (from d line))) as [Hj|Hj].
  - specialize (St Hj). apply negb_false_iff, Z.eqb_eq in St.
    rewrite at_from in St by lia.
    destruct (Z_lt_ge_dec (line + j) (i - 1)) as [H1|H1];
      [exfalso; apply (E2 (line + j)); [lia | exact St]|].
    destruct (Z.eq_dec (line + j) (i - 1)) as [|H2]; [lia | exfalso].
    assert (Hi : i < len d) by lia.
    apply (Tj (i - 1)); [lia | exact (E3 Hi)].
  - assert (Hj' : j = len d - line) by lia.
    destruct (Z.eq_dec i (len d)) as [|Hne]; [lia | exfalso].
    apply (Tj (i - 1)); [lia | apply E3; lia].
Qed.

(** A line is blank whether it is read to its end or to the end of the
    buffer. *)
Lemma IsEmpty_cut d line :
  0 <= line < len d ->
  (IsEmpty (from d line) =? 0)
  = negb (IsEmpty (slice d line
                     (advance (length d)
                        (fun i => (i <? len d) && negb (d.[i - 1] =? nl)) (line + 1)))
          >? 0).
Proof.
  intro Hl. rewrite <- line_of_cut by exact Hl.
  pose proof (IsEmpty_nonneg (from d line)) as N1.
  pose proof (IsEmpty_nonneg (line_of (from d line))) as N2.
  assert (X : 0 < IsEmpty (from d line) <-> 0 < IsEmpty (line_of (from d line))).
  { rewrite !IsEmpty_blank_line. unfold line_of.
    set (l := from d line).
    assert (Hl0 : 0 < len l) by (unfold l; rewrite len_from by lia; lia).
    pose proof (first_line_pos l Hl0) as Hf.
    split; intros (ws & F & S); exists ws; (split; [exact F|]).
    - pose proof (len_nonneg ws) as Hw.
      destruct S as [(rest & E) | (E & Hne)].
      + left. exists []. 
        assert (Ef : first_line l = len ws + 1).
        { unfold first_line.
          destruct (advance_scan (fun j => negb (l.[j] =? nl)) l 0 ltac:(lia))
            as (B & T & St).
          fold (skipUntilChar l 0 nl) in B, T, St.
          set (j := skipUntilChar l 0 nl) in *.
          assert (Ll : len l = len ws + (len rest + 1))
            by (rewrite E, len_app, len_cons; reflexivity).
          pose proof (len_nonneg rest).
          assert (Hnl : l.[len ws] = nl)
            by (rewrite E, at_app_r, Z.sub_diag by lia; reflexivity).
          assert (Hj : j = len ws).
          { destruct (Z_lt_ge_dec (len ws) j) as [H1|H1].
            - specialize (T (len ws) ltac:(lia)). rewrite Hnl in T. discriminate T.
            - destruct (Z.eq_dec j (len ws)) as [|H2]; [assumption | exfalso].
              specialize (St ltac:(lia)). apply negb_false_iff, Z.eqb_eq in St.
              rewrite E, at_app_l in St by lia.
              apply (proj1 (Forall_at blank ws)) with (j := j) in F; [|lia].
              apply blank_not_nl in F. contradiction. }
          rewrite Hj. destruct (Z.ltb_spec (len ws) (len l)); lia. }
        rewrite Ef, E.
        replace (len ws + 1) with (len (ws ++ [nl])) by (rewrite len_app; reflexivity).
        change (nl :: rest) with ([nl] ++ rest). rewrite app_assoc.
        rewrite upto_app_l by lia. 
        replace (upto (ws ++ [nl]) (len (ws ++ [nl]))) with (ws ++ [nl]).
        * reflexivity.
        * unfold upto, len. rewrite Nat2Z.id. symmetry. apply firstn_all.
      + right. 
        assert (Ef : first_line l = len l).
        { unfold first_line.
          destruct (advance_scan (fun j => negb (l.[j] =? nl)) l 0 ltac:(lia))
            as (B & T & St).
          fold (skipUntilChar l 0 nl) in B, T, St.
          set (j := skipUntilChar l 0 nl) in *.
          destruct (Z.ltb_spec j (len l)) as [Hj|Hj]; [exfalso | reflexivity].
          specialize (St Hj). apply negb_false_iff, Z.eqb_eq in St.
          rewrite E in St, Hj.
          apply (proj1 (Forall_at blank ws)) with (j := j) in F; [|lia].
          apply blank_not_nl in F. contradiction. }
        rewrite Ef. unfold upto, len. rewrite Nat2Z.id, firstn_all. auto.
    - destruct S as [(rest & E) | (E & Hne)].
      + left. exists (rest ++ from l (first_line l)).
        rewrite <- (upto_from l (first_line l)) at 1. rewrite E, <- app_assoc.
        reflexivity.
      + (* the cut line has no newline: it is the whole rest *)
        right.
        assert (Ef : first_line l = len l).
        { unfold first_line in *.
          destruct (advance_scan (fun j => negb (l.[j] =? nl)) l 0 ltac:(lia))
            as (B & T & St).
          fold (skipUntilChar l 0 nl) in B, T, St.
          set (j := skipUntilChar l 0 nl) in *.
          destruct (Z.ltb_spec j (len l)) as [Hj|Hj]; [exfalso | reflexivity].
          specialize (St Hj). apply negb_false_iff, Z.eqb_eq in St.
          assert (A : (upto l (j + 1)).[j] = nl) by (rewrite at_upto by lia; exact St).
          rewrite E in A.
          assert (Lw : len ws = j + 1) by (rewrite <- E; apply len_upto; lia).
          apply (proj1 (Forall_at blank ws)) with (j := j) in F; [|lia].
          apply blank_not_nl in F. contradiction. }
        rewrite Ef in E. unfold upto, len in E. rewrite Nat2Z.id, firstn_all in E.
        split; [exact E|]. intro X. rewrite X, len_nil in Hl0. lia. }
  destruct (Z.eqb_spec (IsEmpty (from d line)) 0) as [H0|H0];
    destruct (Z.gtb_spec (IsEmpty (line_of (from d line))) 0); cbn; try reflexivity; lia.
Qed.

(** The chunk of a gathered line: the line without its indentation. *)
Lemma unindent_tab d line i :
  0 <= line -> line < i -> i <= len d -> d.[line] = tab ->
  unindent (slice d line i) = slice d (line + 1) i.
Proof.
  intros H0 Hl Hi Ht. unfold unindent.
  rewrite at_slice, Z.add_0_r, Ht by lia. rewrite Z.eqb_refl.
  apply from_slice; lia.
Qed.

Lemma unindent_spaces d line i :
  0 <= line -> line < i -> i <= len d -> d.[line] <> tab ->
  let k := advance 4 (fun k => (k <? 4) && (line + k <? i) && (d.[line + k] =? sp)) 0 in
  unindent (slice d line i) = slice d (line + k) i /\
  0 <= k <= 4 /\ line + k <= i /\
  (forall j, 0 <= j < k -> d.[line + j] = sp) /\
  (k < 4 -> line + k < i -> d.[line + k] <> sp).
Proof.
  intros H0 Hl Hi Ht k.
  set (cond := fun k => (k <? 4) && (line + k <? i) && (d.[line + k] =? sp)) in *.
  pose proof (advance_bounds cond 4 0) as B. fold k in B.
  assert (T : forall j, 0 <= j < k -> cond j = true)
    by (intros j Hj; apply (advance_true cond 4 0); exact Hj).
  assert (S : cond k = false).
  { apply advance_stop_bounded with (n := 4); [|simpl; lia].
    intros j Hj. unfold cond in Hj. lia. }
  assert (Tk : forall j, 0 <= j < k -> line + j < i /\ d.[line + j] = sp).
  { intros j Hj. specialize (T j Hj). unfold cond in T.
    apply andb_prop in T. destruct T as (T1 & T2). apply andb_prop in T1.
    destruct T1 as (_ & T1). apply Z.ltb_lt in T1. apply Z.eqb_eq in T2. auto. }
  assert (Lk : line + k <= i).
  { destruct (Z.eq_dec k 0); [lia|]. destruct (Tk (k - 1) ltac:(lia)). lia. }
  assert (Sk : k < 4 -> line + k < i -> d.[line + k] <> sp).
  { intros H4 Hk. unfold cond in S.
    replace (k <? 4) with true in S by (symmetry; apply Z.ltb_lt; lia).
    replace (line + k <? i) with true in S by (symmetry; apply Z.ltb_lt; lia).
    cbn [andb] in S. now apply Z.eqb_neq in S. }
  split; [|split; [simpl in B; lia|split; [exact Lk|split; [intros; now apply Tk | exact Sk]]]].
  unfold unindent. rewrite at_slice, Z.add_0_r by lia.
  apply Z.eqb_neq in Ht. rewrite Ht.
  set (L := slice d line i).
  assert (LL : len L = i - line) by (unfold L; apply len_slice; lia).
  destruct (skipCharN_scan L 0 sp 4 ltac:(lia)) as (_ & R).
  specialize (R ltac:(lia)). cbv zeta in R. destruct R as (R1 & R2 & R3 & R4).
  set (r := skipCharN L 0 sp 4) in *.
  assert (E : r = k).
  { destruct (Z_lt_ge_dec r k) as [H1|H1].
    - exfalso. destruct (Tk r ltac:(lia)) as (A1 & A2).
      apply R4; [simpl in B; lia | lia|]. unfold L. rewrite at_slice by lia. exact A2.
    - destruct (Z.eq_dec r k) as [|H2]; [assumption | exfalso].
      assert (A : L.[k] = sp) by (apply R3; lia).
      unfold L in A. rewrite at_slice in A by lia.
      apply (Sk ltac:(lia) ltac:(lia)). exact A. }
  rewrite E. apply from_slice; lia.
Qed.

(** A line that starts a list item is no heading. *)
Lemma prefix_first_byte chunk :
  0 < uliPrefix chunk \/ 0 < oliPrefix chunk \/ 0 < dliPrefix chunk ->
  0 < len chunk /\ chunk.[0] <> c_hash /\ chunk.[0] <> c_dot.
Proof.
  intros [H | [H | H]].
  - destruct (uliPrefix_shape _ H) as (k & m & w & rest & Hk & Hm & Hw & ->).
    rewrite len_app, len_repeat, len_cons. pose proof (len_nonneg (w :: rest)).
    split; [lia|].
    destruct k as [|k]; cbn; [destruct Hm as [-> | [-> | ->]]|]; split; discriminate.
  - destruct (oliPrefix_shape _ H) as (k & digits & c & w & rest & P).
    destruct P as (Hk & Hne & Hd & Hc & Hw & ->).
    rewrite len_app, len_repeat, len_app. pose proof (len_nonneg (c :: w :: rest)).
    destruct digits as [|x digits]; [contradiction|].
    rewrite len_cons. pose proof (len_nonneg digits). split; [lia|].
    destruct k as [|k]; cbn; [|split; discriminate].
    inversion Hd as [|? ? Hx _]. unfold is_digit in Hx.
    change ((x :: digits ++ c :: w :: rest).[0]) with x.
    change c_0 with 48 in Hx. change c_9 with 57 in Hx.
    split; intros ->; discriminate Hx.
  - unfold dliPrefix in H. destruct (Z.ltb_spec (len chunk) 2); [lia|].
    destruct (_ || _) eqn:E; [lia|].
    apply orb_false_elim in E. destruct E as (E1 & _).
    apply negb_false_iff, Z.eqb_eq in E1. rewrite E1.
    split; [lia|]. split; discriminate.
Qed.

Lemma prefix_not_heading ext chunk :
  0 < uliPrefix chunk \/ 0 < oliPrefix chunk \/ 0 < dliPrefix chunk ->
  isPrefixHeading ext chunk || isPrefixSpecialHeading ext chunk = false.
Proof.
  intro H. destruct (prefix_first_byte chunk H) as (L & H1 & H2).
  unfold isPrefixHeading, isPrefixSpecialHeading.
  apply Z.eqb_neq in H1, H2. rewrite H1, H2.
  replace (len chunk >? 0) with true by (symmetry; apply Z.gtb_lt; lia). cbn.
  destruct (Z.lor ext Mmark =? 0); [reflexivity|].
  destruct (len chunk <? 4); reflexivity.
Qed.

(** A line that starts an unordered or ordered item behind up to three
    spaces starts one for [listItem] as well. *)
Lemma prefix_full_line d line i k :
  0 <= line -> 0 <= k <= 3 -> line + k < i -> i <= len d ->
  (forall j, 0 <= j < k -> d.[line + j] = sp) -> d.[line + k] <> sp ->
  (0 < uliPrefix (slice d (line + k) i) -> 0 < uliPrefix (from d line)) /\
  (0 < oliPrefix (slice d (line + k) i) -> 0 < oliPrefix (from d line)).
Proof.
  intros H0 Hk Hl Hi Hs Hn.
  assert (E : from d line = repeat sp (Z.to_nat k) ++ slice d (line + k) i ++ from d i).
  { rewrite (from_slice_app d line (line + k)) by lia.
    rewrite (from_slice_app d (line + k) i) by lia. f_equal.
    unfold slice. replace (line + k - line) with k by lia.
    apply upto_repeat.
    - rewrite len_from by lia. lia.
    - intros j Hj. rewrite at_from by lia. now apply Hs. }
  assert (C0 : (slice d (line + k) i).[0] <> sp)
    by (rewrite at_slice, Z.add_0_r by lia; exact Hn).
  split; intro H.
  - destruct (uliPrefix_shape _ H) as (k' & m & w & rest & Hk' & Hm & Hw & Ec).
    destruct k' as [|k']; [|exfalso; apply C0; rewrite Ec; reflexivity].
    cbn [repeat app] in Ec. rewrite E, Ec. cbn [app].
    rewrite uliPrefix_value by (auto; lia). lia.
  - destruct (oliPrefix_shape _ H) as (k' & digits & c & w & rest & P).
    destruct P as (Hk' & Hne & Hd & Hc & Hw & Ec).
    destruct k' as [|k']; [|exfalso; apply C0; rewrite Ec; reflexivity].
    cbn [repeat app] in Ec.
    rewrite (oliPrefix_value (from d line) (Z.to_nat k) digits c w (rest ++ from d i)).
    + pose proof (len_nonneg digits). lia.
    + repeat split; auto; [lia|]. rewrite E, Ec, <- !app_assoc. reflexivity.
Qed.

(** [loosens] at the start of a line that [gatherlines] reads. *)
Lemma loosens_line ext d line :
  0 < line < len d -> d.[line - 1] = nl ->
  let i := advance (length d)
             (fun i => (i <? len d) && negb (d.[i - 1] =? nl)) (line + 1) in
  loosens ext d line
  = negb (IsEmpty (slice d line i) >? 0)
    && ((IsEmpty (slice d (prev_start d line) line) >? 0)
        || heading_line ext (slice d line i)).
Proof.
  intros Hl Hn i. unfold loosens.
  replace (0 <? line) with true by (symmetry; apply Z.ltb_lt; lia).
  replace (line <? len d) with true by (symmetry; apply Z.ltb_lt; lia).
  rewrite Hn, Z.eqb_refl. cbn [andb].
  rewrite IsEmpty_cut by lia. rewrite line_of_cut by lia. reflexivity.
Qed.

Lemma loosens_inside ext d b : d.[b - 1] <> nl -> loosens ext d b = false.
Proof.
  intro H. unfold loosens. apply Z.eqb_neq in H. rewrite H.
  now rewrite !andb_false_r.
Qed.

(** One turn of [gatherlines] in a list that is not a definition list:
    whether it sets [ListItemContainsBlock] is told by [loosens]. *)
Lemma gather_step_loose ext d itemIndent g brk g' :
  gather_step ext d false itemIndent g = Ok (brk, g') ->
  has (g_flags g) ListTypeDefinition = false ->
  g_i g = g_line g -> 0 < g_line g < len d -> d.[g_line g - 1] = nl ->
  itemIndent <= 3 ->
  g_containsBlankLine g
  = (IsEmpty (slice d (prev_start d (g_line g)) (g_line g)) >? 0) ->
  let line := g_line g in
  let i := advance (length d)
             (fun i => (i <? len d) && negb (d.[i - 1] =? nl)) (line + 1) in
  has (g_flags g') ListTypeDefinition = false /\
  if brk then
    g_line g' = line /\
    ((has (g_flags g') ListItemEndOfList = true /\
      has (g_flags g') ListItemContainsBlock = has (g_flags g) ListItemContainsBlock) \/
     (has (g_flags g') ListItemEndOfList = has (g_flags g) ListItemEndOfList /\
      has (g_flags g') ListItemContainsBlock
      = has (g_flags g) ListItemContainsBlock || loosens ext d line /\
      (0 < uliPrefix (from d line) \/ 0 < oliPrefix (from d line))))
  else
    g_line g' = i /\ g_i g' = i /\
    has (g_flags g') ListItemEndOfList = has (g_flags g) ListItemEndOfList /\
    has (g_flags g') ListItemContainsBlock
    = has (g_flags g) ListItemContainsBlock || loosens ext d line /\
    g_containsBlankLine g' = (IsEmpty (slice d line i) >? 0).
Proof.
  intros H Hd Hgi Hl Hnl Hii Hc line i.
  pose proof (line_end_spec d (g_line g) ltac:(lia)) as (E1 & E2 & E3).
  fold line i in E1, E2, E3.
  pose proof (loosens_line ext d line ltac:(unfold line; lia) Hnl) as EL.
  cbv zeta in EL. fold i in EL. fold line in Hc. rewrite <- Hc in EL.
  unfold gather_step in H. rewrite Hgi in H. fold line i in H.
  destruct (IsEmpty (slice d line i) >? 0) eqn:Ebl.
  { injection H as <- <-. cbn [g_flags g_line g_i g_containsBlankLine].
    split; [exact Hd|]. rewrite EL. cbn [negb andb]. rewrite orb_false_r. auto. }
  cbn [negb andb] in EL. cbn [negb andb] in H.
  (* the chunk is the line without its indentation *)
  assert (CH : exists indent indentIndex,
    (if d.[line] =? tab then (4, 1)
     else (advance 4 (fun k => (k <? 4) && (line + k <? i) && (d.[line + k] =? sp)) 0,
           advance 4 (fun k => (k <? 4) && (line + k <? i) && (d.[line + k] =? sp)) 0))
    = (indent, indentIndex) /\
    slice d (line + indentIndex) i = unindent (slice d line i) /\
    (indent <= 3 ->
     indentIndex = indent /\ 0 <= indent /\ line + indent <= i /\
     (forall j, 0 <= j < indent -> d.[line + j] = sp) /\
     (line + indent < i -> d.[line + indent] <> sp))).
  { destruct (Z.eqb_spec d.[line] tab) as [Et|Et].
    - exists 4, 1. split; [reflexivity|]. split; [|lia].
      symmetry. apply unindent_tab; auto; unfold line; lia.
    - destruct (unindent_spaces d line i ltac:(unfold line; lia) ltac:(lia) ltac:(lia) Et)
        as (U1 & U2 & U3 & U4 & U5).
      eexists _, _. split; [reflexivity|]. split; [now symmetry|].
      intro H3. repeat split; auto; try lia; try (intro X; apply U5; lia). }
  destruct CH as (indent & indentIndex & Epair & Ech & Hind).
  rewrite Epair in H. clear Epair.
  unfold heading_line in EL. rewrite <- Ech in EL.
  set (chunk := slice d (line + indentIndex) i) in *.
  set (flags := g_flags g) in *. set (cBL := g_containsBlankLine g) in *.
  assert (EOL : has (Z.lor flags ListItemEndOfList) ListTypeDefinition = false)
    by (rewrite has_lor by reflexivity; exact Hd).
  assert (EOL1 : has (Z.lor flags ListItemEndOfList) ListItemEndOfList = true)
    by (apply has_lor_same; discriminate).
  assert (EOL2 : has (Z.lor flags ListItemEndOfList) ListItemContainsBlock
                 = has flags ListItemContainsBlock)
    by (apply has_lor; reflexivity).
  assert (CB : has (Z.lor flags ListItemContainsBlock) ListTypeDefinition = false)
    by (rewrite has_lor by reflexivity; exact Hd).
  assert (CB1 : has (Z.lor flags ListItemContainsBlock) ListItemContainsBlock = true)
    by (apply has_lor_same; discriminate).
  assert (CB2 : has (Z.lor flags ListItemContainsBlock) ListItemEndOfList
                = has flags ListItemEndOfList)
    by (apply has_lor; reflexivity).
  destruct (has ext FencedCode && (fst (fst (isFenceLine chunk [])) >? 0) && (indent =? 0)).
  { injection H as <- <-. cbn [g_flags g_line]. split; [exact EOL|].
    split; [reflexivity|]. left. auto. }
  apply bind_Ok in H. destruct H as (hr & Hhr & H).
  destruct ((uliPrefix chunk >? 0) && negb hr || (oliPrefix chunk >? 0)
            || (dliPrefix chunk >? 0)) eqn:Epc.
  - (* a list item line *)
    assert (Hpfx : 0 < uliPrefix chunk \/ 0 < oliPrefix chunk \/ 0 < dliPrefix chunk).
    { apply orb_prop in Epc. destruct Epc as [Epc | Epc]; [|right; right; lia].
      apply orb_prop in Epc. destruct Epc as [Epc | Epc]; [|right; left; lia].
      apply andb_prop in Epc. left. lia. }
    rewrite (prefix_not_heading ext chunk Hpfx), orb_false_r in EL.
    destruct (Z.leb_spec indent itemIndent) as [Hle|Hgt].
    + destruct (Hind ltac:(lia)) as (-> & I0 & I1 & I2 & I3).
      assert (E4 : (indent >=? 4) = false) by (rewrite Z.geb_leb; apply Z.leb_gt; lia).
      rewrite E4 in H.
      cbn [andb] in H.
      destruct (listTypeChanged chunk flags) eqn:Etc.
      * injection H as <- <-. cbn [g_flags g_line]. split; [exact EOL|].
        split; [reflexivity|]. left. auto.
      * assert (Hfull : 0 < uliPrefix (from d line) \/ 0 < oliPrefix (from d line)).
        { unfold listTypeChanged in Etc. rewrite Hd in Etc. cbn [negb] in Etc.
          rewrite andb_true_r in Etc.
          destruct (dliPrefix chunk >? 0) eqn:Ed; [discriminate Etc|].
          assert (Lc : line + indent < i).
          { destruct (prefix_first_byte chunk Hpfx) as (Lc & _).
            unfold chunk in Lc.
            destruct (Z_lt_ge_dec (line + indent) i) as [|Hge]; [assumption|].
            replace i with (line + indent) in Lc by lia.
            rewrite slice_empty, len_nil in Lc. lia. }
          destruct (prefix_full_line d line i indent ltac:(unfold line; lia) ltac:(lia)
                      Lc ltac:(lia) I2 (I3 Lc)) as (PU & PO).
          destruct Hpfx as [Hp | [Hp | Hp]]; [left; now apply PU | right; now apply PO | lia]. }
        destruct cBL eqn:EcBL; injection H as <- <-; cbn [g_flags g_line];
          (split; [first [exact CB | exact Hd]|]); (split; [reflexivity|]); right;
          rewrite EL.
        -- rewrite CB1, CB2, orb_true_r. auto.
        -- rewrite orb_false_r. auto.
    + (* a nested item *)
      destruct cBL eqn:EcBL; injection H as <- <-;
        cbn [g_flags g_line g_i g_containsBlankLine];
        (split; [first [exact CB | exact Hd]|]); rewrite EL.
      * rewrite CB1, CB2, orb_true_r. auto.
      * rewrite orb_false_r. auto.
  - destruct (isPrefixHeading ext chunk || isPrefixSpecialHeading ext chunk) eqn:Ehd.
    + (* a heading line *)
      destruct (cBL && (indent <? 4)) eqn:Ecb.
      * injection H as <- <-. cbn [g_flags g_line]. split; [exact EOL|].
        split; [reflexivity|]. left. auto.
      * injection H as <- <-. cbn [g_flags g_line g_i g_containsBlankLine].
        split; [exact CB|]. rewrite EL, CB1, CB2, !orb_true_r. auto.
    + rewrite orb_false_r in EL.
      destruct cBL eqn:EcBL; cbn [andb] in H.
      * destruct (indent <? 4).
        -- rewrite Hd in H. cbn [andb] in H.
           injection H as <- <-. cbn [g_flags g_line]. split; [exact EOL|].
           split; [reflexivity|]. left. auto.
        -- injection H as <- <-. cbn [g_flags g_line g_i g_containsBlankLine].
           split; [exact CB|]. rewrite EL, CB1, CB2, orb_true_r. auto.
      * injection H as <- <-. cbn [g_flags g_line g_i g_containsBlankLine].
        split; [exact Hd|]. rewrite EL, orb_false_r. auto.
Qed.

(** The lines that [gatherlines] reads for one item. *)
Lemma gatherlines_loose ext d itemIndent : forall fuel g gf,
  gatherlines fuel ext d false itemIndent g = Ok gf ->
  itemIndent <= 3 ->
  has (g_flags g) ListTypeDefinition = false ->
  has (g_flags g) ListItemEndOfList = false ->
  g_i g = g_line g -> 0 < g_line g <= len d ->
  (g_line g < len d ->
   d.[g_line g - 1] = nl /\
   g_containsBlankLine g
   = (IsEmpty (slice d (prev_start d (g_line g)) (g_line g)) >? 0)) ->
  g_line g <= g_line gf <= len d /\
  (g_line gf < len d -> d.[g_line gf - 1] = nl) /\
  has (g_flags gf) ListTypeDefinition = false /\
  (has (g_flags gf) ListItemContainsBlock = true <->
   has (g_flags g) ListItemContainsBlock = true \/
   (exists b, g_line g <= b < g_line gf /\ loosens ext d b = true) \/
   (has (g_flags gf) ListItemEndOfList = false /\ g_line gf < len d /\
    loosens ext d (g_line gf) = true)) /\
  (has (g_flags gf) ListItemEndOfList = false -> g_line gf < len d ->
   0 < uliPrefix (from d (g_line gf)) \/ 0 < oliPrefix (from d (g_line gf))).
Proof.
  induction fuel as [|f IH]; intros g gf H Hii Hd He Hgi Hl Hinv; simpl in H;
    [discriminate|].
  destruct (Z.ltb_spec (g_line g) (len d)) as [Hlt|Hge].
  2:{ injection H as <-. split; [lia|]. split; [intro; lia|]. split; [exact Hd|].
      split; [|intros; lia]. split; [auto|].
      intros [X | [(b & Hb & _) | (_ & X & _)]]; [exact X | lia | lia]. }
  destruct (Hinv Hlt) as (Hnl & Hc).
  apply bind_Ok in H. destruct H as ([brk g1] & E & H).
  apply gather_step_loose in E; auto; try lia. cbv zeta in E.
  pose proof (line_end_spec d (g_line g) ltac:(lia)) as (E1 & E2 & E3).
  set (i := advance (length d)
              (fun i => (i <? len d) && negb (d.[i - 1] =? nl)) (g_line g + 1)) in *.
  destruct E as (Hd1 & E). destruct brk.
  - injection H as <-. destruct E as (L1 & E). rewrite L1.
    split; [lia|]. split; [auto|]. split; [exact Hd1|].
    destruct E as [(X1 & X2) | (X1 & X2 & X3)].
    + split; [|intro Y; rewrite X1 in Y; discriminate Y].
      rewrite X2. split; [auto|].
      intros [X | [(b & Hb & _) | (Y & _)]]; [exact X | lia|].
      rewrite X1 in Y. discriminate Y.
    + split; [|auto]. rewrite X2, orb_true_iff. split.
      * intros [X | X]; [now left | right; right]. rewrite X1. auto.
      * intros [X | [(b & Hb & _) | (_ & _ & Y)]]; [now left | lia | now right].
  - destruct E as (L1 & I1 & X1 & X2 & X3).
    assert (Hps : i < len d -> prev_start d i = g_line g).
    { intro Hi. apply prev_start_eq; [lia | right; exact Hnl | exact E2]. }
    apply IH in H; auto; try lia.
    + destruct H as (A1 & A2 & A3 & A4 & A5). rewrite L1 in *.
      split; [lia|]. split; [exact A2|]. split; [exact A3|]. split; [|exact A5].
      rewrite A4, X2, orb_true_iff. split.
      * intros [[X | X] | [(b & Hb & Y) | Y]].
        -- now left.
        -- right. left. exists (g_line g). split; [lia | exact X].
        -- right. left. exists b. split; [lia | exact Y].
        -- right. right. exact Y.
      * intros [X | [(b & Hb & Y) | Y]].
        -- left. now left.
        -- destruct (Z.eq_dec b (g_line g)) as [->|Hne]; [left; now right|].
           destruct (Z_lt_ge_dec b i) as [Hbi|Hbi].
           ++ exfalso. rewrite (loosens_inside ext d b) in Y; [discriminate Y|].
              apply E2. lia.
           ++ right. left. exists b. split; [lia | exact Y].
        -- right. right. exact Y.
    + congruence.
    + rewrite L1. intro Hi. split; [apply E3; exact Hi|].
      rewrite X3, (Hps Hi). reflexivity.
Qed.

Lemma isHRule_spaces_le3 data : forall fuel i r,
  isHRule_spaces fuel data i = Ok r -> i <= 3 -> r <= 3.
Proof.
  induction fuel as [|f IH]; intros i r H Hi; simpl in H; [injection H as <-; lia|].
  destruct (Z.ltb_spec i 3); [|injection H as <-; lia].
  apply bind_Ok in H. destruct H as (x & _ & H).
  destruct (x =? sp); [apply IH in H; lia | injection H as <-; lia].
Qed.

Lemma prefix_not_tab d :
  0 < uliPrefix d \/ 0 < oliPrefix d \/ 0 < dliPrefix d -> d.[0] <> tab.
Proof.
  intros [H | [H | H]].
  - destruct (uliPrefix_shape _ H) as (k & m & w & rest & Hk & Hm & Hw & ->).
    destruct k as [|k]; cbn; [destruct Hm as [-> | [-> | ->]]|]; discriminate.
  - destruct (oliPrefix_shape _ H) as (k & digits & c & w & rest & P).
    destruct P as (Hk & Hne & Hd & Hc & Hw & ->).
    destruct digits as [|x digits]; [contradiction|].
    destruct k as [|k]; cbn; [|discriminate].
    inversion Hd as [|? ? Hx _]. unfold is_digit in Hx.
    change ((x :: digits ++ c :: w :: rest).[0]) with x.
    change c_0 with 48 in Hx. change c_9 with 57 in Hx.
    intros ->. discriminate Hx.
  - unfold dliPrefix in H. destruct (Z.ltb_spec (len d) 2); [lia|].
    destruct (_ || _) eqn:E; [lia|].
    apply orb_false_elim in E. destruct E as (E1 & _).
    apply negb_false_iff, Z.eqb_eq in E1. rewrite E1. discriminate.
Qed.

(** The first line of an item: it ends at a line end and is not blank. *)
Lemma item_first_line d pfx :
  0 < pfx <= len d -> (forall j, 0 <= j < pfx -> d.[j] <> nl) ->
  (exists j, 0 <= j < pfx /\ ~ blank d.[j]) ->
  let l1 := advance (length d)
              (fun i => (0 <? i) && (i <? len d) && negb (d.[i - 1] =? nl))
              (skipChar d pfx sp) in
  0 < l1 <= len d /\ (l1 < len d -> d.[l1 - 1] = nl) /\
  (IsEmpty (slice d (prev_start d l1) l1) >? 0) = false.
Proof.
  intros Hp Hn (m & Hm & Hmark) l1.
  set (cond := fun i => (0 <? i) && (i <? len d) && negb (d.[i - 1] =? nl)) in *.
  pose proof (skipChar_le d pfx sp ltac:(lia)) as Sk.
  pose proof (skipChar_line d pfx) as SL.
  set (s := skipChar d pfx sp) in *.
  pose proof (advance_bounds cond (length d) s) as B. fold l1 in B.
  assert (T : forall j, s <= j < l1 -> j < len d /\ d.[j - 1] <> nl).
  { intros j Hj. pose proof (advance_true cond (length d) s j Hj) as X.
    unfold cond in X. apply andb_prop in X. destruct X as (X1 & X2).
    apply andb_prop in X1. destruct X1 as (_ & X1).
    apply negb_true_iff, Z.eqb_neq in X2. split; [lia | exact X2]. }
  assert (St : cond l1 = false).
  { apply advance_stop_bounded with (n := len d).
    - intros j Hj. unfold cond in Hj. lia.
    - unfold len. lia. }
  assert (L : l1 <= len d).
  { destruct (Z.eq_dec l1 s); [lia|]. destruct (T (l1 - 1) ltac:(lia)). lia. }
  assert (N : forall j, 0 <= j < l1 - 1 -> d.[j] <> nl).
  { intros j Hj. destruct (Z_lt_ge_dec j s) as [H1|H1]; [apply SL; auto; lia|].
    destruct (T (j + 1) ltac:(lia)) as (_ & X).
    now replace (j + 1 - 1) with j in X by lia. }
  assert (E : l1 < len d -> d.[l1 - 1] = nl).
  { intro Hl. unfold cond in St.
    replace (0 <? l1) with true in St by (symmetry; apply Z.ltb_lt; lia).
    replace (l1 <? len d) with true in St by (symmetry; apply Z.ltb_lt; lia).
    cbn [andb] in St. now apply negb_false_iff, Z.eqb_eq in St. }
  split; [lia|]. split; [exact E|].
  rewrite (prev_start_eq d 0 l1) by (auto; lia).
  rewrite Z.gtb_ltb. apply Z.ltb_ge.
  assert (Z0 : IsEmpty (slice d 0 l1) = 0); [|lia].
  apply IsEmpty_zero. intros (ws & F & S).
  assert (Ls : len (slice d 0 l1) = l1) by (rewrite len_slice; lia).
  assert (As : forall j, 0 <= j < l1 -> (slice d 0 l1).[j] = d.[j])
    by (intros j Hj; rewrite at_slice by lia; f_equal; lia).
  pose proof (len_nonneg ws) as Hw.
  rewrite Forall_at in F.
  destruct S as [(rest & S) | (S & _)].
  - assert (Lw : len ws < l1).
    { rewrite <- Ls, S, len_app, len_cons. pose proof (len_nonneg rest). lia. }
    assert (Nw : d.[len ws] = nl).
    { rewrite <- As, S, at_app_r, Z.sub_diag by lia. reflexivity. }
    assert (Hlw : l1 - 1 <= len ws).
    { destruct (Z_le_gt_dec (l1 - 1) (len ws)); [assumption|].
      exfalso. apply (N (len ws)); [lia | exact Nw]. }
    assert (Hmw : m < len ws).
    { destruct (Z.eq_dec m (len ws)) as [X|]; [|lia].
      exfalso. apply (Hn m); [lia|]. now rewrite X. }
    apply Hmark. rewrite <- As, S, at_app_l by lia. apply F. lia.
  - apply Hmark. rewrite <- As, S by lia. apply F. rewrite <- S, Ls. lia.
Qed.

(** [listItem] in a list that is not a definition list: a prefix, an
    indentation of at most three spaces, the first line, then
    [gatherlines]. *)
Lemma listItem_scan_start ext d flags sc :
  listItem_scan ext d flags = Ok (Some sc) ->
  has flags ListTypeDefinition = false ->
  exists pfx fl itemIndent g,
    0 < pfx /\ (pfx = uliPrefix d \/ pfx = oliPrefix d \/ pfx = dliPrefix d) /\
    itemIndent <= 3 /\
    has fl ListTypeDefinition = false /\
    has fl ListItemContainsBlock = has flags ListItemContainsBlock /\
    has fl ListItemEndOfList = has flags ListItemEndOfList /\
    gatherlines (S (length d)) ext d false itemIndent
      {| g_i := advance (length d)
                  (fun i => (0 <? i) && (i <? len d) && negb (d.[i - 1] =? nl))
                  (skipChar d pfx sp);
         g_line := advance (length d)
                  (fun i => (0 <? i) && (i <? len d) && negb (d.[i - 1] =? nl))
                  (skipChar d pfx sp);
         g_raw := slice d (skipChar d pfx sp)
                    (advance (length d)
                       (fun i => (0 <? i) && (i <? len d) && negb (d.[i - 1] =? nl))
                       (skipChar d pfx sp));
         g_containsBlankLine := false; g_sublist := 0; g_flags := fl |} = Ok g /\
    scan_line sc = g_line g /\ scan_flags sc = g_flags g.
Proof.
  intros H Hd.
  assert (Hpre : 0 < uliPrefix d \/ 0 < oliPrefix d \/ 0 < dliPrefix d).
  { pose proof (listItem_scan_inv _ _ _ _ H)
      as (pfx & fl & ii & g & _ & _ & (P & _) & _).
    destruct (P Hd) as (P0 & [-> | [-> | ->]]); auto. }
  pose proof (prefix_not_tab d Hpre) as Htab.
  unfold listItem_scan in H. rewrite Hd in H.
  apply bind_Ok in H. destruct H as (d0 & Hget & H).
  apply bind_Ok in H. destruct H as (itemIndent & Hii & H).
  assert (I3 : itemIndent <= 3).
  { unfold get, index in Hget.
    destruct ((0 <=? 0) && (0 <? len d)); [|discriminate Hget].
    injection Hget as <-. apply Z.eqb_neq in Htab. rewrite Htab in Hii.
    apply isHRule_spaces_le3 in Hii; lia. }
  pose proof (uliPrefix_nonneg d) as U. pose proof (oliPrefix_nonneg d) as O.
  pose proof (dliPrefix_nonneg d) as D.
  destruct (uliPrefix d =? 0) eqn:Eu;
    [destruct (oliPrefix d >? 0) eqn:Eo|];
    cbv beta iota zeta in H;
    repeat match type of H with
           | context [if ?c then _ else _] =>
               match c with
               | context [dliPrefix] => destruct c eqn:?
               | context [Z.eqb] => destruct c eqn:?
               | context [negb] => destruct c eqn:?
               end; cbv beta iota zeta in H
           end;
    try discriminate;
    apply bind_Ok in H; destruct H as (g & Hg & H); injection H as <-;
    match type of Hg with
    | gatherlines _ _ _ _ ?ii
        (Build_Gather (advance _ _ (skipChar _ ?pfx _)) _ _ _ _ ?fl) = _ =>
        exists pfx, fl, ii, g
    end;
    (split; [lia|]); (split; [auto|]); (split; [exact I3|]);
    (split; [rewrite ?has_lor, ?has_land_lnot by reflexivity; exact Hd|]);
    (split; [rewrite ?has_lor, ?has_land_lnot by reflexivity; reflexivity|]);
    (split; [rewrite ?has_lor, ?has_land_lnot by reflexivity; reflexivity|]);
    (split; [exact Hg | split; reflexivity]).
Qed.

(** One item of a list that is not a definition list: where its scan
    ends, and which lines leave [ListItemContainsBlock] in the flags. *)
Lemma listItem_scan_loose ext d flags sc :
  listItem_scan ext d flags = Ok (Some sc) ->
  has flags ListTypeDefinition = false ->
  has flags ListItemEndOfList = false ->
  0 < scan_line sc <= len d /\
  (scan_line sc < len d -> d.[scan_line sc - 1] = nl) /\
  has (scan_flags sc) ListTypeDefinition = false /\
  (has (scan_flags sc) ListItemContainsBlock = true <->
   has flags ListItemContainsBlock = true \/
   (exists b, 0 < b < scan_line sc /\ loosens ext d b = true) \/
   (has (scan_flags sc) ListItemEndOfList = false /\ scan_line sc < len d /\
    loosens ext d (scan_line sc) = true)) /\
  (has (scan_flags sc) ListItemEndOfList = false -> scan_line sc < len d ->
   0 < uliPrefix (from d (scan_line sc)) \/ 0 < oliPrefix (from d (scan_line sc))).
Proof.
  intros H Hd He.
  destruct (listItem_scan_start ext d flags sc H Hd)
    as (pfx & fl & ii & g & P0 & P1 & I3 & Fd & Fc & Fe & G & -> & ->).
  assert (Hle : pfx <= len d).
  { pose proof (uliPrefix_le d). pose proof (oliPrefix_le d). pose proof (dliPrefix_le d).
    destruct P1 as [-> | [-> | ->]]; assumption. }
  assert (Hnl : forall j, 0 <= j < pfx -> d.[j] <> nl).
  { destruct P1 as [-> | [-> | ->]];
      [apply uliPrefix_line | apply oliPrefix_line | apply dliPrefix_line]. }
  assert (Hmark : exists j, 0 <= j < pfx /\ ~ blank d.[j]).
  { destruct P1 as [-> | [-> | ->]];
      [apply uliPrefix_mark | apply oliPrefix_mark | apply dliPrefix_mark]; exact P0. }
  destruct (item_first_line d pfx ltac:(lia) Hnl Hmark) as (L1 & L2 & L3).
  set (l1 := advance (length d)
               (fun i => (0 <? i) && (i <? len d) && negb (d.[i - 1] =? nl))
               (skipChar d pfx sp)) in *.
  assert (N1 : forall b, 0 < b < l1 -> loosens ext d b = false).
  { intros b Hb. apply loosens_inside.
    destruct (prev_start_spec d l1 ltac:(lia)) as (_ & _ & N).
    assert (P : prev_start d l1 = 0).
    { apply prev_start_eq; [lia | now left|].
      intros j Hj. destruct (Z_lt_ge_dec j (skipChar d pfx sp)) as [H1|H1].
      - apply (skipChar_line d pfx); auto. lia.
      - pose proof (advance_true
                      (fun i => (0 <? i) && (i <? len d) && negb (d.[i - 1] =? nl))
                      (length d) (skipChar d pfx sp) (j + 1) ltac:(fold l1; lia)) as X.
        cbv beta in X. apply andb_prop in X. destruct X as (_ & X).
        replace (j + 1 - 1) with j in X by lia.
        now apply negb_true_iff, Z.eqb_neq in X. }
    rewrite P in N. apply N. lia. }
  apply gatherlines_loose in G; auto; cbn [g_flags g_line g_i g_containsBlankLine] in *;
    try lia; try congruence.
  - destruct G as (A1 & A2 & A3 & A4 & A5).
    split; [lia|]. split; [exact A2|]. split; [exact A3|]. split; [|exact A5].
    rewrite A4, Fc. split.
    + intros [X | [(b & Hb & Y) | Y]]; [now left | | now right; right].
      right. left. exists b. split; [lia | exact Y].
    + intros [X | [(b & Hb & Y) | Y]]; [now left | | now right; right].
      destruct (Z_lt_ge_dec b l1) as [Hlt|Hge].
      * rewrite N1 in Y by lia. discriminate Y.
      * right. left. exists b. split; [lia | exact Y].
Qed.

(** [loosens] in the rest of the buffer from the start of a line and in
    the buffer. *)
Lemma loosens_from ext data i b :
  0 <= i <= len data -> (i = 0 \/ data.[i - 1] = nl) -> 0 < b ->
  loosens ext (from data i) b = loosens ext data (i + b).
Proof.
  intros Hi Hs Hb. unfold loosens.
  rewrite len_from by lia. rewrite at_from by lia. rewrite from_from by lia.
  replace (0 <? b) with true by (symmetry; apply Z.ltb_lt; lia).
  replace (0 <? i + b) with true by (symmetry; apply Z.ltb_lt; lia).
  replace (b <? len data - i) with (i + b <? len data).
  2:{ destruct (Z.ltb_spec (i + b) (len data)); destruct (Z.ltb_spec b (len data - i));
        (reflexivity || lia). }
  replace (i + (b - 1)) with (i + b - 1) by lia.
  destruct (Z.ltb_spec (i + b) (len data)) as [Hl|Hl]; [|reflexivity].
  cbn [andb]. f_equal. f_equal.
  destruct (prev_start_spec (from data i) b ltac:(lia)) as (B & S & N).
  set (a := prev_start (from data i) b) in *.
  assert (P : prev_start data (i + b) = i + a).
  { apply prev_start_eq; [lia| |].
    - destruct (Z.eq_dec a 0) as [A0|A0]; [rewrite A0, Z.add_0_r; exact Hs|].
      destruct S as [S | S]; [contradiction|].
      + right. rewrite at_from in S by lia.
        now replace (i + (a - 1)) with (i + a - 1) in S by lia.
    - intros j Hj. specialize (N (j - i) ltac:(lia)).
      rewrite at_from in N by lia. now replace (i + (j - i)) with j in N by lia. }
  rewrite P. unfold slice. rewrite from_from by lia.
  replace (i + b - (i + a)) with (b - a) by lia. reflexivity.
Qed.

Section ListLoose.
Variable C : Collaborators.
Hypothesis wbC : well_behaved C.
Variable blk : bytes -> Parser -> res Parser.
Hypothesis blk_frame : forall d q q', blk d q = Ok q' -> frame q q'.

(** The loop of [list] in a list that is not a definition list: an item
    left [ListItemContainsBlock] in the flags exactly when a line that
    [loosens] lies in what the loop consumed. *)
Lemma list_loop_exact lst data : forall fuel p i flags n p',
  list_loop C blk fuel p lst data i flags = Ok (n, p') ->
  has flags ListTypeDefinition = false ->
  has flags ListItemEndOfList = false ->
  0 <= i <= len data -> (i < len data -> i = 0 \/ data.[i - 1] = nl) ->
  i <= n <= len data /\
  (i < len data -> 0 < uliPrefix (from data i) \/ 0 < oliPrefix (from data i) ->
   i < n) /\
  (has flags ListItemContainsBlock = true
   \/ list_loose fuel (extensions p) data i flags = true <->
   has flags ListItemContainsBlock = true
   \/ exists b, i < b < n /\ loosens (extensions p) data b = true).
Proof.
  induction fuel as [|f IH]; intros p i flags n p' H Hd He Hi Hs; simpl in H;
    [discriminate|].
  cbn [list_loose].
  destruct (Z.ltb_spec i (len data)) as [Hlt|Hge].
  2:{ injection H as <- <-. split; [lia|]. split; [intro; lia|].
      split; [intros [X | X]; [now left | discriminate X]|].
      intros [X | (b & Hb & _)]; [now left | lia]. }
  specialize (Hs Hlt).
  apply bind_Ok in H. destruct H as ([[skip fl] p1] & E & H).
  pose proof (listItem_frame C wbC blk blk_frame _ _ _ _ _ _ E) as F.
  assert (Hext : extensions p1 = extensions p) by apply F.
  assert (Lf : len (from data i) = len data - i) by (apply len_from; lia).
  apply listItem_scanned in E.
  destruct E as [(E & -> & ->) | (sc & E & -> & ->)]; rewrite E.
  - rewrite Z.eqb_refl in H. simpl in H. injection H as <- <-.
    split; [lia|]. split.
    + intros _ Hp. exfalso.
      apply (listItem_scan_some (extensions p) (from data i) flags); [tauto | exact E].
    + split; [intros [X | X]; now left|].
      intros [X | (b & Hb & _)]; [now left | lia].
  - cbv zeta.
    destruct (listItem_scan_loose _ _ _ _ E Hd He) as (S1 & S2 & S3 & S4 & S5).
    set (ext := extensions p) in *.
    set (skip := scan_line sc) in *. set (fl := scan_flags sc) in *.
    assert (Hrel : forall b, 0 < b ->
              loosens ext (from data i) b = loosens ext data (i + b))
      by (intros b Hb; apply loosens_from; auto; lia).
    assert (Hitem : has fl ListItemContainsBlock = true <->
              has flags ListItemContainsBlock = true \/
              (exists b, i < b < i + skip /\ loosens ext data b = true) \/
              (has fl ListItemEndOfList = false /\ i + skip < len data /\
               loosens ext data (i + skip) = true)).
    { rewrite S4. split; (intros [X | [(b & Hb & Y) | (X1 & X2 & X3)]]; [now left | |]).
      - right. left. exists (i + b). rewrite <- Hrel by lia. split; [lia | exact Y].
      - right. right. rewrite <- Hrel by lia. repeat split; auto. lia.
      - right. left. exists (b - i). rewrite Hrel by lia.
        replace (i + (b - i)) with b by lia. split; [lia | exact Y].
      - right. right. rewrite Hrel by lia. repeat split; auto. lia. }
    replace (skip =? 0) with false in * by (symmetry; apply Z.eqb_neq; lia).
    cbn [orb] in *.
    destruct (has fl ListItemEndOfList) eqn:Ee.
    + injection H as <- <-. split; [lia|]. split; [intros; lia|].
      rewrite orb_false_r. split.
      * intros [X | X]; [now left|]. apply Hitem in X.
        destruct X as [X | [X | (X & _)]]; [now left | now right | discriminate X].
      * intros [X | X]; [now left | right]. apply Hitem. right. now left.
    + set (p2 := if has fl ListItemContainsBlock
                 then update_node p1 lst clear_tight else p1) in *.
      assert (Hext2 : extensions p2 = ext).
      { unfold p2. destruct (has fl ListItemContainsBlock); auto. }
      set (fl2 := Z.land fl (Z.lnot ListItemBeginningOfList)) in *.
      assert (D2 : has fl2 ListTypeDefinition = false)
        by (unfold fl2; rewrite has_land_lnot by reflexivity; exact S3).
      assert (E2 : has fl2 ListItemEndOfList = false)
        by (unfold fl2; rewrite has_land_lnot by reflexivity; exact Ee).
      assert (C2 : has fl2 ListItemContainsBlock = has fl ListItemContainsBlock)
        by (unfold fl2; apply has_land_lnot; reflexivity).
      apply IH in H; auto; try lia.
      2:{ intro Hl. right. specialize (S2 ltac:(lia)). rewrite at_from in S2 by lia.
          now replace (i + (skip - 1)) with (i + skip - 1) in S2 by lia. }
      destruct H as (B1 & B2 & B3). rewrite Hext2, C2 in B3.
      split; [lia|]. split; [intros; lia|].
      rewrite orb_true_iff. split.
      * assert (G : has fl ListItemContainsBlock = true ->
                    has flags ListItemContainsBlock = true \/
                    (exists b, i < b < n /\ loosens ext data b = true)).
        { intro X. apply Hitem in X.
          destruct X as [X | [(b & Hb & Y) | (X1 & X2 & X3)]]; [now left | right..].
          - exists b. split; [lia | exact Y].
          - exists (i + skip). split; [|exact X3]. split; [lia|].
            apply B2; [exact X2|]. specialize (S5 eq_refl ltac:(lia)).
            rewrite from_from in S5 by lia. exact S5. }
        intros [X | [X | X]]; [now left | now apply G|].
        destruct (proj1 B3 (or_intror X)) as [Y | (b & Hb & Y)]; [now apply G|].
        right. exists b. split; [lia | exact Y].
      * intros [X | (b & Hb & Y)]; [now left | right].
        destruct (Z_lt_ge_dec b (i + skip)) as [H1|H1].
        -- left. apply Hitem. right. left. exists b. split; [lia | exact Y].
        -- destruct (Z.eq_dec b (i + skip)) as [->|H2].
           ++ left. apply Hitem. right. right. repeat split; auto.
              unfold loosens in Y. apply andb_prop in Y. destruct Y as (Y & _).
              apply andb_prop in Y. destruct Y as (Y & _).
              apply andb_prop in Y. destruct Y as (Y & _).
              apply andb_prop in Y. destruct Y as (_ & Y). lia.
           ++ assert (Hb2 : i + skip < b < n) by lia.
              destruct (proj2 B3 (or_intror (ex_intro _ b (conj Hb2 Y))));
                [now left | now right].
Qed.

(** The looseness [list] finds, for a list that is not a definition list
    and with the flags [Block] passes, told on the bytes it consumed. *)
Lemma list_loose_exact p data flags start delim n p' :
  list_ C blk p data flags start delim = Ok (n, p') ->
  has flags ListTypeDefinition = false ->
  has flags ListItemContainsBlock = false ->
  has flags ListItemEndOfList = false ->
  0 <= n <= len data /\
  (list_loose (S (length data)) (extensions p) data 0
     (Z.lor flags ListItemBeginningOfList) = true <->
   exists b, 0 < b < n /\ loosens (extensions p) data b = true).
Proof.
  intros H Hd Hc He. unfold list_ in H.
  apply bind_Ok in H. destruct H as ([block p1] & A & H).
  unfold list_body in H. apply bind_Ok in H. destruct H as ([i q] & L & H).
  apply bind_Ok in H. destruct H as (q' & Fin & H).
  pose proof (finalizeList_id _ _ _ Fin) as ->. injection H as <- <-.
  pose proof (AddBlock_spec C wbC _ _ _ _ A) as (F1 & B1 & _ & D).
  assert (Hext : extensions p1 = extensions p) by apply F1.
  set (fl := Z.lor flags ListItemBeginningOfList) in *.
  assert (D2 : has fl ListTypeDefinition = false)
    by (unfold fl; rewrite has_lor by reflexivity; exact Hd).
  assert (E2 : has fl ListItemEndOfList = false)
    by (unfold fl; rewrite has_lor by reflexivity; exact He).
  assert (C2 : has fl ListItemContainsBlock = false)
    by (unfold fl; rewrite has_lor by reflexivity; exact Hc).
  pose proof (len_nonneg data) as Hn.
  apply list_loop_exact in L; auto; try lia.
  destruct L as (B & _ & X). rewrite Hext, C2 in X.
  split; [lia|]. split.
  - intro Y. destruct (proj1 X (or_intror Y)) as [Z0 | Z0]; [discriminate Z0 | exact Z0].
  - intro Y. destruct (proj2 X (or_intror Y)) as [Z0 | Z0]; [discriminate Z0 | exact Z0].
Qed.

End ListLoose.

(** C3 (amended): the [Tight] flag [list] leaves on the node it adds, for
    a list that is not a definition list and with the flags [Block]
    passes.  The list is loose exactly when, among the lines it consumes,
    some line other than the first is not blank and either follows a
    blank line or is a prefix heading behind its indentation; otherwise
    it is tight, whatever comes after the list.  In particular, an item
    other than the first that begins right after a blank line makes the
    list loose.  The input ["* a\n* b\n\n* c\n"] gives one [List] with
    [Tight = false] and three [ListItem] children. *)
Theorem list_tightness (C : Collaborators) (depth : nat) (p : Parser)
  (data : bytes) (flags start : Z) (delim : byte) (n : Z) (p' : Parser) :
  well_behaved C ->
  list_ C (Block C depth) p data flags start delim = Ok (n, p') ->
  has flags ListTypeDefinition = false ->
  has flags ListItemContainsBlock = false ->
  has flags ListItemEndOfList = false ->
  let fl := Z.lor flags ListItemBeginningOfList in
  (0 <= n <= len data /\
   exists block tight,
     (length (nodes p) <= block)%nat /\
     data_at p' block = Some (List fl tight start delim) /\
     (tight = false <->
      exists b, 0 < b < n /\ loosens (extensions p) data b = true) /\
     (forall pre0 ws post,
        data = (pre0 ++ [nl]) ++ ws ++ nl :: post ->
        Forall blank ws -> post <> [] ->
        In (len pre0 + 1 + len ws + 1)
           (item_starts (S (length data)) (extensions p) data 0 fl) ->
        tight = false)) /\
  match Block plain 20 (bs "* a\n* b\n\n* c\n") (newParser 0 16) with
  | Ok q =>
      children_data q 0 = [List 16 false 0 c_dot] /\
      children_data q 1 = [ListItem 16 false c_star c_dot;
                           ListItem 8 false c_star c_dot;
                           ListItem 8 false c_star c_dot]
  | _ => False
  end.
Proof.
  intros wb H Hd Hc He fl. split; [|vm_compute; split; reflexivity].
  assert (BF : forall d q q', Block C depth d q = Ok q' -> frame q q')
    by (intros; eapply Block_frame; eauto).
  destruct (list_loose_exact C wb _ BF _ _ _ _ _ _ _ H Hd Hc He) as (Bn & X).
  split; [exact Bn|].
  destruct (list_node C wb _ BF _ _ _ _ _ _ _ H) as (block & Hb & D).
  exists block. eexists. split; [exact Hb|]. split; [exact D|]. split.
  - rewrite negb_false_iff. exact X.
  - intros pre0 ws post -> Hws Hpost Hin. apply negb_false_iff.
    apply list_loose_blank; auto.
    + pose proof (len_nonneg pre0). lia.
    + unfold fl. rewrite has_lor by reflexivity. exact Hd.
Qed.

Lemma list_tightness_witness :
  well_behaved plain /\
  (exists block,
     data_at (snd (returned (list_ plain (Block plain 20) (newParser 0 16)
                               (bs "* a\n* b\n\npara\n") 0 0 c_dot) (0, newParser 0 16)))
       block = Some (List 16 true 0 c_dot)) /\
  (exists block,
     data_at (snd (returned (list_ plain (Block plain 20) (newParser 0 16)
                               (bs "* a\n* b\n\n* c\n") 0 0 c_dot) (0, newParser 0 16)))
       block = Some (List 16 false 0 c_dot)).
Proof.
  split; [exact plain_well_behaved|]. split.
  - destruct (list_tightness plain 20 (newParser 0 16) (bs "* a\n* b\n\npara\n")
                0 0 c_dot 9
                (snd (returned (list_ plain (Block plain 20) (newParser 0 16)
                                  (bs "* a\n* b\n\npara\n") 0 0 c_dot)
                        (0, newParser 0 16)))
                plain_well_behaved ltac:(vm_compute; reflexivity)
                ltac:(reflexivity) ltac:(reflexivity) ltac:(reflexivity))
      as ((_ & block & tight & _ & D & I & _) & _).
    exists block. rewrite D. destruct tight; [reflexivity | exfalso].
    destruct (proj1 I eq_refl) as (b & Hb & Y).
    assert (Cb : b = 1 \/ b = 2 \/ b = 3 \/ b = 4 \/ b = 5 \/ b = 6 \/ b = 7 \/ b = 8)
      by lia.
    destruct Cb as [-> | [-> | [-> | [-> | [-> | [-> | [-> | ->]]]]]]];
      vm_compute in Y; discriminate Y.
  - destruct (list_tightness plain 20 (newParser 0 16) (bs "* a\n* b\n\n* c\n")
                0 0 c_dot 13
                (snd (returned (list_ plain (Block plain 20) (newParser 0 16)
                                  (bs "* a\n* b\n\n* c\n") 0 0 c_dot)
                        (0, newParser 0 16)))
                plain_well_behaved ltac:(vm_compute; reflexivity)
                ltac:(reflexivity) ltac:(reflexivity) ltac:(reflexivity))
      as ((_ & block & tight & _ & D & I & _) & _).
    exists block. rewrite D. destruct tight; [exfalso | reflexivity].
    assert (X : true = false); [|discriminate X].
    apply I. exists 9. split; [lia|]. vm_compute. reflexivity.
Defined.
